(* ===== verification/_CoqProject ===== *)
-Q . S2P
Prelude.v
Common.v
OrderedMap.v
OrderBook.v
OrderBookSpec.v
OrderBookLoops.v
OrderBookProofs.v
OrderBookCancel.v
OrderBookBalance.v
OrderBookTheorems.v
Bytes.v
Protocol.v
OrderIdGenerator.v
OrderIdTheorems.v
Numerals.v
MySQL.v
TickerManager.v
Accounts.v
UserManager.v
AccountTheorems.v
Repositories.v
RepositoryImpl.v
Engine.v
WALManager.v
SettlementProcessor.v
Circular.v
ImplicitProducer.v
ImplicitProducerProofs.v
ImplicitProducerCells.v
ImplicitProducerInvariant.v
ImplicitProducerTheorems.v
ProducerHash.v
ProducerHashProofs.v
ProducerHashInvariant.v
ProducerHashSteps.v
ProducerHashTheorems.v
ProducerHashCount.v
ProducerHashRoom.v
ProducerHashReturns.v
ProducerHashFull.v
ConcurrentQueue.v
ConcurrentQueueInvariant.v
ConcurrentQueueSteps.v
ConcurrentQueueTheorems.v
BlockIndex.v
BlockIndexTheorems.v
FreeList.v
FreeListTheorems.v
BlockPool.v
BlockPoolTheorems.v
Destructors.v
DestructorTheorems.v
BlockingQueue.v
World.v
Exposure.v
ExposureProofs.v
Accounting.v
SystemTheorems.v
Pipeline.v
Session.v
Handlers.v
HandlerTheorems.v
Framing.v
FramingTheorems.v
Workers.v
WalTheorems.v
SettlementTheorems.v
Conservation.v
Timers.v
Connections.v
EventLoop.v
EventLoopInvariant.v
EventLoopTheorems.v
RepositoryTheorems.v
Pools.v
Background.v
Shutdown.v
Startup.v
Client.v
ClientTheorems.v
