(* ===== verification/Prelude.v ===== *)
(** * ExchangeServer: a verification development

    The program is a stock exchange in C++ ([src/]): a TCP server that decodes binary requests,
    keeps accounts in memory with a MySQL copy, logs orders, matches them in one order book per
    ticker, settles the trades and publishes them to Redis; and a client that drives it.  This
    library models the server and the client in Gallina, with executable definitions, and proves
    what each part promises and how the parts fit.

    ** How the program works, and where it is modelled

    A connection ([TcpServer.cpp], [SessionManager.hpp], [TimerManager.hpp]: Connections.v,
    Timers.v; EventLoop.v for the set-up of the socket, the loop and its threads) becomes
    readable; a pool thread ([ThreadPool.hpp]: Background.v, [ThreadPool]) runs
    [MyEchoBusiness] of [main.cpp] (Framing.v), which cuts the bytes into frames and dispatches each through the router ([Router.hpp]: Session.v) to one of thirteen handlers
    ([Handler.hpp]: Handlers.v).  [TradeHandler] takes an id ([OrderIdGenerator.hpp]:
    OrderIdGenerator.v), freezes funds or shares ([UserManager.hpp]: Accounts.v for the operations
    on an account, UserManager.v for the 256 buckets; [TickerManager.hpp]: TickerManager.v) and
    appends the order to the log queue.  The log worker ([WALManager.hpp]: WALManager.v) hands
    the records to its buffered log stream and forwards the events to the engine ([MatchingEngine.hpp],
    [OrderBookProcessor.hpp]: Engine.v), whose workers match them in their books ([OrderBook.hpp]:
    OrderBook.v).  Trades and cancellations go to the settlement worker
    ([SettlementProcessor.hpp]: SettlementProcessor.v), which moves money and shares in memory
    and in the database, and to the publisher ([MarketDataPublisher.hpp]: Background.v,
    [MarketDataPublisher]).  The database is reached through two interfaces ([Repositories.h]:
    Repositories.v) whose SQL implementation ([UserRepositoryImpl.cpp],
    [StockRepositoryImpl.cpp]: RepositoryImpl.v) uses the MySQL C API (a class of operations,
    MySQL.v, whose module [Sql] parses and runs the statements they prepare, which is how the
    documented behaviour of the database is stated); connections come from pools ([DBPool.cpp],
    [RedisPool.cpp]: Pools.v).  The logger ([Logger.hpp]) is Background.v, [Logger]; the start-up sequence of [main] is Startup.v; the
    client ([client.cpp]) is Client.v.

    The queues between the threads are vendored headers.  [blockingconcurrentqueue.h] and
    [lightweightsemaphore.h] (BlockingQueue.v) put a semaphore before a lock-free queue,
    [concurrentqueue.h], in which each enqueuing thread has a producer of its own:
    ImplicitProducer.v is that sub-queue, each atomic access a step; ConcurrentQueue.v is the list
    of producers, how threads get and leave theirs, and the dequeues that go through them;
    ProducerHash.v is the table in which an enqueuing thread finds its producer again;
    BlockIndex.v is the ring of entries through which a dequeue finds the block of an index;
    FreeList.v is the stack of emptied blocks that all producers share; BlockPool.v is where a
    producer gets its blocks; Destructors.v is the end of all that; Circular.v has their
    arithmetic.

    Shared vocabulary: this file (machine words, sums over lists, queues, tactics), Common.v
    ([Common.hpp], [EngineEvent.hpp], and the heap of orders: a [shared_ptr<Order>] is a
    reference, so the aliasing of an order between the book, the index and the queues is kept),
    OrderedMap.v ([std::map] with a comparator), Bytes.v and Protocol.v (packed structures and
    their images, [Protocol.hpp]), Numerals.v ([std::to_string], [std::stoull] and the like).

    ** The state of the server and its threads

    World.v collects what the threads share and the atomic steps they take ([action], [exec]); a
    world is [reachable] by any interleaving.  A step is one critical section or one effect
    visible to others; the handlers and the worker loops, written as the code has them in their
    own files, are proved to be runs of these steps, so what holds in all reachable worlds holds of
    them: for a request, HandlerTheorems.v computes the steps beforehand ([plan]) and shows that
    they are the session's own; Workers.v has the loops of the workers.

    ** What is proved

    - The book: OrderBookSpec.v states price-time-priority matching on lists of orders;
      OrderBookLoops.v, OrderBookProofs.v, OrderBookCancel.v and OrderBookBalance.v relate the
      loops over the heap to it; OrderBookTheorems.v has the refinement, the invariant,
      priority, volume, conservation, cancellation and the queries.
    - The money: Exposure.v, ExposureProofs.v and Accounting.v follow a linear valuation of the
      orders, trades and cancellations through every step; SystemTheorems.v concludes that frozen
      funds and shares are exactly what the system still owes, in every reachable world, that
      no step loses an order, and what becomes of one for an unknown ticker;
      Conservation.v, that no run makes or loses money or shares, but for the deposits;
      Pipeline.v, that the workers finish whatever was queued, however they are scheduled.
      SettlementTheorems.v gives the effect of a settlement on accounts and database.
      Shutdown.v is how the worker threads end: the settlement worker drains its queues, the
      others leave theirs.
    - The log: WalTheorems.v, every event's record is passed to the stream before the event is
      forwarded, and what reaches the file decodes to the first of them; how much that is, is the
      C library's choice, so an order may be executed before anything is in the file
      ([executed_before_logged]).
    - The network: FramingTheorems.v, requests are answered in order however the bytes are cut
      and spread; HandlerTheorems.v, what the handlers answer and change; Connections.v and
      Timers.v, the life of a connection.  EventLoopInvariant.v follows each connection through
      epoll, the batch of events, the queue of tasks and the workers; EventLoopTheorems.v
      concludes that one worker at a time has it, shows what happens when a descriptor number is
      reused too early, relates the interleaved steps to the functions, and describes the set-up.
    - The stores: AccountTheorems.v, the buckets are a map; RepositoryTheorems.v, what the SQL
      implementations do under any failure, and when they keep the contract of the interfaces; OrderIdTheorems.v, when ids collide;
      Pools.v, no loss and no lost wake-up; Background.v, the thread pool, over a queue
      that orders the tasks of each thread only, ends and runs each task at most once; Timers.v,
      which callbacks a round of the timers makes, whatever they do.
    - The queues: BlockingQueue.v, no element and no wake-up is lost.  Within a producer,
      ImplicitProducerProofs.v accounts for the tickets that dequeues draw,
      ImplicitProducerCells.v for the elements and the blocks, ImplicitProducerInvariant.v ties
      them to the stages of the threads, and ImplicitProducerTheorems.v concludes that elements
      are handed out once and blocks returned once, that dequeues are wait-free and that one
      alone gets the oldest element.  ConcurrentQueueInvariant.v and ConcurrentQueueSteps.v carry
      that over to all the producers, and ConcurrentQueueTheorems.v concludes that the queue is
      a bag, the contract BlockingQueue.v takes it by.  For the table of producers,
      ProducerHashProofs.v shows what a probe passes over, ProducerHashInvariant.v and
      ProducerHashSteps.v what holds at each access of a thread, ProducerHashTheorems.v that it
      holds of all threads at once, ProducerHashCount.v and ProducerHashRoom.v how full the tables
      get; ProducerHashReturns.v concludes that a thread finds its own producer, and that a
      lookup ends as long as no thread exits; ProducerHashFull.v, that it need not end otherwise.
      BlockIndexTheorems.v: the ring implements the map that ImplicitProducer.v uses, also for a
      reader that loaded it long ago.  FreeListTheorems.v: a block is with one owner at a time,
      in spite of the ABA problem, and none is lost.
      BlockPoolTheorems.v: nor is one given out twice or lost on its way from the initial pool or
      the heap and back.  DestructorTheorems.v: when the calls have returned, the destructors
      destroy what was not handed out, once, and give back the blocks that are left.
    - The client: ClientTheorems.v, its packets are the server's, its parsers invert the replies
      and its totals add up.
    - What the code gets wrong is stated as theorems too (for instance [startup_routes],
      [dropped_order_frozen_forever], [cancelOrder_wide_id], [idle_timeout_closes_nothing]).

    ** Interfaces

    The handlers, the settlement and the system theorems are proved for any account store
    ([AccountStore], [AccountStoreLaws]) and any repositories ([IUserRepository],
    [IStockRepository], with their laws); [UserManager] and a plain map are stores,
    [TableDB] and the SQL implementations are repositories.

    ** Bounds and fuel

    Integers are [Z] with the wrap of their C++ type written at each operation; theorems that
    need a value not to wrap say so.  Loops over lists are structural; the frame loop, the log
    reader and the digits of a number run on fuel, the length of the buffer or the logarithm of
    the number, and lemmas show that it suffices (each frame consumes at least six bytes, each
    record its size, each digit a factor of ten).  The spin loops of the semaphore, the
    accesses of the lock-free queue and the workers are step relations: a run is a finite list of
    steps ([bq_run], [pool_run], [hash_run] and the like only drive them).  The lock-free queue is proved for fewer than 2^62 elements and requests and fewer
    than 2^30 calls of the free list, so that its counters do not wrap, its table of producers for
    fewer than 2^61 accesses.  The event loop is proved for descriptors below 65535, the size of
    the table of sessions.  Outcomes of system calls ([recv], [send], [accept], [malloc], the inner queue's [enqueue], how much
    [fwrite] hands to the system), clock readings, the random shuffle, Redis
    replies and the uninitialised bytes of a response are arguments.

    ** Not modelled

    Of [concurrentqueue.h]: explicit producers and tokens, moves and swaps, and the paths for
    throwing element types.  BlockingQueue.v takes the inner queue by its contract:
    each element is handed out once, in any order.  The lookup of the producer and the supply of
    blocks are models of their own (ProducerHash.v, BlockPool.v), by whose theorems
    ConcurrentQueue.v takes a thread's producer, and ImplicitProducer.v a new block, as given.
    A writer of ImplicitProducer.v finds its blocks by their first index; the chain of [tailBlock]
    and [next] pointers through which the code reaches them is not a part of the state.  The
    lock under which a thread exits ([ThreadExitNotifier]) is left out.
    The log stream assumes room on the disk, and the thread pool, the workers and the logger that
    memory for their queues can be had: a failing enqueue is a behaviour of BlockingQueue.v only.
    The strings of the database are compared byte by byte.
    [json.hpp] is vendored; the one parse is a parameter.  The options of an accepted socket are
    not part of the state.  The memory model is sequentially consistent: the data race of the
    market and order queries with the book's worker is a finding, not a behaviour of the model.  The floating-point rates of the client's report, and the Python
    agent under [src/client/agent], are left out. *)

From stdpp Require Import base list gmap sorting.
From Stdlib Require Import ZArith Lia.

(** ** Machine integers

    A [w]-bit unsigned integer is a [Z] in [0, 2^w); a [w]-bit signed one is a [Z] in
    [-2^(w-1), 2^(w-1)).  Every C++ operation that can leave the range is followed by
    the wrap of its type.  (C++ leaves signed overflow undefined; the model gives it the
    two's-complement result and the theorems that need it carry the bound that rules it
    out.) *)

Definition wrapU (w z : Z) : Z := (z mod 2 ^ w)%Z.
Definition wrapS (w z : Z) : Z := ((z + 2 ^ (w - 1)) mod 2 ^ w - 2 ^ (w - 1))%Z.

Declare Scope exch_scope.
Delimit Scope exch_scope with exch.

Abbreviation u8 := (wrapU 8).
Abbreviation u16 := (wrapU 16).
Abbreviation u32 := (wrapU 32).
Abbreviation u64 := (wrapU 64).
Abbreviation i32 := (wrapS 32).
Abbreviation i64 := (wrapS 64).

Definition inU (w z : Z) : Prop := (0 <= z < 2 ^ w)%Z.
Definition inS (w z : Z) : Prop := (- 2 ^ (w - 1) <= z < 2 ^ (w - 1))%Z.

#[export] Instance inU_dec w z : Decision (inU w z).
Proof. unfold inU. apply _. Defined.
#[export] Instance inS_dec w z : Decision (inS w z).
Proof. unfold inS. apply _. Defined.

(** The database of the facts about machine words and sums that close side conditions. *)
Create HintDb exch.
Create Rewrite HintDb exch.

(** [mword]: unfold the wraps and ranges at literal widths and call [lia]. *)
Ltac word_consts :=
  change (2 ^ 8)%Z with 256%Z in *;
  change (2 ^ 16)%Z with 65536%Z in *;
  change (2 ^ 31)%Z with 2147483648%Z in *;
  change (2 ^ 32)%Z with 4294967296%Z in *;
  change (2 ^ 63)%Z with 9223372036854775808%Z in *;
  change (2 ^ 64)%Z with 18446744073709551616%Z in *;
  change (2 ^ (32 - 1))%Z with 2147483648%Z in *;
  change (2 ^ (64 - 1))%Z with 9223372036854775808%Z in *.

Ltac mword :=
  unfold inU, inS, wrapU, wrapS in *; word_consts;
  try rewrite !Z.mod_small by lia; try lia; try Z.to_euclidean_division_equations; lia.

Lemma wrapU_id w z : inU w z -> wrapU w z = z.
Proof. apply Z.mod_small. Qed.

Lemma wrapU_range w z : (0 <= w)%Z -> inU w (wrapU w z).
Proof. intros. apply Z.mod_pos_bound. lia. Qed.

Lemma wrapS_id w z : (0 < w)%Z -> inS w z -> wrapS w z = z.
Proof.
  unfold inS, wrapS. intros Hw Hz.
  assert (2 ^ w = 2 * 2 ^ (w - 1))%Z as Hp.
  { rewrite <- Z.pow_succ_r by lia. f_equal. lia. }
  rewrite Z.mod_small; lia.
Qed.

Lemma wrapS_range w z : (0 < w)%Z -> inS w (wrapS w z).
Proof.
  unfold inS, wrapS. intros Hw.
  assert (2 ^ w = 2 * 2 ^ (w - 1))%Z as Hp.
  { rewrite <- Z.pow_succ_r by lia. f_equal. lia. }
  pose proof (Z.mod_pos_bound (z + 2 ^ (w - 1)) (2 ^ w)). lia.
Qed.

#[export] Hint Resolve wrapU_range wrapS_range : exch.
#[export] Hint Rewrite wrapU_id using (unfold inU; word_consts; lia) : exch.

(** ** Sums over lists

    The balance-sheet theorems compare sums over orders, matches and accounts; the sum is
    insensitive to the order of the list, so it is a [Proper] morphism for [≡ₚ]. *)

Definition zsum {A} (f : A -> Z) (l : list A) : Z := foldr (fun x acc => f x + acc)%Z 0%Z l.

Notation "'∑' x '∈' l ',' e" := (zsum (fun x => e%Z) l)
  (at level 39, x binder, l at level 35, e at level 38) : exch_scope.

Section zsum.
Local Open Scope Z_scope.
Context {A : Type}.
Implicit Types (f g : A -> Z) (l k : list A).

Lemma zsum_nil f : zsum f [] = 0.
Proof. reflexivity. Qed.

Lemma zsum_cons f x l : zsum f (x :: l) = f x + zsum f l.
Proof. reflexivity. Qed.

Lemma zsum_app f l k : zsum f (l ++ k) = zsum f l + zsum f k.
Proof. induction l; simpl; lia. Qed.

Lemma zsum_singleton f x : zsum f [x] = f x.
Proof. simpl. lia. Qed.

#[export] Instance zsum_perm f : Proper ((≡ₚ) ==> (=)) (zsum f).
Proof. intros l k; induction 1; simpl; lia. Qed.

Lemma zsum_delete f l i x : l !! i = Some x -> zsum f l = f x + zsum f (delete i l).
Proof. intros Hi. rewrite (delete_Permutation l i x Hi) at 1. done. Qed.

Lemma zsum_ext f g l : (forall x, x ∈ l -> f x = g x) -> zsum f l = zsum g l.
Proof. induction l; intros H; simpl; [done|]. rewrite H, IHl; set_solver. Qed.

Lemma zsum_map {B} (f : A -> Z) (h : B -> A) (l : list B) :
  zsum f (h <$> l) = zsum (fun x => f (h x)) l.
Proof. induction l as [|x l IH]; [done|]. rewrite fmap_cons, !zsum_cons, IH. done. Qed.

Lemma zsum_plus f g l : zsum (fun x => f x + g x) l = zsum f l + zsum g l.
Proof. induction l; simpl; lia. Qed.

Lemma zsum_zero f l : (forall x, x ∈ l -> f x = 0) -> zsum f l = 0.
Proof. induction l; intros H; simpl; [done|]. rewrite H, IHl; set_solver. Qed.

Lemma zsum_nonneg f l : (forall x, x ∈ l -> 0 <= f x) -> 0 <= zsum f l.
Proof.
  induction l as [|x l IH]; intros H; simpl; [done|].
  pose proof (H x ltac:(set_solver)). assert (0 <= zsum f l) by (apply IH; set_solver). lia.
Qed.

Lemma zsum_le f g l : (forall x, x ∈ l -> f x <= g x) -> zsum f l <= zsum g l.
Proof.
  induction l as [|x l IH]; intros H; [done|]. rewrite !zsum_cons. pose proof (H x ltac:(left)).
  assert (zsum f l <= zsum g l) by (apply IH; intros; apply H; by right). lia.
Qed.

Lemma zsum_elem_le f l x :
  (forall y, y ∈ l -> 0 <= f y) -> x ∈ l -> f x <= zsum f l.
Proof.
  intros H Hx. apply list_elem_of_split in Hx as (l1 & l2 & ->).
  rewrite zsum_app, zsum_cons.
  assert (0 <= zsum f l1) by (apply zsum_nonneg; set_solver).
  assert (0 <= zsum f l2) by (apply zsum_nonneg; set_solver). lia.
Qed.

Lemma zsum_filter_split (P : A -> Prop) `{!forall x, Decision (P x)} f l :
  zsum f l = zsum f (filter P l) + zsum f (filter (fun x => ~ P x) l).
Proof.
  induction l as [|x l IH]; [done|].
  rewrite !filter_cons. simpl. rewrite IH.
  destruct (decide (P x)), (decide (~ P x)); simpl; lia || tauto.
Qed.
End zsum.

#[export] Hint Rewrite @zsum_nil @zsum_cons @zsum_app @zsum_singleton @zsum_map : exch.

(** ** Lists *)

Section lists.
Context {A B : Type}.

Lemma StronglySorted_app_iff (R : relation A) (l k : list A) :
  StronglySorted R (l ++ k) <->
  StronglySorted R l /\ StronglySorted R k /\ (forall x y, x ∈ l -> y ∈ k -> R x y).
Proof.
  induction l as [|a l IH]; simpl.
  - split; [intros H; split_and!; [constructor | done | set_solver] | tauto].
  - split.
    + inversion_clear 1 as [|? ? Hs Hf]. apply IH in Hs as (H1 & H2 & H3).
      rewrite Forall_app, !Forall_forall in Hf. destruct Hf as [Hf1 Hf2].
      split_and!; [constructor; [done|by apply Forall_forall] | done |].
      intros x y [->|Hx]%elem_of_cons Hy; auto.
    + intros (H1 & H2 & H3). inversion_clear H1 as [|? ? Hs Hf].
      constructor; [apply IH; split_and!; set_solver|].
      apply Forall_app; split; [done|]. apply Forall_forall. set_solver.
Qed.

Lemma elem_of_drop n (l : list A) x : x ∈ drop n l -> x ∈ l.
Proof. intros H. rewrite <- (take_drop n l). apply elem_of_app. by right. Qed.

Lemma filter_none (P : A -> Prop) `{!forall x, Decision (P x)} (l : list A) :
  (forall x, x ∈ l -> ~ P x) -> filter P l = [].
Proof.
  induction l as [|x l IH]; intros Hl; [done|].
  rewrite filter_cons_False by (apply Hl; set_solver). apply IH. set_solver.
Qed.

Lemma filter_all (P : A -> Prop) `{!forall x, Decision (P x)} (l : list A) :
  (forall x, x ∈ l -> P x) -> filter P l = l.
Proof.
  induction l as [|x l IH]; intros Hl; [done|].
  rewrite filter_cons_True by (apply Hl; set_solver). f_equal. apply IH. set_solver.
Qed.

Lemma elem_of_concat x (ls : list (list A)) : x ∈ concat ls <-> exists l, x ∈ l /\ l ∈ ls.
Proof.
  induction ls as [|l ls IH]; simpl; [set_solver|].
  rewrite elem_of_app, IH. setoid_rewrite elem_of_cons. naive_solver.
Qed.

Lemma NoDup_sub (l k : list A) : k ⊆+ l -> NoDup l -> NoDup k.
Proof. intros [k' ->]%submseteq_Permutation Hl. by apply NoDup_app in Hl as [? _]. Qed.

Lemma StronglySorted_impl (R S : relation A) l :
  (forall x y, R x y -> S x y) -> StronglySorted R l -> StronglySorted S l.
Proof.
  intros H. induction 1; constructor; [done|]. eapply Forall_impl; eauto.
Qed.

Lemma insert_perm (l : list A) i x y : l !! i = Some x -> <[i := y]> l ≡ₚ y :: delete i l.
Proof.
  intros Hi. rewrite (insert_take_drop l i y) by (by eapply lookup_lt_Some).
  rewrite delete_take_drop. by rewrite Permutation_middle.
Qed.

Lemma app_interchange (a b c d : list A) : (a ++ b) ++ (c ++ d) ≡ₚ (a ++ c) ++ (b ++ d).
Proof. rewrite <- !app_assoc. apply Permutation_app_head. rewrite !app_assoc. apply Permutation_app_tail, Permutation_app_comm. Qed.

(** Lists gathered over the places of a list. *)
Lemma concat_imap_nil (l : list B) : concat (imap (fun _ _ => @nil A) l) = [].
Proof. induction l as [|x l IH]; [done|]. rewrite imap_cons. exact IH. Qed.

Lemma concat_imap_app (f g : nat -> B -> list A) l :
  concat (imap (fun i x => f i x ++ g i x) l) ≡ₚ concat (imap f l) ++ concat (imap g l).
Proof.
  revert f g. induction l as [|x l IH]; intros f g; [done|]. rewrite !imap_cons. simpl.
  rewrite app_interchange. apply Permutation_app_head. apply (IH (fun i => f (S i)) (fun i => g (S i))).
Qed.

Lemma concat_imap_one k (xs : list A) (l : list B) :
  k < length l -> concat (imap (fun i _ => if decide (k = i) then xs else []) l) = xs.
Proof.
  revert k. induction l as [|x l IH]; intros k Hk; simpl in Hk; [lia|]. rewrite imap_cons. simpl.
  destruct k as [|k].
  - rewrite (imap_ext _ (fun _ _ => [])) by done. rewrite concat_imap_nil. apply app_nil_r.
  - rewrite (imap_ext _ (fun i _ => if decide (k = i) then xs else [])); [apply IH; lia|].
    intros i y _. simpl. repeat case_decide; done || lia.
Qed.

Lemma concat_imap_perm (f : nat -> B -> list A) (g : B -> list A) l :
  (forall i x, l !! i = Some x -> f i x ≡ₚ g x) -> concat (imap f l) ≡ₚ concat (g <$> l).
Proof.
  revert f. induction l as [|x l IH]; intros f H; [done|]. rewrite imap_cons. simpl.
  rewrite (H 0 x eq_refl). apply Permutation_app_head. apply (IH (fun i => f (S i))). intros i y Hy. by apply (H (S i)).
Qed.
End lists.

(** ** Queues

    The worker queues ([concurrentqueue.h]) are multi-producer queues without a global order: a
    dequeue may return any element, but returns each one once.  [dequeue ks q] takes the elements
    at the successive positions [ks]; the empty [ks] is an empty batch. *)

Fixpoint dequeue {A} (ks : list nat) (q : list A) : option (list A * list A) :=
  match ks with
  | [] => Some ([], q)
  | i :: ks' =>
      match q !! i with
      | None => None
      | Some x => match dequeue ks' (delete i q) with
                  | Some (batch, rest) => Some (x :: batch, rest)
                  | None => None
                  end
      end
  end.

Lemma dequeue_perm {A} ks (q batch rest : list A) : dequeue ks q = Some (batch, rest) -> q ≡ₚ batch ++ rest.
Proof.
  revert q batch rest. induction ks as [|i ks IH]; intros q batch rest; simpl; [by intros [= <- <-]|].
  destruct (q !! i) as [x|] eqn:E; [|done].
  destruct (dequeue ks (delete i q)) as [[b r]|] eqn:D; [|done]. intros [= <- <-].
  rewrite (delete_Permutation q i x E). simpl. by rewrite (IH _ _ _ D).
Qed.

Lemma dequeue_length {A} ks (q batch rest : list A) : dequeue ks q = Some (batch, rest) -> length batch = length ks.
Proof.
  revert q batch rest. induction ks as [|i ks IH]; intros q batch rest; simpl; [by intros [= <- _]|].
  destruct (q !! i) as [x|]; [|done].
  destruct (dequeue ks (delete i q)) as [[b r]|] eqn:D; [|done]. intros [= <- <-]. simpl. f_equal. eauto.
Qed.

Lemma dequeue_front {A} n (q : list A) :
  (n <= length q)%nat -> dequeue (replicate n 0%nat) q = Some (take n q, drop n q).
Proof.
  revert q. induction n as [|n IH]; intros q Hn; simpl; [by rewrite drop_0|].
  destruct q as [|x q]; simpl in *; [lia|]. by rewrite IH by lia.
Qed.

(** ** Tactics of the development *)

(** Destruct the pairs bound by [let '(_, _) := _ in _] in the goal, innermost first. *)
Ltac destruct_lets :=
  repeat match goal with
         | |- context [let '(_, _) := ?e in _] =>
             lazymatch e with
             | context [let '(_, _) := _ in _] => fail
             | _ => first [is_var e; destruct e | destruct e eqn:?]
             end
         end.

(** Case on the innermost [if]/[match] scrutinee of the goal or of [H]. *)
Ltac case_on t := destruct t eqn:?.
Ltac crush_ifs :=
  repeat match goal with
         | |- context [if ?b then _ else _] => case_on b
         end.

(** Reflect the boolean comparisons of [Z] that guard the code. *)
Ltac zbool :=
  repeat match goal with
         | H : (_ <? _)%Z = true |- _ => apply Z.ltb_lt in H
         | H : (_ <? _)%Z = false |- _ => apply Z.ltb_ge in H
         | H : (_ <=? _)%Z = true |- _ => apply Z.leb_le in H
         | H : (_ <=? _)%Z = false |- _ => apply Z.leb_gt in H
         | H : (_ =? _)%Z = true |- _ => apply Z.eqb_eq in H
         | H : (_ =? _)%Z = false |- _ => apply Z.eqb_neq in H
         | H : negb _ = true |- _ => apply negb_true_iff in H
         | H : negb _ = false |- _ => apply negb_false_iff in H
         | H : (_ && _) = true |- _ => apply andb_true_iff in H as [? ?]
         | H : (_ && _) = false |- _ => apply andb_false_iff in H
         | H : (_ || _) = true |- _ => apply orb_true_iff in H
         | H : (_ || _) = false |- _ => apply orb_false_iff in H as [? ?]
         end.

(** List membership by propositional reasoning only (no search over the context). *)
Ltac inlist_goal :=
  first [ assumption
        | apply list_elem_of_here
        | apply list_elem_of_further; inlist_goal
        | apply elem_of_app; left; inlist_goal
        | apply elem_of_app; right; inlist_goal ].
Ltac inlist :=
  repeat match goal with
         | H : _ ∈ _ :: _ |- _ => apply elem_of_cons in H as [->|H]
         | H : _ ∈ _ ++ _ |- _ => apply elem_of_app in H as [H|H]
         end;
  solve [inlist_goal].
