(* ===== verification/Common.v ===== *)
(** * Common data: orders, matches, cancellations and engine events

    [include/Common.hpp] and [include/EngineEvent.hpp].  Orders are reached through
    [std::shared_ptr<Order>]: the same object is held by the price-level list, by the
    per-user index and by the event that carried it, and matching decrements its quantity
    in place.  The model keeps a store of orders ([heap]) and the structures hold
    references ([oref]) into it. *)

From S2P Require Import Prelude.
From stdpp Require Import base gmap.
From Stdlib Require Import ZArith Lia.
Local Open Scope Z_scope.

Inductive OrderSide := BUY | SELL.

#[export] Instance OrderSide_eq_dec : EqDecision OrderSide.
Proof. solve_decision. Defined.

Definition PRICE_SCALE : Z := 10000.

Record Order := mkOrder {
  order_id : Z;      (* uint64_t *)
  ticker_id : Z;     (* uint32_t *)
  user_id : Z;       (* uint64_t *)
  side : OrderSide;
  price : Z;         (* uint64_t *)
  quantity : Z;      (* uint64_t *)
  timestamp : Z      (* uint64_t *)
}.

#[export] Instance Order_eq_dec : EqDecision Order.
Proof. solve_decision. Defined.

Record MatchRecord := mkMatch {
  mr_ticker_id : Z;
  maker_order_id : Z;
  taker_order_id : Z;
  buyer_user_id : Z;
  sell_user_id : Z;
  buyer_expected_price : Z;
  match_price : Z;
  match_quantity : Z;
  mr_timestamp : Z
}.

#[export] Instance MatchRecord_eq_dec : EqDecision MatchRecord.
Proof. solve_decision. Defined.

Record CancelRecord := mkCancel {
  cr_ticker_id : Z;
  cr_order_id : Z;
  cr_user_id : Z;
  cr_side : OrderSide;
  cr_price : Z;
  cr_quantity : Z;
  cr_timestamp : Z
}.

#[export] Instance CancelRecord_eq_dec : EqDecision CancelRecord.
Proof. solve_decision. Defined.

(** ** The store of orders *)

(** A [std::shared_ptr<Order>] that is not null. *)
Abbreviation oref := nat.
Abbreviation heap := (gmap nat Order).

Definition null_order : Order := mkOrder 0 0 0 BUY 0 0 0.

(** Dereference.  A [shared_ptr] keeps its pointee alive, so a miss does not occur; the
    invariants below state that every reference the structures hold is in the store. *)
Definition deref (h : heap) (r : oref) : Order := default null_order (h !! r).

Definition set_quantity (o : Order) (q : Z) : Order :=
  mkOrder (order_id o) (ticker_id o) (user_id o) (side o) (price o) q (timestamp o).

(** [std::make_shared<Order>()]: a reference that no structure holds. *)
Definition make_shared (h : heap) (o : Order) : oref * heap :=
  let r := fresh (dom h) in (r, <[r := o]> h).

(** ** Engine events *)

Inductive EventType := NEW_ORDER | CANCEL_ORDER.

#[export] Instance EventType_eq_dec : EqDecision EventType.
Proof. solve_decision. Defined.

(** The struct is used as a tagged union: [order] is meaningful for [NEW_ORDER], the
    [cancel_*] fields for [CANCEL_ORDER]; [order = None] is the null [shared_ptr]. *)
Record EngineEvent := mkEvent {
  ev_type : EventType;
  ev_order : option oref;
  cancel_order_id : Z;
  cancel_user_id : Z;
  ev_ticker_id : Z
}.

#[export] Instance EngineEvent_eq_dec : EqDecision EngineEvent.
Proof. solve_decision. Defined.

(** A default-constructed event of type [NEW_ORDER] whose [order] is set. *)
Definition new_order_event (r : oref) : EngineEvent := mkEvent NEW_ORDER (Some r) 0 0 0.

(** ** Lemmas *)

Lemma deref_insert_eq h r o : deref (<[r := o]> h) r = o.
Proof. unfold deref. by rewrite lookup_insert_eq. Qed.

Lemma deref_insert_ne h r r' o : r <> r' -> deref (<[r := o]> h) r' = deref h r'.
Proof. intros. unfold deref. by rewrite lookup_insert_ne. Qed.

Lemma deref_lookup h r o : h !! r = Some o -> deref h r = o.
Proof. unfold deref. by intros ->. Qed.

Lemma make_shared_fresh h o r h' : make_shared h o = (r, h') -> h !! r = None.
Proof. intros [= <- _]. apply not_elem_of_dom, is_fresh. Qed.

Lemma make_shared_deref h o r h' : make_shared h o = (r, h') -> deref h' r = o.
Proof. intros [= <- <-]. apply deref_insert_eq. Qed.

Lemma make_shared_frame h o r h' r' :
  make_shared h o = (r, h') -> is_Some (h !! r') -> h' !! r' = h !! r'.
Proof.
  intros Hm [x Hx]. pose proof (make_shared_fresh _ _ _ _ Hm) as Hf.
  revert Hm. intros [= <- <-]. apply lookup_insert_ne. congruence.
Qed.

#[export] Hint Rewrite deref_insert_eq : exch.
#[export] Hint Rewrite deref_insert_ne using done : exch.
