(* ===== verification/OrderedMap.v ===== *)
(** * [std::map] with an iteration order

    The order book keeps each side in a [std::map] whose comparator is [std::greater]
    (bids) or [std::less] (asks).  A map is its list of entries in iteration order, the
    comparator is a strict total order supplied by the class [KeyOrder], and the
    operations are those the book uses: [operator\[\]] (which inserts a default value),
    [find], [erase]. *)

From S2P Require Import Prelude.
From stdpp Require Import base list sets sorting.
From Stdlib Require Import ZArith Lia.
Local Open Scope Z_scope.

(** What [std::map] asks of its comparator, for a total order on the keys. *)
Class KeyOrder (lt : Z -> Z -> bool) : Prop := {
  key_irrefl : forall k, lt k k = false;
  key_trans : forall a b c, lt a b = true -> lt b c = true -> lt a c = true;
  key_total : forall a b, lt a b = false -> lt b a = false -> a = b
}.

Definition std_less (a b : Z) : bool := a <? b.
Definition std_greater (a b : Z) : bool := b <? a.

#[export] Instance std_less_order : KeyOrder std_less.
Proof. split; unfold std_less; intros; lia. Qed.

#[export] Instance std_greater_order : KeyOrder std_greater.
Proof. split; unfold std_greater; intros; lia. Qed.

Section OrderedMap.
Context {V : Type} (lt : Z -> Z -> bool) `{!KeyOrder lt}.
Implicit Types (m : list (Z * V)) (k : Z).

(** [find] / read of an existing key. *)
Fixpoint om_find k m : option V :=
  match m with
  | [] => None
  | (k', v) :: m' => if k' =? k then Some v else om_find k m'
  end.

(** [f(m\[k\])] where [f] updates the mapped value in place: the entry is created from
    the default value [d] when absent, at its place in the iteration order. *)
Fixpoint om_update (d : V) (f : V -> V) k m : list (Z * V) :=
  match m with
  | [] => [(k, f d)]
  | (k', v) :: m' =>
      if k' =? k then (k', f v) :: m'
      else if lt k k' then (k, f d) :: m
      else (k', v) :: om_update d f k m'
  end.

(** [erase(k)]. *)
Fixpoint om_erase k m : list (Z * V) :=
  match m with
  | [] => []
  | (k', v) :: m' => if k' =? k then m' else (k', v) :: om_erase k m'
  end.

Definition om_sorted m : Prop := StronglySorted (fun a b => lt (fst a) (fst b) = true) m.

Lemma om_sorted_cons k v m :
  om_sorted ((k, v) :: m) <-> om_sorted m /\ (forall k' v', (k', v') ∈ m -> lt k k' = true).
Proof.
  unfold om_sorted. split.
  - inversion_clear 1 as [|? ? Hs Hf]. split; [done|].
    rewrite Forall_forall in Hf. intros k' v' H. apply (Hf (k', v') H).
  - intros [Hs Hf]. constructor; [done|]. apply Forall_forall. intros [k' v']. apply Hf.
Qed.

Lemma om_update_keys d f k m e :
  e ∈ om_update d f k m -> fst e = k \/ e ∈ m.
Proof.
  induction m as [|[k' v] m IH]; simpl.
  - intros ->%list_elem_of_singleton. by left.
  - destruct (k' =? k) eqn:E; [|destruct (lt k k')]; zbool; subst;
      rewrite ?elem_of_cons; intros [->|H]; simpl; naive_solver.
Qed.

Lemma om_update_sorted d f k m : om_sorted m -> om_sorted (om_update d f k m).
Proof.
  induction m as [|[k' v] m IH]; simpl; intros Hs; [repeat constructor|].
  apply om_sorted_cons in Hs as [Hs Hk].
  destruct (k' =? k) eqn:E; [|destruct (lt k k') eqn:L]; zbool; subst.
  - by apply om_sorted_cons.
  - apply om_sorted_cons; split; [by apply om_sorted_cons|].
    intros k2 v2 [[= -> ->]|H]%elem_of_cons; [done|]. eauto using key_trans.
  - apply om_sorted_cons; split; [auto|].
    intros k2 v2 H. apply om_update_keys in H as [H|H]; simpl in *; [subst|eauto].
    destruct (lt k' k) eqn:L2; [done|]. exfalso. by apply E, (key_total k' k).
Qed.

Lemma om_erase_subset k m e : e ∈ om_erase k m -> e ∈ m.
Proof.
  induction m as [|[k' v] m IH]; simpl; [done|].
  destruct (k' =? k); set_solver.
Qed.

Lemma om_erase_sorted k m : om_sorted m -> om_sorted (om_erase k m).
Proof.
  induction m as [|[k' v] m IH]; simpl; [done|]. rewrite om_sorted_cons. intros [Hs Hk].
  destruct (k' =? k); [done|]. apply om_sorted_cons; split; [auto|].
  intros k2 v2 H%om_erase_subset. eauto.
Qed.

(** The three-way split that every keyed operation makes. *)
Lemma om_find_split k m v :
  om_sorted m -> om_find k m = Some v ->
  exists m1 m2, m = m1 ++ (k, v) :: m2 /\ (forall k' v', (k', v') ∈ m1 -> k' <> k) /\
    (forall d f, om_update d f k m = m1 ++ (k, f v) :: m2) /\
    om_erase k m = m1 ++ m2.
Proof.
  induction m as [|[k' v'] m IH]; simpl; [done|]. rewrite om_sorted_cons. intros [Hs Hk] Hf.
  destruct (k' =? k) eqn:E; zbool.
  - injection Hf as ->. subst. exists [], m. set_solver.
  - destruct (IH Hs Hf) as (m1 & m2 & -> & H1 & H2 & H3).
    exists ((k', v') :: m1), m2. split_and!.
    + done.
    + intros ? ? [[= -> ->]|H]%elem_of_cons; [done|eauto].
    + intros d f. destruct (lt k k') eqn:L; [|by rewrite H2].
      assert (lt k' k = true) by (eapply (Hk k v); set_solver).
      pose proof (key_trans k k' k ltac:(done) ltac:(done)). by rewrite key_irrefl in *.
    + by rewrite H3.
Qed.

Lemma om_update_fresh k m d f :
  om_sorted m -> om_find k m = None ->
  exists m1 m2, m = m1 ++ m2 /\ om_update d f k m = m1 ++ (k, f d) :: m2 /\
    (forall k' v', (k', v') ∈ m1 -> lt k' k = true) /\
    (forall k' v', (k', v') ∈ m2 -> lt k k' = true).
Proof.
  induction m as [|[k' v'] m IH]; simpl.
  - intros _ _. exists [], []. set_solver.
  - rewrite om_sorted_cons. intros [Hs Hk] Hf.
    destruct (k' =? k) eqn:E; zbool; [done|].
    destruct (lt k k') eqn:L.
    + exists [], ((k', v') :: m). split_and!; [done..|set_solver|].
      intros k2 v2 [[= -> ->]|H]%elem_of_cons; [done|]. eauto using key_trans.
    + destruct (IH Hs Hf) as (m1 & m2 & -> & -> & H1 & H2).
      exists ((k', v') :: m1), m2. split_and!; [done..| |done].
      intros k2 v2 [[= -> ->]|H]%elem_of_cons; [|eauto].
      destruct (lt k' k) eqn:L2; [done|]. exfalso. by apply E, (key_total k' k).
Qed.

(** Reading and erasing the entry of a key whose position is known. *)
Lemma om_find_at k v m1 m2 :
  (forall k' v', (k', v') ∈ m1 -> k' <> k) -> om_find k (m1 ++ (k, v) :: m2) = Some v.
Proof.
  intros H. induction m1 as [|[k' v'] m1 IH]; simpl; [by rewrite Z.eqb_refl|].
  destruct (k' =? k) eqn:E; zbool.
  - exfalso. by apply (H k' v'); [inlist|].
  - apply IH. intros k2 v2 H2. apply (H k2 v2). inlist.
Qed.

Lemma om_erase_at k v m1 m2 :
  (forall k' v', (k', v') ∈ m1 -> k' <> k) -> om_erase k (m1 ++ (k, v) :: m2) = m1 ++ m2.
Proof.
  intros H. induction m1 as [|[k' v'] m1 IH]; simpl; [by rewrite Z.eqb_refl|].
  destruct (k' =? k) eqn:E; zbool.
  - exfalso. by apply (H k' v'); [inlist|].
  - rewrite IH; [done|]. intros k2 v2 H2. apply (H k2 v2). inlist.
Qed.

Lemma om_find_elem k v m : om_sorted m -> (k, v) ∈ m -> om_find k m = Some v.
Proof.
  induction m as [|[k' v'] m IH]; simpl; [set_solver|]. rewrite om_sorted_cons.
  intros [Hs Hk] [[= -> ->]|H]%elem_of_cons; [by rewrite Z.eqb_refl|].
  destruct (k' =? k) eqn:E; zbool; [|auto]. subst.
  apply Hk in H. by rewrite key_irrefl in H.
Qed.
End OrderedMap.

#[export] Hint Resolve om_update_sorted om_erase_sorted : exch.
