(* ===== verification/OrderBook.v ===== *)
(** * The order book of one ticker

    [include/OrderBook.hpp]: two maps of price levels, each level a FIFO list of orders,
    and an index of every user's active orders.  [matchBuyOrder] and [matchSellOrder] are
    the same two nested loops with the roles of the sides exchanged, so the loops are
    written once with the taker's side as a parameter. *)

From S2P Require Import Prelude Common OrderedMap.
From stdpp Require Import base list gmap sorting.
From Stdlib Require Import ZArith Lia.
Local Open Scope Z_scope.

(** [OrderList], and a map of them in iteration order. *)
Abbreviation OrderList := (list oref).
Abbreviation Levels := (list (Z * list oref)).
(** [user_active_orders_]: user id, then order id. *)
Abbreviation ActiveIndex := (gmap Z (gmap Z oref)).

Record OrderBook := mkBook {
  book_ticker_id : Z;
  bids_ : Levels;                       (* std::greater *)
  asks_ : Levels;                       (* std::less *)
  user_active_orders_ : ActiveIndex
}.

Definition empty_book (ticker : Z) : OrderBook := mkBook ticker [] [] ∅.

(** The comparator of the map that holds the orders of a side. *)
Definition side_lt (sd : OrderSide) : Z -> Z -> bool :=
  match sd with BUY => std_greater | SELL => std_less end.

#[export] Instance side_lt_order sd : KeyOrder (side_lt sd).
Proof. destruct sd; apply _. Qed.

Definition opposite (sd : OrderSide) : OrderSide :=
  match sd with BUY => SELL | SELL => BUY end.

Definition side_levels (sd : OrderSide) (b : OrderBook) : Levels :=
  match sd with BUY => bids_ b | SELL => asks_ b end.

(** The state the loops mutate: the store of orders, the index, the vector of results
    they append to, and the number of clock readings made so far. *)
Record MatchState := mkMS {
  ms_heap : heap;
  ms_active : ActiveIndex;
  ms_results : list MatchRecord;
  ms_ticks : nat
}.

(** [user_active_orders_\[uid\]]: the inner map is created when absent. *)
Definition active_row (a : ActiveIndex) (uid : Z) : gmap Z oref := default ∅ (a !! uid).
(** [user_active_orders_\[uid\].erase(oid)]. *)
Definition active_erase (uid oid : Z) (a : ActiveIndex) : ActiveIndex :=
  <[uid := delete oid (active_row a uid)]> a.
(** [user_active_orders_\[uid\]\[oid\] = o]. *)
Definition active_set (uid oid : Z) (r : oref) (a : ActiveIndex) : ActiveIndex :=
  <[uid := <[oid := r]> (active_row a uid)]> a.

(** The [break] of the outer loop: the best opposite price does not cross the limit. *)
Definition stops (sd : OrderSide) (limit best : Z) : bool :=
  match sd with BUY => limit <? best | SELL => best <? limit end.

Section Matching.
(** The readings of [system_clock::now()], in order. *)
Context (clock : nat -> Z).
Context (ticker : Z) (sd : OrderSide).

(** The record pushed for a trade of [qty] at the level price [p]. *)
Definition match_record (maker taker : Order) (p qty now : Z) : MatchRecord :=
  match sd with
  | BUY => mkMatch ticker (order_id maker) (order_id taker) (user_id taker) (user_id maker)
             (price taker) p qty now
  | SELL => mkMatch ticker (order_id maker) (order_id taker) (user_id maker) (user_id taker)
              (price maker) p qty now
  end.

(** One iteration of the inner loop: record the trade, decrement both quantities (through
    the shared pointers), and drop the maker from the index when it is filled. *)
Definition trade (p : Z) (maker taker : oref) (s : MatchState) : MatchState :=
  let h := ms_heap s in
  let trade_qty := Z.min (quantity (deref h taker)) (quantity (deref h maker)) in
  let rec := match_record (deref h maker) (deref h taker) p trade_qty (u64 (clock (ms_ticks s))) in
  let h1 := <[taker := set_quantity (deref h taker) (u64 (quantity (deref h taker) - trade_qty))]> h in
  let h2 := <[maker := set_quantity (deref h1 maker) (u64 (quantity (deref h1 maker) - trade_qty))]> h1 in
  let m := deref h2 maker in
  mkMS h2
    (if quantity m =? 0 then active_erase (user_id m) (order_id m) (ms_active s) else ms_active s)
    (ms_results s ++ [rec]) (S (ms_ticks s)).

(** The inner [while] over one level: what remains of the list, and the state. *)
Fixpoint level_loop (p : Z) (taker : oref) (l : OrderList) (s : MatchState) : OrderList * MatchState :=
  match l with
  | [] => ([], s)
  | maker :: l' =>
      if 0 <? quantity (deref (ms_heap s) taker) then
        let s1 := trade p maker taker s in
        let '(l'', s2) := level_loop p taker l' s1 in
        (if quantity (deref (ms_heap s1) maker) =? 0 then l'' else maker :: l'', s2)
      else (l, s)
  end.

(** The outer [while] over the levels of the opposite side; an emptied level is erased. *)
Fixpoint levels_loop (taker : oref) (lv : Levels) (s : MatchState) : Levels * MatchState :=
  match lv with
  | [] => ([], s)
  | (p, l) :: lv' =>
      if 0 <? quantity (deref (ms_heap s) taker) then
        if stops sd (price (deref (ms_heap s) taker)) p then (lv, s)
        else
          let '(l1, s1) := level_loop p taker l s in
          let '(lv1, s2) := levels_loop taker lv' s1 in
          (match l1 with [] => lv1 | _ => (p, l1) :: lv1 end, s2)
      else (lv, s)
  end.
End Matching.

(** [bids_\[price\].push_back(o)]. *)
Definition push_back (sd : OrderSide) (p : Z) (r : oref) (lv : Levels) : Levels :=
  om_update (side_lt sd) [] (fun l => l ++ [r]) p lv.

Section OrderBookOps.
Context (clock : nat -> Z).

Definition matchBuyOrder (b : OrderBook) (buy_order : oref) (s : MatchState) : OrderBook * MatchState :=
  let '(asks, s1) := levels_loop clock (book_ticker_id b) BUY buy_order (asks_ b) s in
  let o := deref (ms_heap s1) buy_order in
  let bids := if 0 <? quantity o then push_back BUY (price o) buy_order (bids_ b) else bids_ b in
  (mkBook (book_ticker_id b) bids asks (ms_active s1), s1).

Definition matchSellOrder (b : OrderBook) (sell_order : oref) (s : MatchState) : OrderBook * MatchState :=
  let '(bids, s1) := levels_loop clock (book_ticker_id b) SELL sell_order (bids_ b) s in
  let o := deref (ms_heap s1) sell_order in
  let asks := if 0 <? quantity o then push_back SELL (price o) sell_order (asks_ b) else asks_ b in
  (mkBook (book_ticker_id b) bids asks (ms_active s1), s1).

(** [processOrder(new_order, results)] on the store [h]; returns the book, the store, the
    results vector and the clock count. *)
Definition processOrder (b : OrderBook) (new_order : oref) (h : heap)
    (results : list MatchRecord) (ticks : nat) : OrderBook * heap * list MatchRecord * nat :=
  let s := mkMS h (user_active_orders_ b) results ticks in
  let '(b1, s1) :=
    match side (deref h new_order) with
    | BUY => matchBuyOrder b new_order s
    | SELL => matchSellOrder b new_order s
    end in
  let o := deref (ms_heap s1) new_order in
  let active :=
    if 0 <? quantity o then active_set (user_id o) (order_id o) new_order (user_active_orders_ b1)
    else user_active_orders_ b1 in
  (mkBook (book_ticker_id b1) (bids_ b1) (asks_ b1) active, ms_heap s1, ms_results s1, ms_ticks s1).
End OrderBookOps.

(** [getBestBidOffer]: the two out-parameters are [int64_t], converted from [uint64_t]. *)
Definition getBestBidOffer (b : OrderBook) : Z * Z :=
  (match bids_ b with [] => 0 | (p, _) :: _ => i64 p end,
   match asks_ b with [] => 0 | (p, _) :: _ => i64 p end).

(** The removal from one side: [list = m\[price\]; list.remove_if(id); if empty, erase]. *)
Definition remove_from_level (h : heap) (sd : OrderSide) (p oid : Z) (lv : Levels) : Levels :=
  let lv1 := om_update (side_lt sd) [] (filter (fun r => order_id (deref h r) <> oid)) p lv in
  match om_find p lv1 with
  | Some [] => om_erase p lv1
  | _ => lv1
  end.

(** [cancelOrder(const uint32_t& order_id, uint64_t user_id)]: the parameter type of the
    order id is 32 bits wide, so the caller's 64-bit id is converted on the way in. *)
Definition cancelOrder (b : OrderBook) (h : heap) (order_id_arg uid : Z) : option oref * OrderBook :=
  let oid := u32 order_id_arg in
  match user_active_orders_ b !! uid with
  | None => (None, b)
  | Some row =>
      match row !! oid with
      | None => (None, b)
      | Some r =>
          let o := deref h r in
          let '(bids, asks) :=
            match side o with
            | BUY => (remove_from_level h BUY (price o) oid (bids_ b), asks_ b)
            | SELL => (bids_ b, remove_from_level h SELL (price o) oid (asks_ b))
            end in
          (Some r, mkBook (book_ticker_id b) bids asks
                     (<[uid := delete oid row]> (user_active_orders_ b)))
      end
  end.

(** [getUserActiveOrder(uid)]: the values of the inner map, in its (unspecified) order. *)
Definition getUserActiveOrder (b : OrderBook) (uid : Z) : list oref :=
  match user_active_orders_ b !! uid with
  | None => []
  | Some row => snd <$> map_to_list row
  end.

(** ** A concrete run *)

Module Demo.
Definition clk (n : nat) : Z := 1000 + Z.of_nat n.
(* two asks at 101 and 100, then a buy at 101 for 7 *)
Definition h0 : heap :=
  {[ 1%nat := mkOrder 11 7 1 SELL 101 5 0;
     2%nat := mkOrder 12 7 2 SELL 100 4 0;
     3%nat := mkOrder 13 7 3 BUY 101 7 0 ]}.
Definition run (b : OrderBook) (h : heap) (rs : list oref) : OrderBook * heap * list MatchRecord * nat :=
  fold_left (fun '(b, h, res, t) r => processOrder clk b r h res t) rs (b, h, [], 0%nat).
Example run_ok :
  let '(b, h, res, t) := run (empty_book 7) h0 [1; 2; 3]%nat in
  (bids_ b, asks_ b, res, t) =
  ([], [(101, [1%nat])],
   [mkMatch 7 12 13 3 2 101 100 4 1000; mkMatch 7 11 13 3 1 101 101 3 1001], 2%nat)
  /\ quantity (deref h 1%nat) = 2
  /\ getUserActiveOrder b 1 = [1%nat] /\ getUserActiveOrder b 2 = [] /\ getUserActiveOrder b 3 = [].
Proof. vm_compute. done. Qed.
End Demo.
