(* ===== verification/OrderBookSpec.v ===== *)
(** * Abstract specification of the order book

    What [OrderBook.hpp] promises, with no levels, iterators, store or index: each side is
    one list of orders in price-time priority; an incoming order is matched against the
    head of the opposite list while it crosses, and what is left of it is inserted in its
    own list behind every order of the same or a better price.  [OrderBookProofs] shows
    that the book refines this. *)

From S2P Require Import Prelude Common OrderedMap OrderBook.
From stdpp Require Import base list gmap sorting.
From Stdlib Require Import ZArith Lia.
Local Open Scope Z_scope.

Record ABook := mkABook { a_bids : list Order; a_asks : list Order }.

Definition a_side (sd : OrderSide) (a : ABook) : list Order :=
  match sd with BUY => a_bids a | SELL => a_asks a end.

Definition a_make (sd : OrderSide) (own opp : list Order) : ABook :=
  match sd with BUY => mkABook own opp | SELL => mkABook opp own end.

(** Price [p] has priority over, or ties with, [q] on side [sd]. *)
Definition better_eq (sd : OrderSide) (p q : Z) : bool := negb (side_lt sd q p).

(** A fill: the maker as it was before the trade, and the traded quantity. *)
Abbreviation fill := (Order * Z)%type.

Fixpoint spec_match (sd : OrderSide) (tk : Order) (opp : list Order) : list fill * Order * list Order :=
  match opp with
  | [] => ([], tk, [])
  | m :: opp' =>
      if (0 <? quantity tk) && negb (stops sd (price tk) (price m)) then
        let q := Z.min (quantity tk) (quantity m) in
        let m' := set_quantity m (quantity m - q) in
        let '(fills, tk', rest) := spec_match sd (set_quantity tk (quantity tk - q)) opp' in
        ((m, q) :: fills, tk', if quantity m' =? 0 then rest else m' :: rest)
      else ([], tk, opp)
  end.

Fixpoint spec_rest (sd : OrderSide) (o : Order) (l : list Order) : list Order :=
  match l with
  | [] => [o]
  | x :: l' => if better_eq sd (price x) (price o) then x :: spec_rest sd o l' else o :: l
  end.

Definition spec_process (a : ABook) (o : Order) : list fill * Order * ABook :=
  let sd := side o in
  let '(fills, o', opp) := spec_match sd o (a_side (opposite sd) a) in
  (fills, o', a_make sd (if 0 <? quantity o' then spec_rest sd o' (a_side sd a) else a_side sd a) opp).

(** Cancelling order [oid] of user [uid]: the order found, and the book without it. *)
Definition spec_cancel (a : ABook) (oid uid : Z) : option Order * ABook :=
  match filter (fun o => order_id o = oid /\ user_id o = uid) (a_bids a ++ a_asks a) with
  | [] => (None, a)
  | o :: _ => (Some o, mkABook (filter (fun x => order_id x <> oid) (a_bids a))
                         (filter (fun x => order_id x <> oid) (a_asks a)))
  end.

(** The records of a list of fills, timestamped by consecutive clock readings. *)
Fixpoint spec_records (clock : nat -> Z) (ticker : Z) (sd : OrderSide) (tk : Order)
    (fills : list fill) (ticks : nat) : list MatchRecord :=
  match fills with
  | [] => []
  | (m, q) :: fills' =>
      match_record ticker sd m tk (price m) q (u64 (clock ticks))
        :: spec_records clock ticker sd tk fills' (S ticks)
  end.

(** ** Priority order *)

(** [side_sorted sd l]: [l] is in price priority for side [sd]. *)
Definition side_sorted (sd : OrderSide) (l : list Order) : Prop :=
  StronglySorted (fun x y => better_eq sd (price x) (price y) = true) l.

Lemma better_eq_refl sd p : better_eq sd p p = true.
Proof. unfold better_eq. by rewrite key_irrefl. Qed.

Lemma better_eq_le sd p q :
  better_eq sd p q = true <-> match sd with BUY => q <= p | SELL => p <= q end.
Proof. destruct sd; unfold better_eq; simpl; unfold std_greater, std_less; lia. Qed.

Lemma stops_iff sd limit p :
  stops sd limit p = true <-> match sd with BUY => limit < p | SELL => p < limit end.
Proof. destruct sd; simpl; lia. Qed.

(** Once the best opposite price stops the taker, every price behind it does. *)
Lemma stops_mono sd limit p q :
  stops sd limit p = true -> better_eq (opposite sd) p q = true -> stops sd limit q = true.
Proof. rewrite !stops_iff, better_eq_le. destruct sd; simpl; lia. Qed.

Lemma set_quantity_fields o q :
  order_id (set_quantity o q) = order_id o /\ user_id (set_quantity o q) = user_id o /\
  price (set_quantity o q) = price o /\ side (set_quantity o q) = side o /\
  ticker_id (set_quantity o q) = ticker_id o /\ quantity (set_quantity o q) = q.
Proof. done. Qed.

(** ** Facts about matching *)

Lemma spec_match_zero sd tk opp : quantity tk <= 0 -> spec_match sd tk opp = ([], tk, opp).
Proof. intros. destruct opp; [done|]. simpl. by replace (0 <? quantity tk) with false by lia. Qed.

Lemma spec_match_app sd tk l k :
  (forall o, o ∈ l -> stops sd (price tk) (price o) = false) ->
  spec_match sd tk (l ++ k) =
    let '(f1, t1, l') := spec_match sd tk l in
    let '(f2, t2, k') := spec_match sd t1 k in (f1 ++ f2, t2, l' ++ k').
Proof.
  revert tk. induction l as [|m l IH]; intros tk Hs; simpl; [by destruct_lets|].
  rewrite (Hs m) by set_solver. simpl. rewrite andb_true_r.
  destruct (0 <? quantity tk) eqn:Q; zbool.
  - rewrite IH by (simpl; set_solver). destruct_lets. simplify_eq/=. by case_match.
  - by rewrite spec_match_zero by lia.
Qed.

(** The shape of a match: the taker keeps its identity, every fill is a positive quantity
    of an order that crosses, and the opposite list loses a prefix of filled orders. *)
Lemma spec_match_taker sd tk opp f tk' opp' :
  spec_match sd tk opp = (f, tk', opp') ->
  tk' = set_quantity tk (quantity tk - zsum snd f).
Proof.
  revert tk f tk' opp'. induction opp as [|m opp IH]; intros tk f tk' opp'; simpl.
  - intros [= <- <- <-]. destruct tk; unfold set_quantity; simpl. f_equal. lia.
  - case_match; [|intros [= <- <- <-]; destruct tk; unfold set_quantity; simpl; f_equal; lia].
    destruct_lets. intros [= <- <- <-]. apply IH in Heqp as ->. unfold set_quantity; simpl. f_equal. lia.
Qed.

Lemma spec_match_fills sd tk opp f tk' opp' :
  0 <= quantity tk -> (forall o, o ∈ opp -> 0 < quantity o) ->
  spec_match sd tk opp = (f, tk', opp') ->
  0 <= quantity tk' <= quantity tk /\
  (forall m q, (m, q) ∈ f -> m ∈ opp /\ 0 < q <= quantity m /\ q <= quantity tk /\
                             stops sd (price tk) (price m) = false).
Proof.
  revert tk f tk' opp'. induction opp as [|m opp IH]; intros tk f tk' opp' Ht Ho; simpl.
  - intros [= <- <- <-]. split; [lia|set_solver].
  - destruct (0 <? quantity tk) eqn:Q; simpl; [|intros [= <- <- <-]; split; [lia|set_solver]].
    destruct (stops _ _ _) eqn:S; simpl; [intros [= <- <- <-]; split; [lia|set_solver]|].
    pose proof (Ho m ltac:(set_solver)) as Hm. zbool.
    destruct_lets. intros [= <- <- <-].
    apply IH in Heqp as [H1 H2]; [|simpl; lia|set_solver]. simpl in *.
    split; [lia|]. intros m' q' [[= -> ->]|H]%elem_of_cons; [set_solver by lia|].
    destruct (H2 _ _ H) as (? & ? & ? & ?). split_and!; [set_solver|lia..|done].
Qed.

(** Price-time priority: the fills consume the opposite list from its head.  [f] fills the
    first [length f] orders; all but the last of them completely. *)
Lemma spec_match_prefix sd tk opp f tk' opp' :
  0 <= quantity tk -> (forall o, o ∈ opp -> 0 < quantity o) ->
  spec_match sd tk opp = (f, tk', opp') ->
  (fst <$> f) = take (length f) opp /\
  (opp' = drop (length f) opp /\ (forall m q, (m, q) ∈ f -> q = quantity m) \/
   quantity tk' = 0 /\ exists f0 m q, f = f0 ++ [(m, q)] /\ q < quantity m /\
     (forall m q, (m, q) ∈ f0 -> q = quantity m) /\
     opp' = set_quantity m (quantity m - q) :: drop (length f) opp).
Proof.
  revert tk f tk' opp'. induction opp as [|m opp IH]; intros tk f tk' opp' Ht Ho; simpl.
  - intros [= <- <- <-]. split; [done|left]. set_solver.
  - destruct ((0 <? quantity tk) && _) eqn:G; [|intros [= <- <- <-]; split; [done|left; set_solver]].
    pose proof (Ho m ltac:(set_solver)) as Hm. zbool.
    destruct (spec_match _ _ opp) as [[f1 tk1] opp1] eqn:E. intros [= <- <- <-].
    pose proof E as E'.
    apply IH in E' as [H1 H2]; [|simpl; lia|set_solver]. simpl in *. split; [by f_equal|].
    destruct (Z.le_gt_cases (quantity m) (quantity tk)) as [L|L].
    + rewrite Z.min_r by lia. rewrite Z.sub_diag. simpl. destruct H2 as [[-> H2]|(Hq & f0 & m' & q & -> & ? & H2 & ->)].
      * left. split; [done|]. intros ?? [[= -> ->]|?]%elem_of_cons; eauto.
      * right. split; [done|]. exists ((m, quantity m) :: f0), m', q. split_and!; [done..| |done].
        intros ?? [[= -> ->]|?]%elem_of_cons; eauto.
    + rewrite Z.min_l in * by lia. rewrite spec_match_zero in E by (simpl; lia). injection E as <- <- <-.
      replace (quantity m - quantity tk =? 0) with false by lia.
      right. split; [simpl; lia|]. exists [], m, (quantity tk). split_and!; [done|lia|set_solver|done].
Qed.

Lemma spec_match_elem sd tk opp f tk' opp' o :
  spec_match sd tk opp = (f, tk', opp') -> o ∈ opp' ->
  exists m q, m ∈ opp /\ o = set_quantity m q.
Proof.
  revert tk f tk' opp'. induction opp as [|m opp IH]; intros tk f tk' opp'; simpl.
  - intros [= <- <- <-]. set_solver.
  - case_match.
    2:{ intros [= <- <- <-] Ho. exists o, (quantity o). split; [done|by destruct o]. }
    destruct_lets. intros [= <- <- <-] Ho.
    case_match; [|apply elem_of_cons in Ho as [->|Ho]]; [|set_solver|];
      eapply IH in Heqp as (? & ? & ? & ->); set_solver.
Qed.

Lemma spec_match_bound sd tk opp f tk' opp' B :
  0 <= quantity tk -> (forall o, o ∈ opp -> 0 < quantity o < B) ->
  spec_match sd tk opp = (f, tk', opp') -> forall o, o ∈ opp' -> 0 < quantity o < B.
Proof.
  intros Ht Ho E o Hin.
  assert (forall o, o ∈ opp -> 0 < quantity o) as Ho' by (intros o' Ho'; by apply Ho).
  pose proof (spec_match_fills _ _ _ _ _ _ Ht Ho' E) as [_ Hf].
  pose proof (spec_match_prefix _ _ _ _ _ _ Ht Ho' E) as [_ [[-> _]|(_ & f0 & m & q & -> & ? & _ & ->)]].
  - apply Ho. by eapply elem_of_drop.
  - apply elem_of_cons in Hin as [->|Hin]; [|apply Ho; by eapply elem_of_drop].
    destruct (Hf m q) as (Hm & ? & _); [inlist|]. apply Ho in Hm. simpl. lia.
Qed.

Lemma spec_match_total sd tk opp f tk' opp' :
  0 <= quantity tk -> (forall o, o ∈ opp -> 0 < quantity o) -> side_sorted (opposite sd) opp ->
  spec_match sd tk opp = (f, tk', opp') ->
  zsum snd f = Z.min (quantity tk)
    (zsum quantity (filter (fun o => stops sd (price tk) (price o) = false) opp)).
Proof.
  revert tk f tk' opp'. induction opp as [|m opp IH]; intros tk f tk' opp' Ht Ho Hs; simpl.
  - intros [= <- <- <-]. simpl. lia.
  - pose proof (Ho m ltac:(set_solver)) as Hm. inversion_clear Hs as [|? ? Hs' Hf].
    assert (0 <= zsum quantity (filter (fun o => stops sd (price tk) (price o) = false) opp)) as Hn.
    { apply zsum_nonneg. intros x [_ Hx]%list_elem_of_filter. pose proof (Ho x). set_solver by lia. }
    rewrite filter_cons. destruct (stops sd (price tk) (price m)) eqn:S.
    + rewrite andb_false_r, decide_False by done. intros [= <- <- <-].
      rewrite filter_none; [simpl; lia|]. rewrite Forall_forall in Hf.
      intros x Hx. rewrite (stops_mono _ _ _ _ S) by auto. done.
    + rewrite decide_True by done. simpl. rewrite andb_true_r. destruct (0 <? quantity tk) eqn:Q; zbool.
      * destruct_lets. intros [= <- <- <-]. apply IH in Heqp; [|simpl; lia|set_solver|done].
        simpl in *. rewrite Heqp. lia.
      * intros [= <- <- <-]. simpl. lia.
Qed.

(** What is left of the taker does not cross what is left of the opposite side. *)
Lemma spec_match_uncrossed sd tk opp f tk' opp' :
  0 <= quantity tk -> (forall o, o ∈ opp -> 0 < quantity o) -> side_sorted (opposite sd) opp ->
  spec_match sd tk opp = (f, tk', opp') -> 0 < quantity tk' ->
  forall o, o ∈ opp' -> stops sd (price tk) (price o) = true.
Proof.
  revert tk f tk' opp'. induction opp as [|m opp IH]; intros tk f tk' opp' Ht Ho Hs; simpl.
  - intros [= <- <- <-]. set_solver.
  - pose proof (Ho m ltac:(set_solver)) as Hm. inversion_clear Hs as [|? ? Hs' Hf].
    rewrite Forall_forall in Hf.
    destruct (0 <? quantity tk) eqn:Q; simpl; [|intros [= <- <- <-]; lia].
    destruct (stops sd (price tk) (price m)) eqn:S; simpl.
    + intros [= <- <- <-] _ o [->|Hin]%elem_of_cons; [done|]. eauto using stops_mono.
    + zbool. destruct (spec_match _ _ opp) as [[f1 tk1] opp1] eqn:E. intros [= <- <- <-] Hq.
      pose proof E as E'. apply spec_match_fills in E' as [H1 _]; [|simpl; lia|set_solver].
      simpl in H1. rewrite Z.min_r, Z.sub_diag by lia. simpl.
      refine (IH _ _ _ _ _ _ _ E Hq); [simpl; lia|set_solver|done].
Qed.

Lemma spec_match_sorted sd tk opp f tk' opp' :
  0 <= quantity tk -> (forall o, o ∈ opp -> 0 < quantity o) -> side_sorted (opposite sd) opp ->
  spec_match sd tk opp = (f, tk', opp') -> side_sorted (opposite sd) opp'.
Proof.
  intros Ht Ho Hs E.
  assert (forall n, side_sorted (opposite sd) (drop n opp)) as Hd.
  { intros n. rewrite <- (take_drop n opp) in Hs. by apply StronglySorted_app_iff in Hs as (_ & ? & _). }
  pose proof (spec_match_prefix _ _ _ _ _ _ Ht Ho E) as [Hp [[-> _]|(_ & f0 & m & q & -> & _ & _ & ->)]]; [apply Hd|].
  constructor; [apply Hd|]. rewrite length_app in *. simpl in *.
  rewrite fmap_app in Hp. simpl in Hp. rewrite Nat.add_1_r in *.
  rewrite <- (take_drop (S (length f0)) opp), <- Hp in Hs.
  apply StronglySorted_app_iff in Hs as (_ & _ & Hs). apply Forall_forall. intros x Hx. simpl.
  apply (Hs m x); [set_solver|done].
Qed.

(** ** Facts about resting *)

Lemma spec_rest_split sd o l k :
  (forall x, x ∈ l -> better_eq sd (price x) (price o) = true) ->
  (forall x, x ∈ k -> better_eq sd (price x) (price o) = false) ->
  spec_rest sd o (l ++ k) = l ++ o :: k.
Proof.
  intros Hl Hk. induction l as [|x l IH]; simpl.
  - destruct k as [|y k]; simpl; [done|]. by rewrite Hk by set_solver.
  - rewrite Hl by set_solver. f_equal. apply IH. set_solver.
Qed.

(** An order comes to rest behind every order of the same or a better price, and before the
    others. *)
Lemma spec_rest_behind sd o l : side_sorted sd l ->
  exists ahead behind, l = ahead ++ behind /\ spec_rest sd o l = ahead ++ o :: behind /\
    (forall x, x ∈ ahead -> better_eq sd (price x) (price o) = true) /\
    (forall x, x ∈ behind -> better_eq sd (price x) (price o) = false).
Proof.
  induction l as [|x l IH]; intros Hs; [exists [], []; split_and!; [done|done|by intros y ?%not_elem_of_nil..]|].
  inversion_clear Hs as [|? ? Hs' Hf]. simpl. destruct (better_eq sd (price x) (price o)) eqn:B.
  - destruct (IH Hs') as (k1 & k2 & -> & -> & H1 & H2). exists (x :: k1), k2. split_and!; [done|done| |done].
    intros y [->|Hy]%elem_of_cons; auto.
  - exists [], (x :: l). split_and!; [done|done|by intros y ?%not_elem_of_nil|].
    rewrite Forall_forall in Hf. intros y [->|Hy]%elem_of_cons; [done|]. specialize (Hf y Hy).
    apply not_true_iff_false. apply not_true_iff_false in B. rewrite better_eq_le in *. destruct sd; lia.
Qed.

Lemma spec_rest_perm sd o l : spec_rest sd o l ≡ₚ o :: l.
Proof.
  induction l as [|x l IH]; simpl; [done|]. case_match; [|done].
  rewrite IH. apply Permutation_swap.
Qed.

Lemma spec_rest_sorted sd o l : side_sorted sd l -> side_sorted sd (spec_rest sd o l).
Proof.
  induction l as [|x l IH]; simpl; intros Hs; [repeat constructor|].
  inversion_clear Hs as [|? ? Hs' Hf]. rewrite Forall_forall in Hf.
  destruct (better_eq sd (price x) (price o)) eqn:B.
  - constructor; [by apply IH|]. apply Forall_forall. intros y. rewrite spec_rest_perm.
    intros [->|Hy]%elem_of_cons; auto.
  - constructor; [constructor; [done|by apply Forall_forall]|].
    assert (better_eq sd (price o) (price x) = true) as Hox.
    { apply better_eq_le. apply not_true_iff_false in B. rewrite better_eq_le in B. destruct sd; lia. }
    apply Forall_forall. intros y [->|Hy]%elem_of_cons; [done|].
    pose proof (Hf _ Hy) as Hxy. rewrite better_eq_le in *. destruct sd; lia.
Qed.
