(* ===== verification/OrderBookLoops.v ===== *)
(** * The matching loops refine the abstract match

    The two nested loops of [OrderBook.v] work on references, a store and an index.  Here
    they are shown to compute [spec_match] on the orders they point to.  [loop_post]
    is what one trade, one level and the whole side each establish; it is closed under
    sequencing ([loop_post_seq]), so each loop is a short induction. *)

From S2P Require Import Prelude Common OrderedMap OrderBook OrderBookSpec.
From stdpp Require Import base list gmap sorting.
From Stdlib Require Import ZArith Lia.
Local Open Scope Z_scope.

(** ** Stores that differ in quantities only *)

Definition static_eq (h h' : heap) : Prop :=
  dom h' = dom h /\ forall r, set_quantity (deref h' r) 0 = set_quantity (deref h r) 0.

#[export] Instance static_eq_refl : Reflexive static_eq.
Proof. by intros h. Qed.

#[export] Instance static_eq_trans : Transitive static_eq.
Proof. intros h1 h2 h3 [H1 H2] [H3 H4]. split; [congruence|]. intros r. by rewrite H4, H2. Qed.

Lemma static_fields h h' r :
  static_eq h h' ->
  order_id (deref h' r) = order_id (deref h r) /\ user_id (deref h' r) = user_id (deref h r) /\
  price (deref h' r) = price (deref h r) /\ side (deref h' r) = side (deref h r) /\
  ticker_id (deref h' r) = ticker_id (deref h r).
Proof.
  intros [_ H]. specialize (H r).
  pose proof (f_equal order_id H). pose proof (f_equal user_id H). pose proof (f_equal price H).
  pose proof (f_equal side H). pose proof (f_equal ticker_id H). done.
Qed.

Lemma static_live h h' r : static_eq h h' -> is_Some (h' !! r) <-> is_Some (h !! r).
Proof. intros [H _]. by rewrite <- !elem_of_dom, H. Qed.

Lemma static_eq_set h r q :
  is_Some (h !! r) -> static_eq h (<[r := set_quantity (deref h r) q]> h).
Proof.
  intros Hr. split.
  - rewrite dom_insert_L. apply elem_of_dom in Hr. set_solver.
  - intros r'. destruct (decide (r = r')) as [->|]; [by rewrite deref_insert_eq|].
    by rewrite deref_insert_ne.
Qed.

(** ** The per-user index *)

(** The index maps (user, order id) to exactly the references of [L]. *)
Definition index_rel (h : heap) (a : ActiveIndex) (L : list oref) : Prop :=
  forall u oid r, active_row a u !! oid = Some r <->
                  r ∈ L /\ user_id (deref h r) = u /\ order_id (deref h r) = oid.

#[export] Instance index_rel_perm h a : Proper ((≡ₚ) ==> iff) (index_rel h a).
Proof. intros L L' HL. unfold index_rel. by setoid_rewrite HL. Qed.

Lemma index_rel_static h h' a L : static_eq h h' -> index_rel h a L -> index_rel h' a L.
Proof.
  intros Hs H u oid r. destruct (static_fields _ _ r Hs) as (-> & -> & _). apply H.
Qed.

Lemma active_row_erase a u oid u' :
  active_row (active_erase u oid a) u' = if decide (u = u') then delete oid (active_row a u) else active_row a u'.
Proof.
  unfold active_row at 1, active_erase. case_decide; subst; [by rewrite lookup_insert_eq|].
  by rewrite lookup_insert_ne.
Qed.

Lemma active_row_set a u oid r u' :
  active_row (active_set u oid r a) u' = if decide (u = u') then <[oid := r]> (active_row a u) else active_row a u'.
Proof.
  unfold active_row at 1, active_set. case_decide; subst; [by rewrite lookup_insert_eq|].
  by rewrite lookup_insert_ne.
Qed.

Lemma index_rel_erase h a r L :
  r ∉ L -> index_rel h a (r :: L) ->
  index_rel h (active_erase (user_id (deref h r)) (order_id (deref h r)) a) L.
Proof.
  intros Hr H u oid r'. rewrite active_row_erase.
  assert (active_row a (user_id (deref h r)) !! order_id (deref h r) = Some r) as Ha.
  { apply H. set_solver. }
  destruct (decide (user_id (deref h r) = u)) as [<-|Hu].
  - destruct (decide (order_id (deref h r) = oid)) as [<-|Ho].
    + rewrite lookup_delete_eq. split; [done|]. intros (Hin & H1 & H2).
      assert (active_row a (user_id (deref h r)) !! order_id (deref h r) = Some r') as Ha'.
      { apply H. set_solver. }
      congruence.
    + rewrite lookup_delete_ne by done. rewrite (H _ oid r'). set_solver.
  - rewrite (H u oid r'). set_solver.
Qed.

Lemma index_rel_set h a r L :
  (forall r', r' ∈ L -> order_id (deref h r') <> order_id (deref h r)) ->
  index_rel h a L ->
  index_rel h (active_set (user_id (deref h r)) (order_id (deref h r)) r a) (r :: L).
Proof.
  intros Hr H u oid r'. rewrite active_row_set.
  destruct (decide (user_id (deref h r) = u)) as [<-|Hu].
  - destruct (decide (order_id (deref h r) = oid)) as [<-|Ho].
    + rewrite lookup_insert_eq. split; [intros [= <-]; set_solver|].
      intros ([->|Hin]%elem_of_cons & _ & H2); [done|]. exfalso. by eapply Hr.
    + rewrite lookup_insert_ne by done. rewrite (H _ oid r'). set_solver.
  - rewrite (H u oid r'). set_solver.
Qed.

(** ** Sequencing of match steps *)

Lemma match_record_static ticker sd m tk tk' p q n :
  set_quantity tk 0 = set_quantity tk' 0 ->
  match_record ticker sd m tk p q n = match_record ticker sd m tk' p q n.
Proof.
  intros H. pose proof (f_equal order_id H). pose proof (f_equal user_id H). pose proof (f_equal price H).
  simpl in *. unfold match_record. destruct sd; congruence.
Qed.

Lemma spec_records_static clock ticker sd tk tk' f n :
  set_quantity tk 0 = set_quantity tk' 0 ->
  spec_records clock ticker sd tk f n = spec_records clock ticker sd tk' f n.
Proof.
  intros H. revert n. induction f as [|[m q] f IH]; intros n; simpl; [done|].
  f_equal; [by apply match_record_static|apply IH].
Qed.

Lemma spec_records_app clock ticker sd tk f g n :
  spec_records clock ticker sd tk (f ++ g) n =
  spec_records clock ticker sd tk f n ++ spec_records clock ticker sd tk g (n + length f)%nat.
Proof.
  revert n. induction f as [|[m q] f IH]; intros n; simpl; [by rewrite Nat.add_0_r|].
  rewrite IH. simpl. by rewrite Nat.add_succ_r.
Qed.

Section Loops.
Context (clock : nat -> Z) (ticker : Z) (sd : OrderSide) (taker : oref).

Definition loop_pre (s : MatchState) (rs : list oref) : Prop :=
  NoDup (taker :: rs) /\ (forall r, r ∈ taker :: rs -> is_Some (ms_heap s !! r)) /\
  inU 64 (quantity (deref (ms_heap s) taker)) /\
  (forall r, r ∈ rs -> 0 < quantity (deref (ms_heap s) r) < 2 ^ 64).

Record loop_post (s : MatchState) (rs : list oref) (fills : list fill) (rs' : list oref)
    (s' : MatchState) : Prop := {
  lp_match : spec_match sd (deref (ms_heap s) taker) (deref (ms_heap s) <$> rs) =
             (fills, deref (ms_heap s') taker, deref (ms_heap s') <$> rs');
  lp_sub : sublist rs' rs;
  lp_static : static_eq (ms_heap s) (ms_heap s');
  lp_frame : forall r, r ∉ taker :: rs -> ms_heap s' !! r = ms_heap s !! r;
  lp_results : ms_results s' = ms_results s ++
               spec_records clock ticker sd (deref (ms_heap s) taker) fills (ms_ticks s);
  lp_ticks : ms_ticks s' = (ms_ticks s + length fills)%nat;
  lp_index : forall X, NoDup (rs ++ X) -> index_rel (ms_heap s) (ms_active s) (rs ++ X) ->
             index_rel (ms_heap s') (ms_active s') (rs' ++ X);
  (* an order that leaves is filled *)
  lp_filled : forall r, r ∈ rs -> r ∈ rs' \/ quantity (deref (ms_heap s') r) = 0
}.

(** Nothing happens when the head of the list does not trade. *)
Lemma loop_post_stop s rs :
  quantity (deref (ms_heap s) taker) <= 0 \/
  (exists r, head rs = Some r /\ stops sd (price (deref (ms_heap s) taker)) (price (deref (ms_heap s) r)) = true) ->
  loop_post s rs [] rs s.
Proof.
  intros H. split; simpl; rewrite ?app_nil_r, ?Nat.add_0_r; [|done..|by left].
  destruct H as [H|(r & Hr & H)]; [by apply spec_match_zero|].
  destruct rs as [|r' rs]; simplify_eq/=. by rewrite H, andb_false_r.
Qed.

Lemma loop_post_nil s : loop_post s [] [] [] s.
Proof. split; simpl; rewrite ?app_nil_r, ?Nat.add_0_r; try done. by intros r ?%not_elem_of_nil. Qed.

(** One trade with a crossing maker. *)
Lemma loop_post_trade s p m :
  loop_pre s [m] -> 0 < quantity (deref (ms_heap s) taker) ->
  price (deref (ms_heap s) m) = p -> stops sd (price (deref (ms_heap s) taker)) p = false ->
  let s' := trade clock ticker sd p m taker s in
  exists fills,
    loop_post s [m] fills (if quantity (deref (ms_heap s') m) =? 0 then [] else [m]) s'.
Proof.
  intros (Hnd & Hlive & Hqt & Hqm) Hpos Hp Hs s'.
  assert (taker <> m) as Hne by (inversion_clear Hnd; set_solver).
  pose proof (Hqm m ltac:(set_solver)) as Hm. pose proof (Hlive m ltac:(set_solver)) as Lm.
  pose proof (Hlive taker ltac:(set_solver)) as Lt.
  set (h := ms_heap s) in *. set (q := Z.min (quantity (deref h taker)) (quantity (deref h m))).
  assert (ms_heap s' = <[m := set_quantity (deref h m) (quantity (deref h m) - q)]>
            (<[taker := set_quantity (deref h taker) (quantity (deref h taker) - q)]> h)) as Eh.
  { unfold s', trade; simpl. fold h q. rewrite !deref_insert_ne by done.
    rewrite !wrapU_id by mword. done. }
  assert (ms_active s' = if quantity (deref (ms_heap s') m) =? 0
            then active_erase (user_id (deref (ms_heap s') m)) (order_id (deref (ms_heap s') m)) (ms_active s)
            else ms_active s) as Ea by done.
  assert (ms_results s' = ms_results s ++
            [match_record ticker sd (deref h m) (deref h taker) p q (u64 (clock (ms_ticks s)))]) as Er by done.
  assert (ms_ticks s' = S (ms_ticks s)) as Et by done.
  clearbody s'.
  assert (static_eq h (ms_heap s')) as Hst.
  { rewrite Eh. etrans; [by apply (static_eq_set h taker)|].
    rewrite <- (deref_insert_ne h taker m (set_quantity (deref h taker) (quantity (deref h taker) - q)))
      at 1 by done.
    apply static_eq_set. by rewrite lookup_insert_ne. }
  exists [(deref h m, q)]. split; fold h.
  - simpl. fold q. rewrite Hp, Hs. replace (0 <? quantity (deref h taker)) with true by lia. simpl.
    rewrite Eh, deref_insert_eq. rewrite (deref_insert_ne _ m taker) by done. rewrite deref_insert_eq.
    simpl. destruct (quantity (deref h m) - q =? 0); simpl; [done|]. by rewrite deref_insert_eq.
  - destruct (quantity _ =? 0); [apply sublist_nil_l|reflexivity].
  - done.
  - intros r Hr. rewrite Eh, !lookup_insert_ne by set_solver. done.
  - rewrite Er. simpl. by rewrite Hp.
  - rewrite Et. simpl. lia.
  - intros X HX Hi. simpl in *. apply NoDup_cons in HX as [HmX HX].
    eapply index_rel_static in Hi; [|exact Hst]. rewrite Ea.
    destruct (quantity (deref (ms_heap s') m) =? 0); simpl; [by apply index_rel_erase|done].
  - intros r ->%list_elem_of_singleton. destruct (Z.eqb_spec (quantity (deref (ms_heap s') m)) 0); [by right|left; inlist].
Qed.

(** The precondition of what follows a step. *)
Lemma loop_pre_seq s l f l' s1 k :
  loop_pre s (l ++ k) -> loop_pre s l -> loop_post s l f l' s1 -> loop_pre s1 k.
Proof.
  intros (Hnd & Hlive & Hqt & Hq) _ P. apply NoDup_cons in Hnd as [Hnt Hnd].
  apply NoDup_app in Hnd as (Hl & Hd & Hk). split_and!.
  - apply NoDup_cons. set_solver.
  - intros r Hr. rewrite static_live by apply P. apply Hlive. set_solver.
  - pose proof (lp_match _ _ _ _ _ P) as E. apply spec_match_fills in E as [E _].
    + mword.
    + mword.
    + intros o (r & -> & Hr)%list_elem_of_fmap. apply Hq. set_solver.
  - intros r Hr. unfold deref. rewrite (lp_frame _ _ _ _ _ P) by set_solver. apply Hq. set_solver.
Qed.

Lemma loop_pre_app_l s l k : loop_pre s (l ++ k) -> loop_pre s l.
Proof.
  intros (Hnd & Hlive & Hqt & Hq). split_and!; [|set_solver..].
  apply NoDup_cons in Hnd as [? Hnd]. apply NoDup_app in Hnd as (? & _).
  apply NoDup_cons. set_solver.
Qed.

Lemma loop_post_seq s l k f1 f2 l' k' s1 s2 :
  loop_pre s (l ++ k) ->
  (forall r, r ∈ l -> stops sd (price (deref (ms_heap s) taker)) (price (deref (ms_heap s) r)) = false) ->
  loop_post s l f1 l' s1 -> loop_post s1 k f2 k' s2 -> loop_post s (l ++ k) (f1 ++ f2) (l' ++ k') s2.
Proof.
  intros Hpre Hcr P Q. pose proof Hpre as (Hnd & Hlive & _ & _).
  apply NoDup_cons in Hnd as [Hnt Hnd]. pose proof Hnd as (Hl & Hd & Hk)%NoDup_app.
  assert (deref (ms_heap s1) <$> k = deref (ms_heap s) <$> k) as Ek.
  { apply list_fmap_ext. intros i r Hr%list_elem_of_lookup_2. unfold deref.
    rewrite (lp_frame _ _ _ _ _ P); set_solver. }
  assert (deref (ms_heap s2) <$> l' = deref (ms_heap s1) <$> l') as El.
  { apply list_fmap_ext. intros i r Hr%list_elem_of_lookup_2. unfold deref.
    pose proof (sublist_subseteq _ _ (lp_sub _ _ _ _ _ P) _ Hr).
    rewrite (lp_frame _ _ _ _ _ Q); set_solver. }
  split.
  - rewrite fmap_app, spec_match_app.
    + rewrite (lp_match _ _ _ _ _ P), <- Ek, (lp_match _ _ _ _ _ Q), fmap_app. by rewrite El.
    + intros o (r & -> & Hr)%list_elem_of_fmap. auto.
  - apply sublist_app; [apply P|apply Q].
  - etrans; [apply P|apply Q].
  - intros r Hr. rewrite (lp_frame _ _ _ _ _ Q) by set_solver. apply P. set_solver.
  - rewrite (lp_results _ _ _ _ _ Q), (lp_results _ _ _ _ _ P), spec_records_app, <- app_assoc.
    rewrite (lp_ticks _ _ _ _ _ P). f_equal. f_equal. apply spec_records_static. apply P.
  - rewrite (lp_ticks _ _ _ _ _ Q), (lp_ticks _ _ _ _ _ P), length_app. lia.
  - intros X HX Hi. rewrite <- app_assoc in *.
    apply (lp_index _ _ _ _ _ P) in Hi; [|done].
    assert (NoDup (k ++ l' ++ X)) as HX'.
    { rewrite (Permutation_app_swap_app k l' X).
      eapply sublist_NoDup; [exact HX|]. apply sublist_app; [apply P|done]. }
    eapply index_rel_perm; [|apply (lp_index _ _ _ _ _ Q (l' ++ X)); [done|]].
    + by rewrite (Permutation_app_swap_app k' l' X).
    + eapply index_rel_perm; [|exact Hi]. by rewrite (Permutation_app_swap_app k l' X).
  - intros r [Hr|Hr]%elem_of_app.
    + destruct (lp_filled _ _ _ _ _ P r Hr) as [?|H0]; [left; inlist|right].
      unfold deref in *. rewrite (lp_frame _ _ _ _ _ Q) by set_solver. exact H0.
    + destruct (lp_filled _ _ _ _ _ Q r Hr) as [?|H0]; [left; inlist|by right].
Qed.

(** ** The two loops *)

Lemma level_loop_post p l s l' s' :
  loop_pre s l -> (forall r, r ∈ l -> price (deref (ms_heap s) r) = p) ->
  stops sd (price (deref (ms_heap s) taker)) p = false ->
  level_loop clock ticker sd p taker l s = (l', s') ->
  exists fills, loop_post s l fills l' s'.
Proof.
  revert s l' s'. induction l as [|m l IH]; intros s l' s' Hpre Hp Hs; simpl.
  - intros [= <- <-]. exists []. apply loop_post_nil.
  - destruct (0 <? quantity (deref (ms_heap s) taker)) eqn:Q; zbool.
    2:{ intros [= <- <-]. exists []. apply loop_post_stop. by left. }
    destruct (loop_post_trade s p m) as [f1 P].
    { by apply (loop_pre_app_l s [m] l). } { done. } { apply Hp. inlist. } { done. }
    set (s1 := trade clock ticker sd p m taker s) in *.
    destruct (level_loop _ _ _ _ _ l s1) as [l2 s2] eqn:E. intros [= <- <-].
    destruct (static_fields _ _ taker (lp_static _ _ _ _ _ P)) as (_ & _ & Ht & _).
    assert (loop_pre s1 l) as Hpre1.
    { eapply (loop_pre_seq s [m]); [done|by apply (loop_pre_app_l s [m] l)|exact P]. }
    apply IH in E as [f2 P2]; [|done| |by rewrite Ht].
    2:{ intros r Hr. destruct (static_fields _ _ r (lp_static _ _ _ _ _ P)) as (_ & _ & -> & _). apply Hp. inlist. }
    exists (f1 ++ f2).
    assert (loop_post s ([m] ++ l) (f1 ++ f2)
      ((if quantity (deref (ms_heap s1) m) =? 0 then [] else [m]) ++ l2) s2) as P3.
    { eapply loop_post_seq; [done| |done|done]. intros r ->%list_elem_of_singleton.
      rewrite (Hp m) by inlist. done. }
    revert P3. by destruct (quantity _ =? 0).
Qed.

(** The references of a map of levels, in priority order. *)
Definition level_refs (lv : Levels) : list oref := concat (snd <$> lv).

Lemma levels_loop_post lv s lv' s' :
  loop_pre s (level_refs lv) ->
  (forall p l, (p, l) ∈ lv -> l <> [] /\ forall r, r ∈ l -> price (deref (ms_heap s) r) = p) ->
  levels_loop clock ticker sd taker lv s = (lv', s') ->
  exists fills, loop_post s (level_refs lv) fills (level_refs lv') s'.
Proof.
  unfold level_refs. revert s lv' s'. induction lv as [|[p l] lv IH]; intros s lv' s' Hpre Hp; simpl.
  - intros [= <- <-]. exists []. apply loop_post_nil.
  - destruct (0 <? quantity (deref (ms_heap s) taker)) eqn:Q; zbool.
    2:{ intros [= <- <-]. exists []. apply loop_post_stop. by left. }
    destruct (Hp p l ltac:(inlist)) as [Hl Hpl].
    destruct (stops sd (price (deref (ms_heap s) taker)) p) eqn:S.
    { intros [= <- <-]. exists []. apply loop_post_stop. right.
      destruct l as [|r l]; [done|]. exists r. rewrite (Hpl r) by inlist. done. }
    simpl in Hpre. destruct (level_loop _ _ _ _ _ l s) as [l1 s1] eqn:E1.
    destruct (levels_loop _ _ _ _ lv s1) as [lv1 s2] eqn:E2. intros [= <- <-].
    pose proof (loop_pre_app_l _ _ _ Hpre) as Hpre0.
    destruct (level_loop_post p l s l1 s1) as [f1 P]; [done..|].
    destruct (IH s1 lv1 s2) as [f2 P2]; [by eapply loop_pre_seq| |done|].
    { intros p' l2 Hin. destruct (Hp p' l2 ltac:(inlist)) as [? Hp']. split; [done|].
      intros r Hr. destruct (static_fields _ _ r (lp_static _ _ _ _ _ P)) as (_ & _ & -> & _). auto. }
    exists (f1 ++ f2).
    assert (loop_post s (l ++ concat (snd <$> lv)) (f1 ++ f2) (l1 ++ concat (snd <$> lv1)) s2) as P3.
    { eapply loop_post_seq; [done| |done|done]. intros r Hr. by rewrite (Hpl r). }
    by destruct l1.
Qed.

(** The levels that remain are sub-levels of the original ones. *)
Lemma level_loop_sub p l s l' s' :
  level_loop clock ticker sd p taker l s = (l', s') -> sublist l' l.
Proof.
  revert s l' s'. induction l as [|m l IH]; intros s l' s'; simpl; [by intros [= <- <-]|].
  destruct (0 <? _); [|by intros [= <- <-]].
  destruct (level_loop _ _ _ _ _ l _) as [l2 s2] eqn:E. intros [= <- <-].
  apply IH in E. case_match; [by apply sublist_cons|by apply sublist_skip].
Qed.

Lemma levels_loop_sub lv s lv' s' p l' :
  (forall p l, (p, l) ∈ lv -> l <> []) ->
  levels_loop clock ticker sd taker lv s = (lv', s') -> (p, l') ∈ lv' ->
  l' <> [] /\ exists l, (p, l) ∈ lv /\ sublist l' l.
Proof.
  revert s lv' s'. induction lv as [|[p0 l0] lv IH]; intros s lv' s' Hne; simpl.
  - intros [= <- <-]. set_solver.
  - assert ((p, l') ∈ (p0, l0) :: lv -> l' <> [] /\ exists l, (p, l) ∈ (p0, l0) :: lv /\ sublist l' l) as Hid.
    { intros Hin. split; [by eapply Hne|]. exists l'. by split. }
    destruct (0 <? _); [|by intros [= <- <-]]. destruct (stops _ _ _); [by intros [= <- <-]|].
    destruct (level_loop _ _ _ _ _ l0 s) as [l1 s1] eqn:E1. apply level_loop_sub in E1.
    destruct (levels_loop _ _ _ _ lv s1) as [lv1 s2] eqn:E2. intros [= <- <-] Hin.
    assert ((p, l') ∈ lv1 -> l' <> [] /\ exists l, (p, l) ∈ (p0, l0) :: lv /\ sublist l' l) as Hrec.
    { intros Hin'. destruct (IH _ _ _ ltac:(set_solver) E2 Hin') as (? & l & ? & ?).
      split; [done|]. exists l. set_solver. }
    destruct l1 as [|r1 l1]; [auto|]. apply elem_of_cons in Hin as [[= -> ->]|Hin]; [|auto].
    split; [done|]. exists l0. set_solver.
Qed.

Lemma levels_loop_sorted lt lv s lv' s' :
  om_sorted lt lv -> (forall p l, (p, l) ∈ lv -> l <> []) ->
  levels_loop clock ticker sd taker lv s = (lv', s') -> om_sorted lt lv'.
Proof.
  revert s lv' s'. induction lv as [|[p l] lv IH]; intros s lv' s' Hs Hne; simpl; [by intros [= <- <-]|].
  destruct (0 <? _); [|by intros [= <- <-]]. destruct (stops _ _ _); [by intros [= <- <-]|].
  destruct (level_loop _ _ _ _ _ l s) as [l1 s1].
  destruct (levels_loop _ _ _ _ lv s1) as [lv1 s2] eqn:E. intros [= <- <-].
  apply om_sorted_cons in Hs as [Hs Hk].
  assert (forall p l, (p, l) ∈ lv -> l <> []) as Hne' by (intros p' l' Hl'; apply (Hne p' l'); inlist).
  assert (om_sorted lt lv1) as Hs1 by eauto.
  destruct l1; [done|]. apply om_sorted_cons. split; [done|]. intros k' v' Hin.
  destruct (levels_loop_sub _ _ _ _ k' v' Hne' E Hin) as (_ & l2 & ? & _). eauto.
Qed.
End Loops.
