(* ===== verification/OrderBookProofs.v ===== *)
(** * Correctness of the order book

    The invariant of [OrderBook], and the refinement of [OrderBookSpec] by [processOrder]
    and [cancelOrder]. *)

From S2P Require Import Prelude Common OrderedMap OrderBook OrderBookSpec OrderBookLoops.
From stdpp Require Import base list gmap sorting.
From Stdlib Require Import ZArith Lia.
Local Open Scope Z_scope.

(** ** The invariant and the abstraction *)

Definition book_refs (b : OrderBook) : list oref := level_refs (bids_ b) ++ level_refs (asks_ b).

(** The orders of a side, in priority order. *)
Definition view (h : heap) (lv : Levels) : list Order := deref h <$> level_refs lv.

Definition abs (h : heap) (b : OrderBook) : ABook := mkABook (view h (bids_ b)) (view h (asks_ b)).

(** Levels in price order, none empty; the orders of a level are of that side and price and
    have a positive 64-bit quantity. *)
Definition levels_ok (h : heap) (sd : OrderSide) (lv : Levels) : Prop :=
  om_sorted (side_lt sd) lv /\
  forall p l, (p, l) ∈ lv -> l <> [] /\
    forall r, r ∈ l -> is_Some (h !! r) /\ side (deref h r) = sd /\ price (deref h r) = p /\
                       0 < quantity (deref h r) < 2 ^ 64.

(** No bid crosses an ask. *)
Definition uncrossed (a : ABook) : Prop :=
  forall x y, x ∈ a_bids a -> y ∈ a_asks a -> price x < price y.

Record book_ok (h : heap) (b : OrderBook) : Prop := {
  bo_levels : forall sd, levels_ok h sd (side_levels sd b);
  bo_nodup : NoDup (book_refs b);
  bo_ids : NoDup ((fun r => order_id (deref h r)) <$> book_refs b);
  bo_index : index_rel h (user_active_orders_ b) (book_refs b);
  bo_uncrossed : uncrossed (abs h b)
}.

(** An order that may enter the book: not in it, with an id of its own. *)
Record new_ok (h : heap) (b : OrderBook) (r : oref) : Prop := {
  no_live : is_Some (h !! r);
  no_ref : r ∉ book_refs b;
  no_id : forall r', r' ∈ book_refs b -> order_id (deref h r') <> order_id (deref h r);
  no_qty : inU 64 (quantity (deref h r))
}.

Lemma book_ok_empty h t : book_ok h (empty_book t).
Proof.
  split; simpl.
  - intros []; (split; [constructor|set_solver]).
  - constructor.
  - constructor.
  - intros u oid r. unfold active_row. rewrite lookup_empty. simpl. rewrite lookup_empty. set_solver.
  - intros x y Hx. by apply not_elem_of_nil in Hx.
Qed.

(** ** Levels *)

Lemma level_refs_app l k : level_refs (l ++ k) = level_refs l ++ level_refs k.
Proof. unfold level_refs. by rewrite fmap_app, concat_app. Qed.

Lemma level_refs_cons p l lv : level_refs ((p, l) :: lv) = l ++ level_refs lv.
Proof. done. Qed.

Lemma elem_of_level_refs r lv : r ∈ level_refs lv <-> exists p l, (p, l) ∈ lv /\ r ∈ l.
Proof.
  induction lv as [|[p l] lv IH]; [set_solver|].
  rewrite level_refs_cons, elem_of_app, IH. setoid_rewrite elem_of_cons. naive_solver.
Qed.

Lemma levels_ok_order h sd lv r :
  levels_ok h sd lv -> r ∈ level_refs lv ->
  is_Some (h !! r) /\ side (deref h r) = sd /\ 0 < quantity (deref h r) < 2 ^ 64.
Proof. intros [_ H] (p & l & Hl & Hr)%elem_of_level_refs. destruct (H _ _ Hl) as [_ H']. naive_solver. Qed.

Lemma levels_ok_frame h h' sd lv :
  (forall r, r ∈ level_refs lv -> h' !! r = h !! r) ->
  levels_ok h sd lv -> levels_ok h' sd lv /\ view h' lv = view h lv.
Proof.
  intros Hf [Hs H]. split.
  - split; [done|]. intros p l Hl. destruct (H _ _ Hl) as [? H']. split; [done|]. intros r Hr.
    unfold deref. rewrite (Hf r); [by apply H'|]. apply elem_of_level_refs. eauto.
  - apply list_fmap_ext. intros i r Hr%list_elem_of_lookup_2. unfold deref. by rewrite Hf.
Qed.

(** The prices of a side in priority order: [side_sorted] of the view. *)
Lemma levels_ok_sorted h sd lv : levels_ok h sd lv -> side_sorted sd (view h lv).
Proof.
  unfold view. induction lv as [|[p l] lv IH]; intros [Hs H]; [constructor|].
  apply om_sorted_cons in Hs as [Hs Hk]. rewrite level_refs_cons, fmap_app.
  apply StronglySorted_app_iff. split_and!.
  - destruct (H p l ltac:(inlist)) as [_ Hl]. clear H Hk Hs IH.
    induction l as [|r l IH]; [constructor|]. constructor; [apply IH; intros; apply Hl; inlist|].
    apply Forall_forall. intros o (r' & -> & Hr)%list_elem_of_fmap.
    destruct (Hl r ltac:(inlist)) as (_ & _ & -> & _). destruct (Hl r' ltac:(inlist)) as (_ & _ & -> & _).
    apply better_eq_refl.
  - apply IH. split; [done|]. intros p' l' H'. apply H. inlist.
  - intros x y (r & -> & Hr)%list_elem_of_fmap (r' & -> & Hr')%list_elem_of_fmap.
    apply elem_of_level_refs in Hr' as (p' & l' & Hl' & Hr').
    destruct (H p l ltac:(inlist)) as [_ Hl]. destruct (H p' l' ltac:(inlist)) as [_ Hl2].
    destruct (Hl r Hr) as (_ & _ & -> & _). destruct (Hl2 r' Hr') as (_ & _ & -> & _).
    apply Hk in Hl'. unfold better_eq. destruct (side_lt sd p' p) eqn:E; [|done].
    pose proof (key_trans (lt := side_lt sd) _ _ _ Hl' E) as Hirr. by rewrite key_irrefl in Hirr.
Qed.

(** ** Appending to a level *)

Section PushBack.
Context (h : heap) (sd : OrderSide) (lv : Levels) (r : oref).
Context (Hok : levels_ok h sd lv) (Hlive : is_Some (h !! r)) (Hside : side (deref h r) = sd)
  (Hqty : 0 < quantity (deref h r) < 2 ^ 64).

(** The entries before and after the level the order joins, and that level's orders. *)
Lemma push_back_split :
  exists lv1 l lv2,
    level_refs lv = level_refs lv1 ++ l ++ level_refs lv2 /\
    push_back sd (price (deref h r)) r lv = lv1 ++ (price (deref h r), l ++ [r]) :: lv2 /\
    (forall p' l', (p', l') ∈ lv1 ++ lv2 -> (p', l') ∈ lv) /\
    (forall r', r' ∈ l -> exists l', (price (deref h r), l') ∈ lv /\ r' ∈ l') /\
    (forall p' l', (p', l') ∈ lv1 -> side_lt sd p' (price (deref h r)) = true) /\
    (forall p' l', (p', l') ∈ lv2 -> side_lt sd (price (deref h r)) p' = true).
Proof.
  destruct Hok as [Hs _]. unfold push_back.
  destruct (om_find (price (deref h r)) lv) as [l|] eqn:F.
  - destruct (om_find_split (side_lt sd) _ _ _ Hs F) as (lv1 & lv2 & E & Hne & Hup & _).
    exists lv1, l, lv2. rewrite Hup. subst lv. rewrite level_refs_app, level_refs_cons.
    apply StronglySorted_app_iff in Hs as (_ & Hs & H12).
    apply om_sorted_cons in Hs as [_ Hs]. split_and!; try done.
    + intros p' l' Hin. inlist.
    + intros r' Hr'. exists l. split; [inlist|done].
    + intros p' l' Hin. apply (H12 (p', l') (price (deref h r), l)); [done|inlist].
  - destruct (om_update_fresh (side_lt sd) _ _ [] (fun l => l ++ [r]) Hs F) as (lv1 & lv2 & E & Hup & H1 & H2).
    exists lv1, [], lv2. rewrite Hup. subst lv. rewrite level_refs_app. split_and!; set_solver.
Qed.

Lemma push_back_ok : levels_ok h sd (push_back sd (price (deref h r)) r lv).
Proof.
  split; [apply om_update_sorted; [apply _|apply Hok]|].
  destruct push_back_split as (lv1 & l & lv2 & _ & -> & Hin & Hl & _). destruct Hok as [_ H].
  intros p' l' Hp. assert ((p', l') ∈ lv1 ++ lv2 \/ (p', l') = (price (deref h r), l ++ [r])) as [Hp'|[= -> ->]]
    by set_solver; [by apply H, Hin|].
  split; [by destruct l|]. intros r' [Hr'|Hr'%list_elem_of_singleton]%elem_of_app; [|by subst].
  destruct (Hl _ Hr') as (l' & Hl' & Hr2). destruct (H _ _ Hl') as [_ H']. by apply H'.
Qed.

Lemma push_back_refs : level_refs (push_back sd (price (deref h r)) r lv) ≡ₚ r :: level_refs lv.
Proof.
  destruct push_back_split as (lv1 & l & lv2 & -> & -> & _).
  rewrite level_refs_app, level_refs_cons. solve_Permutation.
Qed.

Lemma push_back_view :
  view h (push_back sd (price (deref h r)) r lv) = spec_rest sd (deref h r) (view h lv).
Proof.
  destruct push_back_split as (lv1 & l & lv2 & E & -> & Hin & Hl & H1 & H2).
  destruct Hok as [_ H]. unfold view. rewrite E, level_refs_app, level_refs_cons, !fmap_app. simpl.
  rewrite <- (assoc_L app (deref h <$> l)), (assoc_L app _ (deref h <$> l)). simpl.
  rewrite (assoc_L app (deref h <$> level_refs lv1) (deref h <$> l) (deref h <$> level_refs lv2)).
  rewrite spec_rest_split; [done| |].
  - intros x [(r' & -> & Hr')%list_elem_of_fmap|(r' & -> & Hr')%list_elem_of_fmap]%elem_of_app.
    + apply elem_of_level_refs in Hr' as (p' & l' & Hp' & Hr').
      destruct (H p' l' ltac:(apply Hin; inlist)) as [_ H']. destruct (H' _ Hr') as (_ & _ & -> & _).
      apply H1 in Hp'. unfold better_eq. destruct (side_lt sd (price (deref h r)) p') eqn:L; [|done].
      pose proof (key_trans (lt := side_lt sd) _ _ _ Hp' L) as Hirr. by rewrite key_irrefl in Hirr.
    + destruct (Hl _ Hr') as (l' & Hl' & Hr2). destruct (H _ _ Hl') as [_ H'].
      destruct (H' _ Hr2) as (_ & _ & -> & _). apply better_eq_refl.
  - intros x (r' & -> & Hr')%list_elem_of_fmap.
    apply elem_of_level_refs in Hr' as (p' & l' & Hp' & Hr').
    destruct (H p' l' ltac:(apply Hin; inlist)) as [_ H']. destruct (H' _ Hr') as (_ & _ & -> & _).
    unfold better_eq. by rewrite (H2 _ _ Hp').
Qed.
End PushBack.

(** ** Matching against the opposite side *)

Definition book_make (sd : OrderSide) (t : Z) (own opp : Levels) (a : ActiveIndex) : OrderBook :=
  match sd with BUY => mkBook t own opp a | SELL => mkBook t opp own a end.

Lemma book_refs_sides sd b :
  book_refs b ≡ₚ level_refs (side_levels (opposite sd) b) ++ level_refs (side_levels sd b).
Proof. unfold book_refs. destruct sd; simpl; [apply Permutation_app_comm|done]. Qed.

Lemma abs_sides h b sd : a_side sd (abs h b) = view h (side_levels sd b).
Proof. by destruct sd. Qed.

Lemma book_make_side sd t own opp a :
  side_levels sd (book_make sd t own opp a) = own /\
  side_levels (opposite sd) (book_make sd t own opp a) = opp /\
  user_active_orders_ (book_make sd t own opp a) = a /\
  forall h, abs h (book_make sd t own opp a) = a_make sd (view h own) (view h opp).
Proof. by destruct sd. Qed.

(** [processOrder] with the side of the order as a parameter. *)
Lemma processOrder_side clock b r h res t sd :
  side (deref h r) = sd ->
  processOrder clock b r h res t =
    let '(opp, s1) := levels_loop clock (book_ticker_id b) sd r (side_levels (opposite sd) b)
                        (mkMS h (user_active_orders_ b) res t) in
    let o := deref (ms_heap s1) r in
    let own := if 0 <? quantity o then push_back sd (price o) r (side_levels sd b) else side_levels sd b in
    (book_make sd (book_ticker_id b) own opp
       (if 0 <? quantity o then active_set (user_id o) (order_id o) r (ms_active s1) else ms_active s1),
     ms_heap s1, ms_results s1, ms_ticks s1).
Proof.
  intros Hsd. unfold processOrder, matchBuyOrder, matchSellOrder. rewrite Hsd.
  destruct sd; simpl; destruct (levels_loop _ _ _ _ _ _) as [opp s1]; simpl;
    destruct (0 <? quantity (deref (ms_heap s1) r)); done.
Qed.

Lemma levels_loop_ok clock ticker sd taker lv s lv' s' f :
  levels_ok (ms_heap s) (opposite sd) lv ->
  0 <= quantity (deref (ms_heap s) taker) ->
  levels_loop clock ticker sd taker lv s = (lv', s') ->
  loop_post clock ticker sd taker s (level_refs lv) f (level_refs lv') s' ->
  levels_ok (ms_heap s') (opposite sd) lv'.
Proof.
  intros Hok Hq E P. pose proof Hok as [Hs H].
  assert (forall p l, (p, l) ∈ lv -> l <> []) as Hne by (intros p l Hin; apply (H p l Hin)).
  split; [by eapply levels_loop_sorted|]. intros p l' Hin.
  destruct (levels_loop_sub _ _ _ _ _ _ _ _ p l' Hne E Hin) as (? & l & Hl & Hsub). split; [done|].
  intros r Hr. destruct (H _ _ Hl) as [_ H']. destruct (H' r (sublist_subseteq _ _ Hsub _ Hr)) as (L & Hsd & Hp & _).
  destruct (static_fields _ _ r (lp_static _ _ _ _ _ _ _ _ _ P)) as (_ & _ & -> & -> & _).
  split_and!; [rewrite static_live by apply P; done|done|done|..];
    (eapply (spec_match_bound _ _ _ _ _ _ (2 ^ 64) Hq); [|apply P|]);
    [intros o (r' & -> & Hr')%list_elem_of_fmap; by eapply levels_ok_order
    |apply list_elem_of_fmap_2, elem_of_level_refs; eauto
    |intros o (r' & -> & Hr')%list_elem_of_fmap; by eapply levels_ok_order
    |apply list_elem_of_fmap_2, elem_of_level_refs; eauto].
Qed.

(** [uncrossed], said of either side. *)
Lemma uncrossed_side sd a :
  uncrossed a <-> (forall x y, x ∈ a_side sd a -> y ∈ a_side (opposite sd) a -> stops sd (price x) (price y) = true).
Proof.
  unfold uncrossed. setoid_rewrite stops_iff. destruct sd; simpl; [done|]. naive_solver.
Qed.

Lemma opposite_side_cases sd sd' : sd' = sd \/ sd' = opposite sd.
Proof. destruct sd, sd'; auto. Qed.

(** ** Refinement and preservation for [processOrder] *)

Record process_post (clock : nat -> Z) (b : OrderBook) (r : oref) (h : heap) (res : list MatchRecord) (t : nat)
    (b' : OrderBook) (h' : heap) (res' : list MatchRecord) (t' : nat) (fills : list fill) : Prop := {
  pp_spec : spec_process (abs h b) (deref h r) = (fills, deref h' r, abs h' b');
  pp_ok : book_ok h' b';
  pp_static : static_eq h h';
  pp_frame : forall r', r' ∉ r :: book_refs b -> h' !! r' = h !! r';
  pp_results : res' = res ++ spec_records clock (book_ticker_id b) (side (deref h r)) (deref h r) fills t;
  pp_ticks : t' = (t + length fills)%nat;
  pp_refs : book_refs b' ⊆+ r :: book_refs b;
  pp_ticker : book_ticker_id b' = book_ticker_id b;
  pp_filled : forall x, x ∈ r :: book_refs b -> x ∈ book_refs b' \/ quantity (deref h' x) = 0
}.

Section Process.
Context (clock : nat -> Z) (b : OrderBook) (r : oref) (h : heap) (res : list MatchRecord) (t : nat).
Context (Hok : book_ok h b) (Hnew : new_ok h b r).
Let sd := side (deref h r).
Let own := side_levels sd b.
Let opp := side_levels (opposite sd) b.
Let s0 := mkMS h (user_active_orders_ b) res t.

Let process_sides : book_refs b ≡ₚ level_refs opp ++ level_refs own := book_refs_sides sd b.

Lemma process_pre : loop_pre r s0 (level_refs opp).
Proof.
  assert (forall r', r' ∈ level_refs opp -> r' ∈ book_refs b) as Hin.
  { intros r' Hr'. rewrite (book_refs_sides sd). inlist. }
  split_and!.
  - apply NoDup_cons. split; [intros ?%Hin; by apply Hnew|].
    pose proof (bo_nodup _ _ Hok) as Hnd. rewrite (book_refs_sides sd) in Hnd.
    by apply NoDup_app in Hnd as [? _].
  - intros r' [->|Hr']%elem_of_cons; [apply Hnew|].
    by eapply levels_ok_order; [apply (bo_levels _ _ Hok (opposite sd))|].
  - apply Hnew.
  - intros r' Hr'. by eapply levels_ok_order; [apply (bo_levels _ _ Hok (opposite sd))|].
Qed.

Context (opp' : Levels) (s1 : MatchState) (fills : list fill).
Context (E : levels_loop clock (book_ticker_id b) sd r opp s0 = (opp', s1)).
Context (P : loop_post clock (book_ticker_id b) sd r s0 (level_refs opp) fills (level_refs opp') s1).
Let h1 := ms_heap s1.
Let o1 := deref h1 r.
Let own' := if 0 <? quantity o1 then push_back sd (price o1) r own else own.
Let act' := if 0 <? quantity o1 then active_set (user_id o1) (order_id o1) r (ms_active s1) else ms_active s1.

Lemma process_own : levels_ok h1 sd own /\ view h1 own = view h own.
Proof.
  apply levels_ok_frame; [|apply Hok]. intros r' Hr'. apply (lp_frame _ _ _ _ _ _ _ _ _ P).
  intros [->|Hin]%elem_of_cons.
  - apply (no_ref _ _ _ Hnew). rewrite (book_refs_sides sd). inlist.
  - pose proof (bo_nodup _ _ Hok) as Hnd. rewrite (book_refs_sides sd) in Hnd.
    apply NoDup_app in Hnd as (_ & Hd & _). by eapply Hd.
Qed.

Lemma process_taker :
  is_Some (h1 !! r) /\ side o1 = sd /\ price o1 = price (deref h r) /\ inU 64 (quantity o1).
Proof.
  destruct (static_fields _ _ r (lp_static _ _ _ _ _ _ _ _ _ P)) as (_ & _ & Hp & Hs & _).
  split_and!; [rewrite static_live by apply P; apply Hnew|done|done|].
  pose proof (lp_match _ _ _ _ _ _ _ _ _ P) as M. apply spec_match_fills in M as [M _].
  - pose proof (no_qty _ _ _ Hnew). unfold o1, h1. simpl in *. mword.
  - apply Hnew.
  - intros o (r' & -> & Hr')%list_elem_of_fmap.
    by eapply levels_ok_order; [apply (bo_levels _ _ Hok (opposite sd))|].
Qed.

Lemma process_levels : levels_ok h1 sd own' /\ levels_ok h1 (opposite sd) opp' /\
  view h1 own' = if 0 <? quantity o1 then spec_rest sd o1 (view h own) else view h own.
Proof.
  destruct process_own as [Ho Hv]. destruct process_taker as (Hl & Hs & Hp & Hq).
  assert (levels_ok h1 (opposite sd) opp') as Hopp.
  { apply (levels_loop_ok clock (book_ticker_id b) sd r opp s0 opp' s1 fills);
      [apply (bo_levels _ _ Hok (opposite sd))|apply Hnew|exact E|exact P]. }
  unfold own'. destruct (0 <? quantity o1) eqn:Q; zbool; [|done].
  split_and!; [|done|].
  - apply push_back_ok; [done..|]. exact (conj Q (proj2 Hq)).
  - rewrite <- Hv. apply (push_back_view h1 sd own r Ho); [done..|exact (conj Q (proj2 Hq))].
Qed.

Lemma process_perm :
  book_refs (book_make sd (book_ticker_id b) own' opp' act') ≡ₚ
    (if 0 <? quantity o1 then [r] else []) ++ level_refs opp' ++ level_refs own.
Proof.
  rewrite (book_refs_sides sd). destruct (book_make_side sd (book_ticker_id b) own' opp' act') as (-> & -> & _).
  destruct process_own as [Ho _]. destruct process_taker as (Hl & Hs & _ & Hq).
  unfold own'. destruct (0 <? quantity o1) eqn:Q; [|done]. zbool.
  change (price o1) with (price (deref h1 r)).
  rewrite (push_back_refs h1 sd own r) by (done || exact (conj Q (proj2 Hq))). simpl. solve_Permutation.
Qed.

Lemma process_refs :
  exists L, book_refs (book_make sd (book_ticker_id b) own' opp' act') ≡ₚ L /\ sublist L (r :: level_refs opp ++ level_refs own).
Proof.
  eexists. split; [apply process_perm|].
  assert (sublist (level_refs opp' ++ level_refs own) (level_refs opp ++ level_refs own)) as Hs.
  { apply sublist_app; [apply P|done]. }
  destruct (0 <? quantity o1); simpl; [by apply sublist_skip|by apply sublist_cons].
Qed.

(** An order that is not in the book afterwards is filled. *)
Lemma process_filled x :
  x ∈ r :: book_refs b -> x ∈ book_refs (book_make sd (book_ticker_id b) own' opp' act') \/ quantity (deref h1 x) = 0.
Proof.
  rewrite process_perm, elem_of_cons, process_sides, elem_of_app. intros [->|[Hx|Hx]].
  - destruct process_taker as (_ & _ & _ & Hq). change (deref h1 r) with o1.
    destruct (0 <? quantity o1) eqn:Q; zbool; [left; inlist|right]. unfold inU in Hq. lia.
  - destruct (lp_filled _ _ _ _ _ _ _ _ _ P x Hx) as [?|?]; [left; inlist|by right].
  - left. inlist.
Qed.

Lemma process_ids_nodup :
  NoDup (r :: level_refs opp ++ level_refs own) /\
  NoDup ((fun r => order_id (deref h r)) <$> r :: level_refs opp ++ level_refs own).
Proof.
  split.
  - apply NoDup_cons. rewrite <- process_sides. split; [apply Hnew|apply Hok].
  - rewrite fmap_cons, NoDup_cons, <- process_sides. split; [|apply Hok].
    intros (r' & Heq & Hin)%list_elem_of_fmap. by eapply no_id.
Qed.

Lemma process_index :
  let b' := book_make sd (book_ticker_id b) own' opp' act' in
  index_rel h1 (user_active_orders_ b') (book_refs b').
Proof.
  cbv zeta. destruct (book_make_side sd (book_ticker_id b) own' opp' act') as (_ & _ & -> & _).
  destruct process_ids_nodup as [Hnd _]. apply NoDup_cons in Hnd as [Hr Hnd].
  assert (index_rel h1 (ms_active s1) (level_refs opp' ++ level_refs own)) as Hi.
  { apply (lp_index _ _ _ _ _ _ _ _ _ P); [done|]. rewrite <- process_sides. apply Hok. }
  eapply index_rel_perm; [apply process_perm|].
  unfold act'. destruct (0 <? quantity o1) eqn:Q; [|done]. simpl. apply index_rel_set; [|done].
  intros r' Hr'. pose proof (lp_static _ _ _ _ _ _ _ _ _ P : static_eq h h1) as Hst.
  destruct (static_fields _ _ r Hst) as (-> & _). destruct (static_fields _ _ r' Hst) as (-> & _).
  apply Hnew. rewrite (book_refs_sides sd).
  apply elem_of_app in Hr' as [Hr'|Hr']; [|inlist].
  pose proof (sublist_subseteq _ _ (lp_sub _ _ _ _ _ _ _ _ _ P) _ Hr'). inlist.
Qed.

Lemma process_spec :
  spec_process (abs h b) (deref h r) =
    (fills, o1, abs h1 (book_make sd (book_ticker_id b) own' opp' act')).
Proof.
  unfold spec_process. rewrite !abs_sides. fold sd.
  pose proof (lp_match _ _ _ _ _ _ _ _ _ P) as M. simpl in M. unfold view. fold opp. rewrite M.
  destruct (book_make_side sd (book_ticker_id b) own' opp' act') as (_ & _ & _ & ->).
  destruct process_levels as (_ & _ & ->). done.
Qed.

Lemma process_uncrossed : uncrossed (abs h1 (book_make sd (book_ticker_id b) own' opp' act')).
Proof.
  apply (uncrossed_side sd). rewrite !abs_sides.
  destruct (book_make_side sd (book_ticker_id b) own' opp' act') as (-> & -> & _).
  destruct process_levels as (_ & _ & ->). destruct process_taker as (_ & _ & Hp & _).
  pose proof (lp_match _ _ _ _ _ _ _ _ _ P) as M. fold h1 in M. simpl in M.
  assert (forall x y, x ∈ view h own -> y ∈ view h1 opp' -> stops sd (price x) (price y) = true) as Hold.
  { intros x y Hx Hy. eapply spec_match_elem in Hy as (m & q & Hm & ->); [|exact M]. simpl.
    pose proof (proj1 (uncrossed_side sd (abs h b)) (bo_uncrossed _ _ Hok)) as Hu.
    rewrite !abs_sides in Hu. by apply Hu. }
  destruct (0 <? quantity o1) eqn:Q; [|done]. zbool.
  intros x y. rewrite spec_rest_perm. intros [->|Hx]%elem_of_cons; [|auto].
  rewrite Hp. intros Hy. eapply (spec_match_uncrossed _ _ _ _ _ _); [| | |exact M| |exact Hy].
  - apply Hnew.
  - intros o (r' & -> & Hr')%list_elem_of_fmap.
    by eapply levels_ok_order; [apply (bo_levels _ _ Hok (opposite sd))|].
  - eapply levels_ok_sorted, Hok.
  - done.
Qed.
End Process.

Lemma processOrder_post clock b r h res t b' h' res' t' :
  book_ok h b -> new_ok h b r -> processOrder clock b r h res t = (b', h', res', t') ->
  exists fills, process_post clock b r h res t b' h' res' t' fills.
Proof.
  intros Hok Hnew. rewrite (processOrder_side _ _ _ _ _ _ _ eq_refl).
  destruct (levels_loop _ _ _ _ _ _) as [opp' s1] eqn:E. intros [= <- <- <- <-].
  pose proof (process_pre b r h res t Hok Hnew) as Hpre.
  edestruct levels_loop_post as [fills P]; [exact Hpre| |exact E|].
  { intros p l Hin. destruct (bo_levels _ _ Hok (opposite (side (deref h r)))) as [_ H].
    destruct (H p l Hin) as [? H']. split; [done|]. intros r' Hr'. by apply H'. }
  pose proof (process_refs _ _ _ _ _ _ Hok Hnew opp' s1 fills P) as (L & HL & Hsub).
  pose proof (process_ids_nodup _ _ _ Hok Hnew) as [Hnd Hids].
  exists fills. split.
  - by eapply process_spec.
  - split.
    + intros sd'. destruct (book_make_side (side (deref h r)) (book_ticker_id b)
        (if 0 <? quantity (deref (ms_heap s1) r) then push_back (side (deref h r)) (price (deref (ms_heap s1) r)) r (side_levels (side (deref h r)) b)
         else side_levels (side (deref h r)) b) opp' (if 0 <? quantity (deref (ms_heap s1) r)
         then active_set (user_id (deref (ms_heap s1) r)) (order_id (deref (ms_heap s1) r)) r (ms_active s1) else ms_active s1))
        as (H1 & H2 & _).
      pose proof (process_levels _ _ _ _ _ _ Hok Hnew _ _ _ E P) as (H3 & H4 & _).
      destruct (opposite_side_cases (side (deref h r)) sd') as [->| ->]; [by rewrite H1|by rewrite H2].
    + rewrite HL. by eapply sublist_NoDup.
    + rewrite HL. eapply sublist_NoDup; [exact Hids|].
      rewrite (list_fmap_ext _ (fun r => order_id (deref h r))); [by apply fmap_sublist|].
      intros i r' _. by destruct (static_fields _ _ r' (lp_static _ _ _ _ _ _ _ _ _ P)) as (-> & _).
    + apply (process_index _ _ _ _ _ _ Hok Hnew _ _ _ P).
    + apply (process_uncrossed _ _ _ _ _ _ Hok Hnew _ _ _ E P).
  - apply P.
  - intros r' Hr'. apply (lp_frame _ _ _ _ _ _ _ _ _ P). intros Hin. apply Hr'.
    apply elem_of_cons in Hin as [->|Hin]; [inlist|]. apply elem_of_cons. right.
    rewrite (book_refs_sides (side (deref h r))). inlist.
  - apply P.
  - apply P.
  - rewrite HL, (book_refs_sides (side (deref h r)) b). by apply sublist_submseteq.
  - by destruct (side (deref h r)).
  - intros x Hx. by apply (process_filled _ _ _ _ _ _ Hok Hnew _ _ _ P).
Qed.
