(* ===== verification/OrderBookCancel.v ===== *)
(** * Cancellation

    [cancelOrder] finds the order through the user index, filters its level in place and
    drops the level when it is emptied; abstractly it removes one order from the book. *)

From S2P Require Import Prelude Common OrderedMap OrderBook OrderBookSpec OrderBookLoops OrderBookProofs.
From stdpp Require Import base list gmap sorting.
From Stdlib Require Import ZArith Lia.
Local Open Scope Z_scope.

Lemma filter_fmap_comm {A B} (f : A -> B) (P : B -> Prop) `{!forall x, Decision (P x)} (l : list A) :
  filter P (f <$> l) = f <$> filter (fun x => P (f x)) l.
Proof.
  induction l as [|x l IH]; [done|]. rewrite fmap_cons, !filter_cons, IH.
  by destruct (decide (P (f x))).
Qed.

(** The two-step lookup of the code, as one lookup in the user's row. *)
Lemma cancelOrder_row b h arg uid :
  cancelOrder b h arg uid =
    match active_row (user_active_orders_ b) uid !! u32 arg with
    | None => (None, b)
    | Some r =>
        let sd := side (deref h r) in
        let a := active_erase uid (u32 arg) (user_active_orders_ b) in
        (Some r, book_make sd (book_ticker_id b)
                   (remove_from_level h sd (price (deref h r)) (u32 arg) (side_levels sd b))
                   (side_levels (opposite sd) b) a)
    end.
Proof.
  unfold cancelOrder, active_erase, active_row. destruct (user_active_orders_ b !! uid) as [row|]; simpl.
  - destruct (row !! u32 arg) as [r|]; [|done]. by destruct (side (deref h r)).
  - by rewrite lookup_empty.
Qed.

Section Cancel.
Context (h : heap) (b : OrderBook) (Hok : book_ok h b) (r : oref) (Hr : r ∈ book_refs b).
Let oid := order_id (deref h r).
Let sd := side (deref h r).
Let keep r' := order_id (deref h r') <> oid.

(** [r] is the only order of the book with its id. *)
Lemma cancel_unique r' : r' ∈ book_refs b -> order_id (deref h r') = oid -> r' = r.
Proof.
  intros Hr' He. apply list_elem_of_lookup in Hr as [i Hi]. apply list_elem_of_lookup in Hr' as [j Hj].
  assert (j = i) as ->; [|congruence]. eapply (NoDup_lookup _ _ _ _ (bo_ids _ _ Hok));
    rewrite list_lookup_fmap; [by rewrite Hj|]. rewrite Hi. simpl. by rewrite He.
Qed.

Lemma cancel_side : r ∈ level_refs (side_levels sd b).
Proof.
  rewrite (book_refs_sides sd) in Hr. apply elem_of_app in Hr as [H|H]; [|done].
  destruct (levels_ok_order _ _ _ _ (bo_levels _ _ Hok (opposite sd)) H) as (_ & Hs & _).
  fold sd in Hs. by destruct sd.
Qed.

Lemma cancel_keep_other (l : list oref) : (forall x, x ∈ l -> x ∈ book_refs b) -> r ∉ l -> filter keep l = l.
Proof. intros Hl Hn. apply filter_all. intros x Hx He. apply Hn. by rewrite <- (cancel_unique x) by auto. Qed.

Let lv := side_levels sd b.
Let lv' := remove_from_level h sd (price (deref h r)) oid lv.

(** What [remove_from_level] does to the level of [r]. *)
Lemma cancel_level :
  exists lv1 l lv2, lv = lv1 ++ (price (deref h r), l) :: lv2 /\ r ∈ l /\
    lv' = lv1 ++ (match filter keep l with [] => [] | l' => [(price (deref h r), l')] end) ++ lv2.
Proof.
  pose proof cancel_side as Hin. apply elem_of_level_refs in Hin as (p & l & Hl & Hin).
  destruct (bo_levels _ _ Hok sd) as [Hs H]. destruct (H _ _ Hl) as [_ H'].
  destruct (H' _ Hin) as (_ & _ & <- & _).
  pose proof (om_find_elem (side_lt sd) _ _ _ Hs Hl) as Hf.
  destruct (om_find_split (side_lt sd) _ _ _ Hs Hf) as (lv1 & lv2 & E & Hne & Hup & _).
  exists lv1, l, lv2. split_and!; [done|done|]. unfold lv', remove_from_level. unfold lv. rewrite Hup.
  fold keep. rewrite om_find_at by done. destruct (filter keep l); [by apply om_erase_at|done].
Qed.

Lemma cancel_level_refs : level_refs lv' = filter keep (level_refs lv).
Proof.
  destruct cancel_level as (lv1 & l & lv2 & E & Hrl & ->). rewrite E.
  assert (NoDup (level_refs lv)) as Hnd.
  { pose proof (bo_nodup _ _ Hok) as Hnd. rewrite (book_refs_sides sd) in Hnd. by apply NoDup_app in Hnd as (_ & _ & ?). }
  assert (forall x, x ∈ level_refs lv -> x ∈ book_refs b) as Hsub.
  { intros x Hx. rewrite (book_refs_sides sd). inlist. }
  rewrite E, !level_refs_app, level_refs_cons in *. rewrite !filter_app.
  apply NoDup_app in Hnd as (_ & H1 & Hnd). apply NoDup_app in Hnd as (_ & H2 & _).
  rewrite (cancel_keep_other (level_refs lv1)), (cancel_keep_other (level_refs lv2)).
  - f_equal. destruct (filter keep l); [done|]. unfold level_refs. simpl. by rewrite app_nil_r.
  - intros x Hx. apply Hsub. inlist.
  - auto.
  - intros x Hx. apply Hsub. inlist.
  - intros Hx. apply (H1 _ Hx). inlist.
Qed.

Lemma cancel_levels_ok : levels_ok h sd lv'.
Proof.
  destruct cancel_level as (lv1 & l & lv2 & E & Hrl & ->).
  destruct (bo_levels _ _ Hok sd) as [Hs H]. fold lv in Hs, H. rewrite E in Hs, H.
  apply StronglySorted_app_iff in Hs as (Hs1 & Hs2 & H12).
  apply om_sorted_cons in Hs2 as [Hs2 Hk].
  assert (forall p' l', (p', l') ∈ lv1 ++ lv2 -> (p', l') ∈ lv1 ++ (price (deref h r), l) :: lv2) as Hin
    by (intros ? ? ?; inlist).
  destruct (filter keep l) as [|x l'] eqn:F; simpl.
  - split; [|intros p' l2 Hp; by apply H, Hin].
    apply StronglySorted_app_iff. split_and!; [done..|]. intros; apply H12; [done|inlist].
  - split.
    + apply StronglySorted_app_iff. split_and!; [done|by apply om_sorted_cons|].
      intros y z Hy [->|Hz]%elem_of_cons; [apply (H12 y (price (deref h r), l)); [done|inlist]|].
      apply H12; [done|inlist].
    + intros p' l2 Hp. assert ((p', l2) ∈ lv1 ++ lv2 \/ (p', l2) = (price (deref h r), x :: l')) as [Hp'|[= -> ->]].
      { apply elem_of_app in Hp as [Hp|Hp]; [left; inlist|]. apply elem_of_cons in Hp as [Hp|Hp]; [by right|left; inlist]. }
      * by apply H, Hin.
      * split; [done|]. destruct (H (price (deref h r)) l) as [_ H']; [inlist|].
        intros r' Hr'. apply H'. rewrite <- F in Hr'. by apply list_elem_of_filter in Hr' as [_ ?].
Qed.

Definition cancelled : OrderBook :=
  book_make sd (book_ticker_id b) lv' (side_levels (opposite sd) b)
    (active_erase (user_id (deref h r)) oid (user_active_orders_ b)).

Lemma cancel_side_refs sd' : level_refs (side_levels sd' cancelled) = filter keep (level_refs (side_levels sd' b)).
Proof.
  destruct (book_make_side sd (book_ticker_id b) lv' (side_levels (opposite sd) b)
    (active_erase (user_id (deref h r)) oid (user_active_orders_ b))) as (H1 & H2 & _).
  unfold cancelled. destruct (opposite_side_cases sd sd') as [->| ->].
  - rewrite H1. apply cancel_level_refs.
  - rewrite H2. symmetry. apply cancel_keep_other; [intros x Hx; rewrite (book_refs_sides sd); inlist|].
    intros Hin. destruct (levels_ok_order _ _ _ _ (bo_levels _ _ Hok (opposite sd)) Hin) as (_ & Hs & _).
    fold sd in Hs. by destruct sd.
Qed.

Lemma cancel_refs : book_refs cancelled = filter keep (book_refs b).
Proof.
  unfold book_refs. rewrite filter_app.
  apply f_equal2; [exact (cancel_side_refs BUY)|exact (cancel_side_refs SELL)].
Qed.

Lemma cancel_perm : book_refs b ≡ₚ r :: book_refs cancelled.
Proof.
  rewrite cancel_refs. pose proof (bo_nodup _ _ Hok) as Hnd.
  pose proof Hr as (l1 & l2 & E)%list_elem_of_split.
  assert (forall x, x ∈ l1 ++ r :: l2 -> x ∈ book_refs b) as Hsub by (intros x; by rewrite E).
  rewrite E in Hnd |- *. apply NoDup_app in Hnd as (_ & H1 & [H2 _]%NoDup_cons).
  rewrite filter_app, filter_cons_False by (unfold keep; tauto).
  rewrite (cancel_keep_other l1), (cancel_keep_other l2); [by rewrite Permutation_middle| |done| |].
  - intros x Hx. apply Hsub. inlist.
  - intros x Hx. apply Hsub. inlist.
  - intros Hx. apply (H1 _ Hx). inlist.
Qed.

Lemma cancel_abs :
  abs h cancelled = mkABook (filter (fun x => order_id x <> oid) (a_bids (abs h b)))
                            (filter (fun x => order_id x <> oid) (a_asks (abs h b))).
Proof.
  unfold abs, view, a_bids, a_asks. rewrite !filter_fmap_comm.
  apply f_equal2; apply f_equal; [exact (cancel_side_refs BUY)|exact (cancel_side_refs SELL)].
Qed.

Lemma cancel_ok : book_ok h cancelled.
Proof.
  destruct (book_make_side sd (book_ticker_id b) lv' (side_levels (opposite sd) b)
    (active_erase (user_id (deref h r)) oid (user_active_orders_ b))) as (H1 & H2 & H3 & _).
  split.
  - intros sd'. unfold cancelled. destruct (opposite_side_cases sd sd') as [->| ->].
    + rewrite H1. apply cancel_levels_ok.
    + rewrite H2. apply Hok.
  - rewrite cancel_refs. apply NoDup_filter, Hok.
  - pose proof (bo_ids _ _ Hok) as Hids. rewrite cancel_perm, fmap_cons in Hids.
    by apply NoDup_cons in Hids as [_ ?].
  - unfold cancelled at 1. rewrite H3. apply index_rel_erase.
    + rewrite cancel_refs. intros [? _]%list_elem_of_filter. done.
    + eapply index_rel_perm; [symmetry; apply cancel_perm|]. apply Hok.
  - rewrite cancel_abs. intros x y [_ Hx]%list_elem_of_filter [_ Hy]%list_elem_of_filter. by apply Hok.
Qed.
End Cancel.

(** The outcome of [cancelOrder] in terms of the id it looks up. *)
Lemma cancelOrder_found h b arg uid r :
  book_ok h b -> r ∈ book_refs b -> user_id (deref h r) = uid -> order_id (deref h r) = u32 arg ->
  cancelOrder b h arg uid = (Some r, cancelled h b r).
Proof.
  intros Hok Hr Hu Ho. rewrite cancelOrder_row.
  assert (active_row (user_active_orders_ b) uid !! u32 arg = Some r) as ->.
  { by apply (bo_index _ _ Hok). }
  unfold cancelled. by rewrite Hu, Ho.
Qed.

Lemma cancelOrder_missing h b arg uid :
  book_ok h b ->
  (forall r, r ∈ book_refs b -> user_id (deref h r) = uid -> order_id (deref h r) <> u32 arg) ->
  cancelOrder b h arg uid = (None, b).
Proof.
  intros Hok Hn. rewrite cancelOrder_row. destruct (_ !! _) as [r|] eqn:E; [|done].
  apply (bo_index _ _ Hok) in E as (H1 & H2 & H3). exfalso. by eapply Hn.
Qed.

(** Every call takes one of the two. *)
Lemma cancelOrder_cases h b arg uid :
  book_ok h b ->
  (exists r, r ∈ book_refs b /\ user_id (deref h r) = uid /\ order_id (deref h r) = u32 arg /\
             cancelOrder b h arg uid = (Some r, cancelled h b r)) \/
  ((forall r, r ∈ book_refs b -> user_id (deref h r) = uid -> order_id (deref h r) <> u32 arg) /\
   cancelOrder b h arg uid = (None, b)).
Proof.
  intros Hok. destruct (active_row (user_active_orders_ b) uid !! u32 arg) as [r|] eqn:E.
  - left. exists r. pose proof E as (H1 & H2 & H3)%(bo_index _ _ Hok).
    split_and!; [done..|]. by apply cancelOrder_found.
  - right. assert (forall r, r ∈ book_refs b -> user_id (deref h r) = uid -> order_id (deref h r) <> u32 arg) as Hn.
    { intros r H1 H2 H3. assert (active_row (user_active_orders_ b) uid !! u32 arg = Some r) by (by apply (bo_index _ _ Hok)).
      congruence. }
    split; [done|]. by apply cancelOrder_missing.
Qed.
