(* ===== verification/OrderBookBalance.v ===== *)
(** * The balance of a book

    Give every resting order a value linear in its quantity: [wb user price] per unit for a
    buy, [ws user] per unit for a sell.  Processing an order moves value from the orders to
    the match records and loses none; cancelling takes out exactly the value of the order it
    returns.  The conservation of frozen funds and frozen stock are instances. *)

From S2P Require Import Prelude Common OrderedMap OrderBook OrderBookSpec OrderBookLoops OrderBookProofs OrderBookCancel.
From stdpp Require Import base list gmap sorting.
From Stdlib Require Import ZArith Lia.
Local Open Scope Z_scope.

Section Balance.
Context (wb : Z -> Z -> Z) (ws : Z -> Z).

Definition unit_value (o : Order) : Z :=
  match side o with BUY => wb (user_id o) (price o) | SELL => ws (user_id o) end.

Definition order_value (o : Order) : Z := unit_value o * quantity o.

(** The value a match record carries for its two parties. *)
Definition match_value (m : MatchRecord) : Z :=
  (wb (buyer_user_id m) (buyer_expected_price m) + ws (sell_user_id m)) * match_quantity m.

Definition book_value (h : heap) (b : OrderBook) : Z :=
  zsum (fun r => order_value (deref h r)) (book_refs b).

Definition abook_value (a : ABook) : Z := zsum order_value (a_bids a) + zsum order_value (a_asks a).

Lemma book_value_abs h b : book_value h b = abook_value (abs h b).
Proof. unfold book_value, abook_value, book_refs, abs, view. simpl. by rewrite zsum_app, !zsum_map. Qed.

Lemma order_value_set o q : order_value (set_quantity o q) = unit_value o * q.
Proof. done. Qed.

Lemma spec_match_value sd tk opp f tk' opp' :
  spec_match sd tk opp = (f, tk', opp') ->
  zsum order_value opp' + zsum (fun '(m, q) => unit_value m * q) f = zsum order_value opp.
Proof.
  revert tk f tk' opp'. induction opp as [|m opp IH]; intros tk f tk' opp'; simpl.
  - by intros [= <- <- <-].
  - destruct (_ && _); [|intros [= <- <- <-]; simpl; lia].
    destruct (spec_match _ _ opp) as [[f1 tk1] opp1] eqn:E. intros [= <- <- <-].
    apply IH in E. set (q := Z.min _ _).
    assert (order_value m = unit_value m * (quantity m - q) + unit_value m * q) as Hm
      by (unfold order_value; ring).
    destruct (quantity m - q =? 0) eqn:Q; zbool; simpl.
    + rewrite Q, Z.mul_0_r in Hm. lia.
    + rewrite order_value_set. lia.
Qed.

Lemma spec_records_value clock ticker tk f n :
  (forall m q, (m, q) ∈ f -> side m = opposite (side tk)) ->
  zsum match_value (spec_records clock ticker (side tk) tk f n) =
  zsum (fun '(m, q) => unit_value m * q) f + unit_value tk * zsum snd f.
Proof.
  revert n. induction f as [|[m q] f IH]; intros n Hs; simpl; [lia|].
  rewrite IH by (intros m' q' ?; apply (Hs m' q'); inlist).
  specialize (Hs m q ltac:(inlist)). unfold match_value, match_record, unit_value.
  rewrite Hs. destruct (side tk); simpl; lia.
Qed.

Lemma abook_value_make sd own opp : abook_value (a_make sd own opp) = zsum order_value own + zsum order_value opp.
Proof. unfold abook_value. destruct sd; simpl; lia. Qed.

(** Matching conserves value. *)
Lemma spec_process_value a o f o' a' clock ticker n :
  0 <= quantity o -> (forall x, x ∈ a_side (opposite (side o)) a -> 0 < quantity x /\ side x = opposite (side o)) ->
  spec_process a o = (f, o', a') ->
  abook_value a' + zsum match_value (spec_records clock ticker (side o) o f n) =
  abook_value a + order_value o.
Proof.
  intros Hq Hopp. unfold spec_process. destruct (spec_match _ _ _) as [[f1 o1] opp] eqn:E.
  intros [= <- <- <-]. rewrite abook_value_make.
  assert (forall x, x ∈ a_side (opposite (side o)) a -> 0 < quantity x) as Hpos by (intros x Hx; by apply Hopp).
  rewrite spec_records_value.
  2:{ intros m q Hm. apply (spec_match_fills _ _ _ _ _ _ Hq Hpos E) in Hm as [Hm _]. by apply Hopp. }
  pose proof (spec_match_fills _ _ _ _ _ _ Hq Hpos E) as [Hq1 _].
  pose proof (spec_match_taker _ _ _ _ _ _ E) as Ho1. apply spec_match_value in E.
  assert (abook_value a = zsum order_value (a_side (side o) a) + zsum order_value (a_side (opposite (side o)) a)) as ->.
  { unfold abook_value. destruct (side o); simpl; lia. }
  assert (zsum order_value (if 0 <? quantity o1 then spec_rest (side o) o1 (a_side (side o) a) else a_side (side o) a) =
          order_value o1 + zsum order_value (a_side (side o) a)) as ->.
  { destruct (0 <? quantity o1) eqn:Q; zbool; [by rewrite spec_rest_perm|].
    unfold order_value at 2. replace (quantity o1) with 0 by lia. lia. }
  assert (order_value o = unit_value o * (quantity o - zsum snd f1) + unit_value o * zsum snd f1) as Ho
    by (unfold order_value; ring).
  rewrite Ho1, order_value_set. lia.
Qed.

Lemma processOrder_value clock b r h res t b' h' res' t' fills :
  book_ok h b -> new_ok h b r -> process_post clock b r h res t b' h' res' t' fills ->
  book_value h' b' + zsum match_value res' =
  book_value h b + order_value (deref h r) + zsum match_value res.
Proof.
  intros Hok Hnew P. rewrite !book_value_abs, (pp_results _ _ _ _ _ _ _ _ _ _ _ P), zsum_app.
  enough (abook_value (abs h' b') + zsum match_value (spec_records clock (book_ticker_id b) (side (deref h r)) (deref h r) fills t)
          = abook_value (abs h b) + order_value (deref h r)) by lia.
  eapply spec_process_value; [apply Hnew| |apply P].
  rewrite abs_sides. intros x (r' & -> & Hr')%list_elem_of_fmap.
  by destruct (levels_ok_order _ _ _ _ (bo_levels _ _ Hok _) Hr') as (_ & ? & ? & _).
Qed.

Lemma cancelOrder_value h b r :
  book_ok h b -> r ∈ book_refs b -> book_value h b = order_value (deref h r) + book_value h (cancelled h b r).
Proof. intros Hok Hr. unfold book_value. by rewrite (cancel_perm h b Hok r Hr) at 1. Qed.
End Balance.
