(* ===== verification/OrderBookTheorems.v ===== *)
(** * What the order book guarantees

    The theorems about [include/OrderBook.hpp]: refinement of the specification of
    OrderBookSpec.v, the invariant, price-time priority, the traded volume, cancellation,
    and the queries. *)

From S2P Require Import Prelude Common OrderedMap OrderBook OrderBookSpec OrderBookLoops OrderBookProofs OrderBookCancel OrderBookBalance.
From stdpp Require Import base list gmap sorting.
From Stdlib Require Import ZArith Lia.
Local Open Scope Z_scope.

(** ** A concrete book for the witnesses *)

Module Sample.
Definition o1 := mkOrder 11 7 1 SELL 101 5 0.
Definition o2 := mkOrder 12 7 2 SELL 100 4 0.
Definition taker := mkOrder 13 7 3 BUY 101 7 0.
Definition h : heap := {[ 1%nat := o1; 2%nat := o2; 3%nat := taker ]}.
Definition clk (n : nat) : Z := 1000 + Z.of_nat n.
Definition b0 : OrderBook := empty_book 7.
Definition book : OrderBook := mkBook 7 [] [(100, [2%nat]); (101, [1%nat])] {[ 1 := {[ 11 := 1%nat ]}; 2 := {[ 12 := 2%nat ]} ]}.

Lemma step1 : processOrder clk b0 1%nat h [] 0 =
  (mkBook 7 [] [(101, [1%nat])] {[ 1 := {[ 11 := 1%nat ]} ]}, h, [], 0%nat).
Proof. reflexivity. Qed.
Lemma step2 : processOrder clk (mkBook 7 [] [(101, [1%nat])] {[ 1 := {[ 11 := 1%nat ]} ]}) 2%nat h [] 0 =
  (book, h, [], 0%nat).
Proof. reflexivity. Qed.

Ltac new_order :=
  split; [ by eexists
         | apply (bool_decide_eq_true_1 _); vm_compute; reflexivity
         | apply Forall_forall; repeat constructor; vm_compute; discriminate
         | done ].

Lemma book_holds : book_ok h book.
Proof.
  assert (book_ok h (mkBook 7 [] [(101, [1%nat])] {[ 1 := {[ 11 := 1%nat ]} ]})) as H1.
  { assert (new_ok h b0 1%nat) as Hn by new_order.
    destruct (processOrder_post _ _ _ _ _ _ _ _ _ _ (book_ok_empty h 7) Hn step1) as [f P].
    exact (pp_ok _ _ _ _ _ _ _ _ _ _ _ P). }
  match type of H1 with book_ok _ ?b => assert (new_ok h b 2%nat) as Hn by new_order end.
  destruct (processOrder_post _ _ _ _ _ _ _ _ _ _ H1 Hn step2) as [f P].
  exact (pp_ok _ _ _ _ _ _ _ _ _ _ _ P).
Qed.

Lemma taker_new : new_ok h book 3%nat.
Proof. new_order. Qed.
End Sample.

(** ** Processing an order *)

Section Process.
Context (clock : nat -> Z).

(** C1: [processOrder] refines the specification of price-time priority matching: on a
    well-formed book, the orders left resting, the remaining quantity of the taker and the
    match records, in order and with their clock readings, are those of [spec_process]. *)
Theorem processOrder_refines b r h res t b' h' res' t' :
  book_ok h b -> new_ok h b r -> processOrder clock b r h res t = (b', h', res', t') ->
  exists fills,
    spec_process (abs h b) (deref h r) = (fills, deref h' r, abs h' b') /\
    res' = res ++ spec_records clock (book_ticker_id b) (side (deref h r)) (deref h r) fills t /\
    t' = (t + length fills)%nat.
Proof.
  intros Hok Hn E. destruct (processOrder_post _ _ _ _ _ _ _ _ _ _ Hok Hn E) as [f P].
  exists f. split_and!; apply P.
Qed.

(** C11: [processOrder] preserves the invariant of the book (levels sorted and non-empty,
    orders on their side and at their price with positive quantities, the per-user index
    exact, no bid crossing an ask), changes nothing of an order but its quantity, and
    touches no order outside the book and the taker. *)
Theorem processOrder_invariant b r h res t b' h' res' t' :
  book_ok h b -> new_ok h b r -> processOrder clock b r h res t = (b', h', res', t') ->
  book_ok h' b' /\ static_eq h h' /\ (forall r', r' ∉ r :: book_refs b -> h' !! r' = h !! r').
Proof.
  intros Hok Hn E. destruct (processOrder_post _ _ _ _ _ _ _ _ _ _ Hok Hn E) as [f P].
  split_and!; apply P.
Qed.

(** The makers a run of the specification is matched against. *)
Lemma opposite_positive h b sd :
  book_ok h b -> forall o, o ∈ a_side sd (abs h b) -> 0 < quantity o /\ side o = sd.
Proof.
  intros Hok o. rewrite abs_sides. intros (r & -> & Hr)%list_elem_of_fmap.
  destruct (levels_ok_order _ _ _ _ (bo_levels _ _ Hok _) Hr) as (_ & ? & ? & _). done.
Qed.

Lemma spec_records_lookup ticker sd tk f t i m q :
  f !! i = Some (m, q) ->
  spec_records clock ticker sd tk f t !! i = Some (match_record ticker sd m tk (price m) q (u64 (clock (t + i)%nat))).
Proof.
  revert t i. induction f as [|[m' q'] f IH]; intros t [|i] Hi; simpl in *; [done|done| |].
  - injection Hi as -> ->. by rewrite Nat.add_0_r.
  - rewrite (IH (S t) i Hi). by rewrite Nat.add_succ_comm.
Qed.

Lemma length_spec_records ticker sd tk f t : length (spec_records clock ticker sd tk f t) = length f.
Proof. revert t. induction f as [|[] f IH]; intros; simpl; [done|]. by rewrite IH. Qed.

Lemma spec_records_quantity ticker sd tk f t :
  zsum match_quantity (spec_records clock ticker sd tk f t) = zsum snd f.
Proof.
  revert t. induction f as [|[m q] f IH]; intros t; simpl; [done|]. rewrite IH.
  unfold match_record. by destruct sd.
Qed.

(** What is left of the order, and where it comes to rest. *)
Lemma spec_process_rest a o f left a' :
  spec_process a o = (f, left, a') -> side_sorted (side o) (a_side (side o) a) ->
  price left = price o /\ quantity left = quantity o - zsum snd f /\
  if 0 <? quantity left then
    exists ahead behind, a_side (side o) a = ahead ++ behind /\ a_side (side o) a' = ahead ++ left :: behind /\
      (forall x, x ∈ ahead -> better_eq (side o) (price x) (price left) = true) /\
      (forall x, x ∈ behind -> better_eq (side o) (price x) (price left) = false)
  else a_side (side o) a' = a_side (side o) a.
Proof.
  unfold spec_process. intros E Hs. destruct (spec_match _ _ _) as [[f1 o1] opp] eqn:M. injection E as <- <- <-.
  pose proof (spec_match_taker _ _ _ _ _ _ M) as Ho1.
  assert (forall own, a_side (side o) (a_make (side o) own opp) = own) as -> by (by destruct (side o)).
  split; [by rewrite Ho1|]. split; [by rewrite Ho1|].
  destruct (0 <? quantity o1); [by apply spec_rest_behind|done].
Qed.

(** C2: price-time priority.  The makers hit are the first [n] orders of the opposite side
    in priority order (best price first, earliest first within a price); each trades at
    its own resting price, and every maker but the last is filled completely.  What is left of
    the new order comes to rest behind every order of the same or a better price and before the
    others; if nothing is left, its side does not change. *)
Theorem processOrder_priority b r h t b' h' res' t' :
  book_ok h b -> new_ok h b r -> processOrder clock b r h [] t = (b', h', res', t') ->
  let makers := take (length res') (a_side (opposite (side (deref h r))) (abs h b)) in
  length makers = length res' /\
  side_sorted (opposite (side (deref h r))) (a_side (opposite (side (deref h r))) (abs h b)) /\
  (forall i m rec, makers !! i = Some m -> res' !! i = Some rec ->
    maker_order_id rec = order_id m /\ match_price rec = price m /\
    0 < match_quantity rec <= quantity m /\
    ((S i < length res')%nat -> match_quantity rec = quantity m)) /\
  let sd := side (deref h r) in
  let own := a_side sd (abs h b) in
  let left := deref h' r in
  price left = price (deref h r) /\ quantity left = quantity (deref h r) - zsum match_quantity res' /\
  if 0 <? quantity left then
    exists ahead behind, own = ahead ++ behind /\ a_side sd (abs h' b') = ahead ++ left :: behind /\
      (forall x, x ∈ ahead -> better_eq sd (price x) (price left) = true) /\
      (forall x, x ∈ behind -> better_eq sd (price x) (price left) = false)
  else a_side sd (abs h' b') = own.
Proof.
  intros Hok Hn E. destruct (processOrder_post _ _ _ _ _ _ _ _ _ _ Hok Hn E) as [f P].
  pose proof (pp_spec _ _ _ _ _ _ _ _ _ _ _ P) as Hs.
  assert (side_sorted (side (deref h r)) (a_side (side (deref h r)) (abs h b))) as Hsorted
    by (rewrite abs_sides; apply levels_ok_sorted, Hok).
  pose proof (spec_process_rest _ _ _ _ _ Hs Hsorted) as Hrest. unfold spec_process in Hs.
  destruct (spec_match _ _ _) as [[f1 o1] opp] eqn:M. injection Hs as -> _ _.
  pose proof (pp_results _ _ _ _ _ _ _ _ _ _ _ P) as ->. simpl. rewrite length_spec_records.
  destruct (no_qty _ _ _ Hn) as [Hq _].
  assert (forall o, o ∈ a_side (opposite (side (deref h r))) (abs h b) -> 0 < quantity o) as Hpos
    by (intros; by eapply opposite_positive).
  destruct (spec_match_prefix _ _ _ _ _ _ Hq Hpos M) as [Hf Hlast].
  pose proof (spec_match_fills _ _ _ _ _ _ Hq Hpos M) as [_ Hfill].
  split; [by rewrite <- Hf, length_fmap|]. split; [rewrite abs_sides; apply levels_ok_sorted, Hok|].
  split; [|by rewrite spec_records_quantity].
  intros i m rec Hi Hrec. rewrite <- Hf, list_lookup_fmap in Hi.
  destruct (f !! i) as [[m' q]|] eqn:Fi; [|done]. injection Hi as ->.
  rewrite (spec_records_lookup _ _ _ _ _ _ _ _ Fi) in Hrec. injection Hrec as <-.
  destruct (Hfill m q ltac:(by eapply list_elem_of_lookup_2)) as (_ & Hmq & _).
  unfold match_record. assert ((S i < length f)%nat -> q = quantity m) as Hfull.
  { intros Hlt. destruct Hlast as [[_ Hall]|(_ & f0 & m0 & q0 & -> & _ & Hall & _)].
    - apply (Hall m q). by eapply list_elem_of_lookup_2.
    - apply (Hall m q). rewrite lookup_app_l in Fi; [by eapply list_elem_of_lookup_2|].
      rewrite length_app in Hlt. simpl in Hlt. lia. }
  by destruct (side (deref h r)).
Qed.

(** The traded volume is exactly the smaller of the order's quantity and the liquidity
    resting on the other side within its limit, and what is left of the order is the rest. *)
Theorem processOrder_volume b r h t b' h' res' t' :
  book_ok h b -> new_ok h b r -> processOrder clock b r h [] t = (b', h', res', t') ->
  let o := deref h r in
  zsum match_quantity res' =
    Z.min (quantity o)
      (zsum quantity (filter (fun m => stops (side o) (price o) (price m) = false)
                        (a_side (opposite (side o)) (abs h b)))) /\
  quantity (deref h' r) = quantity o - zsum match_quantity res'.
Proof.
  intros Hok Hn E. destruct (processOrder_post _ _ _ _ _ _ _ _ _ _ Hok Hn E) as [f P].
  pose proof (pp_spec _ _ _ _ _ _ _ _ _ _ _ P) as Hs. unfold spec_process in Hs.
  destruct (spec_match _ _ _) as [[f1 o1] opp] eqn:M. injection Hs as -> Ho _.
  pose proof (pp_results _ _ _ _ _ _ _ _ _ _ _ P) as ->. simpl. rewrite spec_records_quantity.
  destruct (no_qty _ _ _ Hn) as [Hq _]. split.
  - eapply spec_match_total; [done| | |exact M]; [intros; by eapply opposite_positive|].
    rewrite abs_sides. apply levels_ok_sorted, Hok.
  - apply spec_match_taker in M. by rewrite <- Ho, M.
Qed.

(** C12: conservation.  For any valuation linear in quantities (funds frozen by buys, shares
    frozen by sells), the value of the book after processing plus the value of the new
    match records equals the value of the book before plus that of the order. *)
Theorem processOrder_conserves wb ws b r h res t b' h' res' t' :
  book_ok h b -> new_ok h b r -> processOrder clock b r h res t = (b', h', res', t') ->
  book_value wb ws h' b' + zsum (match_value wb ws) res' =
  book_value wb ws h b + order_value wb ws (deref h r) + zsum (match_value wb ws) res.
Proof.
  intros Hok Hn E. destruct (processOrder_post _ _ _ _ _ _ _ _ _ _ Hok Hn E) as [f P].
  by eapply processOrder_value.
Qed.
End Process.

Lemma processOrder_refines_witness :
  exists fills, spec_process (abs Sample.h Sample.book) Sample.taker =
    (fills, set_quantity Sample.taker 0, mkABook [] [set_quantity Sample.o1 2]) /\ length fills = 2%nat.
Proof.
  destruct (processOrder_refines Sample.clk Sample.book 3%nat Sample.h [] 0 _ _ _ _
              Sample.book_holds Sample.taker_new eq_refl) as (f & H & _ & Ht).
  exists f. split; [exact H|]. injection H as <-. reflexivity.
Defined.

Lemma processOrder_invariant_witness :
  book_ok (processOrder Sample.clk Sample.book 3%nat Sample.h [] 0).1.1.2
          (processOrder Sample.clk Sample.book 3%nat Sample.h [] 0).1.1.1.
Proof.
  exact (proj1 (processOrder_invariant Sample.clk Sample.book 3%nat Sample.h [] 0 _ _ _ _
           Sample.book_holds Sample.taker_new eq_refl)).
Defined.

Lemma processOrder_priority_witness :
  maker_order_id <$> (processOrder Sample.clk Sample.book 3%nat Sample.h [] 0).1.2 = [12; 11] /\
  length (take 2 (a_side SELL (abs Sample.h Sample.book))) = 2%nat.
Proof.
  split; [reflexivity|].
  exact (proj1 (processOrder_priority Sample.clk Sample.book 3%nat Sample.h 0 _ _ _ _
           Sample.book_holds Sample.taker_new eq_refl)).
Defined.

Lemma processOrder_volume_witness :
  zsum match_quantity (processOrder Sample.clk Sample.book 3%nat Sample.h [] 0).1.2 = 7.
Proof.
  exact (proj1 (processOrder_volume Sample.clk Sample.book 3%nat Sample.h 0 _ _ _ _
           Sample.book_holds Sample.taker_new eq_refl)).
Defined.

Lemma processOrder_conserves_witness :
  book_value (fun _ p => p) (fun _ => 0) Sample.h Sample.book + 7 * 101 =
  book_value (fun _ p => p) (fun _ => 0) Sample.h Sample.book +
    order_value (fun _ p => p) (fun _ => 0) (deref Sample.h 3%nat) + 0.
Proof.
  exact (processOrder_conserves Sample.clk (fun _ p => p) (fun _ => 0) Sample.book 3%nat Sample.h [] 0 _ _ _ _
           Sample.book_holds Sample.taker_new eq_refl).
Defined.

(** ** Cancelling *)

Section Cancel.
Context (h : heap) (b : OrderBook) (Hok : book_ok h b).

Lemma filter_one (l : list Order) (o : Order) oid uid :
  NoDup (order_id <$> l) -> o ∈ l -> order_id o = oid -> user_id o = uid ->
  filter (fun x => order_id x = oid /\ user_id x = uid) l = [o].
Proof.
  intros Hnd Ho <- <-. apply list_elem_of_split in Ho as (l1 & l2 & ->).
  rewrite fmap_app, fmap_cons in Hnd. apply NoDup_app in Hnd as (_ & H1 & [H2 _]%NoDup_cons).
  rewrite filter_app, filter_cons_True by done.
  rewrite (filter_none _ l1), (filter_none _ l2); [done|..]; intros x Hx [He _].
  - apply H2. rewrite <- He. by apply list_elem_of_fmap_2.
  - apply (H1 (order_id x)); [by apply list_elem_of_fmap_2|]. rewrite He. inlist.
Qed.

Lemma abs_orders : a_bids (abs h b) ++ a_asks (abs h b) = deref h <$> book_refs b.
Proof. unfold abs, view, book_refs. simpl. by rewrite fmap_app. Qed.

(** C13: [cancelOrder], for every argument: it returns an order exactly when the user has a
    resting order whose id is the argument taken modulo 2^32; then that order, with its
    remaining quantity, is the only one removed, and the book stays well-formed; in every
    other case nothing changes. *)
Theorem cancelOrder_refines arg uid :
  let '(res, b') := cancelOrder b h arg uid in
  spec_cancel (abs h b) (u32 arg) uid = (deref h <$> res, abs h b') /\
  book_ok h b' /\
  match res with Some r => book_refs b ≡ₚ r :: book_refs b' | None => b' = b end.
Proof.
  unfold spec_cancel. rewrite abs_orders.
  destruct (cancelOrder_cases h b arg uid Hok) as [(r & Hr & Hu & Ho & ->)|[Hn ->]].
  - rewrite (filter_one _ (deref h r)).
    + split_and!.
      * simpl. f_equal. rewrite cancel_abs by done. by rewrite Ho.
      * by apply cancel_ok.
      * by apply cancel_perm.
    + rewrite <- list_fmap_compose. apply Hok.
    + by apply list_elem_of_fmap_2.
    + done.
    + done.
  - rewrite filter_none; [done|]. intros x (r & -> & Hr)%list_elem_of_fmap [Hx1 Hx2]. by eapply Hn.
Qed.

(** The order id parameter of [cancelOrder] is 32 bits wide, so an order whose id needs
    more bits is never cancelled, whatever id and user the request names. *)
Theorem cancelOrder_wide_id r arg uid :
  r ∈ book_refs b -> 2 ^ 32 <= order_id (deref h r) ->
  fst (cancelOrder b h arg uid) <> Some r /\ r ∈ book_refs (snd (cancelOrder b h arg uid)).
Proof.
  intros Hr Hid. pose proof (wrapU_range 32 arg ltac:(lia)) as [_ Hlt].
  destruct (cancelOrder_cases h b arg uid Hok) as [(r' & Hr' & Hu & Ho & ->)|[_ ->]]; [|done].
  assert (r' <> r) as Hne by (intros ->; lia). simpl. split; [congruence|].
  rewrite (cancel_perm h b Hok r' Hr') in Hr. by apply elem_of_cons in Hr as [->|].
Qed.

(** ** Queries *)

(** [getBestBidOffer] reports the highest bid and the lowest ask, and 0 for an empty
    side. *)
Theorem getBestBidOffer_best :
  (forall o, o ∈ a_bids (abs h b) ++ a_asks (abs h b) -> 0 <= price o < 2 ^ 63) ->
  let '(bid, ask) := getBestBidOffer b in
  (a_bids (abs h b) = [] /\ bid = 0 \/
   exists o, o ∈ a_bids (abs h b) /\ bid = price o /\ forall o', o' ∈ a_bids (abs h b) -> price o' <= bid) /\
  (a_asks (abs h b) = [] /\ ask = 0 \/
   exists o, o ∈ a_asks (abs h b) /\ ask = price o /\ forall o', o' ∈ a_asks (abs h b) -> ask <= price o').
Proof.
  intros Hp. assert (forall sd, (forall o, o ∈ view h (side_levels sd b) -> 0 <= price o < 2 ^ 63) ->
    match side_levels sd b with
    | [] => view h (side_levels sd b) = []
    | (p, _) :: _ => exists o, o ∈ view h (side_levels sd b) /\ i64 p = price o /\
        forall o', o' ∈ view h (side_levels sd b) -> better_eq sd (i64 p) (price o') = true
    end) as Hside.
  { intros sd Hsd. pose proof (levels_ok_sorted _ _ _ (bo_levels _ _ Hok sd)) as Hs.
    destruct (bo_levels _ _ Hok sd) as [_ H].
    destruct (side_levels sd b) as [|[p l] lv]; [done|].
    destruct (H p l ltac:(inlist)) as [Hne Hl]. destruct l as [|r l]; [done|].
    destruct (Hl r ltac:(inlist)) as (_ & _ & Hpr & _).
    assert (i64 p = p) as -> by (rewrite <- Hpr; specialize (Hsd (deref h r)); apply wrapS_id;
      [lia|]; unfold inS; specialize (Hsd ltac:(unfold view; rewrite level_refs_cons; simpl; inlist)); lia).
    exists (deref h r). unfold view in *. rewrite level_refs_cons in *. simpl in *.
    split_and!; [inlist|done|]. intros o' Ho'. inversion_clear Hs as [|? ? _ Hf].
    rewrite Forall_forall, Hpr in Hf. apply elem_of_cons in Ho' as [->|Ho'];
      [rewrite Hpr; apply better_eq_refl|by apply Hf]. }
  unfold getBestBidOffer. pose proof (Hside BUY) as HB. pose proof (Hside SELL) as HA. simpl in HB, HA.
  specialize (HB ltac:(intros; apply Hp; inlist)). specialize (HA ltac:(intros; apply Hp; inlist)).
  unfold abs. simpl.
  split; [destruct (bids_ b) as [|[p l] lv]|destruct (asks_ b) as [|[p l] lv]]; [by left| |by left|]; right.
  - destruct HB as (o & Ho & E & Hb). exists o. split_and!; [done..|].
    intros o' Ho'. apply Hb in Ho'. by apply better_eq_le in Ho'.
  - destruct HA as (o & Ho & E & Hb). exists o. split_and!; [done..|].
    intros o' Ho'. apply Hb in Ho'. by apply better_eq_le in Ho'.
Qed.

(** C32: [getUserActiveOrder] returns the user's resting orders, each exactly once. *)
Theorem getUserActiveOrder_exact uid :
  NoDup (getUserActiveOrder b uid) /\
  forall r, r ∈ getUserActiveOrder b uid <-> r ∈ book_refs b /\ user_id (deref h r) = uid.
Proof.
  assert (getUserActiveOrder b uid = (map_to_list (active_row (user_active_orders_ b) uid)).*2) as ->.
  { unfold getUserActiveOrder, active_row. destruct (_ !! uid); [done|]. simpl. by rewrite map_to_list_empty. }
  pose proof (bo_index _ _ Hok) as Hi. split.
  - apply NoDup_fmap_2_strong; [|apply NoDup_map_to_list].
    intros [k1 r1] [k2 r2] H1%elem_of_map_to_list H2%elem_of_map_to_list E. simpl in E. subst.
    apply Hi in H1 as (_ & _ & <-). apply Hi in H2 as (_ & _ & <-). done.
  - intros r. split.
    + intros ([k r'] & -> & Hk)%list_elem_of_fmap. apply elem_of_map_to_list, Hi in Hk. naive_solver.
    + intros [Hr Hu]. apply list_elem_of_fmap. exists (order_id (deref h r), r). split; [done|].
      apply elem_of_map_to_list, Hi. done.
Qed.
End Cancel.

Lemma cancelOrder_refines_witness :
  spec_cancel (abs Sample.h Sample.book) 12 2 = (Some Sample.o2, mkABook [] [Sample.o1]).
Proof. exact (proj1 (cancelOrder_refines Sample.h Sample.book Sample.book_holds 12 2)). Defined.

(** A book that holds one order with an id of the generator's size. *)
Module Wide.
Definition big := mkOrder (2 ^ 40 + 4097) 7 1 SELL 101 5 0.
Definition h : heap := {[ 1%nat := big ]}.
Definition book : OrderBook := mkBook 7 [] [(101, [1%nat])] {[ 1 := {[ 2 ^ 40 + 4097 := 1%nat ]} ]}.
Lemma wide_book_holds : book_ok h book.
Proof.
  assert (processOrder Sample.clk (empty_book 7) 1%nat h [] 0 = (book, h, [], 0%nat)) as E by reflexivity.
  assert (new_ok h (empty_book 7) 1%nat) as Hn by Sample.new_order.
  destruct (processOrder_post _ _ _ _ _ _ _ _ _ _ (book_ok_empty h 7) Hn E) as [f P].
  exact (pp_ok _ _ _ _ _ _ _ _ _ _ _ P).
Qed.
End Wide.

Lemma cancelOrder_wide_id_witness :
  fst (cancelOrder Wide.book Wide.h (2 ^ 40 + 4097) 1) <> Some 1%nat /\
  1%nat ∈ book_refs (snd (cancelOrder Wide.book Wide.h (2 ^ 40 + 4097) 1)).
Proof.
  refine (cancelOrder_wide_id Wide.h Wide.book Wide.wide_book_holds 1%nat (2 ^ 40 + 4097) 1 _ _).
  - apply list_elem_of_here.
  - vm_compute. discriminate.
Defined.

Lemma getBestBidOffer_best_witness :
  getBestBidOffer Sample.book = (0, 100) /\
  exists o, o ∈ a_asks (abs Sample.h Sample.book) /\ 100 = price o.
Proof.
  split; [reflexivity|].
  destruct (getBestBidOffer_best Sample.h Sample.book Sample.book_holds) as [_ [[H _]|(o & H1 & H2 & _)]].
  - apply Forall_forall. repeat constructor; vm_compute; discriminate.
  - discriminate H.
  - exists o. split; [exact H1|exact H2].
Defined.

Lemma getUserActiveOrder_exact_witness :
  NoDup (getUserActiveOrder Sample.book 2) /\ getUserActiveOrder Sample.book 2 = [2%nat].
Proof. split; [exact (proj1 (getUserActiveOrder_exact Sample.h Sample.book Sample.book_holds 2))|reflexivity]. Defined.
