(* ===== verification/Bytes.v ===== *)
(** * Bytes, byte order and C strings

    A byte is a [Z] in [0, 256); a [std::string] or a buffer is a list of bytes.  The
    server runs on a little-endian host, so the in-memory image of an integer is its
    little-endian encoding and [htonl]/[htons] reverse it. *)

From S2P Require Import Prelude.
From Stdlib Require Import ZArith Lia Ascii String.
From stdpp Require Import base strings list.
Local Open Scope Z_scope.

Definition is_byte (z : Z) : Prop := 0 <= z < 256.
#[export] Instance is_byte_dec z : Decision (is_byte z).
Proof. unfold is_byte. apply _. Defined.

Abbreviation bytes := (list Z).

(** A string literal of the source. *)
Fixpoint str (s : string) : bytes :=
  match s with
  | EmptyString => []
  | String c s' => Z.of_N (N_of_ascii c) :: str s'
  end.

Arguments str _%_string.

(** ** Integers in memory *)

Fixpoint le_enc (n : nat) (z : Z) : bytes :=
  match n with
  | O => []
  | S n' => z mod 256 :: le_enc n' (z / 256)
  end.

Fixpoint le_dec (l : bytes) : Z :=
  match l with
  | [] => 0
  | b :: l' => b + 256 * le_dec l'
  end.

(** [htonl], [ntohl] (4 bytes) and [htons], [ntohs] (2 bytes) on a little-endian host. *)
Definition bswap (n : nat) (z : Z) : Z := le_dec (reverse (le_enc n z)).

Lemma length_le_enc n z : length (le_enc n z) = n.
Proof. revert z. induction n; intros; simpl; [done|]. by rewrite IHn. Qed.

Lemma le_enc_bytes n z : Forall is_byte (le_enc n z).
Proof.
  revert z. induction n; intros; simpl; constructor; [|done].
  unfold is_byte. pose proof (Z.mod_pos_bound z 256). lia.
Qed.

Lemma le_dec_bound l : Forall is_byte l -> 0 <= le_dec l < 256 ^ Z.of_nat (length l).
Proof.
  induction 1 as [|b l Hb _ IH]; simpl length; [simpl; lia|].
  rewrite Nat2Z.inj_succ, Z.pow_succ_r by lia. unfold is_byte in Hb. simpl. lia.
Qed.

Lemma le_dec_enc n z : 0 <= z < 256 ^ Z.of_nat n -> le_dec (le_enc n z) = z.
Proof.
  revert z. induction n as [|n IH]; intros z Hz.
  - simpl in *. lia.
  - rewrite Nat2Z.inj_succ, Z.pow_succ_r in Hz by lia. simpl.
    rewrite IH; [rewrite (Z.div_mod z 256) at 3; lia|].
    split; [apply Z.div_pos; lia|]. apply Z.div_lt_upper_bound; lia.
Qed.

Lemma le_enc_dec l : Forall is_byte l -> le_enc (length l) (le_dec l) = l.
Proof.
  induction 1 as [|b l Hb _ IH]; simpl; [done|]. unfold is_byte in Hb. f_equal.
  - rewrite (Z.mul_comm 256), Z.mod_add by lia. by apply Z.mod_small.
  - rewrite (Z.mul_comm 256), Z.div_add by lia. rewrite (Z.div_small b) by lia. by rewrite Z.add_0_l.
Qed.

Lemma le_enc_bswap n z : le_enc n (bswap n z) = reverse (le_enc n z).
Proof.
  unfold bswap. rewrite <- (length_le_enc n z) at 1. rewrite <- length_reverse.
  apply le_enc_dec. apply Forall_reverse, le_enc_bytes.
Qed.

Lemma bswap_bound n z : 0 <= bswap n z < 256 ^ Z.of_nat n.
Proof.
  pose proof (le_dec_bound (reverse (le_enc n z))) as H.
  rewrite length_reverse, length_le_enc in H. apply H, Forall_reverse, le_enc_bytes.
Qed.

Lemma bswap_involutive n z : 0 <= z < 256 ^ Z.of_nat n -> bswap n (bswap n z) = z.
Proof.
  intros Hz. unfold bswap at 1. rewrite le_enc_bswap, reverse_involutive. by apply le_dec_enc.
Qed.

(** ** Packed structs

    A [#pragma pack(1)] struct of integer fields: a list of widths, in declaration order
    and with no padding. *)

Definition layout := list nat.

Definition layout_size (ws : layout) : nat := foldr Nat.add 0%nat ws.

Fixpoint enc_fields (ws : layout) (vs : list Z) : bytes :=
  match ws, vs with
  | w :: ws', v :: vs' => le_enc w v ++ enc_fields ws' vs'
  | _, _ => []
  end.

Fixpoint dec_fields (ws : layout) (l : bytes) : list Z :=
  match ws with
  | [] => []
  | w :: ws' => le_dec (take w l) :: dec_fields ws' (drop w l)
  end.

(** Every value fits its field. *)
Definition fits (ws : layout) (vs : list Z) : Prop :=
  Forall2 (fun w v => 0 <= v < 256 ^ Z.of_nat w) ws vs.

Lemma length_enc_fields ws vs : fits ws vs -> length (enc_fields ws vs) = layout_size ws.
Proof. induction 1; simpl; [done|]. rewrite length_app, length_le_enc. unfold layout_size in *. simpl. lia. Qed.

Lemma dec_enc_fields ws vs rest : fits ws vs -> dec_fields ws (enc_fields ws vs ++ rest) = vs.
Proof.
  induction 1 as [|w v ws vs Hv _ IH]; simpl; [done|]. rewrite <- app_assoc. f_equal.
  - rewrite take_app_le by (rewrite length_le_enc; lia).
    rewrite take_ge by (rewrite length_le_enc; lia). by apply le_dec_enc.
  - rewrite drop_app_ge by (rewrite length_le_enc; lia).
    rewrite length_le_enc, Nat.sub_diag, drop_0. apply IH.
Qed.

Lemma dec_fields_take ws l n :
  (layout_size ws <= n)%nat -> dec_fields ws (take n l) = dec_fields ws l.
Proof.
  unfold layout_size. revert l n. induction ws as [|w ws IH]; intros l n Hn; simpl in *; [done|]. f_equal.
  - by rewrite take_take, Nat.min_l by lia.
  - rewrite <- (IH (drop w l) (n - w)%nat) by lia. by rewrite take_drop_commute, Nat.add_comm, Nat.sub_add by lia.
Qed.

Lemma length_dec_fields ws l : length (dec_fields ws l) = length ws.
Proof. revert l. induction ws; intros; simpl; [done|]. by f_equal. Qed.

Lemma le_dec_take_bound w l :
  Forall is_byte l -> 0 <= le_dec (take w l) < 256 ^ Z.of_nat w.
Proof.
  intros Hl. pose proof (le_dec_bound (take w l) (Forall_take _ w l Hl)) as [H1 H2].
  split; [done|]. eapply Z.lt_le_trans; [exact H2|].
  apply Z.pow_le_mono_r; [lia|]. rewrite length_take. lia.
Qed.

Lemma fits_dec_fields ws l : Forall is_byte l -> fits ws (dec_fields ws l).
Proof.
  unfold fits. revert l. induction ws as [|w ws IH]; intros l Hl; simpl; constructor.
  - by apply le_dec_take_bound.
  - by apply IH, Forall_drop.
Qed.

Lemma enc_dec_fields ws l :
  Forall is_byte l -> (layout_size ws <= length l)%nat ->
  enc_fields ws (dec_fields ws l) = take (layout_size ws) l.
Proof.
  unfold layout_size. revert l. induction ws as [|w ws IH]; intros l Hl Hn; simpl in *; [done|].
  rewrite IH; [|by apply Forall_drop|rewrite length_drop; lia].
  assert (le_enc w (le_dec (take w l)) = take w l) as ->.
  { rewrite <- (le_enc_dec (take w l)) at 2 by (by apply Forall_take).
    by rewrite length_take, Nat.min_l by lia. }
  rewrite <- (take_drop w (take (w + _) l)) at 1. rewrite take_take, Nat.min_l by lia.
  by rewrite take_drop_commute.
Qed.

(** A record type with a packed image: what the protocol promises about each of its
    structs.  [sizeof] is the C++ [sizeof]; [packed_wf] says that the [char] arrays of the
    record have the declared lengths. *)
Class Packed (A : Type) := {
  packed_layout : layout;
  packed_wf : A -> Prop;
  to_fields : A -> list Z;
  of_fields : list Z -> A
}.

Definition sizeof (A : Type) `{Packed A} : Z := Z.of_nat (layout_size (packed_layout (A := A))).
(** The bytes of the object. *)
Definition to_bytes {A} `{Packed A} (a : A) : bytes := enc_fields (packed_layout (A := A)) (to_fields a).
(** [*reinterpret_cast<const A*>(data)]. *)
Definition of_bytes {A} `{Packed A} (data : bytes) : A := of_fields (dec_fields (packed_layout (A := A)) data).
Definition packed_ok {A} `{Packed A} (a : A) : Prop :=
  packed_wf a /\ fits (packed_layout (A := A)) (to_fields a).

(** The laws: the fields determine the record and the record its fields. *)
Class PackedLaws (A : Type) `{Packed A} : Prop := {
  of_to_fields (a : A) : packed_wf a -> of_fields (to_fields a) = a;
  to_of_fields (vs : list Z) :
    length vs = length (packed_layout (A := A)) ->
    to_fields (of_fields vs) = vs /\ packed_wf (of_fields (A := A) vs)
}.

Section Packed.
Context {A : Type} `{PackedLaws A}.

Lemma length_to_bytes (a : A) : packed_ok a -> Z.of_nat (length (to_bytes a)) = sizeof A.
Proof. intros [_ Ha]. unfold to_bytes, sizeof. by rewrite length_enc_fields. Qed.

Lemma of_to_bytes (a : A) rest : packed_ok a -> of_bytes (to_bytes a ++ rest) = a.
Proof. intros [Hw Ha]. unfold of_bytes, to_bytes. rewrite dec_enc_fields by done. by apply of_to_fields. Qed.

Lemma of_to_bytes_nil (a : A) : packed_ok a -> of_bytes (to_bytes a) = a.
Proof. intros Ha. rewrite <- (app_nil_r (to_bytes a)). by apply of_to_bytes. Qed.

Lemma of_bytes_take (l : bytes) n : sizeof A <= Z.of_nat n -> of_bytes (A := A) (take n l) = of_bytes l.
Proof. intros Hn. unfold of_bytes. rewrite dec_fields_take; [done|]. unfold sizeof in Hn. lia. Qed.

Lemma of_bytes_ok (l : bytes) : Forall is_byte l -> packed_ok (of_bytes (A := A) l).
Proof.
  intros Hl. unfold packed_ok, of_bytes.
  destruct (to_of_fields (A := A) _ (length_dec_fields packed_layout l)) as [-> Hw].
  split; [done|]. by apply fits_dec_fields.
Qed.

Lemma to_of_bytes (l : bytes) :
  Forall is_byte l -> sizeof A <= Z.of_nat (length l) ->
  to_bytes (of_bytes (A := A) l) = take (Z.to_nat (sizeof A)) l.
Proof.
  intros Hl Hn. unfold to_bytes, of_bytes, sizeof in *.
  destruct (to_of_fields (A := A) _ (length_dec_fields packed_layout l)) as [-> _].
  rewrite Nat2Z.id. apply enc_dec_fields; [done|lia].
Qed.

Lemma to_bytes_bytes (a : A) : Forall is_byte (to_bytes a).
Proof.
  unfold to_bytes. generalize (packed_layout (A := A)) as ws, (to_fields a) as vs.
  induction ws; intros [|v vs]; simpl; try constructor.
  apply Forall_app. split; [apply le_enc_bytes|apply IHws].
Qed.
End Packed.

(** [char f\[n\]] in a record: [n] one-byte fields. *)
Definition chars (n : nat) : layout := replicate n 1%nat.

(** Solve the laws of a record whose fields are all integers. *)
Ltac int_packed :=
  split;
  [ intros [] _; reflexivity
  | let vs := fresh "vs" in
    intros vs Hvs; do 30 (try (destruct vs as [|? vs]; try discriminate Hvs)); split; done ].

#[export] Hint Resolve length_to_bytes of_to_bytes of_to_bytes_nil to_bytes_bytes : exch.

(** ** C strings *)

(** [std::string s = p]: the bytes up to the first NUL.  The buffers of the server are
    [std::string]s, whose storage is followed by a NUL, so the scan stops at the end of the
    list at the latest. *)
Fixpoint cstr (l : bytes) : bytes :=
  match l with
  | [] => []
  | b :: l' => if b =? 0 then [] else b :: cstr l'
  end.

(** [strncpy(dst, s.c_str(), n)]. *)
Definition strncpy (n : nat) (s : bytes) : bytes :=
  let c := take n (cstr s) in c ++ replicate (n - length c) 0.

Lemma length_strncpy n s : length (strncpy n s) = n.
Proof. unfold strncpy. rewrite length_app, length_replicate, length_take. lia. Qed.

Lemma cstr_app_zero s rest : Forall (fun b => b <> 0) s -> cstr (s ++ 0 :: rest) = s.
Proof.
  induction 1 as [|b s Hb _ IH]; simpl; [done|].
  destruct (b =? 0) eqn:E; zbool; [done|]. by rewrite IH.
Qed.

Lemma cstr_nonzero s : Forall (fun b => b <> 0) (cstr s).
Proof. induction s as [|b s IH]; simpl; [done|]. destruct (b =? 0) eqn:E; zbool; by constructor. Qed.

Lemma cstr_id s : Forall (fun b => b <> 0) s -> cstr s = s.
Proof. induction 1 as [|b s Hb _ IH]; simpl; [done|]. destruct (b =? 0) eqn:E; zbool; [done|]. by rewrite IH. Qed.

(** A string shorter than the field comes back from a [strncpy]-ed field whatever follows. *)
Lemma cstr_strncpy n s rest :
  Forall (fun b => b <> 0) s -> (length s < n)%nat -> cstr (strncpy n s ++ rest) = s.
Proof.
  intros Hs Hn. unfold strncpy. rewrite (cstr_id s) by done. rewrite take_ge by lia.
  destruct (n - length s)%nat eqn:E; [lia|]. simpl. rewrite <- app_assoc. simpl. by apply cstr_app_zero.
Qed.
