(* ===== verification/Protocol.v ===== *)
(** * The wire protocol

    [include/Protocol.hpp]: the message types and the packed structs of the request and
    response bodies.  Every struct is a record with its [Packed] instance, whose layout is
    the widths of the fields in declaration order; its round trips come from the laws.
    The server writes and reads bodies in host order; only the header is converted. *)

From S2P Require Import Prelude Bytes.
From stdpp Require Import base list.
From Stdlib Require Import ZArith Lia.
Local Open Scope Z_scope.

Inductive MsgType :=
| REGISTER_REQ | REGISTER_RES | LOGIN_REQ | LOGIN_RES | LOGOUT_REQ | LOGOUT_RES
| DEPOSIT_REQ | DEPOSIT_RES | BALANCE_REQ | BALANCE_RES
| TRADE_REQ | TRADE_RES | CANCEL_REQ | CANCEL_RES
| HOLDINGS_REQ | HOLDINGS_RES | MARKET_REQ | MARKET_RES | ORDERS_REQ | ORDERS_RES
| TREND_REQ | TREND_RES | NEWS_REQ | NEWS_RES | ALL_STOCKS_REQ | ALL_STOCKS_RES.

#[export] Instance MsgType_eq_dec : EqDecision MsgType.
Proof. solve_decision. Defined.

(** The [uint16_t] value of the enumerator. *)
Definition msg_code (t : MsgType) : Z :=
  match t with
  | REGISTER_REQ => 1001 | REGISTER_RES => 1002
  | LOGIN_REQ => 1003 | LOGIN_RES => 1004
  | LOGOUT_REQ => 1005 | LOGOUT_RES => 1006
  | DEPOSIT_REQ => 2001 | DEPOSIT_RES => 2002
  | BALANCE_REQ => 2003 | BALANCE_RES => 2004
  | TRADE_REQ => 3001 | TRADE_RES => 3002
  | CANCEL_REQ => 3003 | CANCEL_RES => 3004
  | HOLDINGS_REQ => 4001 | HOLDINGS_RES => 4002
  | MARKET_REQ => 4003 | MARKET_RES => 4004
  | ORDERS_REQ => 4005 | ORDERS_RES => 4006
  | TREND_REQ => 4007 | TREND_RES => 4008
  | NEWS_REQ => 4009 | NEWS_RES => 4010
  | ALL_STOCKS_REQ => 4011 | ALL_STOCKS_RES => 4012
  end.

(** ** The header

    The [type] of a received header is any [uint16_t], so it is kept as a number. *)

Record PacketHeader := mkHeader { ph_length : Z; ph_type : Z }.

#[export] Instance PacketHeader_packed : Packed PacketHeader := {|
  packed_layout := [4; 2]%nat;
  packed_wf _ := True;
  to_fields h := [ph_length h; ph_type h];
  of_fields vs := mkHeader (nth 0 vs 0) (nth 1 vs 0)
|}.
#[export] Instance PacketHeader_laws : PackedLaws PacketHeader. Proof. int_packed. Qed.

(** The bytes of a header in network order: [length = htonl(n); type = htons(t)]. *)
Definition encode_header (n t : Z) : bytes := to_bytes (mkHeader (bswap 4 n) (bswap 2 t)).
(** [ntohl(header->length)], [ntohs(header->type)]. *)
Definition decode_header (data : bytes) : Z * Z :=
  let h := of_bytes (A := PacketHeader) data in (bswap 4 (ph_length h), bswap 2 (ph_type h)).

(** ** Bodies *)

Record AuthRequest := mkAuthReq { username : bytes; password : bytes }.
#[export] Instance AuthRequest_packed : Packed AuthRequest := {|
  packed_layout := chars 32 ++ chars 32;
  packed_wf a := length (username a) = 32%nat /\ length (password a) = 32%nat;
  to_fields a := username a ++ password a;
  of_fields vs := mkAuthReq (take 32 vs) (drop 32 vs)
|}.

Record AuthResponse := mkAuthRes { ar_status : Z; ar_user_id : Z }.
#[export] Instance AuthResponse_packed : Packed AuthResponse := {|
  packed_layout := [1; 8]%nat;
  packed_wf _ := True;
  to_fields r := [ar_status r; ar_user_id r];
  of_fields vs := mkAuthRes (nth 0 vs 0) (nth 1 vs 0)
|}.
#[export] Instance AuthResponse_laws : PackedLaws AuthResponse. Proof. int_packed. Qed.

Record GenericResponse := mkGenericRes { gr_status : Z }.
#[export] Instance GenericResponse_packed : Packed GenericResponse := {|
  packed_layout := [1]%nat;
  packed_wf _ := True;
  to_fields r := [gr_status r];
  of_fields vs := mkGenericRes (nth 0 vs 0)
|}.
#[export] Instance GenericResponse_laws : PackedLaws GenericResponse. Proof. int_packed. Qed.

Record DepositRequest := mkDepositReq { dq_amount : Z }.
#[export] Instance DepositRequest_packed : Packed DepositRequest := {|
  packed_layout := [8]%nat;
  packed_wf _ := True;
  to_fields r := [dq_amount r];
  of_fields vs := mkDepositReq (nth 0 vs 0)
|}.
#[export] Instance DepositRequest_laws : PackedLaws DepositRequest. Proof. int_packed. Qed.

Record DepositResponse := mkDepositRes { dr_status : Z; new_balance : Z }.
#[export] Instance DepositResponse_packed : Packed DepositResponse := {|
  packed_layout := [1; 8]%nat;
  packed_wf _ := True;
  to_fields r := [dr_status r; new_balance r];
  of_fields vs := mkDepositRes (nth 0 vs 0) (nth 1 vs 0)
|}.
#[export] Instance DepositResponse_laws : PackedLaws DepositResponse. Proof. int_packed. Qed.

Record BalanceResponse := mkBalanceRes { br_status : Z; br_balance : Z }.
#[export] Instance BalanceResponse_packed : Packed BalanceResponse := {|
  packed_layout := [1; 8]%nat;
  packed_wf _ := True;
  to_fields r := [br_status r; br_balance r];
  of_fields vs := mkBalanceRes (nth 0 vs 0) (nth 1 vs 0)
|}.
#[export] Instance BalanceResponse_laws : PackedLaws BalanceResponse. Proof. int_packed. Qed.

Record TradeRequest := mkTradeReq { tq_ticker_id : Z; tq_side : Z; tq_price : Z; tq_amount : Z }.
#[export] Instance TradeRequest_packed : Packed TradeRequest := {|
  packed_layout := [4; 1; 8; 4]%nat;
  packed_wf _ := True;
  to_fields r := [tq_ticker_id r; tq_side r; tq_price r; tq_amount r];
  of_fields vs := mkTradeReq (nth 0 vs 0) (nth 1 vs 0) (nth 2 vs 0) (nth 3 vs 0)
|}.
#[export] Instance TradeRequest_laws : PackedLaws TradeRequest. Proof. int_packed. Qed.

Record CancelRequest := mkCancelReq { cq_ticker_id : Z; cq_order_id : Z }.
#[export] Instance CancelRequest_packed : Packed CancelRequest := {|
  packed_layout := [4; 8]%nat;
  packed_wf _ := True;
  to_fields r := [cq_ticker_id r; cq_order_id r];
  of_fields vs := mkCancelReq (nth 0 vs 0) (nth 1 vs 0)
|}.
#[export] Instance CancelRequest_laws : PackedLaws CancelRequest. Proof. int_packed. Qed.

Record TradeResponse := mkTradeRes { tr_status : Z }.
#[export] Instance TradeResponse_packed : Packed TradeResponse := {|
  packed_layout := [1]%nat;
  packed_wf _ := True;
  to_fields r := [tr_status r];
  of_fields vs := mkTradeRes (nth 0 vs 0)
|}.
#[export] Instance TradeResponse_laws : PackedLaws TradeResponse. Proof. int_packed. Qed.

Record MarketRequest := mkMarketReq { mq_ticker_id : Z }.
#[export] Instance MarketRequest_packed : Packed MarketRequest := {|
  packed_layout := [4]%nat;
  packed_wf _ := True;
  to_fields r := [mq_ticker_id r];
  of_fields vs := mkMarketReq (nth 0 vs 0)
|}.
#[export] Instance MarketRequest_laws : PackedLaws MarketRequest. Proof. int_packed. Qed.

Record MarketResponse := mkMarketRes { mk_status : Z; best_bid : Z; best_ask : Z }.
#[export] Instance MarketResponse_packed : Packed MarketResponse := {|
  packed_layout := [1; 8; 8]%nat;
  packed_wf _ := True;
  to_fields r := [mk_status r; best_bid r; best_ask r];
  of_fields vs := mkMarketRes (nth 0 vs 0) (nth 1 vs 0) (nth 2 vs 0)
|}.
#[export] Instance MarketResponse_laws : PackedLaws MarketResponse. Proof. int_packed. Qed.

Record HoldingItem := mkHolding { hi_ticker_id : Z; hi_quantity : Z }.
#[export] Instance HoldingItem_packed : Packed HoldingItem := {|
  packed_layout := [4; 4]%nat;
  packed_wf _ := True;
  to_fields r := [hi_ticker_id r; hi_quantity r];
  of_fields vs := mkHolding (nth 0 vs 0) (nth 1 vs 0)
|}.
#[export] Instance HoldingItem_laws : PackedLaws HoldingItem. Proof. int_packed. Qed.

(** The five list responses start with the same two fields: a status and the number of
    items that follow.  [HoldingsResponseHeader], [OrdersResponseHeader],
    [TrendResponseHeader], [NewsResponseHeader] and [StocksResponseHeader]. *)
Record ListResponseHeader := mkListHeader { lh_status : Z; lh_count : Z }.
#[export] Instance ListResponseHeader_packed : Packed ListResponseHeader := {|
  packed_layout := [1; 4]%nat;
  packed_wf _ := True;
  to_fields r := [lh_status r; lh_count r];
  of_fields vs := mkListHeader (nth 0 vs 0) (nth 1 vs 0)
|}.
#[export] Instance ListResponseHeader_laws : PackedLaws ListResponseHeader. Proof. int_packed. Qed.

Record OrderItem := mkOrderItem {
  oi_order_id : Z; oi_ticker_id : Z; oi_side : Z; oi_price : Z; oi_amount : Z
}.
#[export] Instance OrderItem_packed : Packed OrderItem := {|
  packed_layout := [8; 4; 1; 8; 8]%nat;
  packed_wf _ := True;
  to_fields r := [oi_order_id r; oi_ticker_id r; oi_side r; oi_price r; oi_amount r];
  of_fields vs := mkOrderItem (nth 0 vs 0) (nth 1 vs 0) (nth 2 vs 0) (nth 3 vs 0) (nth 4 vs 0)
|}.
#[export] Instance OrderItem_laws : PackedLaws OrderItem. Proof. int_packed. Qed.

Record TrendRequest := mkTrendReq { td_ticker_id : Z }.
#[export] Instance TrendRequest_packed : Packed TrendRequest := {|
  packed_layout := [4]%nat;
  packed_wf _ := True;
  to_fields r := [td_ticker_id r];
  of_fields vs := mkTrendReq (nth 0 vs 0)
|}.
#[export] Instance TrendRequest_laws : PackedLaws TrendRequest. Proof. int_packed. Qed.

Record NewsItem := mkNews { ni_time : Z; ni_title : bytes; ni_type : bytes; ni_symbol : bytes }.
#[export] Instance NewsItem_packed : Packed NewsItem := {|
  packed_layout := 4%nat :: chars 128 ++ chars 16 ++ chars 16;
  packed_wf n := length (ni_title n) = 128%nat /\ length (ni_type n) = 16%nat /\ length (ni_symbol n) = 16%nat;
  to_fields n := ni_time n :: ni_title n ++ ni_type n ++ ni_symbol n;
  of_fields vs := mkNews (nth 0 vs 0) (take 128 (drop 1 vs)) (take 16 (drop 129 vs)) (drop 145 vs)
|}.

Record StockItem := mkStock { si_ticker_id : Z; si_symbol : bytes }.
#[export] Instance StockItem_packed : Packed StockItem := {|
  packed_layout := 4%nat :: chars 16;
  packed_wf n := length (si_symbol n) = 16%nat;
  to_fields n := si_ticker_id n :: si_symbol n;
  of_fields vs := mkStock (nth 0 vs 0) (drop 1 vs)
|}.

(** ** Laws of the structs with [char] arrays *)

#[export] Instance AuthRequest_laws : PackedLaws AuthRequest.
Proof.
  split.
  - intros [u p] [Hu Hp]. simpl in *. f_equal; [apply take_app_length'|apply drop_app_length']; done.
  - intros vs Hvs. simpl in *. rewrite take_drop, length_take, length_drop, Hvs. done.
Qed.

#[export] Instance NewsItem_laws : PackedLaws NewsItem.
Proof.
  split.
  - intros [t a b c] (Ha & Hb & Hc). simpl in *.
    rewrite drop_0, take_app_length' by done.
    rewrite (drop_app_length' a _ 128) by done. rewrite take_app_length' by done. f_equal.
    replace 144%nat with (length a + 16)%nat by lia.
    rewrite <- drop_drop, drop_app_length. by apply drop_app_length'.
  - intros [|v vs] Hvs; simpl in Hvs; [discriminate|]. injection Hvs as Hvs. simpl. rewrite drop_0.
    replace (drop 144 vs) with (drop 16 (drop 128 vs)) by (rewrite drop_drop; done).
    rewrite !take_drop, !length_take, !length_drop, Hvs. done.
Qed.

#[export] Instance StockItem_laws : PackedLaws StockItem.
Proof.
  split.
  - by intros [t s] _.
  - intros [|v vs] Hvs; simpl in Hvs; [discriminate|]. injection Hvs as Hvs. simpl. by rewrite drop_0.
Qed.

(** The sizes the client and the handlers rely on. *)
Lemma protocol_sizes :
  (sizeof PacketHeader, sizeof AuthRequest, sizeof AuthResponse, sizeof TradeRequest, sizeof CancelRequest) =
    (6, 64, 9, 17, 12) /\
  (sizeof DepositRequest, sizeof DepositResponse, sizeof BalanceResponse, sizeof MarketRequest,
   sizeof MarketResponse) = (8, 9, 9, 4, 17) /\
  (sizeof ListResponseHeader, sizeof HoldingItem, sizeof OrderItem, sizeof NewsItem, sizeof StockItem) =
    (5, 8, 29, 164, 20).
Proof. done. Qed.

(** ** Headers on the wire *)

Lemma encode_header_length n t : length (encode_header n t) = 6%nat.
Proof. done. Qed.

Lemma encode_header_spec n t : encode_header n t = reverse (le_enc 4 n) ++ reverse (le_enc 2 t).
Proof. unfold encode_header, to_bytes. cbn [packed_layout to_fields PacketHeader_packed enc_fields ph_length ph_type].
  rewrite !le_enc_bswap, app_nil_r. done.
Qed.

Lemma decode_encode_header n t rest :
  inU 32 n -> inU 16 t -> decode_header (encode_header n t ++ rest) = (n, t).
Proof.
  intros Hn Ht. unfold decode_header, encode_header. rewrite of_to_bytes.
  - cbn [ph_length ph_type]. by rewrite !bswap_involutive.
  - split; [done|]. pose proof (bswap_bound 4 n). pose proof (bswap_bound 2 t).
    repeat constructor; cbn [ph_length ph_type]; lia.
Qed.

(** Decoding looks at the first six bytes only. *)
Lemma decode_header_app l rest : (6 <= length l)%nat -> decode_header (l ++ rest) = decode_header l.
Proof.
  intros Hl. unfold decode_header.
  rewrite <- (of_bytes_take (A := PacketHeader) (l ++ rest) 6), <- (of_bytes_take (A := PacketHeader) l 6) by done.
  by rewrite take_app_le.
Qed.

Lemma decode_header_range l : Forall is_byte l -> inU 32 (decode_header l).1 /\ inU 16 (decode_header l).2.
Proof. intros _. split; apply bswap_bound. Qed.

Lemma msg_code_inj t1 t2 : msg_code t1 = msg_code t2 -> t1 = t2.
Proof. by destruct t1, t2. Qed.

Lemma msg_code_range t : inU 16 (msg_code t).
Proof. destruct t; split; done. Qed.

#[export] Hint Resolve msg_code_range : exch.
