(* ===== verification/OrderIdGenerator.v ===== *)
(** * Order ids

    [include/OrderIdGenerator.hpp]: 42 bits of milliseconds since [EPOCH], 10 bits of node
    id and 12 bits of an atomic counter. *)

From S2P Require Import Prelude.
From stdpp Require Import base tactics list.
From Stdlib Require Import ZArith Lia.
Local Open Scope Z_scope.

Definition EPOCH : Z := 1767225600000.
Definition NODE_ID_BITS : Z := 10.
Definition SEQUENCE_BITS : Z := 12.
Definition MAX_NODE_ID : Z := u16 (Z.shiftl 1 NODE_ID_BITS - 1).
Definition MAX_SEQUENCE : Z := u16 (Z.shiftl 1 SEQUENCE_BITS - 1).
Definition NODE_ID_SHIFT : Z := SEQUENCE_BITS.
Definition TIMESTAMP_SHIFT : Z := SEQUENCE_BITS + NODE_ID_BITS.

Definition node_id_ : Z := 1.

(** The generator's state is [sequence_]; [fetch_add] returns the old value and wraps. *)
Definition fetch_add (seq : Z) : Z * Z := (seq, u32 (seq + 1)).

(** [generate()] at the clock reading [now] (milliseconds since 1970). *)
Definition generate (now seq : Z) : Z * Z :=
  let timestamp := u64 now in
  let '(s, seq') := fetch_add seq in
  (Z.lor (Z.lor (u64 (Z.shiftl (u64 (timestamp - EPOCH)) TIMESTAMP_SHIFT))
                (u64 (Z.shiftl node_id_ NODE_ID_SHIFT)))
         (Z.land s MAX_SEQUENCE),
   seq').

(** The ids of a run of calls at the readings [nows]. *)
Fixpoint generate_all (nows : list Z) (seq : Z) : list Z :=
  match nows with
  | [] => []
  | now :: nows' => let '(id, seq') := generate now seq in id :: generate_all nows' seq'
  end.

Example generate_example : generate (EPOCH + 5) 4097 = (5 * 2 ^ 22 + 2 ^ 12 + 1, 4098).
Proof. reflexivity. Qed.

(** ** Lemmas *)

(** A reading the id has room for: from [EPOCH] on, for 2^42 ms (139 years). *)
Definition in_epoch (now : Z) : Prop := EPOCH <= now < EPOCH + 2 ^ 42.

Lemma lor_disjoint_add a b n : 0 <= n -> 0 <= b < 2 ^ n -> Z.lor (a * 2 ^ n) b = a * 2 ^ n + b.
Proof.
  intros Hn Hb. rewrite <- (Z.add_lor_land (a * 2 ^ n) b).
  assert (Z.land (a * 2 ^ n) b = 0) as ->; [|lia].
  apply Z.bits_inj'. intros i Hi. rewrite Z.land_spec, Z.bits_0.
  rewrite <- Z.shiftl_mul_pow2, Z.shiftl_spec by lia.
  destruct (Z.eq_dec b 0) as [->|]; [by rewrite Z.bits_0, andb_false_r|].
  destruct (Z_lt_ge_dec i n).
  - rewrite (Z.testbit_neg_r a (i - n)) by lia. done.
  - rewrite (Z.bits_above_log2 b i), andb_false_r; [done|lia|].
    apply Z.log2_lt_pow2; [lia|]. eapply Z.lt_le_trans; [apply Hb|]. apply Z.pow_le_mono_r; lia.
Qed.

(** The three fields do not overlap. *)
Lemma generate_fields now seq :
  in_epoch now -> 0 <= seq ->
  fst (generate now seq) = (now - EPOCH) * 2 ^ 22 + node_id_ * 2 ^ 12 + seq mod 2 ^ 12.
Proof.
  unfold in_epoch, EPOCH. intros Hn Hs. unfold generate, fetch_add. cbn [fst].
  change (u64 (Z.shiftl node_id_ NODE_ID_SHIFT)) with (1 * 2 ^ 12).
  change MAX_SEQUENCE with (Z.ones 12). rewrite Z.land_ones by lia.
  unfold TIMESTAMP_SHIFT, SEQUENCE_BITS, NODE_ID_BITS, EPOCH. rewrite Z.shiftl_mul_pow2 by lia.
  rewrite (wrapU_id 64 now) by (unfold inU; lia).
  rewrite (wrapU_id 64 (now - _)) by (unfold inU; lia).
  rewrite wrapU_id by (unfold inU; change (12 + 10) with 22; lia).
  change (12 + 10) with 22. rewrite (lor_disjoint_add _ (1 * 2 ^ 12) 22) by lia.
  replace ((now - 1767225600000) * 2 ^ 22 + 1 * 2 ^ 12) with (((now - 1767225600000) * 2 ^ 10 + 1) * 2 ^ 12) by lia.
  pose proof (Z.mod_pos_bound seq (2 ^ 12)). rewrite lor_disjoint_add by lia. unfold node_id_. lia.
Qed.

Lemma generate_next now seq : snd (generate now seq) = u32 (seq + 1).
Proof. done. Qed.

(** The id of the call [i] calls later. *)
Lemma generate_all_nth nows seq i now :
  nows !! i = Some now -> 0 <= seq < 2 ^ 32 ->
  generate_all nows seq !! i = Some (fst (generate now (u32 (seq + Z.of_nat i)))).
Proof.
  revert seq i. induction nows as [|n nows IH]; intros seq i Hi Hs; [done|].
  cbn [generate_all generate fetch_add]. destruct i as [|i]; simpl in Hi |- *.
  - injection Hi as ->. rewrite Z.add_0_r, (wrapU_id 32 seq) by exact Hs. done.
  - rewrite (IH (u32 (seq + 1)) i Hi) by (apply wrapU_range; lia).
    replace (u32 (u32 (seq + 1) + Z.of_nat i)) with (u32 (seq + Z.of_nat (S i))); [done|].
    unfold wrapU. rewrite Zplus_mod_idemp_l. f_equal. lia.
Qed.

Lemma length_generate_all nows seq : length (generate_all nows seq) = length nows.
Proof. revert seq. induction nows; intros; simpl; [done|]. by f_equal. Qed.

Lemma generate_inj now1 now2 s1 s2 :
  in_epoch now1 -> in_epoch now2 -> 0 <= s1 -> 0 <= s2 ->
  fst (generate now1 s1) = fst (generate now2 s2) -> now1 = now2 /\ s1 mod 2 ^ 12 = s2 mod 2 ^ 12.
Proof.
  intros H1 H2 P1 P2. rewrite !generate_fields by done.
  pose proof (Z.mod_pos_bound s1 (2 ^ 12)). pose proof (Z.mod_pos_bound s2 (2 ^ 12)).
  intros E. assert (now1 = now2) by lia. subst. split; [done|lia].
Qed.

Lemma generate_bound now seq :
  in_epoch now -> 0 <= seq -> 0 <= fst (generate now seq) < 2 ^ 64.
Proof.
  intros Hn Hs. rewrite generate_fields by done. unfold in_epoch, EPOCH, node_id_ in *.
  pose proof (Z.mod_pos_bound seq (2 ^ 12)). lia.
Qed.

#[export] Hint Resolve generate_bound : exch.
