(* ===== verification/OrderIdTheorems.v ===== *)
(** * Theorems about the order ids

    The ids [OrderIdGenerator] hands out: when two calls collide, and the size of an id. *)

From S2P Require Import Prelude OrderIdGenerator.
From stdpp Require Import base tactics list.
From Stdlib Require Import ZArith Lia.
Local Open Scope Z_scope.

Lemma u32_mod_4096 s : u32 s mod 2 ^ 12 = s mod 2 ^ 12.
Proof.
  unfold wrapU. change (2 ^ 32) with (2 ^ 12 * 2 ^ 20).
  rewrite Z.rem_mul_r by lia. rewrite (Z.mul_comm (2 ^ 12)), Z_mod_plus_full. apply Zmod_mod.
Qed.

(** The ids of two calls, as values of [generate_fields]. *)
Lemma generate_all_inj nows seq i j n1 n2 :
  nows !! i = Some n1 -> nows !! j = Some n2 -> in_epoch n1 -> in_epoch n2 -> inU 32 seq ->
  generate_all nows seq !! i = generate_all nows seq !! j <->
  n1 = n2 /\ (seq + Z.of_nat i) mod 2 ^ 12 = (seq + Z.of_nat j) mod 2 ^ 12.
Proof.
  intros H1 H2 E1 E2 Hs. rewrite (generate_all_nth nows seq i n1 H1 Hs), (generate_all_nth nows seq j n2 H2 Hs).
  assert (forall k, 0 <= u32 (seq + Z.of_nat k)) as Hp
    by (intros k; apply (wrapU_range 32 (seq + Z.of_nat k)); lia).
  rewrite <- (u32_mod_4096 (seq + Z.of_nat i)), <- (u32_mod_4096 (seq + Z.of_nat j)).
  split.
  - intros [= E]. by apply generate_inj in E.
  - intros [-> E]. rewrite !generate_fields, E by done. done.
Qed.

Lemma mod_eq_diff a i j :
  (a + i) mod 2 ^ 12 = (a + j) mod 2 ^ 12 <-> (2 ^ 12 | i - j).
Proof.
  change (2 ^ 12) with 4096. split.
  - intros E. exists ((a + i) / 4096 - (a + j) / 4096).
    pose proof (Z.div_mod (a + i) 4096). pose proof (Z.div_mod (a + j) 4096). lia.
  - intros [k Hk]. replace (a + i) with (a + j + k * 4096) by lia. apply Z_mod_plus_full.
Qed.

(** C19: two calls of the id generator return the same id exactly when they read the same
    millisecond and a multiple of 4096 calls lies between them, whatever the starting value of
    the counter and across its wrap-around; so a run in which no two calls of one millisecond
    are 4096 or more apart has pairwise distinct ids.  Every id fits in 64 bits, and from 1024 ms
    after the epoch on no id fits in 32. *)
Theorem order_ids_distinct nows seq
  (Hclock : Forall in_epoch nows) (Hseq : inU 32 seq) :
  (forall i j n1 n2, nows !! i = Some n1 -> nows !! j = Some n2 ->
     generate_all nows seq !! i = generate_all nows seq !! j <->
     n1 = n2 /\ (4096 | Z.of_nat i - Z.of_nat j)) /\
  ((forall i j n, nows !! i = Some n -> nows !! j = Some n -> Z.of_nat i - Z.of_nat j < 4096) ->
   NoDup (generate_all nows seq)) /\
  (forall i n id, nows !! i = Some n -> generate_all nows seq !! i = Some id ->
     inU 64 id /\ (EPOCH + 1024 <= n -> 2 ^ 32 <= id)).
Proof.
  rewrite Forall_lookup in Hclock.
  assert (forall i j n1 n2, nows !! i = Some n1 -> nows !! j = Some n2 ->
     generate_all nows seq !! i = generate_all nows seq !! j <->
     n1 = n2 /\ (4096 | Z.of_nat i - Z.of_nat j)) as Hiff.
  { intros i j n1 n2 H1 H2. rewrite (generate_all_inj nows seq i j n1 n2) by eauto.
    by rewrite mod_eq_diff. }
  split_and!; [exact Hiff| |].
  - intros Hd. apply NoDup_alt. intros i j x Hi Hj.
    assert (forall k, generate_all nows seq !! k = Some x -> exists n, nows !! k = Some n) as Hn.
    { intros k Hk. apply lookup_lt_is_Some_2. rewrite <- (length_generate_all nows seq).
      apply lookup_lt_is_Some. eauto. }
    destruct (Hn i Hi) as [n1 H1], (Hn j Hj) as [n2 H2].
    destruct (proj1 (Hiff i j n1 n2 H1 H2)) as [-> [k Hk]]; [congruence|].
    pose proof (Hd i j n2 H1 H2). pose proof (Hd j i n2 H2 H1). lia.
  - intros i n id Hi Hid. rewrite (generate_all_nth nows seq i n Hi Hseq) in Hid. apply (inj Some) in Hid. subst id.
    assert (0 <= u32 (seq + Z.of_nat i)) as Hp by (apply (wrapU_range 32); lia).
    split; [by apply generate_bound; eauto|]. intros Hn.
    rewrite generate_fields by eauto. pose proof (Z.mod_pos_bound (u32 (seq + Z.of_nat i)) (2 ^ 12)).
    unfold node_id_. lia.
Qed.

Lemma order_ids_distinct_witness :
  NoDup (generate_all [EPOCH + 1024; EPOCH + 1024; EPOCH + 1025] (2 ^ 32 - 1)) /\
  2 ^ 32 <= (EPOCH + 1024 - EPOCH) * 2 ^ 22.
Proof.
  destruct (order_ids_distinct [EPOCH + 1024; EPOCH + 1024; EPOCH + 1025] (2 ^ 32 - 1)) as (_ & H & _).
  - repeat constructor; vm_compute; discriminate.
  - split; vm_compute; [discriminate|reflexivity].
  - split; [|vm_compute; discriminate]. apply H.
    intros [|[|[|i]]] [|[|[|j]]] n; simpl; try done; intros; lia.
Defined.
