(* ===== verification/Numerals.v ===== *)
(** * Decimal numerals

    The parts of the standard library the server uses to move numbers through strings:
    [std::to_string] and [std::stoull], [std::stoll], [std::stoi], [std::stoul].  The
    parsers skip white space, accept a sign, read the longest run of digits and ignore what
    follows; no digits at all ([std::invalid_argument]) and a value outside the type
    ([std::out_of_range]) are exceptions, [None] here. *)

From S2P Require Import Prelude Bytes.
From stdpp Require Import base strings list tactics.
From Stdlib Require Import ZArith Lia.
Local Open Scope Z_scope.

Definition is_space (c : Z) : bool := (c =? 32) || ((9 <=? c) && (c <=? 13)).
Definition is_digit (c : Z) : bool := (48 <=? c) && (c <=? 57).

Fixpoint skip_space (s : bytes) : bytes :=
  match s with
  | [] => []
  | c :: s' => if is_space c then skip_space s' else s
  end.

(** The value of the longest prefix of digits, [acc] being what was read before. *)
Fixpoint read_digits (acc : Z) (s : bytes) : Z :=
  match s with
  | [] => acc
  | c :: s' => if is_digit c then read_digits (10 * acc + (c - 48)) s' else acc
  end.

(** A sign and a magnitude, as [strtoull] and [strtoll] scan them. *)
Definition scan (s : bytes) : option (bool * Z) :=
  let number (neg : bool) (s : bytes) :=
    match s with
    | c :: _ => if is_digit c then Some (neg, read_digits 0 s) else None
    | [] => None
    end in
  match skip_space s with
  | c :: s' => if c =? 45 then number true s' else if c =? 43 then number false s' else number false (c :: s')
  | [] => None
  end.

(** [strtoull] negates modulo 2^64 when there is a minus sign. *)
Definition stoull (s : bytes) : option Z :=
  match scan s with
  | Some (neg, m) => if m <? 2 ^ 64 then Some (if neg then u64 (- m) else m) else None
  | None => None
  end.
(** [unsigned long] is 64 bits wide here too. *)
Definition stoul (s : bytes) : option Z := stoull s.

Definition sto_signed (w : Z) (s : bytes) : option Z :=
  match scan s with
  | Some (neg, m) => let z := if neg then - m else m in if decide (inS w z) then Some z else None
  | None => None
  end.
Definition stoll (s : bytes) : option Z := sto_signed 64 s.
Definition stoi (s : bytes) : option Z := sto_signed 32 s.

(** The digits of a positive number, most significant first; [fuel] bounds their number. *)
Fixpoint digits (fuel : nat) (n : Z) (rest : bytes) : bytes :=
  match fuel with
  | O => rest
  | S fuel' => if n <? 10 then (48 + n) :: rest else digits fuel' (n / 10) ((48 + n mod 10) :: rest)
  end.

(** A number has at most as many decimal digits as bits. *)
Definition digit_fuel (n : Z) : nat := S (Z.to_nat (Z.log2 n)).

Definition to_string (z : Z) : bytes :=
  if z <? 0 then 45 :: digits (digit_fuel (- z)) (- z) [] else digits (digit_fuel z) z [].

Example to_string_ex : (to_string 0, to_string 12050, to_string (-7)) = (str "0", str "12050", str "-7").
Proof. reflexivity. Qed.
Example sto_ex :
  (stoull (str " 42abc"), stoull (str "-1"), stoll (str "-12.5"), stoi (str "2147483648"), stoi (str "x")) =
  (Some 42, Some (2 ^ 64 - 1), Some (-12), None, None).
Proof. reflexivity. Qed.

(** ** The parsers read back what [to_string] prints *)

Lemma is_digit_48 d : 0 <= d < 10 -> is_digit (48 + d) = true.
Proof. intros. unfold is_digit. apply andb_true_iff; split; apply Z.leb_le; lia. Qed.

(** [n] is the value of the digits printed for it. *)
Lemma read_digits_digits fuel n acc rest :
  0 <= n -> n < 10 ^ Z.of_nat fuel ->
  exists k, 0 <= k /\ n < 10 ^ k /\
    read_digits acc (digits fuel n rest) = read_digits (acc * 10 ^ k + n) rest.
Proof.
  revert n acc rest. induction fuel as [|fuel IH]; intros n acc rest Hn Hf.
  { exists 0. simpl in *. split_and!; [lia|lia|]. f_equal. lia. }
  cbn [digits]. destruct (n <? 10) eqn:E; zbool.
  - exists 1. rewrite Z.pow_1_r. split_and!; [lia|lia|]. cbn [read_digits]. rewrite is_digit_48 by lia. f_equal. lia.
  - rewrite Nat2Z.inj_succ, Z.pow_succ_r in Hf by lia.
    destruct (IH (n / 10) acc ((48 + n mod 10) :: rest)) as (k & Hk & Hlt & ->).
    { apply Z.div_pos; lia. } { apply Z.div_lt_upper_bound; lia. }
    exists (k + 1). rewrite Z.pow_add_r by lia. change (10 ^ 1) with 10.
    pose proof (Z.div_mod n 10 ltac:(lia)) as Hdm. pose proof (Z.mod_pos_bound n 10 ltac:(lia)) as Hm.
    split_and!; [lia|lia|].
    cbn [read_digits]. rewrite is_digit_48 by lia. f_equal. nia.
Qed.

Lemma digits_head fuel n rest : 0 <= n -> exists c s, digits (S fuel) n rest = c :: s /\ is_digit c = true.
Proof.
  revert n rest. induction fuel as [|fuel IH]; intros n rest Hn; cbn [digits].
  - destruct (n <? 10) eqn:E; zbool; eexists _, _; (split; [reflexivity|apply is_digit_48]); [lia|apply Z.mod_pos_bound; lia].
  - destruct (n <? 10) eqn:E; zbool; [eexists _, _; split; [done|apply is_digit_48; lia]|].
    apply IH. apply Z.div_pos; lia.
Qed.

Lemma digit_fuel_enough n : 0 <= n -> n < 10 ^ Z.of_nat (digit_fuel n).
Proof.
  intros Hn. unfold digit_fuel. rewrite Nat2Z.inj_succ, Z2Nat.id by apply Z.log2_nonneg.
  destruct (Z.eq_dec n 0) as [->|]; [done|].
  eapply Z.lt_le_trans; [apply (Z.log2_spec n); lia|].
  apply Z.pow_le_mono_l. lia.
Qed.

Lemma read_digits_print n : 0 <= n -> read_digits 0 (digits (digit_fuel n) n []) = n.
Proof.
  intros Hn. destruct (read_digits_digits (digit_fuel n) n 0 [] Hn (digit_fuel_enough n Hn)) as (k & _ & _ & ->).
  simpl. lia.
Qed.

Lemma digit_not_sign c : is_digit c = true -> is_space c = false /\ (c =? 45) = false /\ (c =? 43) = false.
Proof.
  unfold is_digit, is_space. intros [H1 H2]%andb_true_iff. zbool.
  split_and!; [|apply Z.eqb_neq; lia..].
  apply orb_false_iff; split; [apply Z.eqb_neq; lia|]. apply andb_false_iff. right. apply Z.leb_gt. lia.
Qed.

Lemma scan_to_string z : scan (to_string z) = Some (z <? 0, Z.abs z).
Proof.
  unfold to_string, scan. destruct (z <? 0) eqn:E; zbool.
  - cbn [skip_space]. change (is_space 45) with false. cbn [Z.eqb Pos.eqb].
    destruct (digits_head (Z.to_nat (Z.log2 (- z))) (- z) [] ltac:(lia)) as (c & s & Hd & Hc).
    unfold digit_fuel at 1. rewrite Hd, Hc.
    rewrite (read_digits_print (- z)) by lia. do 2 f_equal. lia.
  - destruct (digits_head (Z.to_nat (Z.log2 z)) z [] ltac:(lia)) as (c & s & Hd & Hc).
    unfold digit_fuel at 1. rewrite Hd. cbn [skip_space].
    destruct (digit_not_sign c Hc) as (-> & -> & ->). rewrite Hc, <- Hd.
    change (S (Z.to_nat (Z.log2 z))) with (digit_fuel z). rewrite (read_digits_print z) by lia. do 2 f_equal. lia.
Qed.

Lemma stoull_to_string z : inU 64 z -> stoull (to_string z) = Some z.
Proof.
  intros Hz. unfold stoull, inU in *. rewrite scan_to_string.
  destruct (Z.ltb_spec (Z.abs z) (2 ^ 64)); [|lia]. destruct (Z.ltb_spec z 0); f_equal; lia.
Qed.

Lemma sto_signed_to_string w z : inS w z -> sto_signed w (to_string z) = Some z.
Proof.
  intros Hz. unfold sto_signed. rewrite scan_to_string.
  assert ((if z <? 0 then - Z.abs z else Z.abs z) = z) as -> by (destruct (Z.ltb_spec z 0); lia).
  by rewrite decide_True.
Qed.

#[export] Hint Resolve stoull_to_string sto_signed_to_string : exch.
