(* ===== verification/MySQL.v ===== *)
(** * The MySQL client library

    The server reaches its database through the C API of the MySQL client.  That library
    and the database behind it are not part of the repository: they are the class [MySQL]
    over an abstract state [D].  Every call may fail, so the results are the ones the API
    documents: 0 or non-zero, a null pointer or not.  Module [Sql] is what MySQL documents of the
    statements the repositories update the database with. *)

From S2P Require Import Prelude Bytes.
From stdpp Require Import base strings option list gmap.
From Stdlib Require Import ZArith Lia.
Local Open Scope Z_scope.

(** A [MYSQL_ROW]: a C string per column, [None] for [NULL]. *)
Abbreviation row := (list (option bytes)).

(** An input [MYSQL_BIND]. *)
Inductive param := PString (s : bytes) | PLong (z : Z) | PLongLong (z : Z).

Class MySQL (D : Type) := {
  mysql_query : bytes -> D -> Z * D;
  mysql_store_result : D -> option (list row) * D;
  mysql_real_escape_string : bytes -> bytes;
  mysql_stmt_init : D -> option nat * D;
  mysql_stmt_prepare : nat -> bytes -> D -> Z * D;
  mysql_stmt_bind_param : nat -> list param -> D -> Z * D;
  mysql_stmt_execute : nat -> D -> Z * D;
  mysql_stmt_store_result : nat -> D -> Z * D;
  mysql_stmt_num_rows : nat -> D -> Z;
  mysql_stmt_bind_result : nat -> D -> Z * D;
  (** the returned status and what was written to the bound integer, if anything *)
  mysql_stmt_fetch : nat -> D -> Z * option Z * D;
  mysql_stmt_affected_rows : nat -> D -> Z;
  mysql_stmt_close : nat -> D -> D
}.

(** Column [i] of a fetched row; a null pointer where the code does not test for one is a
    crash, [None]. *)
Definition column (r : row) (i : nat) : option bytes := mjoin (r !! i).

(** [if (!mysql_query(sql)) { res = mysql_store_result(); if (res) while (row = fetch) f }]:
    the rows the loop sees. *)
Definition query_rows {D} `{MySQL D} (sql : bytes) (d : D) : list row * D :=
  let '(err, d1) := mysql_query sql d in
  if err =? 0 then
    let '(res, d2) := mysql_store_result d1 in (default [] res, d2)
  else ([], d1).

(** ** The statements of the repositories

    The few forms of statement the repositories prepare: [UPDATE .. SET c = c + ? WHERE ..],
    [INSERT .. ON DUPLICATE KEY UPDATE c = c + ?] and [SELECT].  [parse] reads the text of a
    statement, [run_statement] applies it to the two tables, keyed as the README's schema
    declares them ([username] is unique in [accounts], and [(username, symbol)] is the key of
    [holdings]); strings compare byte by byte. *)
Module Sql.

Record Tables := mkTables {
  t_accounts : gmap bytes Z;              (* username -> balance *)
  t_holdings : gmap (bytes * bytes) Z     (* username, symbol -> quantity *)
}.

(** *** Syntax *)

Inductive table := Accounts | Holdings.
Inductive column_name := Username | Symbol | Balance | Quantity.
Inductive comparison_op := Equal | AtLeast.

#[export] Instance column_name_eq_dec : EqDecision column_name.
Proof. solve_decision. Defined.

(** [target = source + ?] or [target = source - ?]. *)
Record assignment := mkAssign { target : column_name; source : column_name; adds : bool }.

(** A condition compares a column with the next parameter. *)
Inductive statement :=
| Select
| Update (t : table) (a : assignment) (conds : list (column_name * comparison_op))
| Upsert (t : table) (cols : list column_name) (a : assignment).

(** Words, and the other characters one by one; blanks separate. *)
Definition is_word_char (c : Z) : bool :=
  ((97 <=? c) && (c <=? 122)) || ((65 <=? c) && (c <=? 90)) || ((48 <=? c) && (c <=? 57)) || (c =? 95).

Fixpoint tokens (word : bytes) (l : bytes) : list bytes :=
  let flush ts := match word with [] => ts | _ => word :: ts end in
  match l with
  | [] => flush []
  | c :: l' =>
      if is_word_char c then tokens (word ++ [c]) l'
      else flush (if c =? 32 then tokens [] l' else [c] :: tokens [] l')
  end.

Fixpoint eat (ws ts : list bytes) : option (list bytes) :=
  match ws, ts with
  | [], _ => Some ts
  | w :: ws', t :: ts' => if decide (t = w) then eat ws' ts' else None
  | _, [] => None
  end.

Definition parse_table (ts : list bytes) : option (table * list bytes) :=
  match ts with
  | t :: ts' =>
      if decide (t = str "accounts") then Some (Accounts, ts')
      else if decide (t = str "holdings") then Some (Holdings, ts') else None
  | [] => None
  end.

Definition parse_column (ts : list bytes) : option (column_name * list bytes) :=
  match ts with
  | t :: ts' =>
      if decide (t = str "username") then Some (Username, ts')
      else if decide (t = str "symbol") then Some (Symbol, ts')
      else if decide (t = str "balance") then Some (Balance, ts')
      else if decide (t = str "quantity") then Some (Quantity, ts') else None
  | [] => None
  end.

Definition parse_assignment (ts : list bytes) : option (assignment * list bytes) :=
  '(c, ts) ← parse_column ts; ts ← eat [str "="] ts; '(c', ts) ← parse_column ts;
  match ts with
  | op :: mark :: ts' =>
      if decide (mark = str "?") then
        if decide (op = str "+") then Some (mkAssign c c' true, ts')
        else if decide (op = str "-") then Some (mkAssign c c' false, ts') else None
      else None
  | _ => None
  end.

(** [c = ? AND c >= ? AND ..], to the end. *)
Fixpoint parse_conds (fuel : nat) (ts : list bytes) : option (list (column_name * comparison_op)) :=
  match fuel with
  | O => None
  | S fuel' =>
      '(c, ts) ← parse_column ts;
      '(op, ts) ← match eat [str "="; str "?"] ts with
                  | Some ts' => Some (Equal, ts')
                  | None => (fun ts' => (AtLeast, ts')) <$> eat [str ">"; str "="; str "?"] ts
                  end;
      match ts with
      | [] => Some [(c, op)]
      | _ => ts ← eat [str "AND"] ts; cons (c, op) <$> parse_conds fuel' ts
      end
  end.

(** [(c, .., c)]. *)
Fixpoint parse_columns (fuel : nat) (ts : list bytes) : option (list column_name * list bytes) :=
  match fuel with
  | O => None
  | S fuel' =>
      '(c, ts) ← parse_column ts;
      match eat [str ")"] ts with
      | Some ts' => Some ([c], ts')
      | None => ts ← eat [str ","] ts; '(cs, ts) ← parse_columns fuel' ts; Some (c :: cs, ts)
      end
  end.

Definition parse_tokens (ts : list bytes) : option statement :=
  match eat [str "SELECT"] ts with
  | Some _ => Some Select
  | None =>
      match eat [str "UPDATE"] ts with
      | Some ts =>
          '(t, ts) ← parse_table ts; ts ← eat [str "SET"] ts; '(a, ts) ← parse_assignment ts;
          ts ← eat [str "WHERE"] ts; Update t a <$> parse_conds (length ts) ts
      | None =>
          ts ← eat [str "INSERT"; str "INTO"] ts; '(t, ts) ← parse_table ts;
          ts ← eat [str "("] ts; '(cs, ts) ← parse_columns (length ts) ts;
          ts ← eat ([str "VALUES"; str "("; str "?"] ++ concat (replicate (length cs - 1) [str ","; str "?"]) ++ [str ")"]) ts;
          ts ← eat [str "ON"; str "DUPLICATE"; str "KEY"; str "UPDATE"] ts;
          '(a, ts) ← parse_assignment ts;
          match ts with [] => Some (Upsert t cs a) | _ => None end
      end
  end.

Definition parse (sql : bytes) : option statement := parse_tokens (tokens [] sql).

(** *** Semantics *)

Inductive value := VText (b : bytes) | VInt (z : Z).

Definition param_value (p : param) : value :=
  match p with PString s => VText s | PLong z | PLongLong z => VInt z end.

Definition account_column (u : bytes) (b : Z) (c : column_name) : option value :=
  match c with Username => Some (VText u) | Balance => Some (VInt b) | _ => None end.
Definition holding_column (k : bytes * bytes) (q : Z) (c : column_name) : option value :=
  match c with Username => Some (VText k.1) | Symbol => Some (VText k.2) | Quantity => Some (VInt q) | _ => None end.

Definition compare (op : comparison_op) (x p : value) : bool :=
  match op, x, p with
  | Equal, VText a, VText b => bool_decide (a = b)
  | Equal, VInt a, VInt b => a =? b
  | AtLeast, VInt a, VInt b => b <=? a
  | _, _, _ => false
  end.

(** The row satisfies all conditions, each with its parameter. *)
Fixpoint selected (row : column_name -> option value) (conds : list (column_name * comparison_op)) (ps : list value) : bool :=
  match conds, ps with
  | [], [] => true
  | (c, op) :: conds', p :: ps' =>
      match row c with Some x => compare op x p && selected row conds' ps' | None => false end
  | _, _ => false
  end.

Definition assigned (a : assignment) (z delta : Z) : Z := if adds a then z + delta else z - delta.

(** An update of an integer column: the new rows, and how many of them changed. *)
Definition update_rows {K} `{Countable K} (row : K -> Z -> column_name -> option value) (a : assignment)
    (conds : list (column_name * comparison_op)) (delta : Z) (ps : list value) (m : gmap K Z) : gmap K Z * Z :=
  let hit k z := selected (row k z) conds ps in
  (map_imap (fun k z => Some (if hit k z then assigned a z delta else z)) m,
   if delta =? 0 then 0 else Z.of_nat (size (filter (fun kz => hit kz.1 kz.2 = true) m))).

(** The tables after a statement, and the number of rows it affects where the code asks for
    it; [None]: not one of the forms above. *)
Definition run_statement (st : statement) (ps : list param) (t : Tables) : option (Tables * option Z) :=
  match st, map param_value ps with
  | Select, _ => Some (t, None)
  | Update Accounts (mkAssign Balance Balance s) conds, VInt delta :: ps' =>
      let '(m, n) := update_rows account_column (mkAssign Balance Balance s) conds delta ps' (t_accounts t) in
      Some (mkTables m (t_holdings t), Some n)
  | Update Holdings (mkAssign Quantity Quantity s) conds, VInt delta :: ps' =>
      let '(m, n) := update_rows holding_column (mkAssign Quantity Quantity s) conds delta ps' (t_holdings t) in
      Some (mkTables (t_accounts t) m, Some n)
  | Upsert Holdings [Username; Symbol; Quantity] (mkAssign Quantity Quantity s), [VText u; VText y; VInt q; VInt delta] =>
      let q' := match t_holdings t !! (u, y) with
                | Some z => assigned (mkAssign Quantity Quantity s) z delta
                | None => q
                end in
      Some (mkTables (t_accounts t) (<[(u, y) := q']> (t_holdings t)), None)
  | _, _ => None
  end.

(** *** Facts *)

(** When only the row of one key can be selected. *)
Lemma filter_one_key {K} `{Countable K} (P : K * Z -> Prop) `{!forall x, Decision (P x)} (m : gmap K Z) k :
  (forall k' z, P (k', z) -> k' = k) ->
  Z.of_nat (size (filter P m)) =
    match m !! k with Some z => if decide (P (k, z)) then 1 else 0 | None => 0 end.
Proof.
  intros HP. destruct (m !! k) as [z|] eqn:Hk; [destruct (decide (P (k, z))) as [Hz|Hz]|].
  - assert (filter P m = {[ k := z ]}) as ->; [|by rewrite map_size_singleton].
    apply map_eq. intros k'. destruct (decide (k' = k)) as [->|Hne].
    + rewrite lookup_singleton_eq. by apply map_lookup_filter_Some.
    + rewrite lookup_singleton_ne by done. apply map_lookup_filter_None. right. intros z' _ H'. by apply HP in H'.
  - assert (filter P m = ∅) as ->; [|by rewrite map_size_empty].
    apply map_eq. intros k'. rewrite lookup_empty. apply map_lookup_filter_None. right. intros z' Hz' H'.
    pose proof (HP _ _ H') as ->. simplify_eq. done.
  - assert (filter P m = ∅) as ->; [|by rewrite map_size_empty].
    apply map_eq. intros k'. rewrite lookup_empty. apply map_lookup_filter_None. right. intros z' Hz' H'.
    pose proof (HP _ _ H') as ->. congruence.
Qed.

(** An update whose conditions select at most the row of [k], and it exactly when [ok]. *)
Lemma update_one_row {K} `{Countable K} row a conds delta ps (m : gmap K Z) k (ok : Z -> bool) :
  (forall k' z, selected (row k' z) conds ps = if decide (k' = k) then ok z else false) ->
  let '(m', n) := update_rows row a conds delta ps m in
  (forall k', m' !! k' = if decide (k' = k) then (fun z => if ok z then assigned a z delta else z) <$> m !! k else m !! k') /\
  n = match m !! k with Some z => if (delta =? 0) || negb (ok z) then 0 else 1 | None => 0 end.
Proof.
  intros Hsel. unfold update_rows. split.
  - intros k'. rewrite map_lookup_imap. destruct (decide (k' = k)) as [->|Hne].
    + destruct (m !! k) as [z|]; [|done]. simpl. by rewrite Hsel, decide_True.
    + destruct (m !! k') as [z|]; [|done]. simpl. by rewrite Hsel, decide_False.
  - destruct (delta =? 0); [by destruct (m !! k)|].
    rewrite (filter_one_key _ m k).
    + destruct (m !! k) as [z|]; [|done]. simpl. rewrite Hsel, (decide_True (P := k = k)) by done.
      by destruct (ok z).
    + intros k' z. simpl. rewrite Hsel. by destruct (decide (k' = k)).
Qed.
End Sql.
