(* ===== verification/TickerManager.v ===== *)
(** * Tickers

    [include/TickerManager.hpp]: the two maps between ticker symbols and ids, filled from
    the table [stocks]. *)

From S2P Require Import Prelude Bytes Numerals MySQL.
From stdpp Require Import base strings list gmap.
From Stdlib Require Import ZArith Lia.
Local Open Scope Z_scope.

Record TickerManager := mkTickers {
  symbol_to_id_ : gmap bytes Z;
  id_to_symbol_ : gmap Z bytes
}.

Definition empty_tickers : TickerManager := mkTickers ∅ ∅.

Definition add_ticker (symbol : bytes) (id : Z) (t : TickerManager) : TickerManager :=
  mkTickers (<[symbol := id]> (symbol_to_id_ t)) (<[id := symbol]> (id_to_symbol_ t)).

(** One row of the result: [uint32_t id = std::stoul(row\[0\]); symbol = row\[1\]]. *)
Definition load_ticker_row (t : TickerManager) (r : row) : option TickerManager :=
  c0 ← column r 0; id ← stoul c0; symbol ← column r 1; Some (add_ticker symbol (u32 id) t).

Fixpoint load_tickers (t : TickerManager) (rows : list row) : option TickerManager :=
  match rows with
  | [] => Some t
  | r :: rows' => t' ← load_ticker_row t r; load_tickers t' rows'
  end.

Definition load_tickers_sql : bytes := str "SELECT id, symbol FROM stocks".

(** [loadAllTickersFromDB()]: an exception of [std::stoul] escapes. *)
Definition loadAllTickersFromDB {D} `{MySQL D} (t : TickerManager) (d : D) : option (TickerManager * D) :=
  let '(rows, d') := query_rows load_tickers_sql d in
  t' ← load_tickers t rows; Some (t', d').

Definition getTickerId (t : TickerManager) (symbol : bytes) : Z :=
  default 0 (symbol_to_id_ t !! symbol).

Definition getSymbol (t : TickerManager) (ticker_id : Z) : bytes :=
  default (str "UNKNOWN") (id_to_symbol_ t !! ticker_id).

(** The iteration order of the [unordered_map] is unspecified. *)
Definition getAllTickerIds (t : TickerManager) : list Z := fst <$> map_to_list (id_to_symbol_ t).

(** ** Lemmas *)

(** The maps are inverse to each other. *)
Definition tickers_ok (t : TickerManager) : Prop :=
  forall symbol id, symbol_to_id_ t !! symbol = Some id <-> id_to_symbol_ t !! id = Some symbol.

Lemma tickers_ok_empty : tickers_ok empty_tickers.
Proof. intros s i. simpl. by rewrite !lookup_empty. Qed.

Lemma add_ticker_ok symbol id t :
  tickers_ok t -> symbol_to_id_ t !! symbol = None -> id_to_symbol_ t !! id = None ->
  tickers_ok (add_ticker symbol id t).
Proof.
  intros Ht Hs Hi s i. simpl. rewrite !lookup_insert_Some. specialize (Ht s i). split.
  - intros [[<- <-]|[Hne H]]; [by left|]. right. split; [|by apply Ht]. intros ->. apply Ht in H. congruence.
  - intros [[<- <-]|[Hne H]]; [by left|]. right. split; [|by apply Ht]. intros ->. apply Ht in H. congruence.
Qed.

(** A table whose rows are the given tickers. *)
Definition ticker_row (p : Z * bytes) : row := [Some (to_string p.1); Some p.2].

Lemma load_ticker_row_print t p :
  inU 32 p.1 -> load_ticker_row t (ticker_row p) = Some (add_ticker p.2 p.1 t).
Proof.
  intros Hp. unfold load_ticker_row, ticker_row, column. cbn. unfold stoul.
  rewrite stoull_to_string by (mword). cbn. by rewrite wrapU_id.
Qed.

Lemma load_tickers_print ps t :
  tickers_ok t -> Forall (fun p => inU 32 p.1) ps -> NoDup ps.*1 -> NoDup ps.*2 ->
  (forall p, p ∈ ps -> id_to_symbol_ t !! p.1 = None /\ symbol_to_id_ t !! p.2 = None) ->
  exists t', load_tickers t (ticker_row <$> ps) = Some t' /\ tickers_ok t' /\
    (forall id s, id_to_symbol_ t' !! id = Some s <-> (id, s) ∈ ps \/ id_to_symbol_ t !! id = Some s).
Proof.
  revert t. induction ps as [|[id s] ps IH]; intros t Ht Hr Hn1 Hn2 Hfresh; simpl.
  { exists t. split_and!; [done..|]. intros. set_solver. }
  inversion_clear Hr as [|? ? Hid Hr']. inversion_clear Hn1 as [|? ? Hi1 Hn1']. inversion_clear Hn2 as [|? ? Hi2 Hn2'].
  destruct (Hfresh (id, s) ltac:(inlist)) as [Hf1 Hf2]. simpl in *.
  rewrite load_ticker_row_print by done. simpl.
  edestruct (IH (add_ticker s id t)) as (t' & Hl & Hok & Hspec); [by apply add_ticker_ok|done..| |].
  - intros [id' s'] Hin. destruct (Hfresh (id', s') ltac:(inlist)) as [H1 H2]. simpl in *.
    split; apply lookup_insert_None; (split; [done|]); intros ->;
      [apply Hi1|apply Hi2]; apply list_elem_of_fmap; eexists; (split; [|exact Hin]); done.
  - exists t'. split_and!; [exact Hl|done|]. intros id' s'. rewrite Hspec. simpl.
    rewrite lookup_insert_Some, elem_of_cons. split.
    + intros [?|[[-> ->]|[? ?]]]; auto.
    + intros [[[= -> ->]|?]|H']; auto. right. right. split; [|done]. intros ->. congruence.
Qed.

Lemma getTickerId_getSymbol t symbol id :
  tickers_ok t -> id_to_symbol_ t !! id = Some symbol -> getTickerId t symbol = id /\ getSymbol t id = symbol.
Proof. intros Ht Hi. unfold getTickerId, getSymbol. apply Ht in Hi as Hs. by rewrite Hs, Hi. Qed.
