(* ===== verification/Accounts.v ===== *)
(** * Accounts: the operations of the user manager over an account store

    [include/UserManager.hpp].  [UserManager] keeps its accounts behind raw pointers in 256
    buckets; its asset operations fetch the pointer and update the account under the
    account's mutex.  What they need of the store is the class [AccountStore]; the
    operations are defined and specified here against that interface, and UserManager.v
    gives the sharded store that implements it. *)

From S2P Require Import Prelude Bytes.
From stdpp Require Import base strings list gmap.
From Stdlib Require Import ZArith Lia.
Local Open Scope Z_scope.

Record UserAccount := mkAccount {
  acc_user_id : Z;                 (* uint64_t *)
  acc_username : bytes;
  available_balance : Z;           (* int64_t *)
  frozen_balance : Z;              (* int64_t *)
  available_stock : gmap Z Z;      (* uint32_t -> int *)
  frozen_stock : gmap Z Z
}.

(** [std::make_unique<UserAccount>()] with the id and the name set. *)
Definition new_account (uid : Z) (name : bytes) : UserAccount := mkAccount uid name 0 0 ∅ ∅.

(** [m\[k\]] of a map of integers reads 0 when absent (and creates the entry). *)
Definition stock (m : gmap Z Z) (t : Z) : Z := default 0 (m !! t).
Definition touch (t : Z) (m : gmap Z Z) : gmap Z Z := <[t := stock m t]> m.
(** [m\[k\] += q]. *)
Definition stock_add (t q : Z) (m : gmap Z Z) : gmap Z Z := <[t := i32 (stock m t + q)]> m.

Definition with_balances (a : UserAccount) (av fr : Z) : UserAccount :=
  mkAccount (acc_user_id a) (acc_username a) av fr (available_stock a) (frozen_stock a).
Definition with_stocks (a : UserAccount) (av fr : gmap Z Z) : UserAccount :=
  mkAccount (acc_user_id a) (acc_username a) (available_balance a) (frozen_balance a) av fr.

(** ** The bodies, on the account the pointer designates *)

Definition freeze_balance (amount : Z) (a : UserAccount) : UserAccount * bool :=
  if amount <=? available_balance a then
    (with_balances a (i64 (available_balance a - amount)) (i64 (frozen_balance a + amount)), true)
  else (a, false).

Definition freeze_stock (ticker qty : Z) (a : UserAccount) : UserAccount * bool :=
  let av := touch ticker (available_stock a) in
  if qty <=? stock av ticker then
    (with_stocks a (stock_add ticker (- qty) av) (stock_add ticker qty (frozen_stock a)), true)
  else (with_stocks a av (frozen_stock a), false).

Definition commit_buy (ticker cost qty refund_diff : Z) (a : UserAccount) : UserAccount :=
  let a1 := with_balances a (i64 (available_balance a + refund_diff))
              (i64 (frozen_balance a - i64 (cost + refund_diff))) in
  with_stocks a1 (stock_add ticker qty (available_stock a1)) (frozen_stock a1).

Definition commit_sell (ticker revenue qty : Z) (a : UserAccount) : UserAccount :=
  let a1 := with_stocks a (available_stock a) (stock_add ticker (- qty) (frozen_stock a)) in
  with_balances a1 (i64 (available_balance a1 + revenue)) (frozen_balance a1).

Definition unfreeze_balance (amount : Z) (a : UserAccount) : UserAccount :=
  with_balances a (i64 (available_balance a + amount)) (i64 (frozen_balance a - amount)).

Definition unfreeze_stock (ticker qty : Z) (a : UserAccount) : UserAccount :=
  with_stocks a (stock_add ticker qty (available_stock a)) (stock_add ticker (- qty) (frozen_stock a)).

Definition add_balance (amount : Z) (a : UserAccount) : UserAccount :=
  with_balances a (i64 (available_balance a + amount)) (frozen_balance a).

(** ** The store *)

Class AccountStore (S : Type) := {
  store_ok : S -> Prop;
  (** [getAccount(uid)], dereferenced *)
  acct : S -> Z -> option UserAccount;
  (** a write through the pointer [getAccount(uid)] *)
  set_acct : S -> Z -> UserAccount -> S;
  createUserAccount : S -> Z -> bytes -> S;
  getId : S -> bytes -> Z
}.

Class AccountStoreLaws (S : Type) `{AccountStore S} : Prop := {
  acct_id s uid a : store_ok s -> acct s uid = Some a -> acc_user_id a = uid;
  set_acct_ok s uid a a' :
    store_ok s -> acct s uid = Some a -> acc_user_id a' = acc_user_id a -> acc_username a' = acc_username a ->
    store_ok (set_acct s uid a');
  acct_set s uid a a' uid' :
    store_ok s -> acct s uid = Some a -> acc_user_id a' = acc_user_id a -> acc_username a' = acc_username a ->
    acct (set_acct s uid a') uid' = if decide (uid' = uid) then Some a' else acct s uid';
  create_ok s uid name : store_ok s -> store_ok (createUserAccount s uid name);
  acct_create s uid name uid' :
    store_ok s ->
    acct (createUserAccount s uid name) uid' =
      if decide (uid' = uid) then Some (default (new_account uid name) (acct s uid)) else acct s uid';
  getId_found s uid a :
    store_ok s -> acct s uid = Some a ->
    exists a', acct s (getId s (acc_username a)) = Some a' /\ acc_username a' = acc_username a;
  getId_missing s name :
    store_ok s -> (forall uid a, acct s uid = Some a -> acc_username a <> name) -> getId s name = 0
}.

(** ** The operations *)

Section Operations.
Context {S : Type} `{AccountStore S}.
Implicit Types (s : S) (uid ticker amount qty : Z).

(** [UserAccount* acc = getAccount(uid); if (!acc) return d; lock; f]. *)
Definition on_account {B} (s : S) (uid : Z) (d : B) (f : UserAccount -> UserAccount * B) : S * B :=
  match acct s uid with
  | None => (s, d)
  | Some a => let '(a', b) := f a in (set_acct s uid a', b)
  end.
Definition update_account (s : S) (uid : Z) (f : UserAccount -> UserAccount) : S :=
  fst (on_account s uid tt (fun a => (f a, tt))).

Definition getName (s : S) (uid : Z) : bytes :=
  match acct s uid with Some a => acc_username a | None => str "UNKNOWN" end.

Definition tryFreezeBalance s uid amount : S * bool := on_account s uid false (freeze_balance amount).
Definition tryFreezeStock s uid ticker qty : S * bool := on_account s uid false (freeze_stock ticker qty).
Definition commitBuy s uid ticker cost qty refund_diff : S :=
  update_account s uid (commit_buy ticker cost qty refund_diff).
Definition commitSell s uid ticker revenue qty : S := update_account s uid (commit_sell ticker revenue qty).
Definition unfreezeBalance s uid amount : S := update_account s uid (unfreeze_balance amount).
Definition unfreezeStock s uid ticker qty : S := update_account s uid (unfreeze_stock ticker qty).
Definition addBalance s uid amount : S := update_account s uid (add_balance amount).
Definition getBalance s uid : Z := match acct s uid with Some a => available_balance a | None => 0 end.
Definition getHoldings s uid : gmap Z Z := match acct s uid with Some a => available_stock a | None => ∅ end.
End Operations.

(** ** Lemmas on the bodies *)

Definition keeps_identity (f : UserAccount -> UserAccount) : Prop :=
  forall a, acc_user_id (f a) = acc_user_id a /\ acc_username (f a) = acc_username a.

Lemma freeze_balance_identity amount : keeps_identity (fun a => fst (freeze_balance amount a)).
Proof. intros a. unfold freeze_balance. by destruct (_ <=? _). Qed.
Lemma freeze_stock_identity t q : keeps_identity (fun a => fst (freeze_stock t q a)).
Proof. intros a. unfold freeze_stock. by destruct (_ <=? _). Qed.
Lemma commit_buy_identity t c q r : keeps_identity (commit_buy t c q r). Proof. by intros []. Qed.
Lemma commit_sell_identity t r q : keeps_identity (commit_sell t r q). Proof. by intros []. Qed.
Lemma unfreeze_balance_identity a : keeps_identity (unfreeze_balance a). Proof. by intros []. Qed.
Lemma unfreeze_stock_identity t q : keeps_identity (unfreeze_stock t q). Proof. by intros []. Qed.
Lemma add_balance_identity a : keeps_identity (add_balance a). Proof. by intros []. Qed.

#[export] Hint Resolve freeze_balance_identity freeze_stock_identity commit_buy_identity commit_sell_identity
  unfreeze_balance_identity unfreeze_stock_identity add_balance_identity : exch.

Lemma stock_insert t t' q m : stock (<[t := q]> m) t' = if decide (t' = t) then q else stock m t'.
Proof.
  unfold stock. destruct (decide (t' = t)) as [->|]; [by rewrite lookup_insert_eq|by rewrite lookup_insert_ne].
Qed.

Lemma stock_touch t t' m : stock (touch t m) t' = stock m t'.
Proof. unfold touch. rewrite stock_insert. by destruct (decide _) as [->|]. Qed.

Lemma stock_add_spec t t' q m :
  stock (stock_add t q m) t' = if decide (t' = t) then i32 (stock m t + q) else stock m t'.
Proof. apply stock_insert. Qed.

#[export] Hint Rewrite stock_insert stock_touch stock_add_spec : exch.

(** ** The operations, through the laws *)

Section Laws.
Context {S : Type} `{AccountStoreLaws S}.
Implicit Types (s : S) (uid : Z).

Lemma on_account_spec {B} s uid (d : B) f :
  store_ok s -> keeps_identity (fun a => fst (f a)) ->
  store_ok (fst (on_account s uid d f)) /\
  (forall uid', acct (fst (on_account s uid d f)) uid' =
     if decide (uid' = uid) then (fun a => fst (f a)) <$> acct s uid else acct s uid') /\
  snd (on_account s uid d f) = match acct s uid with Some a => snd (f a) | None => d end.
Proof.
  intros Hs Hf. unfold on_account. destruct (acct s uid) as [a|] eqn:E.
  - destruct (Hf a) as [Hi Hn]. destruct (f a) as [a' b] eqn:Ef. simpl in *. split_and!.
    + eapply set_acct_ok; eauto.
    + intros uid'. erewrite acct_set by eauto. by rewrite Ef.
    + done.
  - split_and!; [done| |done]. intros uid'. simpl. by destruct (decide (uid' = uid)) as [->|].
Qed.

Lemma update_account_spec s uid f :
  store_ok s -> keeps_identity f ->
  store_ok (update_account s uid f) /\
  forall uid', acct (update_account s uid f) uid' =
    if decide (uid' = uid) then f <$> acct s uid else acct s uid'.
Proof.
  intros Hs Hf. unfold update_account.
  destruct (on_account_spec s uid tt (fun a => (f a, tt)) Hs Hf) as (? & H' & _). split; [done|].
  intros uid'. rewrite H'. done.
Qed.

Lemma update_account_ok s uid f : store_ok s -> keeps_identity f -> store_ok (update_account s uid f).
Proof. intros. by apply update_account_spec. Qed.

Lemma acct_update s uid f uid' :
  store_ok s -> keeps_identity f ->
  acct (update_account s uid f) uid' = if decide (uid' = uid) then f <$> acct s uid else acct s uid'.
Proof. intros. by apply update_account_spec. Qed.

Lemma update_account_name s uid f uid' :
  store_ok s -> keeps_identity f -> getName (update_account s uid f) uid' = getName s uid'.
Proof.
  intros Hs Hf. unfold getName. rewrite acct_update by done.
  destruct (decide (uid' = uid)) as [->|]; [|done]. destruct (acct s uid) as [a|]; [|done]. apply Hf.
Qed.

(** [tryFreezeBalance]: success exactly when the account exists and its available
    balance covers the amount. *)
Lemma tryFreezeBalance_spec s uid amount :
  store_ok s ->
  let '(s', ok) := tryFreezeBalance s uid amount in
  store_ok s' /\
  (forall uid', acct s' uid' =
     if decide (uid' = uid) then (fun a => fst (freeze_balance amount a)) <$> acct s uid else acct s uid') /\
  ok = match acct s uid with Some a => amount <=? available_balance a | None => false end.
Proof.
  intros Hs. destruct (tryFreezeBalance s uid amount) as [s' ok] eqn:E.
  destruct (on_account_spec s uid false (freeze_balance amount) Hs (freeze_balance_identity amount)) as (H1 & H2 & H3).
  unfold tryFreezeBalance in E. rewrite E in *. simpl in *. split_and!; [done..|].
  rewrite H3. destruct (acct s uid) as [a|]; [|done]. unfold freeze_balance. by destruct (_ <=? _).
Qed.

Lemma tryFreezeStock_spec s uid ticker qty :
  store_ok s ->
  let '(s', ok) := tryFreezeStock s uid ticker qty in
  store_ok s' /\
  (forall uid', acct s' uid' =
     if decide (uid' = uid) then (fun a => fst (freeze_stock ticker qty a)) <$> acct s uid else acct s uid') /\
  ok = match acct s uid with Some a => qty <=? stock (available_stock a) ticker | None => false end.
Proof.
  intros Hs. destruct (tryFreezeStock s uid ticker qty) as [s' ok] eqn:E.
  destruct (on_account_spec s uid false (freeze_stock ticker qty) Hs (freeze_stock_identity ticker qty)) as (H1 & H2 & H3).
  unfold tryFreezeStock in E. rewrite E in *. simpl in *. split_and!; [done..|].
  rewrite H3. destruct (acct s uid) as [a|]; [|done]. unfold freeze_stock.
  rewrite stock_touch. by destruct (_ <=? _).
Qed.
End Laws.

#[export] Hint Resolve update_account_ok create_ok : exch.
