(* ===== verification/UserManager.v ===== *)
(** * The sharded user manager

    [include/UserManager.hpp]: 256 buckets, each with a map from user id to the account it
    owns and a map from user name to a raw pointer to that account.  Accounts live in a
    store [um_heap], so that the two maps share them as the pointers do.  The instance
    [UserManager_laws] shows that the buckets implement the interface of Accounts.v. *)

From S2P Require Import Prelude Bytes Numerals MySQL TickerManager Accounts.
From stdpp Require Import base strings list gmap.
From Stdlib Require Import ZArith Lia.
Local Open Scope Z_scope.

(** A [UserAccount*] that is not null. *)
Abbreviation aref := nat.

Record AccountBucket := mkBucket {
  account_ : gmap Z aref;
  find_account_ : gmap bytes aref
}.

Definition empty_bucket : AccountBucket := mkBucket ∅ ∅.
Definition mtx_count : Z := 256.

Record UserManager := mkUM {
  um_heap : gmap aref UserAccount;
  mtx_ : list AccountBucket
}.

Definition empty_manager : UserManager := mkUM ∅ (replicate (Z.to_nat mtx_count) empty_bucket).

Definition IdToMtx (uid : Z) : nat := Z.to_nat (uid mod mtx_count).

(** [mtx_\[i\]]; the indices the code computes are below 256. *)
Definition bucket (u : UserManager) (i : nat) : AccountBucket := default empty_bucket (mtx_ u !! i).

(** [getAccount(uid)]. *)
Definition getAccount (u : UserManager) (uid : Z) : option aref := account_ (bucket u (IdToMtx uid)) !! uid.

(** [find_account_\[username\] = account.get(); account_\[uid\] = std::move(account)]: an
    account already stored under [uid] is destroyed by the move assignment. *)
Definition store_account (u : UserManager) (a : UserAccount) : UserManager :=
  let uid := acc_user_id a in
  let i := IdToMtx uid in
  let b := bucket u i in
  let r := fresh (dom (um_heap u)) in
  let h := <[r := a]> (um_heap u) in
  let h' := match account_ b !! uid with Some old => delete old h | None => h end in
  mkUM h' (<[i := mkBucket (<[uid := r]> (account_ b)) (<[acc_username a := r]> (find_account_ b))]> (mtx_ u)).

Definition um_createUserAccount (u : UserManager) (uid : Z) (name : bytes) : UserManager :=
  match getAccount u uid with
  | None => store_account u (new_account uid name)
  | Some _ => u
  end.

(** The scan of the buckets for a name. *)
Fixpoint find_in_buckets (h : gmap aref UserAccount) (bs : list AccountBucket) (name : bytes) : Z :=
  match bs with
  | [] => 0
  | b :: bs' =>
      match find_account_ b !! name with
      | Some r => match h !! r with Some a => acc_user_id a | None => 0 end
      | None => find_in_buckets h bs' name
      end
  end.

Definition um_getId (u : UserManager) (name : bytes) : Z := find_in_buckets (um_heap u) (mtx_ u) name.

(** Two maps over one set of accounts: every id maps to its own live account, in its own
    bucket; every account is found under its name in that bucket; and a name leads to a
    live account of that name. *)
Record um_ok (u : UserManager) : Prop := {
  uo_len : length (mtx_ u) = 256%nat;
  uo_account i b uid r :
    mtx_ u !! i = Some b -> account_ b !! uid = Some r ->
    i = IdToMtx uid /\ exists a, um_heap u !! r = Some a /\ acc_user_id a = uid /\
    is_Some (find_account_ b !! acc_username a);
  uo_find i b name r :
    mtx_ u !! i = Some b -> find_account_ b !! name = Some r ->
    exists a, um_heap u !! r = Some a /\ acc_username a = name /\ account_ b !! acc_user_id a = Some r
}.

Definition um_acct (u : UserManager) (uid : Z) : option UserAccount :=
  r ← getAccount u uid; um_heap u !! r.
Definition um_set_acct (u : UserManager) (uid : Z) (a : UserAccount) : UserManager :=
  match getAccount u uid with
  | Some r => mkUM (<[r := a]> (um_heap u)) (mtx_ u)
  | None => u
  end.

#[export] Instance UserManager_store : AccountStore UserManager := {|
  store_ok := um_ok;
  acct := um_acct;
  set_acct := um_set_acct;
  createUserAccount := um_createUserAccount;
  getId := um_getId
|}.

(** ** Warming up from the database *)

Definition accounts_sql : bytes := str "SELECT id, username, balance FROM accounts".
Definition holdings_sql : bytes :=
  str "SELECT a.id, h.symbol, h.quantity FROM holdings h JOIN accounts a ON h.username = a.username".

Definition load_account_row (u : UserManager) (r : row) : option UserManager :=
  c0 ← column r 0; uid ← stoull c0;
  name ← column r 1;
  c2 ← column r 2; balance ← stoll c2;
  Some (store_account u (with_balances (new_account uid name) balance 0)).

(** [mtx_\[idx\].account_\[uid\]->available_stock\[ticker_id\] = quantity]. *)
Definition set_holding (u : UserManager) (uid ticker quantity : Z) : UserManager :=
  update_account u uid (fun a => with_stocks a (<[ticker := quantity]> (available_stock a)) (frozen_stock a)).

Definition load_holding_row (t : TickerManager) (u : UserManager) (r : row) : option UserManager :=
  c0 ← column r 0; uid ← stoull c0;
  symbol ← column r 1;
  c2 ← column r 2; quantity ← stoi c2;
  let ticker_id := getTickerId t symbol in
  Some (if ticker_id =? 0 then u
        else match getAccount u uid with Some _ => set_holding u uid ticker_id quantity | None => u end).

Fixpoint load_rows (f : UserManager -> row -> option UserManager) (u : UserManager) (rows : list row) : option UserManager :=
  match rows with
  | [] => Some u
  | r :: rows' => u' ← f u r; load_rows f u' rows'
  end.

(** [loadAllFromDB()]; [conn = false] is a null connection, [None] an escaping exception. *)
Definition loadAllFromDB {D} `{MySQL D} (conn : bool) (t : TickerManager) (u : UserManager) (d : D)
    : option (UserManager * D) :=
  if negb conn then Some (u, d)
  else
    let '(rows1, d1) := query_rows accounts_sql d in
    u1 ← load_rows load_account_row u rows1;
    let '(rows2, d2) := query_rows holdings_sql d1 in
    u2 ← load_rows (load_holding_row t) u1 rows2;
    Some (u2, d2).

Example um_example :
  let u := createUserAccount (createUserAccount empty_manager 1 (str "ann")) 257 (str "bob") in
  let '(u1, ok1) := tryFreezeBalance (addBalance u 257 100) 257 60 in
  let '(u2, ok2) := tryFreezeBalance u1 257 60 in
  (ok1, ok2, getId u2 (str "bob"), getBalance u2 257, getName u2 1, getName u2 2) =
  (true, false, 257, 40, str "ann", str "UNKNOWN").
Proof. vm_compute. reflexivity. Qed.

(** ** The buckets implement the store *)

Lemma IdToMtx_bound uid : (IdToMtx uid < 256)%nat.
Proof. unfold IdToMtx, mtx_count. pose proof (Z.mod_pos_bound uid 256). lia. Qed.

Section Manager.
Implicit Types (u : UserManager) (uid : Z).

Lemma bucket_lookup u i : um_ok u -> (i < 256)%nat -> mtx_ u !! i = Some (bucket u i).
Proof.
  intros Hu Hi. unfold bucket. destruct (mtx_ u !! i) eqn:E; [done|].
  apply lookup_ge_None in E. rewrite (uo_len u Hu) in E. lia.
Qed.

Lemma getAccount_live u uid r :
  um_ok u -> getAccount u uid = Some r ->
  exists a, um_heap u !! r = Some a /\ acc_user_id a = uid /\
  is_Some (find_account_ (bucket u (IdToMtx uid)) !! acc_username a).
Proof.
  intros Hu Hr. pose proof (bucket_lookup u _ Hu (IdToMtx_bound uid)) as Hb.
  by destruct (uo_account u Hu _ _ _ _ Hb Hr) as [_ H].
Qed.

Lemma getAccount_inj u uid1 uid2 r :
  um_ok u -> getAccount u uid1 = Some r -> getAccount u uid2 = Some r -> uid1 = uid2.
Proof.
  intros Hu H1 H2. apply getAccount_live in H1 as (a1 & E1 & <- & _); [|done].
  apply getAccount_live in H2 as (a2 & E2 & <- & _); [|done]. congruence.
Qed.

Lemma um_acct_Some u uid a :
  um_ok u -> um_acct u uid = Some a <-> exists r, getAccount u uid = Some r /\ um_heap u !! r = Some a.
Proof. intros Hu. unfold um_acct. destruct (getAccount u uid); naive_solver. Qed.

Lemma um_acct_None u uid : um_ok u -> um_acct u uid = None <-> getAccount u uid = None.
Proof.
  intros Hu. unfold um_acct. destruct (getAccount u uid) as [r|] eqn:E; [|done].
  apply getAccount_live in E as (a & E & _); [|done]. simpl. rewrite E. done.
Qed.

Lemma um_acct_id u uid a : um_ok u -> um_acct u uid = Some a -> acc_user_id a = uid.
Proof.
  intros Hu. rewrite um_acct_Some by done. intros (r & Hr & Ha).
  apply getAccount_live in Hr as (a' & Ha' & ? & _); [|done]. congruence.
Qed.

Lemma um_set_acct_ok u uid a a' :
  um_ok u -> um_acct u uid = Some a -> acc_user_id a' = acc_user_id a -> acc_username a' = acc_username a ->
  um_ok (um_set_acct u uid a').
Proof.
  intros Hu Ha Hi Hn. rewrite um_acct_Some in Ha by done. destruct Ha as (r & Hr & Ha).
  unfold um_set_acct. rewrite Hr. split; simpl.
  - apply Hu.
  - intros i b uid' r' Hb Hr'. destruct (uo_account u Hu i b uid' r' Hb Hr') as [? (x & Hx & Hxi & Hxn)].
    split; [done|]. destruct (decide (r' = r)) as [->|].
    + exists a'. rewrite lookup_insert_eq. simplify_eq. rewrite Hi, Hn. done.
    + exists x. by rewrite lookup_insert_ne.
  - intros i b name r' Hb Hf. destruct (uo_find u Hu i b name r' Hb Hf) as (x & Hx & Hxn & Hxi).
    destruct (decide (r' = r)) as [->|].
    + exists a'. rewrite lookup_insert_eq. simplify_eq. by rewrite Hi, Hn.
    + exists x. by rewrite lookup_insert_ne.
Qed.

Lemma um_acct_set u uid a a' uid' :
  um_ok u -> um_acct u uid = Some a ->
  um_acct (um_set_acct u uid a') uid' = if decide (uid' = uid) then Some a' else um_acct u uid'.
Proof.
  intros Hu Ha. rewrite um_acct_Some in Ha by done. destruct Ha as (r & Hr & Ha).
  unfold um_acct, um_set_acct. rewrite Hr. unfold getAccount, bucket. simpl.
  fold (bucket u (IdToMtx uid')) (getAccount u uid').
  destruct (decide (uid' = uid)) as [->|Hne].
  - rewrite Hr. simpl. apply lookup_insert_eq.
  - destruct (getAccount u uid') as [r'|] eqn:E; [|done]. simpl. apply lookup_insert_ne.
    intros ->. apply Hne. by eapply getAccount_inj.
Qed.

(** Storing an account under an id that is not in use. *)
Lemma store_account_bucket u a i :
  um_ok u -> getAccount u (acc_user_id a) = None ->
  bucket (store_account u a) i =
    if decide (i = IdToMtx (acc_user_id a)) then
      mkBucket (<[acc_user_id a := fresh (dom (um_heap u))]> (account_ (bucket u i)))
               (<[acc_username a := fresh (dom (um_heap u))]> (find_account_ (bucket u i)))
    else bucket u i.
Proof.
  intros Hu Hn. unfold bucket at 1, store_account. simpl. destruct (decide _) as [->|Hne].
  - rewrite list_lookup_insert_eq; [done|]. rewrite (uo_len u Hu). apply IdToMtx_bound.
  - by rewrite list_lookup_insert_ne.
Qed.

Lemma store_account_heap u a :
  getAccount u (acc_user_id a) = None ->
  um_heap (store_account u a) = <[fresh (dom (um_heap u)) := a]> (um_heap u).
Proof. unfold getAccount, store_account. simpl. by intros ->. Qed.

Lemma live_not_fresh u r x : um_heap u !! r = Some x -> r <> fresh (dom (um_heap u)).
Proof.
  intros Hx ->. assert (fresh (dom (um_heap u)) ∈ dom (um_heap u)) by (apply elem_of_dom; eauto).
  by apply (is_fresh (dom (um_heap u))).
Qed.

Lemma store_account_len u a : length (mtx_ (store_account u a)) = length (mtx_ u).
Proof. unfold store_account. simpl. apply length_insert. Qed.

Lemma store_account_ok u a : um_ok u -> getAccount u (acc_user_id a) = None -> um_ok (store_account u a).
Proof.
  intros Hu Hn. set (r0 := fresh (dom (um_heap u))).
  assert (forall i b, mtx_ (store_account u a) !! i = Some b -> (i < 256)%nat /\ b = bucket (store_account u a) i) as Hlk.
  { intros i b Hb. split; [|unfold bucket; by rewrite Hb].
    apply lookup_lt_Some in Hb. by rewrite store_account_len, (uo_len u Hu) in Hb. }
  split; [rewrite store_account_len; apply Hu|..]; intros i b k r Hb;
    apply Hlk in Hb as [Hi ->]; rewrite store_account_bucket, store_account_heap by done;
    fold r0; pose proof (bucket_lookup u i Hu Hi) as Hb0.
  - destruct (decide (i = IdToMtx (acc_user_id a))) as [->|]; simpl.
    + rewrite lookup_insert_Some. intros [[<- <-]|[Hne Hr]].
      * split; [done|]. exists a. rewrite !lookup_insert_eq. eauto.
      * destruct (uo_account u Hu _ _ _ _ Hb0 Hr) as [? (x & Hx & Hxi & Hxn)]. split; [done|].
        exists x. rewrite lookup_insert_ne by (symmetry; by eapply live_not_fresh).
        split_and!; [done..|]. destruct (decide (acc_username a = acc_username x)) as [->|].
        -- rewrite lookup_insert_eq. eauto. -- by rewrite lookup_insert_ne.
    + intros Hr. destruct (uo_account u Hu _ _ _ _ Hb0 Hr) as [? (x & Hx & Hxi & Hxn)]. split; [done|].
      exists x. by rewrite lookup_insert_ne by (symmetry; by eapply live_not_fresh).
  - destruct (decide (i = IdToMtx (acc_user_id a))) as [->|]; simpl.
    + rewrite lookup_insert_Some. intros [[<- <-]|[Hne Hr]].
      * exists a. by rewrite !lookup_insert_eq.
      * destruct (uo_find u Hu _ _ _ _ Hb0 Hr) as (x & Hx & Hxn & Hxi). exists x.
        rewrite lookup_insert_ne by (symmetry; by eapply live_not_fresh). split_and!; [done..|].
        rewrite lookup_insert_ne; [done|]. intros E. unfold getAccount in Hn. rewrite E in Hn. congruence.
    + intros Hr. destruct (uo_find u Hu _ _ _ _ Hb0 Hr) as (x & Hx & Hxn & Hxi). exists x.
      by rewrite lookup_insert_ne by (symmetry; by eapply live_not_fresh).
Qed.

Lemma um_acct_store u a uid' :
  um_ok u -> getAccount u (acc_user_id a) = None ->
  um_acct (store_account u a) uid' = if decide (uid' = acc_user_id a) then Some a else um_acct u uid'.
Proof.
  intros Hu Hn. unfold um_acct. unfold getAccount at 1.
  rewrite store_account_bucket, store_account_heap by done.
  destruct (decide (uid' = acc_user_id a)) as [->|Hne].
  - rewrite decide_True by done. simpl. rewrite lookup_insert_eq. simpl. apply lookup_insert_eq.
  - assert (account_ (if decide (IdToMtx uid' = IdToMtx (acc_user_id a)) then
      mkBucket (<[acc_user_id a := fresh (dom (um_heap u))]> (account_ (bucket u (IdToMtx uid'))))
               (<[acc_username a := fresh (dom (um_heap u))]> (find_account_ (bucket u (IdToMtx uid'))))
      else bucket u (IdToMtx uid')) !! uid' = getAccount u uid') as ->.
    { destruct (decide _); simpl; [by rewrite lookup_insert_ne|done]. }
    destruct (getAccount u uid') as [r|] eqn:E; [|done]. simpl.
    apply getAccount_live in E as (x & Hx & _); [|done].
    by rewrite lookup_insert_ne by (symmetry; by eapply live_not_fresh).
Qed.

Lemma find_in_buckets_found u name bs :
  (forall b, b ∈ bs -> exists i, mtx_ u !! i = Some b) -> um_ok u ->
  (exists b r, b ∈ bs /\ find_account_ b !! name = Some r) ->
  exists a, um_acct u (find_in_buckets (um_heap u) bs name) = Some a /\ acc_username a = name.
Proof.
  intros Hbs Hu. induction bs as [|b bs IH]; intros (b' & r & Hb & Hr); [set_solver|]. simpl.
  destruct (find_account_ b !! name) as [r'|] eqn:E.
  - destruct (Hbs b ltac:(inlist)) as [i Hi].
    destruct (uo_find u Hu i b name r' Hi E) as (a & Ha & Hn & Hacc). rewrite Ha. exists a. split; [|done].
    destruct (uo_account u Hu _ _ _ _ Hi Hacc) as [-> _].
    unfold um_acct, getAccount, bucket. rewrite Hi. simpl. rewrite Hacc. done.
  - apply IH; [intros; apply Hbs; inlist|]. exists b', r. split; [|done].
    apply elem_of_cons in Hb as [->|]; [congruence|done].
Qed.

(** The scan stops at the first bucket that knows the name. *)
Lemma find_in_buckets_first h name bs :
  (exists i b r, bs !! i = Some b /\ find_account_ b !! name = Some r /\
     (forall j b', (j < i)%nat -> bs !! j = Some b' -> find_account_ b' !! name = None) /\
     find_in_buckets h bs name = match h !! r with Some a => acc_user_id a | None => 0 end) \/
  (forall b, b ∈ bs -> find_account_ b !! name = None).
Proof.
  induction bs as [|b bs IH]; [right; by intros b ?%not_elem_of_nil|]. simpl.
  destruct (find_account_ b !! name) as [r|] eqn:E.
  - left. exists 0%nat, b, r. split_and!; [done|done|lia|done].
  - destruct IH as [(i & b' & r & H1 & H2 & H3 & H4)|H]; [left|right].
    + exists (S i), b', r. split_and!; [done|done| |done]. intros [|j] b'' Hj; [by intros [= <-]|]. apply H3. lia.
    + by intros b' [->|Hb]%elem_of_cons; [|apply H].
Qed.

(** So of several accounts of one name the id returned is in the lowest bucket. *)
Lemma um_getId_lowest u name uid a :
  um_ok u -> um_acct u uid = Some a -> acc_username a = name -> (IdToMtx (um_getId u name) <= IdToMtx uid)%nat.
Proof.
  intros Hu Ha Hn. rewrite um_acct_Some in Ha by done. destruct Ha as (r & Hr & Ha).
  pose proof (bucket_lookup u _ Hu (IdToMtx_bound uid)) as Hb.
  apply getAccount_live in Hr as (a' & Ha' & _ & [r' Hr']); [|done]. replace a' with a in Hr' by congruence. rewrite Hn in Hr'.
  unfold um_getId. destruct (find_in_buckets_first (um_heap u) name (mtx_ u)) as [(i & b & r0 & H1 & H2 & H3 & ->)|Hno].
  - destruct (uo_find u Hu i b name r0 H1 H2) as (x & -> & _ & Hacc).
    destruct (uo_account u Hu _ _ _ _ H1 Hacc) as [<- _].
    destruct (decide (IdToMtx uid < i)%nat) as [Hlt|]; [|lia]. specialize (H3 _ _ Hlt Hb). congruence.
  - rewrite (Hno _ ltac:(by eapply list_elem_of_lookup_2)) in Hr'. done.
Qed.

Lemma find_in_buckets_missing h name bs :
  (forall b, b ∈ bs -> find_account_ b !! name = None) -> find_in_buckets h bs name = 0.
Proof.
  induction bs as [|b bs IH]; intros Hn; [done|]. simpl.
  rewrite Hn by inlist. apply IH. intros; apply Hn; inlist.
Qed.
End Manager.

Lemma um_ok_empty : um_ok empty_manager.
Proof.
  split; [done|..]; intros i b k r Hb; apply lookup_replicate in Hb as [-> _]; simpl; by rewrite lookup_empty.
Qed.

#[export] Instance UserManager_laws : AccountStoreLaws UserManager.
Proof.
  split; simpl.
  - apply um_acct_id.
  - apply um_set_acct_ok.
  - intros. by eapply um_acct_set.
  - intros u uid name Hu. unfold um_createUserAccount. destruct (getAccount u uid) eqn:E; [done|].
    by apply store_account_ok.
  - intros u uid name uid' Hu. unfold um_createUserAccount. destruct (getAccount u uid) as [r|] eqn:E.
    + destruct (decide (uid' = uid)) as [->|]; [|done].
      apply getAccount_live in E as HE; [|done]. destruct HE as (a & Ha & _).
      unfold um_acct. rewrite E. simpl. rewrite Ha. done.
    + rewrite um_acct_store by done. simpl. destruct (decide (uid' = uid)); [|done].
      by rewrite (proj2 (um_acct_None u uid Hu) E).
  - intros u uid a Hu Ha. apply find_in_buckets_found; [|done|].
    + intros b Hb. apply list_elem_of_lookup in Hb. naive_solver.
    + rewrite um_acct_Some in Ha by done. destruct Ha as (r & Hr & Ha).
      pose proof (bucket_lookup u _ Hu (IdToMtx_bound uid)) as Hb.
      apply getAccount_live in Hr as (a' & Ha' & _ & [r' Hr']); [|done].
      exists (bucket u (IdToMtx uid)), r'. split; [by eapply list_elem_of_lookup_2|]. congruence.
  - intros u name Hu Hn. apply find_in_buckets_missing. intros b Hb.
    apply list_elem_of_lookup in Hb as [i Hi]. destruct (find_account_ b !! name) as [r|] eqn:E; [|done].
    destruct (uo_find u Hu i b name r Hi E) as (a & Ha & Hna & Hacc). exfalso.
    apply (Hn (acc_user_id a) a); [|done].
    destruct (uo_account u Hu _ _ _ _ Hi Hacc) as [-> _].
    unfold um_acct, getAccount, bucket. rewrite Hi. simpl. rewrite Hacc. done.
Qed.

Lemma acct_empty uid : acct empty_manager uid = None.
Proof.
  change (um_acct empty_manager uid = None). unfold um_acct, getAccount, bucket.
  destruct (mtx_ empty_manager !! IdToMtx uid) as [b|] eqn:E.
  - apply lookup_replicate in E as [-> _]. simpl. by rewrite lookup_empty.
  - simpl. by rewrite lookup_empty.
Qed.
