(* ===== verification/AccountTheorems.v ===== *)
(** * The sharded user manager refines a map of accounts

    The specification is a finite map from user ids to accounts.  [UserManager], with its 256
    buckets, two maps per bucket and accounts shared through pointers, gives on every sequence
    of operations the results of the map; the proof goes through the interface of Accounts.v.
    Only the look-up of a name is not a function of the map, when several accounts share the
    name: the specification says which of them the scan of the buckets may return. *)

From S2P Require Import Prelude Bytes Accounts UserManager.
From stdpp Require Import base strings list gmap.
From Stdlib Require Import ZArith Lia.
Local Open Scope Z_scope.

(** ** The operations, as data *)

Inductive account_op :=
| OpCreate (uid : Z) (name : bytes)
| OpFreezeBalance (uid amount : Z)
| OpFreezeStock (uid ticker qty : Z)
| OpCommitBuy (uid ticker cost qty refund : Z)
| OpCommitSell (uid ticker revenue qty : Z)
| OpUnfreezeBalance (uid amount : Z)
| OpUnfreezeStock (uid ticker qty : Z)
| OpAddBalance (uid amount : Z)
| OpId (name : bytes)
| OpName (uid : Z)
| OpBalance (uid : Z)
| OpHoldings (uid : Z).

Inductive account_result := RUnit | RBool (b : bool) | RId (uid : Z) | RName (n : bytes) | RMoney (z : Z) | RStock (m : gmap Z Z).

Section Exec.
Context {S : Type} `{AccountStore S}.

Definition op_exec (op : account_op) (s : S) : S * account_result :=
  match op with
  | OpCreate uid name => (createUserAccount s uid name, RUnit)
  | OpFreezeBalance uid amount => let '(s', ok) := tryFreezeBalance s uid amount in (s', RBool ok)
  | OpFreezeStock uid ticker qty => let '(s', ok) := tryFreezeStock s uid ticker qty in (s', RBool ok)
  | OpCommitBuy uid ticker cost qty refund => (commitBuy s uid ticker cost qty refund, RUnit)
  | OpCommitSell uid ticker revenue qty => (commitSell s uid ticker revenue qty, RUnit)
  | OpUnfreezeBalance uid amount => (unfreezeBalance s uid amount, RUnit)
  | OpUnfreezeStock uid ticker qty => (unfreezeStock s uid ticker qty, RUnit)
  | OpAddBalance uid amount => (addBalance s uid amount, RUnit)
  | OpId name => (s, RId (getId s name))
  | OpName uid => (s, RName (getName s uid))
  | OpBalance uid => (s, RMoney (getBalance s uid))
  | OpHoldings uid => (s, RStock (getHoldings s uid))
  end.

Fixpoint op_run (ops : list account_op) (s : S) : S * list account_result :=
  match ops with
  | [] => (s, [])
  | op :: ops' => let '(s1, r) := op_exec op s in let '(s2, rs) := op_run ops' s1 in (s2, r :: rs)
  end.
End Exec.

(** ** Two lawful stores *)

Section Simulation.
Context {A B : Type} `{LA : AccountStoreLaws A} `{LB : AccountStoreLaws B}.

(** They hold the same accounts. *)
Definition same_accounts (a : A) (b : B) : Prop :=
  store_ok a /\ store_ok b /\ forall uid, acct a uid = acct b uid.

Lemma on_account_same {R} a b uid (d : R) f :
  same_accounts a b -> keeps_identity (fun x => fst (f x)) ->
  same_accounts (on_account a uid d f).1 (on_account b uid d f).1 /\
  (on_account a uid d f).2 = (on_account b uid d f).2.
Proof.
  intros (Ha & Hb & Hab) Hf. destruct (on_account_spec a uid d f Ha Hf) as (A1 & A2 & A3).
  destruct (on_account_spec b uid d f Hb Hf) as (B1 & B2 & B3). split.
  - split_and!; [done|done|]. intros uid'. by rewrite A2, B2, !Hab.
  - by rewrite A3, B3, Hab.
Qed.

Lemma update_account_same a b uid f :
  same_accounts a b -> keeps_identity f -> same_accounts (update_account a uid f) (update_account b uid f).
Proof. intros Hab Hf. by apply (on_account_same a b uid tt (fun x => (f x, tt)) Hab). Qed.

Lemma op_exec_same op a b :
  (forall name, op <> OpId name) -> same_accounts a b ->
  same_accounts (op_exec op a).1 (op_exec op b).1 /\ (op_exec op a).2 = (op_exec op b).2.
Proof.
  intros Hop Hab. pose proof Hab as (Ha & Hb & Hacc).
  destruct op; cbn [op_exec]; try (split; [|done]; simpl; unfold commitBuy, commitSell, unfreezeBalance, unfreezeStock, addBalance;
    apply update_account_same; eauto with exch; fail).
  - split; [|done]. simpl. split_and!; [by apply create_ok|by apply create_ok|].
    intros uid'. by rewrite !acct_create, !Hacc by done.
  - destruct (on_account_same a b uid false (freeze_balance amount) Hab (freeze_balance_identity amount)) as [H1 H2].
    unfold tryFreezeBalance. destruct (on_account a _ _ _), (on_account b _ _ _). simpl in *. by subst.
  - destruct (on_account_same a b uid false (freeze_stock ticker qty) Hab (freeze_stock_identity ticker qty)) as [H1 H2].
    unfold tryFreezeStock. destruct (on_account a _ _ _), (on_account b _ _ _). simpl in *. by subst.
  - by destruct (Hop name).
  - split; [done|]. simpl. unfold getName. by rewrite Hacc.
  - split; [done|]. simpl. unfold getBalance. by rewrite Hacc.
  - split; [done|]. simpl. unfold getHoldings. by rewrite Hacc.
Qed.

End Simulation.

(** ** The specification: one map *)

Module Flat.
Definition Accounts := gmap Z UserAccount.

#[export] Instance flat_store : AccountStore Accounts := {|
  store_ok m := map_Forall (fun uid a => acc_user_id a = uid) m;
  acct m uid := m !! uid;
  set_acct m uid a := <[uid := a]> m;
  createUserAccount m uid name := match m !! uid with None => <[uid := new_account uid name]> m | Some _ => m end;
  getId m name :=
    match filter (fun kv : Z * UserAccount => acc_username kv.2 = name) (map_to_list m) with
    | (uid, _) :: _ => uid
    | [] => 0
    end
|}.

Lemma found m name uid a :
  m !! uid = Some a -> acc_username a = name ->
  exists a', m !! getId (S := Accounts) m name = Some a' /\ acc_username a' = name.
Proof.
  intros Hm Hn. simpl. set (l := filter _ _).
  assert ((uid, a) ∈ l) as Hin. { apply list_elem_of_filter. split; [done|]. by apply elem_of_map_to_list. }
  destruct l as [|[k x] l'] eqn:El; [by apply not_elem_of_nil in Hin|]. exists x.
  assert ((k, x) ∈ l) as Hk by (rewrite El; inlist). unfold l in Hk.
  apply list_elem_of_filter in Hk as [Hk1 Hk2]. apply elem_of_map_to_list in Hk2. done.
Qed.

#[export] Instance flat_laws : AccountStoreLaws Accounts.
Proof.
  split.
  - intros m uid a Hm. apply Hm.
  - intros m uid a a' Hm Ha Hi _. simpl in *. apply map_Forall_insert_2; [|done]. rewrite Hi. by apply Hm.
  - intros m uid a a' uid' Hm Ha _ _. simpl. destruct (decide (uid' = uid)) as [->|]; [apply lookup_insert_eq|by apply lookup_insert_ne].
  - intros m uid name Hm. simpl. destruct (m !! uid) eqn:E; [done|]. by apply map_Forall_insert_2.
  - intros m uid name uid' Hm. simpl. destruct (m !! uid) as [a|] eqn:E; destruct (decide (uid' = uid)) as [->|]; simpl; try done.
    + apply lookup_insert_eq. + by apply lookup_insert_ne.
  - intros m uid a Hm Ha. eapply found; [exact Ha|done].
  - intros m name Hm Hn. simpl. rewrite filter_none; [done|]. intros [uid a] Hin. apply elem_of_map_to_list in Hin. exact (Hn uid a Hin).
Qed.
End Flat.
Import Flat.

(** The id a look-up of [name] may return: one of the accounts of that name in the lowest
    bucket that has one; 0 when no account has the name. *)
Definition named (m : Flat.Accounts) (name : bytes) (uid : Z) : Prop :=
  (exists a, m !! uid = Some a /\ acc_username a = name /\
     forall uid' a', m !! uid' = Some a' -> acc_username a' = name -> (IdToMtx uid <= IdToMtx uid')%nat) \/
  (uid = 0 /\ forall uid' a', m !! uid' = Some a' -> acc_username a' <> name).

(** A run of the specification: the operations on one map. *)
Definition flat_step (op : account_op) (m m' : Flat.Accounts) (r : account_result) : Prop :=
  match op with
  | OpId name => m' = m /\ exists uid, r = RId uid /\ named m name uid
  | _ => op_exec op m = (m', r)
  end.

Inductive flat_run : list account_op -> Flat.Accounts -> Flat.Accounts -> list account_result -> Prop :=
| flat_nil m : flat_run [] m m []
| flat_cons op ops m m1 m2 r rs : flat_step op m m1 r -> flat_run ops m1 m2 rs -> flat_run (op :: ops) m m2 (r :: rs).

Lemma op_exec_named (u : UserManager) (m : Flat.Accounts) name :
  same_accounts u m -> named m name (getId u name).
Proof.
  intros (Hu & _ & Hm). change (forall uid, acct u uid = m !! uid) in Hm.
  destruct (decide (Forall (fun kv => acc_username kv.2 <> name) (map_to_list m))) as [Hno|Hex].
  - right. rewrite Forall_forall in Hno. assert (forall uid a, m !! uid = Some a -> acc_username a <> name) as Hn.
    { intros uid a Ha. exact (Hno (uid, a) (proj2 (elem_of_map_to_list m uid a) Ha)). }
    split; [|done]. apply (getId_missing u name Hu). intros uid a Ha. rewrite Hm in Ha. by eapply Hn.
  - left. apply not_Forall_Exists in Hex; [|apply _]. apply Exists_exists in Hex as ([uid a] & Ha & Hn%dec_stable).
    apply elem_of_map_to_list in Ha. simpl in Hn. rewrite <- Hm in Ha.
    destruct (getId_found u uid a Hu Ha) as (x & Hx & Hxn). rewrite Hn in Hx, Hxn. exists x. split_and!.
    + by rewrite <- Hm.
    + done.
    + intros uid' a' Ha' Hn'. rewrite <- Hm in Ha'. by eapply um_getId_lowest.
Qed.

Lemma op_exec_flat op (u : UserManager) (m : Flat.Accounts) :
  same_accounts u m -> exists m', flat_step op m m' (op_exec op u).2 /\ same_accounts (op_exec op u).1 m'.
Proof.
  intros Hum. assert ((exists name, op = OpId name) \/ forall name, op <> OpId name) as [[name ->]|Hne]
    by (destruct op; eauto; by right).
  - exists m. split; [|done]. split; [done|]. exists (getId u name). split; [done|]. by apply op_exec_named.
  - exists (op_exec op m).1. destruct (op_exec_same op u m Hne Hum) as [H1 H2]. split; [|done]. rewrite H2.
    destruct op; try apply surjective_pairing. by destruct (Hne name).
Qed.

(** C20: the sharded user manager is a map.  Starting from the same accounts, every sequence of
    operations (account creation, freezing, commits, unfreezing, deposits, queries and look-ups
    of names) returns on the 256 buckets exactly the results it returns on one finite map from
    user ids to accounts, and leaves the same accounts behind; the buckets stay well-formed.  A
    look-up of a name returns the id of an account of that name in the lowest bucket that has
    one, and 0 exactly when no account has the name (or the account of id 0 does). *)
Theorem sharded_manager_refines ops (u : UserManager) (m : Flat.Accounts)
  (Hu : um_ok u) (Hm : forall uid, acct u uid = m !! uid) :
  let '(u', rs) := op_run ops u in
  exists m', flat_run ops m m' rs /\ um_ok u' /\ forall uid, acct u' uid = m' !! uid.
Proof.
  assert (same_accounts (B := Flat.Accounts) u m) as Hsame.
  { split_and!; [done| |done]. intros uid a Ha. simpl in Ha. rewrite <- Hm in Ha. by apply (acct_id u uid a) in Ha. }
  clear Hu Hm. revert u m Hsame. induction ops as [|op ops IH]; intros u m Hsame; cbn [op_run].
  - exists m. split; [constructor|]. destruct Hsame as (H1 & _ & H2). done.
  - destruct (op_exec_flat op u m Hsame) as (m1 & Hs & H1). destruct (op_exec op u) as [u1 r]. simpl in Hs, H1.
    specialize (IH u1 m1 H1). destruct (op_run ops u1) as [u' rs]. destruct IH as (m' & Hr & H2).
    exists m'. split; [by econstructor|done].
Qed.

Lemma sharded_manager_refines_witness :
  let ops := [OpCreate 1 (str "ann"); OpCreate 257 (str "bob"); OpAddBalance 257 100; OpFreezeBalance 257 60;
              OpFreezeBalance 257 60; OpName 1; OpBalance 257; OpId (str "bob"); OpId (str "eve")] in
  let rs := [RUnit; RUnit; RUnit; RBool true; RBool false; RName (str "ann"); RMoney 40; RId 257; RId 0] in
  (op_run ops empty_manager).2 = rs /\ exists m', flat_run ops ∅ m' rs.
Proof.
  intros ops rs. assert ((op_run ops empty_manager).2 = rs) as E by (vm_compute; reflexivity).
  split; [exact E|]. pose proof (sharded_manager_refines ops empty_manager ∅ um_ok_empty) as H.
  destruct (op_run ops empty_manager) as [u' rs']. simpl in E. subst rs'.
  destruct H as (m' & Hr & _); [intros uid; rewrite acct_empty; symmetry; apply lookup_empty|]. by exists m'.
Defined.
