(* ===== verification/Repositories.v ===== *)
(** * The repository interfaces

    [include/Repositories.h]: the two abstract classes the handlers and the settlement
    processor use to reach the database, over an abstract database state [D].  The comments
    of the header are the contract; it is stated as laws on what the database stores:
    [balance_of] (the column [balance] of [accounts]) and [holding_of] (the column
    [quantity] of [holdings]). *)

From S2P Require Import Prelude Bytes.
From stdpp Require Import base list gmap.
From Stdlib Require Import ZArith Lia.
Local Open Scope Z_scope.

(** [getUserId] parses a column with [std::stoull] and [getAllHoldings] with [std::stoi]: an
    exception is [None]. *)
Class IUserRepository (D : Type) := {
  registerUser : bytes -> bytes -> D -> bool * D;
  checkLogin : bytes -> bytes -> D -> bool * D;
  repo_getBalance : bytes -> D -> Z * D;
  updateBalance : bytes -> Z -> D -> bool * D;
  deductBalance : bytes -> Z -> D -> bool * D;
  getUserId : bytes -> D -> option Z * D
}.

Class IStockRepository (D : Type) := {
  getStockHolding : bytes -> bytes -> D -> Z * D;
  updateStockHolding : bytes -> bytes -> Z -> D -> bool * D;
  getAllHoldings : bytes -> D -> option (gmap bytes Z) * D;
  getAllStocks : D -> list bytes * D;
  deductStockHolding : bytes -> bytes -> Z -> D -> bool * D
}.

(** What the database stores, as far as balances and holdings go. *)
Class Ledger (D : Type) := {
  balance_of : D -> bytes -> option Z;
  holding_of : D -> bytes -> bytes -> Z
}.

Definition same_balances {D} `{Ledger D} (d d' : D) : Prop := forall u, balance_of d' u = balance_of d u.
Definition same_holdings {D} `{Ledger D} (d d' : D) : Prop := forall u s, holding_of d' u s = holding_of d u s.

(** A successful update adds to one balance; a successful deduction happens only when the
    balance covers it; a failed call stores nothing. *)
Class UserRepositoryLaws (D : Type) `{IUserRepository D} `{Ledger D} : Prop := {
  updateBalance_true u a d d' :
    updateBalance u a d = (true, d') ->
    same_holdings d d' /\
    forall u', balance_of d' u' = if decide (u' = u) then (Z.add a) <$> balance_of d u else balance_of d u';
  updateBalance_false u a d d' :
    updateBalance u a d = (false, d') -> same_holdings d d' /\ same_balances d d';
  deductBalance_true u a d d' :
    deductBalance u a d = (true, d') ->
    same_holdings d d' /\ (exists b, balance_of d u = Some b /\ a <= b) /\
    forall u', balance_of d' u' = if decide (u' = u) then (fun b => b - a) <$> balance_of d u else balance_of d u';
  deductBalance_false u a d d' :
    deductBalance u a d = (false, d') -> same_holdings d d' /\ same_balances d d';
  repo_getBalance_reads u d : same_holdings d (repo_getBalance u d).2 /\ same_balances d (repo_getBalance u d).2
}.

Class StockRepositoryLaws (D : Type) `{IStockRepository D} `{Ledger D} : Prop := {
  updateStockHolding_true u s q d d' :
    updateStockHolding u s q d = (true, d') ->
    same_balances d d' /\
    forall u' s', holding_of d' u' s' = if decide (u' = u /\ s' = s) then holding_of d u s + q else holding_of d u' s';
  updateStockHolding_false u s q d d' :
    updateStockHolding u s q d = (false, d') -> same_balances d d' /\ same_holdings d d';
  deductStockHolding_true u s q d d' :
    deductStockHolding u s q d = (true, d') ->
    same_balances d d' /\ q <= holding_of d u s /\
    forall u' s', holding_of d' u' s' = if decide (u' = u /\ s' = s) then holding_of d u s - q else holding_of d u' s';
  deductStockHolding_false u s q d d' :
    deductStockHolding u s q d = (false, d') -> same_balances d d' /\ same_holdings d d'
}.

(** ** A database of tables

    An in-memory implementation of both interfaces, for the witnesses: the rows of
    [accounts] and [holdings] as finite maps, and no failures. *)

Module TableDB.
Record DB := mkDB {
  db_accounts : gmap bytes (Z * bytes * Z);   (* id, password, balance *)
  db_holdings : gmap (bytes * bytes) Z
}.

Definition empty_db : DB := mkDB ∅ ∅.

Definition set_balance (u : bytes) (b : Z) (d : DB) : DB :=
  match db_accounts d !! u with
  | Some (id, pw, _) => mkDB (<[u := (id, pw, b)]> (db_accounts d)) (db_holdings d)
  | None => d
  end.
Definition set_holding_db (u s : bytes) (q : Z) (d : DB) : DB :=
  mkDB (db_accounts d) (<[(u, s) := q]> (db_holdings d)).

#[export] Instance db_ledger : Ledger DB := {|
  balance_of d u := (fun r => snd r) <$> db_accounts d !! u;
  holding_of d u s := default 0 (db_holdings d !! (u, s))
|}.

#[export] Instance db_users : IUserRepository DB := {|
  registerUser u p d :=
    match db_accounts d !! u with
    | Some _ => (false, d)
    | None => (true, mkDB (<[u := (1 + Z.of_nat (size (db_accounts d)), p, 0)]> (db_accounts d)) (db_holdings d))
    end;
  checkLogin u p d :=
    (match db_accounts d !! u with Some (_, pw, _) => bool_decide (pw = p) | None => false end, d);
  repo_getBalance u d := (default (-1) (balance_of d u), d);
  updateBalance u a d := (true, match balance_of d u with Some b => set_balance u (a + b) d | None => d end);
  deductBalance u a d :=
    match balance_of d u with
    | Some b => if a <=? b then (true, set_balance u (b - a) d) else (false, d)
    | None => (false, d)
    end;
  getUserId u d := (Some (match db_accounts d !! u with Some (id, _, _) => id | None => 0 end), d)
|}.

#[export] Instance db_stocks : IStockRepository DB := {|
  getStockHolding u s d := (holding_of d u s, d);
  updateStockHolding u s q d := (true, set_holding_db u s (holding_of d u s + q) d);
  getAllHoldings u d := (Some ∅, d);
  getAllStocks d := (remove_dups ((fun kv => kv.1.2) <$> map_to_list (db_holdings d)), d);
  deductStockHolding u s q d :=
    if q <=? holding_of d u s then (true, set_holding_db u s (holding_of d u s - q) d) else (false, d)
|}.

Lemma balance_set u b d u' :
  is_Some (balance_of d u) ->
  balance_of (set_balance u b d) u' = if decide (u' = u) then Some b else balance_of d u'.
Proof.
  unfold set_balance. simpl. destruct (db_accounts d !! u) as [[[id pw] x]|] eqn:E; [|by intros []].
  intros _. simpl. destruct (decide (u' = u)) as [->|]; [by rewrite lookup_insert_eq|by rewrite lookup_insert_ne].
Qed.

Lemma holding_set_balance u b d u' s : holding_of (set_balance u b d) u' s = holding_of d u' s.
Proof. unfold set_balance. by destruct (db_accounts d !! u) as [[[]]|]. Qed.

Lemma holding_set u s q d u' s' :
  holding_of (set_holding_db u s q d) u' s' = if decide (u' = u /\ s' = s) then q else holding_of d u' s'.
Proof.
  simpl. destruct (decide (u' = u /\ s' = s)) as [[-> ->]|Hne]; [by rewrite lookup_insert_eq|].
  rewrite lookup_insert_ne; [done|]. intros [= -> ->]. by apply Hne.
Qed.

#[export] Instance db_users_laws : UserRepositoryLaws DB.
Proof.
  split.
  - intros u a d d' H.
    assert (d' = match balance_of d u with Some b => set_balance u (a + b) d | None => d end) as ->
      by (symmetry; exact (f_equal snd H)).
    destruct (balance_of d u) as [b|] eqn:E; split.
    + intros u' s. apply holding_set_balance.
    + intros u'. rewrite balance_set by by rewrite E. by destruct (decide _).
    + done.
    + intros u'. destruct (decide (u' = u)) as [->|]; [|done]. by rewrite E.
  - intros u a d d' H. discriminate H.
  - intros u a d d' H.
    change (deductBalance u a d) with
      (match balance_of d u with
       | Some b => if a <=? b then (true, set_balance u (b - a) d) else (false, d) | None => (false, d) end) in H.
    destruct (balance_of d u) as [b|] eqn:E; [|discriminate].
    destruct (a <=? b) eqn:Ha; [|discriminate]. injection H as <-. zbool. split_and!.
    + intros u' s. apply holding_set_balance.
    + eauto.
    + intros u'. rewrite balance_set by by rewrite E. done.
  - intros u a d d' H.
    change (deductBalance u a d) with
      (match balance_of d u with
       | Some b => if a <=? b then (true, set_balance u (b - a) d) else (false, d) | None => (false, d) end) in H.
    destruct (balance_of d u) as [b|] eqn:E; [destruct (a <=? b); [discriminate|]|]; by injection H as <-.
  - done.
Qed.

#[export] Instance db_stocks_laws : StockRepositoryLaws DB.
Proof.
  split.
  - intros u s q d d' H. injection H as <-. split; [done|].
    intros u' s'. apply holding_set.
  - intros u s q d d' H. discriminate H.
  - intros u s q d d' H.
    change (deductStockHolding u s q d) with
      (if q <=? holding_of d u s then (true, set_holding_db u s (holding_of d u s - q) d) else (false, d)) in H.
    destruct (q <=? _) eqn:Hq; [|discriminate]. injection H as <-. zbool. split_and!; [done|done|].
    intros u' s'. apply holding_set.
  - intros u s q d d' H.
    change (deductStockHolding u s q d) with
      (if q <=? holding_of d u s then (true, set_holding_db u s (holding_of d u s - q) d) else (false, d)) in H.
    destruct (q <=? _) eqn:Hq; [discriminate|]. by injection H as <-.
Qed.
End TableDB.
