(* ===== verification/RepositoryImpl.v ===== *)
(** * The repositories over MySQL

    [src/server/UserRepositoryImpl.cpp] and [src/server/StockRepositoryImpl.cpp]: the two
    repositories as sequences of calls of the MySQL client, with every early return.  A
    statement handle is closed on every path.  The connection comes from the pool (Pools.v). *)

From S2P Require Import Prelude Bytes Numerals MySQL Repositories.
From stdpp Require Import base strings list gmap.
From Stdlib Require Import ZArith Lia.
Import Sql.
Local Open Scope Z_scope.

(** A [double] holding an [int64_t]: round to nearest, ties to even, at 53 bits. *)
Definition to_double (z : Z) : Z :=
  if Z.abs z <? 2 ^ 53 then z
  else
    let e := Z.log2 (Z.abs z) - 52 in
    let m := Z.abs z / 2 ^ e in
    let r := Z.abs z mod 2 ^ e in
    let m' := if (2 ^ (e - 1) <? r) || ((r =? 2 ^ (e - 1)) && Z.odd m) then m + 1 else m in
    Z.sgn z * (m' * 2 ^ e).

Definition register_sql : bytes := str "INSERT INTO accounts (username, password, balance) VALUES (?, ?, 0.00)".
Definition login_sql : bytes := str "SELECT * FROM accounts WHERE username=? AND password=?".
Definition balance_sql : bytes := str "SELECT balance FROM accounts WHERE username=?".
Definition update_balance_sql : bytes := str "UPDATE accounts SET balance = balance + ? WHERE username = ?".
Definition deduct_balance_sql : bytes :=
  str "UPDATE accounts SET balance = balance - ? WHERE username = ? AND balance >= ?".
Definition holding_sql : bytes := str "SELECT quantity FROM holdings WHERE username=? AND symbol=?".
Definition update_holding_sql : bytes :=
  str "INSERT INTO holdings (username, symbol, quantity) VALUES (?, ?, ?) ON DUPLICATE KEY UPDATE quantity = quantity + ?".
Definition stocks_sql : bytes := str "SELECT DISTINCT symbol FROM holdings".
Definition deduct_holding_sql : bytes :=
  str "UPDATE holdings SET quantity = quantity - ? WHERE username = ? AND symbol = ? AND quantity >= ?".

Section Impl.
Context {D : Type} `{MySQL D}.
Implicit Types (d : D).

(** [stmt = mysql_stmt_init(conn); if (!stmt) return ..; if (mysql_stmt_prepare(..)) { close;
    return ..; }]: the opening of every prepared call; [None] is an early return. *)
Definition open_stmt (sql : bytes) d : option nat * D :=
  match mysql_stmt_init d with
  | (None, d1) => (None, d1)
  | (Some stmt, d1) =>
      let '(err, d2) := mysql_stmt_prepare stmt sql d1 in
      if err =? 0 then (Some stmt, d2) else (None, mysql_stmt_close stmt d2)
  end.

(** ** [UserRepositoryImpl] *)

Definition registerUser_impl (username password : bytes) d : bool * D :=
  match open_stmt register_sql d with
  | (None, d1) => (false, d1)
  | (Some stmt, d1) =>
      let '(err, d2) := mysql_stmt_bind_param stmt [PString username; PString password] d1 in
      if negb (err =? 0) then (false, mysql_stmt_close stmt d2)
      else
        let '(err, d3) := mysql_stmt_execute stmt d2 in
        (err =? 0, mysql_stmt_close stmt d3)
  end.

(** The results of bind, execute and store are ignored. *)
Definition checkLogin_impl (username password : bytes) d : bool * D :=
  match open_stmt login_sql d with
  | (None, d1) => (false, d1)
  | (Some stmt, d1) =>
      let '(_, d2) := mysql_stmt_bind_param stmt [PString username; PString password] d1 in
      let '(_, d3) := mysql_stmt_execute stmt d2 in
      let '(_, d4) := mysql_stmt_store_result stmt d3 in
      (0 <? mysql_stmt_num_rows stmt d4, mysql_stmt_close stmt d4)
  end.

Definition getBalance_impl (username : bytes) d : Z * D :=
  match open_stmt balance_sql d with
  | (None, d1) => (-1, d1)
  | (Some stmt, d1) =>
      let '(_, d2) := mysql_stmt_bind_param stmt [PString username] d1 in
      let '(_, d3) := mysql_stmt_execute stmt d2 in
      let '(_, d4) := mysql_stmt_bind_result stmt d3 in
      let '(status, balance, d5) := mysql_stmt_fetch stmt d4 in
      (if status =? 0 then to_double (default 0 balance) else -1, mysql_stmt_close stmt d5)
  end.

Definition updateBalance_impl (username : bytes) (amount : Z) d : bool * D :=
  match open_stmt update_balance_sql d with
  | (None, d1) => (false, d1)
  | (Some stmt, d1) =>
      let '(_, d2) := mysql_stmt_bind_param stmt [PLongLong amount; PString username] d1 in
      let '(err, d3) := mysql_stmt_execute stmt d2 in
      (err =? 0, mysql_stmt_close stmt d3)
  end.

Definition deductBalance_impl (username : bytes) (amount : Z) d : bool * D :=
  match open_stmt deduct_balance_sql d with
  | (None, d1) => (false, d1)
  | (Some stmt, d1) =>
      let '(_, d2) := mysql_stmt_bind_param stmt [PLongLong amount; PString username; PLongLong amount] d1 in
      let '(_, d3) := mysql_stmt_execute stmt d2 in
      (0 <? mysql_stmt_affected_rows stmt d3, mysql_stmt_close stmt d3)
  end.

(** The name is escaped into a buffer of 256 bytes; the model takes the names that fit. *)
Definition getUserId_impl (username : bytes) d : option Z * D :=
  let escaped := cstr (mysql_real_escape_string username) in
  let sql := str "SELECT id FROM accounts WHERE username='" ++ escaped ++ str "'" in
  let '(err, d1) := mysql_query (cstr sql) d in
  if negb (err =? 0) then (Some 0, d1)
  else
    let '(res, d2) := mysql_store_result d1 in
    match res with
    | Some (row :: _) => (match column row 0 with Some c => stoull c | None => Some 0 end, d2)
    | _ => (Some 0, d2)
    end.

(** ** [StockRepositoryImpl] *)

Definition getStockHolding_impl (username symbol : bytes) d : Z * D :=
  match open_stmt holding_sql d with
  | (None, d1) => (0, d1)
  | (Some stmt, d1) =>
      let '(err, d2) := mysql_stmt_bind_param stmt [PString username; PString symbol] d1 in
      if negb (err =? 0) then (0, mysql_stmt_close stmt d2)
      else
        let '(err, d3) := mysql_stmt_execute stmt d2 in
        if negb (err =? 0) then (0, mysql_stmt_close stmt d3)
        else
          let '(err, d4) := mysql_stmt_bind_result stmt d3 in
          if negb (err =? 0) then (0, mysql_stmt_close stmt d4)
          else
            let '(status, quantity, d5) := mysql_stmt_fetch stmt d4 in
            (if status =? 0 then i32 (default 0 quantity) else 0, mysql_stmt_close stmt d5)
  end.

Definition updateStockHolding_impl (username symbol : bytes) (delta : Z) d : bool * D :=
  match open_stmt update_holding_sql d with
  | (None, d1) => (false, d1)
  | (Some stmt, d1) =>
      let '(_, d2) :=
        mysql_stmt_bind_param stmt [PString username; PString symbol; PLong delta; PLong delta] d1 in
      let '(err, d3) := mysql_stmt_execute stmt d2 in
      (err =? 0, mysql_stmt_close stmt d3)
  end.

(** One row of the result; rows with a null column are skipped. *)
Fixpoint holdings_of_rows (rows : list row) (h_json : gmap bytes Z) : option (gmap bytes Z) :=
  match rows with
  | [] => Some h_json
  | r :: rows' =>
      match column r 0, column r 1 with
      | Some symbol, Some q =>
          match stoi q with
          | Some quantity => holdings_of_rows rows' (<[symbol := quantity]> h_json)
          | None => None
          end
      | _, _ => holdings_of_rows rows' h_json
      end
  end.

(** The name is pasted into the query as it is, and the result of the query ignored. *)
Definition getAllHoldings_impl (username : bytes) d : option (gmap bytes Z) * D :=
  let sql := str "SELECT symbol, quantity FROM holdings WHERE username = '" ++ username ++ str "'" in
  let '(_, d1) := mysql_query (cstr sql) d in
  let '(res, d2) := mysql_store_result d1 in
  (holdings_of_rows (default [] res) ∅, d2).

Definition getAllStocks_impl d : list bytes * D :=
  let '(rows, d') := query_rows stocks_sql d in
  (omap (fun r => column r 0) rows, d').

Definition deductStockHolding_impl (username symbol : bytes) (amount : Z) d : bool * D :=
  match open_stmt deduct_holding_sql d with
  | (None, d1) => (false, d1)
  | (Some stmt, d1) =>
      let '(_, d2) :=
        mysql_stmt_bind_param stmt [PLong amount; PString username; PString symbol; PLong amount] d1 in
      let '(_, d3) := mysql_stmt_execute stmt d2 in
      (0 <? mysql_stmt_affected_rows stmt d3, mysql_stmt_close stmt d3)
  end.

Definition UserRepositoryImpl : IUserRepository D := {|
  registerUser := registerUser_impl;
  checkLogin := checkLogin_impl;
  repo_getBalance := getBalance_impl;
  updateBalance := updateBalance_impl;
  deductBalance := deductBalance_impl;
  getUserId := getUserId_impl
|}.

Definition StockRepositoryImpl : IStockRepository D := {|
  getStockHolding := getStockHolding_impl;
  updateStockHolding := updateStockHolding_impl;
  getAllHoldings := getAllHoldings_impl;
  getAllStocks := getAllStocks_impl;
  deductStockHolding := deductStockHolding_impl
|}.
End Impl.

Example to_double_exact : to_double 9007199254740993 = 9007199254740992.
Proof. reflexivity. Qed.

(** ** The behaviour of MySQL the repositories rely on

    The documented behaviour of the statement interface: what a handle was prepared and bound
    with ([stmt_text], [stmt_params]), that only executing changes the tables, that a failed
    execution changes nothing, and that a successful one does what the text of the statement
    says (MySQL.v). *)

Class MySQLDoc (D : Type) `{MySQL D} := {
  tables : D -> Tables;
  stmt_text : D -> nat -> option bytes;
  stmt_params : D -> nat -> option (list param);
  doc_init d r d' : mysql_stmt_init d = (r, d') -> tables d' = tables d;
  doc_prepare s sql d e d' :
    mysql_stmt_prepare s sql d = (e, d') -> tables d' = tables d /\ (e = 0 -> stmt_text d' s = Some sql);
  (** a failed bind leaves the parameters unbound *)
  doc_bind s ps d e d' :
    mysql_stmt_bind_param s ps d = (e, d') ->
    tables d' = tables d /\ stmt_text d' s = stmt_text d s /\ stmt_params d' s = if e =? 0 then Some ps else None;
  (** executing with unbound parameters fails; a failed execution changes nothing, and the
      number of affected rows is then [(my_ulonglong)-1] *)
  doc_unbound s d : stmt_params d s = None -> (mysql_stmt_execute s d).1 <> 0;
  doc_execute_error s d e d' :
    mysql_stmt_execute s d = (e, d') -> e <> 0 -> tables d' = tables d /\ mysql_stmt_affected_rows s d' = 2 ^ 64 - 1;
  doc_execute s d d' sql ps st t n :
    stmt_text d s = Some sql -> stmt_params d s = Some ps -> parse sql = Some st ->
    run_statement st ps (tables d) = Some (t, n) -> mysql_stmt_execute s d = (0, d') ->
    tables d' = t /\ match n with Some k => mysql_stmt_affected_rows s d' = k | None => True end;
  doc_close s d : tables (mysql_stmt_close s d) = tables d;
  doc_bind_result s d : tables (mysql_stmt_bind_result s d).2 = tables d;
  doc_fetch s d : tables (mysql_stmt_fetch s d).2 = tables d
}.

#[export] Instance doc_ledger {D} `{MySQLDoc D} : Ledger D := {|
  balance_of d u := t_accounts (tables d) !! u;
  holding_of d u y := default 0 (t_holdings (tables d) !! (u, y))
|}.
