(* ===== verification/Engine.v ===== *)
(** * The matching engine

    [include/OrderBookProcessor.hpp] and [include/MatchingEngine.hpp].  Each ticker has a
    processor: an event queue and a worker thread that owns the book.  The worker takes a
    batch of events, processes them one by one, collecting the match records in a vector
    and pushing a cancel record for every successful cancellation, and pushes the vector at
    the end of the batch. *)

From S2P Require Import Prelude Common OrderedMap OrderBook.
From stdpp Require Import base list gmap.
From Stdlib Require Import ZArith Lia.
Local Open Scope Z_scope.

(** ** The processor of one ticker

    [p_buffer] and [p_results] are the locals of [processLoop]: the events of the current
    batch that are still to be processed, and the match records collected so far. *)

Record OrderBookProcessor := mkProc {
  p_ticker_id : Z;
  p_book : OrderBook;
  p_queue : list EngineEvent;
  p_buffer : list EngineEvent;
  p_results : list MatchRecord
}.

(** The constructor. *)
Definition new_processor (ticker : Z) : OrderBookProcessor := mkProc ticker (empty_book ticker) [] [] [].

Definition enqueue (ev : EngineEvent) (p : OrderBookProcessor) : OrderBookProcessor :=
  mkProc (p_ticker_id p) (p_book p) (p_queue p ++ [ev]) (p_buffer p) (p_results p).

(** The [CancelRecord] of a cancelled order. *)
Definition cancel_record (o : Order) (now : Z) : CancelRecord :=
  mkCancel (ticker_id o) (order_id o) (user_id o) (side o) (price o) (quantity o) (u64 now).

Section Processor.
Context (clock : nat -> Z).

(** The body of the [for] loop for one event: the processor, the store of orders, the cancel
    records pushed to the settlement processor, the clock count.  The settlement processor
    is never null (main.cpp passes one to every engine).  A [NEW_ORDER] event always carries
    an order: [WALManager::appendOrder] sets it from a [make_shared]. *)
Definition process_event (p : OrderBookProcessor) (h : heap) (ticks : nat) (ev : EngineEvent)
    : OrderBookProcessor * heap * list CancelRecord * nat :=
  match ev_type ev with
  | NEW_ORDER =>
      match ev_order ev with
      | Some o =>
          let '(b, h', res, ticks') := processOrder clock (p_book p) o h (p_results p) ticks in
          (mkProc (p_ticker_id p) b (p_queue p) (p_buffer p) res, h', [], ticks')
      | None => (p, h, [], ticks)
      end
  | CANCEL_ORDER =>
      let '(canceled_order, b) := cancelOrder (p_book p) h (cancel_order_id ev) (cancel_user_id ev) in
      let p' := mkProc (p_ticker_id p) b (p_queue p) (p_buffer p) (p_results p) in
      match canceled_order with
      | Some r => (p', h, [cancel_record (deref h r) (clock ticks)], S ticks)
      | None => (p', h, [], ticks)
      end
  end.

(** The [for] loop over the buffer. *)
Fixpoint process_events (p : OrderBookProcessor) (h : heap) (ticks : nat) (evs : list EngineEvent)
    : OrderBookProcessor * heap * list CancelRecord * nat :=
  match evs with
  | [] => (p, h, [], ticks)
  | ev :: evs' =>
      let '(p1, h1, cs1, t1) := process_event p h ticks ev in
      let '(p2, h2, cs2, t2) := process_events p1 h1 t1 evs' in
      (p2, h2, cs1 ++ cs2, t2)
  end.

(** One iteration of [processLoop] that dequeued [batch], leaving [rest] in the queue: the
    processor, the store, the cancel records and the match records pushed, the clock. *)
Definition processLoop_iteration (p : OrderBookProcessor) (h : heap) (ticks : nat)
    (batch rest : list EngineEvent)
    : OrderBookProcessor * heap * list CancelRecord * list MatchRecord * nat :=
  match batch with
  | [] => (p, h, [], [], ticks)
  | _ =>
      let p0 := mkProc (p_ticker_id p) (p_book p) rest [] [] in
      let '(p1, h1, cs, t1) := process_events p0 h ticks batch in
      (mkProc (p_ticker_id p1) (p_book p1) (p_queue p1) [] [], h1, cs, p_results p1, t1)
  end.
End Processor.

(** ** The engine *)

(** [order_books_]. *)
Abbreviation MatchingEngine := (gmap Z OrderBookProcessor).

Definition init (e : MatchingEngine) (ticker : Z) : MatchingEngine :=
  match e !! ticker with
  | None => <[ticker := new_processor ticker]> e
  | Some _ => e
  end.

(** [processOrder(order)]: [false] when no book has the order's ticker. *)
Definition engine_processOrder (e : MatchingEngine) (h : heap) (r : oref) : bool * MatchingEngine :=
  match e !! ticker_id (deref h r) with
  | None => (false, e)
  | Some p => (true, <[ticker_id (deref h r) := enqueue (new_order_event r) p]> e)
  end.

(** [CancelOrder]: the event's [ticker_id] keeps its default. *)
Definition CancelOrder (e : MatchingEngine) (ticker oid uid : Z) : MatchingEngine :=
  match e !! ticker with
  | Some p => <[ticker := enqueue (mkEvent CANCEL_ORDER None oid uid 0) p]> e
  | None => e
  end.

(** [getBestBidOffer(ticker_id, best_bid, best_ask)]: the out-parameters keep their values
    when the ticker is unknown. *)
Definition engine_getBestBidOffer (e : MatchingEngine) (ticker : Z) (out : Z * Z) : Z * Z :=
  match e !! ticker with
  | Some p => getBestBidOffer (p_book p)
  | None => out
  end.

(** [getUserActiveOrder]: the books in the (unspecified) order of the map. *)
Definition engine_getUserActiveOrder (e : MatchingEngine) (uid : Z) : list oref :=
  concat ((fun kp => getUserActiveOrder (p_book (snd kp)) uid) <$> map_to_list e).
