(* ===== verification/WALManager.v ===== *)
(** * The write-ahead log

    [include/WALManager.hpp].  Handlers append events to a queue; one worker takes a batch,
    hands a 46-byte record per event to the log's [FILE] stream, and then forwards the events
    to the engine.  The stream is buffered and never flushed before it is closed: what is in
    the file on disk lags behind ([FILE], [fwrite]). *)

From S2P Require Import Prelude Bytes Common OrderBook Engine.
From stdpp Require Import base list gmap.
From Stdlib Require Import ZArith Lia.
Local Open Scope Z_scope.

Record WALRecord := mkWAL {
  wr_type : Z; wr_timestamp : Z; wr_order_id : Z; wr_ticker_id : Z;
  wr_user_id : Z; wr_side : Z; wr_price : Z; wr_quantity : Z
}.

#[export] Instance WALRecord_packed : Packed WALRecord := {|
  packed_layout := [1; 8; 8; 4; 8; 1; 8; 8]%nat;
  packed_wf _ := True;
  to_fields r := [wr_type r; wr_timestamp r; wr_order_id r; wr_ticker_id r;
                  wr_user_id r; wr_side r; wr_price r; wr_quantity r];
  of_fields vs := mkWAL (nth 0 vs 0) (nth 1 vs 0) (nth 2 vs 0) (nth 3 vs 0)
                        (nth 4 vs 0) (nth 5 vs 0) (nth 6 vs 0) (nth 7 vs 0)
|}.
#[export] Instance WALRecord_laws : PackedLaws WALRecord. Proof. int_packed. Qed.

(** ** The stream

    A [FILE] opened with ["ab"]: what the file holds, the bytes accepted and not yet handed to
    the system, and how many calls of [fwrite] there have been.  How much a call hands over is
    the C library's choice (when its buffer fills); [f_spill] is that choice, call by call. *)
Record FILE := mkFILE {
  f_disk : bytes;
  f_buffer : bytes;
  f_calls : nat;
  f_spill : nat -> nat
}.

Definition fopen (contents : bytes) (spill : nat -> nat) : FILE := mkFILE contents [] 0 spill.

(** [fwrite]: the bytes are accepted in order, and some prefix of what is pending goes to the
    file (that the disk has room is assumed). *)
Definition fwrite (data : bytes) (f : FILE) : FILE :=
  let pending := f_buffer f ++ data in
  let n := f_spill f (f_calls f) in
  mkFILE (f_disk f ++ take n pending) (drop n pending) (S (f_calls f)) (f_spill f).

(** [fclose]: the rest is handed over; the contents of the file. *)
Definition fclose (f : FILE) : bytes := f_disk f ++ f_buffer f.

(** The queue, the locals of [processerLoop] (the events of the batch that are logged and not
    forwarded yet) and the log file; [None] when [fopen] failed. *)
Record WALManager := mkWM {
  wal_queue : list EngineEvent;
  wal_buffer : list EngineEvent;
  wal_file_ : option FILE
}.

Definition appendOrder (w : WALManager) (r : oref) : WALManager :=
  mkWM (wal_queue w ++ [new_order_event r]) (wal_buffer w) (wal_file_ w).

Definition appendCancel (w : WALManager) (ticker oid uid : Z) : WALManager :=
  mkWM (wal_queue w ++ [mkEvent CANCEL_ORDER None oid uid ticker]) (wal_buffer w) (wal_file_ w).

Section Loop.
Context (clock : nat -> Z).

(** The record of an event; a cancellation reads the clock. *)
Definition wal_record (h : heap) (ticks : nat) (ev : EngineEvent) : WALRecord * nat :=
  match ev_type ev with
  | NEW_ORDER =>
      let o := match ev_order ev with Some r => deref h r | None => null_order end in
      (mkWAL 0 (timestamp o) (order_id o) (ticker_id o) (user_id o)
         (match side o with BUY => 0 | SELL => 1 end) (price o) (quantity o), ticks)
  | CANCEL_ORDER =>
      (mkWAL 1 (u64 (clock ticks)) (cancel_order_id ev) (ev_ticker_id ev) (cancel_user_id ev) 0 0 0, S ticks)
  end.

Fixpoint wal_records (h : heap) (ticks : nat) (evs : list EngineEvent) : list WALRecord * nat :=
  match evs with
  | [] => ([], ticks)
  | ev :: evs' =>
      let '(rec, t1) := wal_record h ticks ev in
      let '(recs, t2) := wal_records h t1 evs' in (rec :: recs, t2)
  end.

(** [if (wal_file_ && !records.empty()) fwrite(records.data(), sizeof(WALRecord),
    records.size(), wal_file_)]: the stream takes the images of the records. *)
Definition encode_records (recs : list WALRecord) : bytes := concat (to_bytes <$> recs).
Definition append_log (recs : list WALRecord) (file : option FILE) : option FILE :=
  match file, recs with
  | Some f, _ :: _ => Some (fwrite (encode_records recs) f)
  | _, _ => file
  end.

(** Forwarding one event to the engine. *)
Definition forward (e : MatchingEngine) (h : heap) (ev : EngineEvent) : MatchingEngine :=
  match ev_type ev with
  | NEW_ORDER => match ev_order ev with Some r => snd (engine_processOrder e h r) | None => e end
  | CANCEL_ORDER => CancelOrder e (ev_ticker_id ev) (cancel_order_id ev) (cancel_user_id ev)
  end.

(** The first half of an iteration that dequeued [batch], leaving [rest]: build the records
    and pass them to [fwrite]. *)
Definition wal_log (w : WALManager) (h : heap) (ticks : nat) (batch rest : list EngineEvent) : WALManager * nat :=
  let '(recs, t1) := wal_records h ticks batch in
  (mkWM rest batch (append_log recs (wal_file_ w)), t1).

(** One iteration of [processerLoop]. *)
Definition processerLoop_iteration (w : WALManager) (e : MatchingEngine) (h : heap) (ticks : nat)
    (batch rest : list EngineEvent) : WALManager * MatchingEngine * nat :=
  let '(w1, t1) := wal_log w h ticks batch rest in
  (mkWM (wal_queue w1) [] (wal_file_ w1), fold_left (fun e ev => forward e h ev) batch e, t1).
End Loop.

(** ** Reading the log back *)

(** The records of a file, a whole number of them. *)
Fixpoint decode_records (fuel : nat) (file : bytes) : list WALRecord :=
  match fuel with
  | O => []
  | S fuel' =>
      match file with
      | [] => []
      | _ => of_bytes file :: decode_records fuel' (drop 46 file)
      end
  end.

Lemma wal_record_size : sizeof WALRecord = 46.
Proof. done. Qed.

Lemma decode_records_step n file :
  file <> [] -> decode_records (S n) file = of_bytes file :: decode_records n (drop 46 file).
Proof. by destruct file. Qed.

Lemma decode_encode_records recs :
  Forall packed_ok recs -> decode_records (length recs) (encode_records recs) = recs.
Proof.
  induction 1 as [|r recs Hr _ IH]; [done|]. unfold encode_records in *.
  rewrite fmap_cons. cbn [concat length].
  pose proof (length_to_bytes r Hr) as Hl. rewrite wal_record_size in Hl.
  rewrite decode_records_step.
  - rewrite of_to_bytes by done. f_equal.
    rewrite drop_app_ge by lia. replace (46 - length (to_bytes r))%nat with 0%nat by lia. apply IH.
  - intros E. apply (f_equal length) in E. rewrite length_app in E. cbn [length] in E. lia.
Qed.

Lemma encode_records_app r1 r2 : encode_records (r1 ++ r2) = encode_records r1 ++ encode_records r2.
Proof. unfold encode_records. by rewrite fmap_app, concat_app. Qed.

(** What the first bytes of the log say: its whole records. *)
Lemma decode_records_prefix recs d k :
  Forall packed_ok recs -> d ++ k = encode_records recs ->
  decode_records (length d / 46) d = take (length d / 46) recs.
Proof.
  intros Hr. revert d. induction Hr as [|r recs Hr _ IH]; intros d E.
  - apply app_eq_nil in E as [-> _]. done.
  - unfold encode_records in *. rewrite fmap_cons in E. cbn [concat] in E.
    pose proof (length_to_bytes r Hr) as Hl. rewrite wal_record_size in Hl.
    destruct (decide (length d < 46)%nat) as [Hd|Hd]; [by rewrite Nat.div_small|].
    assert (exists d', d = to_bytes r ++ d') as [d' ->].
    { exists (drop 46 d). apply (f_equal (take 46)) in E. rewrite !take_app_le in E by lia.
      rewrite (take_ge (to_bytes r)) in E by lia. by rewrite <- E, take_drop. }
    rewrite <- app_assoc in E. apply app_inv_head in E.
    assert (length (to_bytes r ++ d') / 46 = S (length d' / 46))%nat as ->.
    { rewrite length_app. replace (length (to_bytes r)) with 46%nat by lia.
      replace (46 + length d')%nat with (1 * 46 + length d')%nat by lia. by rewrite Nat.div_add_l. }
    rewrite decode_records_step.
    + rewrite of_to_bytes by done. rewrite drop_app_ge by lia.
      replace (46 - length (to_bytes r))%nat with 0%nat by lia. cbn [take]. f_equal. by apply IH.
    + intros E'. apply (f_equal length) in E'. rewrite length_app in E'. cbn [length] in E'. lia.
Qed.

(** ** What writing does to the stream *)

(** [f] is [f0] after more bytes were accepted: none is lost or reordered, and the file grew by
    a prefix of them. *)
Record stream_grew (f0 f : FILE) (data : bytes) : Prop := {
  sg_bytes : fclose f = fclose f0 ++ data;
  sg_disk : exists l, f_disk f = f_disk f0 ++ l;
  sg_spill : f_spill f = f_spill f0;
  sg_idle : (forall n, f_spill f0 n = 0%nat) -> f_disk f = f_disk f0
}.

Lemma stream_grew_refl f : stream_grew f f [].
Proof. split; [by rewrite app_nil_r|exists []; by rewrite app_nil_r|done|done]. Qed.

Lemma fwrite_grows f0 f data more : stream_grew f0 f data -> stream_grew f0 (fwrite more f) (data ++ more).
Proof.
  intros [H1 (l & H2) H3 H4]. split; unfold fclose, fwrite in *; simpl.
  - by rewrite <- app_assoc, take_drop, app_assoc, H1, <- (app_assoc (f_disk f0 ++ f_buffer f0)).
  - eexists. by rewrite H2, <- app_assoc.
  - done.
  - intros H0. rewrite H3, H0. simpl. by rewrite app_nil_r, H4.
Qed.

(** An order whose fields have their C++ types. *)
Definition order_typed (o : Order) : Prop :=
  inU 64 (order_id o) /\ inU 32 (ticker_id o) /\ inU 64 (user_id o) /\ inU 64 (price o) /\
  inU 64 (quantity o) /\ inU 64 (timestamp o).

#[export] Instance order_typed_dec o : Decision (order_typed o).
Proof. unfold order_typed. apply _. Defined.

Definition event_typed (h : heap) (ev : EngineEvent) : Prop :=
  match ev_type ev with
  | NEW_ORDER => exists r, ev_order ev = Some r /\ order_typed (deref h r)
  | CANCEL_ORDER => inU 64 (cancel_order_id ev) /\ inU 32 (ev_ticker_id ev) /\ inU 64 (cancel_user_id ev)
  end.

Lemma wal_record_ok clock h t ev : event_typed h ev -> packed_ok (wal_record clock h t ev).1.
Proof.
  unfold event_typed, wal_record. destruct (ev_type ev).
  - intros (r & -> & H1 & H2 & H3 & H4 & H5 & H6). split; [done|]. simpl.
    unfold inU in *. repeat constructor; simpl; try lia; by destruct (side _).
  - intros (H1 & H2 & H3). pose proof (wrapU_range 64 (clock t) ltac:(lia)). split; [done|]. simpl.
    unfold inU in *. repeat constructor; simpl; lia.
Qed.

Lemma wal_records_ok clock h t evs :
  Forall (event_typed h) evs -> Forall packed_ok (wal_records clock h t evs).1.
Proof.
  intros He. revert t. induction He as [|ev evs Hev _ IH]; intros t; simpl; [constructor|].
  pose proof (wal_record_ok clock h t ev Hev) as Hr. destruct (wal_record clock h t ev) as [rec t1].
  specialize (IH t1). destruct (wal_records clock h t1 evs) as [recs t2]. by constructor.
Qed.

Lemma length_wal_records clock h t evs : length (wal_records clock h t evs).1 = length evs.
Proof.
  revert t. induction evs as [|ev evs IH]; intros t; simpl; [done|].
  destruct (wal_record clock h t ev) as [rec t1]. specialize (IH t1).
  destruct (wal_records clock h t1 evs). simpl in *. by f_equal.
Qed.
