(* ===== verification/SettlementProcessor.v ===== *)
(** * Settlement

    [include/SettlementProcessor.hpp]: the worker that turns match records and cancel
    records into updates of the database and of the in-memory accounts.  The account store
    and the two repositories are used through their interfaces. *)

From S2P Require Import Prelude Bytes Common TickerManager Accounts Repositories.
From stdpp Require Import base list gmap.
From Stdlib Require Import ZArith Lia.
Local Open Scope Z_scope.

Section Settlement.
Context {S D : Type} `{AS : AccountStore S} `{UR : IUserRepository D} `{SR : IStockRepository D}.
Implicit Types (u : S) (d : D) (t : TickerManager) (rec : MatchRecord).

(** [int64_t sell_money = rec.match_price * rec.match_quantity]: a 64-bit unsigned product. *)
Definition sell_money rec : Z := i64 (u64 (match_price rec * match_quantity rec)).
Definition refund_money rec : Z :=
  i64 (u64 (u64 (buyer_expected_price rec - match_price rec) * match_quantity rec)).

(** The database half of a trade; the results of the four calls are ignored. *)
Definition settle_db t u rec d : D :=
  let buyer_name := getName u (buyer_user_id rec) in
  let seller_name := getName u (sell_user_id rec) in
  let symbol := getSymbol t (mr_ticker_id rec) in
  let '(_, d1) := deductBalance buyer_name (sell_money rec) d in
  let '(_, d2) := updateStockHolding buyer_name symbol (i32 (match_quantity rec)) d1 in
  let '(_, d3) := updateBalance seller_name (sell_money rec) d2 in
  let '(_, d4) := deductStockHolding seller_name symbol (i32 (match_quantity rec)) d3 in
  d4.

Definition settle_buy u rec : S :=
  commitBuy u (buyer_user_id rec) (mr_ticker_id rec) (sell_money rec) (i32 (match_quantity rec)) (refund_money rec).
Definition settle_sell u rec : S :=
  commitSell u (sell_user_id rec) (mr_ticker_id rec) (sell_money rec) (i32 (match_quantity rec)).

(** The body of the loop over the match records. *)
Definition settle_match t (ud : S * D) rec : S * D :=
  let '(u, d) := ud in
  let d' := settle_db t u rec d in
  (settle_sell (settle_buy u rec) rec, d').

(** The body of the loop over the cancel records. *)
Definition settle_cancel u (rec : CancelRecord) : S :=
  match cr_side rec with
  | BUY => unfreezeBalance u (cr_user_id rec) (i64 (u64 (cr_price rec * cr_quantity rec)))
  | SELL => unfreezeStock u (cr_user_id rec) (cr_ticker_id rec) (i32 (cr_quantity rec))
  end.

(** One iteration of [processLoop] that dequeued [matches] and [cancels]. *)
Definition settle_iteration t (ud : S * D) (matches : list MatchRecord) (cancels : list CancelRecord) : S * D :=
  let '(u, d) := fold_left (settle_match t) matches ud in
  (fold_left settle_cancel cancels u, d).
End Settlement.

(** [pushRecords], [pushCancelRecord]: onto the two queues. *)
Record SettlementQueues := mkSQ { sq_matches : list MatchRecord; sq_cancels : list CancelRecord }.

Definition pushRecords (recs : list MatchRecord) (q : SettlementQueues) : SettlementQueues :=
  match recs with [] => q | _ => mkSQ (sq_matches q ++ recs) (sq_cancels q) end.
Definition pushCancelRecord (rec : CancelRecord) (q : SettlementQueues) : SettlementQueues :=
  mkSQ (sq_matches q) (sq_cancels q ++ [rec]).

(** ** What a settled record does to the accounts *)

Section Facts.
Context {S D : Type} `{AccountStoreLaws S} `{IUserRepository D} `{IStockRepository D}.

Lemma settle_buy_acct (u : S) rec uid :
  store_ok u ->
  acct (settle_buy u rec) uid =
    if decide (uid = buyer_user_id rec)
    then commit_buy (mr_ticker_id rec) (sell_money rec) (i32 (match_quantity rec)) (refund_money rec) <$> acct u uid
    else acct u uid.
Proof.
  intros Hu. unfold settle_buy, commitBuy. rewrite acct_update by eauto with exch.
  by destruct (decide _) as [->|].
Qed.

Lemma settle_sell_acct (u : S) rec uid :
  store_ok u ->
  acct (settle_sell u rec) uid =
    if decide (uid = sell_user_id rec)
    then commit_sell (mr_ticker_id rec) (sell_money rec) (i32 (match_quantity rec)) <$> acct u uid
    else acct u uid.
Proof.
  intros Hu. unfold settle_sell, commitSell. rewrite acct_update by eauto with exch.
  by destruct (decide _) as [->|].
Qed.

Definition cancel_effect (rec : CancelRecord) : UserAccount -> UserAccount :=
  match cr_side rec with
  | BUY => unfreeze_balance (i64 (u64 (cr_price rec * cr_quantity rec)))
  | SELL => unfreeze_stock (cr_ticker_id rec) (i32 (cr_quantity rec))
  end.

Lemma cancel_effect_identity rec : keeps_identity (cancel_effect rec).
Proof. unfold cancel_effect. destruct (cr_side rec); eauto with exch. Qed.

Lemma settle_cancel_effect (u : S) rec :
  settle_cancel u rec = update_account u (cr_user_id rec) (cancel_effect rec).
Proof. unfold settle_cancel, cancel_effect. by destruct (cr_side rec). Qed.

Lemma settle_cancel_acct (u : S) rec uid :
  store_ok u ->
  acct (settle_cancel u rec) uid =
    if decide (uid = cr_user_id rec) then cancel_effect rec <$> acct u uid else acct u uid.
Proof.
  intros Hu. rewrite settle_cancel_effect, acct_update by eauto using cancel_effect_identity.
  by destruct (decide _) as [->|].
Qed.

Lemma settle_buy_ok (u : S) rec : store_ok u -> store_ok (settle_buy u rec).
Proof. intros. by apply update_account_ok; eauto with exch. Qed.
Lemma settle_sell_ok (u : S) rec : store_ok u -> store_ok (settle_sell u rec).
Proof. intros. by apply update_account_ok; eauto with exch. Qed.
Lemma settle_cancel_ok (u : S) rec : store_ok u -> store_ok (settle_cancel u rec).
Proof. intros. rewrite settle_cancel_effect. by apply update_account_ok; eauto using cancel_effect_identity. Qed.
End Facts.

#[export] Hint Resolve settle_buy_ok settle_sell_ok settle_cancel_ok cancel_effect_identity : exch.
