(* ===== verification/Circular.v ===== *)
(** * Index arithmetic of the lock-free queue

    The helpers of [src/include/concurrentqueue.h] that its indices rely on: the comparison of
    wrapping 64-bit counters, rounding up to a power of two, and the position of an index in its
    block. *)

From S2P Require Import Prelude.
From stdpp Require Import base list.
From Stdlib Require Import ZArith Lia.
Local Open Scope Z_scope.

(** [circular_less_than<T>(a, b)] at [w] bits. *)
Definition circular_less_than (w a b : Z) : bool := 2 ^ (w - 1) <? wrapU w (a - b).

(** The steps [x |= x >> k] of [ceil_to_pow_2] for 64-bit arguments: 1, 2, 4, then 8, 16, 32. *)
Definition smear (x : Z) : Z :=
  fold_left (fun x k => Z.lor x (Z.shiftr x k)) [1; 2; 4; 8; 16; 32] x.
Definition ceil_to_pow_2 (x : Z) : Z := u64 (smear (u64 (x - 1)) + 1).

(** [BLOCK_SIZE] of the default traits; the first index of the block of [index]
    ([index & ~(BLOCK_SIZE - 1)]) and its slot in it ([index & (BLOCK_SIZE - 1)]). *)
Definition BLOCK_SIZE : Z := 32.
Definition block_base (index : Z) : Z := Z.land index (Z.lxor (2 ^ 64 - 1) (BLOCK_SIZE - 1)).
Definition block_slot (index : Z) : Z := Z.land index (BLOCK_SIZE - 1).

(** ** Facts *)

(** The comparison is that of the counters the indices are taken from, while these are less than
    half the range apart, however often they have wrapped. *)
Lemma circular_less_than_spec w x y :
  1 < w -> - 2 ^ (w - 1) < x - y < 2 ^ (w - 1) ->
  circular_less_than w (wrapU w x) (wrapU w y) = (x <? y).
Proof.
  intros Hw Hd. unfold circular_less_than, wrapU. rewrite <- Zminus_mod.
  assert (2 ^ w = 2 * 2 ^ (w - 1)) as Hp by (rewrite <- Z.pow_succ_r by lia; f_equal; lia).
  destruct (Z.ltb_spec x y).
  - replace ((x - y) mod 2 ^ w) with (x - y + 2 ^ w); [apply Z.ltb_lt; lia|].
    symmetry. rewrite <- (Z.mod_add (x - y) 1 (2 ^ w)), Z.mul_1_l by lia. apply Z.mod_small. lia.
  - rewrite Z.mod_small by lia. apply Z.ltb_ge. lia.
Qed.

Lemma circular_64 x y : 0 <= x < 2 ^ 63 -> 0 <= y < 2 ^ 63 -> circular_less_than 64 x y = (x <? y).
Proof.
  intros Hx Hy. rewrite <- (circular_less_than_spec 64 x y) by lia.
  unfold wrapU. rewrite !Z.mod_small by lia. done.
Qed.

(** Filling in the bits below: [smear x] has a bit exactly when [x] has one there or above. *)
Lemma smear_bit x n : 0 <= x < 2 ^ 64 -> 0 <= n ->
  Z.testbit (smear x) n = true <-> exists k, 0 <= k < 64 /\ Z.testbit x (n + k) = true.
Proof.
  intros Hx Hn.
  assert (forall m y, 0 <= m ->
    (forall n, 0 <= n -> Z.testbit y n = true <-> exists k, 0 <= k < m /\ Z.testbit x (n + k) = true) ->
    (forall n, 0 <= n -> Z.testbit (Z.lor y (Z.shiftr y m)) n = true <->
       exists k, 0 <= k < m + m /\ Z.testbit x (n + k) = true)) as Hstep.
  { intros m y Hm Hy i Hi. rewrite Z.lor_spec, Z.shiftr_spec, orb_true_iff, (Hy i), (Hy (i + m)) by lia. split.
    - intros [(k & Hk & E)|(k & Hk & E)]; [exists k; split; [lia|done]|].
      exists (m + k). split; [lia|]. by rewrite Z.add_assoc.
    - intros (k & Hk & E). destruct (decide (k < m)); [left; exists k; split; [lia|done]|right].
      exists (k - m). split; [lia|]. replace (i + m + (k - m)) with (i + k) by lia. done. }
  unfold smear. cbn [fold_left].
  revert n Hn. change 64 with (32 + 32). apply Hstep; [lia|]. change 32 with (16 + 16). apply Hstep; [lia|].
  change 16 with (8 + 8). apply Hstep; [lia|]. change 8 with (4 + 4). apply Hstep; [lia|].
  change 4 with (2 + 2). apply Hstep; [lia|]. change 2 with (1 + 1). apply Hstep; [lia|].
  intros n Hn. split; [intros E; exists 0; split; [lia|by rewrite Z.add_0_r]|].
  intros (k & Hk & E). assert (k = 0) as -> by lia. by rewrite Z.add_0_r in E.
Qed.

Lemma smear_ones x : 0 < x < 2 ^ 64 -> smear x = Z.ones (Z.log2 x + 1).
Proof.
  intros Hx. pose proof (Z.log2_nonneg x). assert (Z.log2 x < 64) by (apply Z.log2_lt_pow2; lia).
  apply Z.bits_inj'. intros n Hn. rewrite Z.testbit_ones_nonneg by lia.
  apply eq_bool_prop_intro. rewrite !Is_true_true, smear_bit, Z.ltb_lt by lia. split.
  - intros (k & Hk & E). destruct (decide (n < Z.log2 x + 1)) as [|Hlt]; [done|].
    rewrite Z.bits_above_log2 in E; [done|lia..].
  - intros Hlt. exists (Z.log2 x - n). split; [lia|].
    replace (n + (Z.log2 x - n)) with (Z.log2 x) by lia. apply Z.bit_log2. lia.
Qed.

(** Rounding up is exact up to 2^63, the largest power a 64-bit word holds. *)
Lemma ceil_to_pow_2_spec x : 1 <= x <= 2 ^ 63 -> ceil_to_pow_2 x = 2 ^ Z.log2_up x.
Proof.
  intros Hx. unfold ceil_to_pow_2. destruct (decide (x = 1)) as [->|Hne]; [reflexivity|].
  assert (u64 (x - 1) = x - 1) as -> by mword.
  rewrite smear_ones by lia. rewrite Z.ones_equiv, Z.log2_up_eqn by lia.
  replace (Z.pred (2 ^ (Z.log2 (x - 1) + 1)) + 1) with (2 ^ Z.succ (Z.log2 (Z.pred x))).
  2:{ rewrite <- Z.sub_1_r, Z.add_1_r. lia. }
  apply wrapU_id. split; [apply Z.pow_nonneg; lia|]. apply Z.pow_lt_mono_r; [lia..|].
  assert (Z.log2 (Z.pred x) < 63) by (apply Z.log2_lt_pow2; lia). lia.
Qed.

Lemma block_slot_mod index : block_slot index = index mod 32.
Proof. unfold block_slot. change (BLOCK_SIZE - 1) with (Z.ones 5). by rewrite Z.land_ones by lia. Qed.

Lemma block_base_sub index : 0 <= index < 2 ^ 64 -> block_base index = index - index mod 32.
Proof.
  intros Hi. unfold block_base. change (Z.lxor (2 ^ 64 - 1) (BLOCK_SIZE - 1)) with (Z.ldiff (Z.ones 64) (Z.ones 5)).
  assert (Z.land index (Z.ldiff (Z.ones 64) (Z.ones 5)) = Z.ldiff index (Z.ones 5)) as ->.
  { apply Z.bits_inj'. intros n Hn. rewrite Z.land_spec, !Z.ldiff_spec, !Z.testbit_ones_nonneg by lia.
    destruct (Z.ltb_spec n 64); [done|]. rewrite Z.bits_above_log2; [done|lia|].
    destruct (decide (index = 0)) as [->|]; [simpl; lia|]. assert (Z.log2 index < 64) by (apply Z.log2_lt_pow2; lia). lia. }
  rewrite Z.ldiff_ones_r, Z.shiftr_div_pow2, Z.shiftl_mul_pow2 by lia.
  change (2 ^ 5) with 32. pose proof (Z.div_mod index 32). lia.
Qed.

Lemma block_base_bounds index : 0 <= index < 2 ^ 64 -> 0 <= block_base index <= index /\ index < block_base index + 32.
Proof. intros Hi. rewrite block_base_sub by done. pose proof (Z.mod_pos_bound index 32). pose proof (Z.mod_le index 32). lia. Qed.

Lemma block_base_idem index : 0 <= index < 2 ^ 64 -> block_base (block_base index) = block_base index.
Proof.
  intros Hi. pose proof (block_base_bounds index Hi). rewrite (block_base_sub (block_base index)) by lia.
  rewrite block_base_sub by done. rewrite Zminus_mod_idemp_r, Z.sub_diag, Z.mod_0_l by lia. lia.
Qed.

(** The indices of a block are the 32 from its base on. *)
Lemma block_base_iff i base : 0 <= i < 2 ^ 64 -> 0 <= base < 2 ^ 64 -> block_base base = base ->
  block_base i = base <-> base <= i < base + 32.
Proof.
  intros Hi Hb Hbase. split; [intros <-; pose proof (block_base_bounds i Hi); lia|]. intros H.
  rewrite block_base_sub in * by done. pose proof (Z.div_mod base 32). pose proof (Z.div_mod i 32).
  pose proof (Z.mod_pos_bound i 32). assert (base mod 32 = 0) by lia.
  assert (i / 32 = base / 32); [|lia]. symmetry. apply (Z.div_unique_pos i 32 (base / 32) (i - base)); lia.
Qed.
