(* ===== verification/ImplicitProducer.v ===== *)
(** * One producer of the lock-free queue

    [ConcurrentQueue::ImplicitProducer] of [src/include/concurrentqueue.h], the sub-queue of one
    enqueuing thread: the elements in blocks of 32, a tail that only this thread moves, and
    dequeuing threads that agree through three counters ([dequeueOptimisticCount],
    [dequeueOvercommit], [headIndex]) on who takes what.

    Each atomic access is a step of the writer or of one reader; memory is sequentially
    consistent.  An element is found through the block its index falls in: [blocks] is the block
    index, from the first index of a block to the block's counter of emptied slots, and [cells]
    the constructed elements.  What the code leaves undefined, touching a block that is not in
    the index or a slot that holds no element, is the stage [RCrash] or [WCrash].  The paths for
    throwing constructors are left out: the queues of the program hold types that do not throw. *)

From S2P Require Import Prelude Circular.
From stdpp Require Import base list gmap.
From Stdlib Require Import ZArith Lia.
Local Open Scope Z_scope.

(** ** The counters *)

(** [dequeue], and [dequeue_bulk] of at most [max]. *)
Inductive kind := One | Bulk (max : Z).
Definition limit (k : kind) : Z := match k with One => 1 | Bulk max => max end.

(** How many elements a dequeue asks for, given what it loaded: 0 when the queue looks empty.
    ([max] is at least 1: with 0 the code would draw no ticket but still look up a block.) *)
Definition want_one (tail overcommit count : Z) : Z :=
  if circular_less_than 64 (u64 (count - overcommit)) tail then 1 else 0.
Definition want_bulk (max tail overcommit count : Z) : Z :=
  let desiredCount := u64 (tail - u64 (count - overcommit)) in
  if circular_less_than 64 0 desiredCount then (if desiredCount <? max then desiredCount else max) else 0.
Definition want (k : kind) : Z -> Z -> Z -> Z := match k with One => want_one | Bulk max => want_bulk max end.

(** How many it gets, given its place [myDequeueCount] and the tail loaded afterwards. *)
Definition grant_one (tail overcommit myDequeueCount : Z) : Z :=
  if circular_less_than 64 (u64 (myDequeueCount - overcommit)) tail then 1 else 0.
Definition grant_bulk (desiredCount tail overcommit myDequeueCount : Z) : Z :=
  let actualCount := u64 (tail - u64 (myDequeueCount - overcommit)) in
  if circular_less_than 64 0 actualCount
  then (if desiredCount <? actualCount then desiredCount else actualCount) else 0.
Definition grant (k : kind) (desiredCount : Z) : Z -> Z -> Z -> Z :=
  match k with One => grant_one | Bulk _ => grant_bulk desiredCount end.

(** The first indices of the blocks an enqueue needs: of one element, and of [count]. *)
Definition new_block (tail : Z) : list Z := if block_slot tail =? 0 then [tail] else [].

Fixpoint next_bases (n : nat) (current : Z) : list Z :=
  match n with O => [] | S n' => let c := u64 (current + BLOCK_SIZE) in c :: next_bases n' c end.
Definition new_blocks (start count : Z) : list Z :=
  let base := block_base (u64 (start - 1)) in
  let blockBaseDiff := u64 (block_base (u64 (start + count - 1)) - base) in
  next_bases (Z.to_nat (blockBaseDiff / BLOCK_SIZE)) base.

(** The end of the part of a dequeued range that lies in the block of [index]. *)
Definition segment_end (index stop : Z) : Z :=
  let endIndex := u64 (block_base index + BLOCK_SIZE) in
  if circular_less_than 64 stop endIndex then stop else endIndex.

(** ** The steps *)

Section Producer.
Context {A : Type}.

Record Producer := mkProducer {
  tailIndex : Z;
  headIndex : Z;
  dequeueOptimisticCount : Z;
  dequeueOvercommit : Z;
  cells : gmap Z A;
  blocks : gmap Z Z;
  freed : list Z;        (* blocks returned to the free list by dequeues *)
  reverted : list Z      (* blocks returned by a failed enqueue *)
}.
Implicit Types (p : Producer).

Definition empty_producer : Producer := mkProducer 0 0 0 0 ∅ ∅ [] [].

Definition set_counters (h c o : Z) p : Producer :=
  mkProducer (tailIndex p) h c o (cells p) (blocks p) (freed p) (reverted p).
Definition set_cells (m : gmap Z A) p : Producer :=
  mkProducer (tailIndex p) (headIndex p) (dequeueOptimisticCount p) (dequeueOvercommit p) m (blocks p) (freed p) (reverted p).
Definition set_blocks (m : gmap Z Z) p : Producer :=
  mkProducer (tailIndex p) (headIndex p) (dequeueOptimisticCount p) (dequeueOvercommit p) (cells p) m (freed p) (reverted p).

(** A reader: before each of its accesses, with what it loaded so far. *)
Inductive reader_stage :=
| RTail                                        (* tailIndex.load *)
| ROver (tail : Z)                             (* dequeueOvercommit.load *)
| RCount (tail overcommit : Z)                 (* dequeueOptimisticCount.load *)
| RCommit (overcommit desired : Z)             (* dequeueOptimisticCount.fetch_add *)
| RTail2 (overcommit desired my : Z)           (* tailIndex.load *)
| RFail (desired : Z)                          (* dequeueOvercommit.fetch_add, got nothing *)
| RPartial (short actual : Z)                  (* dequeueOvercommit.fetch_add, got less *)
| RHead (actual : Z)                           (* headIndex.fetch_add *)
| RBlock (index stop : Z) (got : list A)       (* find the block of index *)
| RTake (segment index segend stop : Z) (got : list A)
| RFree (base index stop : Z) (got : list A)   (* the block is empty: return it *)
| RDone (got : list A)
| RCrash.

Definition next_segment (index stop : Z) (got : list A) : reader_stage :=
  if index =? stop then RDone got else RBlock index stop got.

Definition reader_step (k : kind) (st : reader_stage) p : option (reader_stage * Producer) :=
  match st with
  | RTail => Some (ROver (tailIndex p), p)
  | ROver tail => Some (RCount tail (dequeueOvercommit p), p)
  | RCount tail overcommit =>
      let desired := want k tail overcommit (dequeueOptimisticCount p) in
      Some (if desired =? 0 then RDone [] else RCommit overcommit desired, p)
  | RCommit overcommit desired =>
      Some (RTail2 overcommit desired (dequeueOptimisticCount p),
            set_counters (headIndex p) (u64 (dequeueOptimisticCount p + desired)) (dequeueOvercommit p) p)
  | RTail2 overcommit desired my =>
      let actual := grant k desired (tailIndex p) overcommit my in
      Some (if actual =? 0 then RFail desired
            else if actual <? desired then RPartial (desired - actual) actual else RHead actual, p)
  | RFail desired =>
      Some (RDone [], set_counters (headIndex p) (dequeueOptimisticCount p) (u64 (dequeueOvercommit p + desired)) p)
  | RPartial short actual =>
      Some (RHead actual, set_counters (headIndex p) (dequeueOptimisticCount p) (u64 (dequeueOvercommit p + short)) p)
  | RHead actual =>
      let firstIndex := headIndex p in
      Some (RBlock firstIndex (u64 (firstIndex + actual)) [],
            set_counters (u64 (firstIndex + actual)) (dequeueOptimisticCount p) (dequeueOvercommit p) p)
  | RBlock index stop got =>
      match blocks p !! block_base index with
      | None => Some (RCrash, p)
      | Some _ => Some (RTake index index (segment_end index stop) stop got, p)
      end
  | RTake segment index segend stop got =>
      match blocks p !! block_base segment with
      | None => Some (RCrash, p)
      | Some emptied =>
          if index =? segend then
            let emptied' := u64 (emptied + (segend - segment)) in
            Some (if emptied' =? BLOCK_SIZE then RFree (block_base segment) segend stop got else next_segment segend stop got,
                  set_blocks (<[block_base segment := emptied']> (blocks p)) p)
          else
            match cells p !! index with
            | None => Some (RCrash, p)
            | Some x => Some (RTake segment (u64 (index + 1)) segend stop (got ++ [x]), set_cells (delete index (cells p)) p)
            end
      end
  | RFree base index stop got =>
      Some (next_segment index stop got,
            mkProducer (tailIndex p) (headIndex p) (dequeueOptimisticCount p) (dequeueOvercommit p) (cells p)
              (delete base (blocks p)) (freed p ++ [base]) (reverted p))
  | RDone _ | RCrash => None
  end.

(** The writer: its blocks first, then the elements, then the tail. *)
Inductive writer_stage :=
| WIdle
| WAlloc (items : list A) (start : Z) (todo got : list Z)
| WBuild (items : list A) (start index : Z) (rest : list A)
| WCrash.

(** [ok]: the allocation (of a block, or of room in the block index) succeeded.  The list in the
    result is what the step made visible to readers. *)
Definition writer_step (st : writer_stage) (ok : bool) p : option (writer_stage * Producer * list A) :=
  match st with
  | WIdle | WCrash => None
  | WAlloc items start [] got => Some (WBuild items start start items, p, [])
  | WAlloc items start (b :: todo) got =>
      if circular_less_than 64 (headIndex p) (u64 (b + BLOCK_SIZE)) && ok
      then Some (WAlloc items start todo (got ++ [b]), set_blocks (<[b := 0]> (blocks p)) p, [])
      else Some (WIdle,
                 mkProducer (tailIndex p) (headIndex p) (dequeueOptimisticCount p) (dequeueOvercommit p) (cells p)
                   (foldr delete (blocks p) got) (freed p) (reverted p ++ got), [])
  | WBuild items start index [] =>
      Some (WIdle,
            mkProducer (u64 (start + Z.of_nat (length items))) (headIndex p) (dequeueOptimisticCount p) (dequeueOvercommit p)
              (cells p) (blocks p) (freed p) (reverted p), items)
  | WBuild items start index (x :: rest) =>
      match blocks p !! block_base index with
      | None => Some (WCrash, p, [])
      | Some _ => Some (WBuild items start (u64 (index + 1)) rest, set_cells (<[index := x]> (cells p)) p, [])
      end
  end.

(** ** Interleavings *)

(** The producer with its writer, its readers (finished ones included), and the elements made
    visible so far, in order. *)
Record SubQueue := mkSub {
  producer : Producer;
  writer : writer_stage;
  readers : list (kind * reader_stage);
  published : list A
}.
Implicit Types (q : SubQueue).

Definition empty_sub : SubQueue := mkSub empty_producer WIdle [] [].

Inductive sub_action :=
| StartEnqueue (item : A) | StartEnqueueBulk (items : list A) | WriterStep (ok : bool)
| StartDequeue (k : kind) | ReaderStep (i : nat).

Definition sub_exec (a : sub_action) q : option SubQueue :=
  let p := producer q in
  match a with
  | StartEnqueue item =>
      match writer q with
      | WIdle => Some (mkSub p (WAlloc [item] (tailIndex p) (new_block (tailIndex p)) []) (readers q) (published q))
      | _ => None
      end
  | StartEnqueueBulk items =>
      match writer q with
      | WIdle => Some (mkSub p (WAlloc items (tailIndex p) (new_blocks (tailIndex p) (Z.of_nat (length items))) [])
                         (readers q) (published q))
      | _ => None
      end
  | WriterStep ok =>
      match writer_step (writer q) ok p with
      | Some (w, p', items) => Some (mkSub p' w (readers q) (published q ++ items))
      | None => None
      end
  | StartDequeue k => Some (mkSub p (writer q) ((k, RTail) :: readers q) (published q))
  | ReaderStep i =>
      match readers q !! i with
      | None => None
      | Some (k, st) =>
          match reader_step k st p with
          | Some (st', p') => Some (mkSub p' (writer q) (<[i := (k, st')]> (readers q)) (published q))
          | None => None
          end
      end
  end.

Fixpoint sub_run (l : list sub_action) q : option SubQueue :=
  match l with
  | [] => Some q
  | a :: l' => match sub_exec a q with Some q' => sub_run l' q' | None => None end
  end.

(** What a reader has taken. *)
Definition taken (r : kind * reader_stage) : list A :=
  match r.2 with RBlock _ _ got | RTake _ _ _ _ got | RFree _ _ _ got | RDone got => got | _ => [] end.
End Producer.
Arguments Producer : clear implicits.
Arguments reader_stage : clear implicits.
Arguments writer_stage : clear implicits.
Arguments SubQueue : clear implicits.
Arguments sub_action : clear implicits.
