(* ===== verification/ImplicitProducerProofs.v ===== *)
(** * Why the counters of a producer never give an element twice

    The tickets: every dequeue that passed its first test took a group of consecutive values of
    [dequeueOptimisticCount].  The groups, in order, are a ghost of the proof: how many values,
    the overcommit the dequeue had read before, and, once decided, how many elements it got. *)

From S2P Require Import Prelude Circular ImplicitProducer.
From stdpp Require Import base list gmap.
From Stdlib Require Import ZArith Lia.
Local Open Scope Z_scope.

Record group := mkGroup { g_size : Z; g_over : Z; g_got : option Z }.

Definition g_failed (g : group) : Z := match g_got g with Some a => g_size g - a | None => 0 end.
Definition g_approved (g : group) : Z := default 0 (g_got g).

(** The tickets of the groups [G] from [start] on, [failed] of the earlier ones having failed, are
    consistent with the tail [T]: the overcommit of a dequeue counts failures before it, and it
    was granted only what the tail allowed. *)
Fixpoint groups_ok (start failed T : Z) (G : list group) : Prop :=
  match G with
  | [] => True
  | g :: G' =>
      1 <= g_size g /\ g_over g <= failed /\
      match g_got g with
      | Some a => 0 <= a <= g_size g /\ (0 < a -> start + a - g_over g <= T)
      | None => True
      end /\ groups_ok (start + g_size g) (failed + g_failed g) T G'
  end.

(** The undecided groups with the ticket each starts at. *)
Fixpoint pendings (start : Z) (G : list group) : list (Z * Z * Z) :=
  match G with
  | [] => []
  | g :: G' =>
      match g_got g with None => [(g_over g, g_size g, start)] | Some _ => [] end ++ pendings (start + g_size g) G'
  end.

Lemma groups_ok_mono s f f' T T' G : groups_ok s f T G -> f <= f' -> T <= T' -> groups_ok s f' T' G.
Proof.
  revert s f f'. induction G as [|g G IH]; intros s f f'; simpl; [done|].
  intros (H1 & H2 & H3 & H4) Hf HT. split_and!; [done|lia| |].
  - destruct (g_got g); [|done]. split; lia.
  - eapply IH; [exact H4|lia|done].
Qed.

Lemma groups_ok_app s f T G1 G2 :
  groups_ok s f T (G1 ++ G2) <-> groups_ok s f T G1 /\ groups_ok (s + zsum g_size G1) (f + zsum g_failed G1) T G2.
Proof.
  revert s f. induction G1 as [|g G1 IH]; intros s f; simpl.
  - rewrite !Z.add_0_r. tauto.
  - rewrite IH, !Z.add_assoc. tauto.
Qed.

Lemma pendings_app s G1 G2 : pendings s (G1 ++ G2) = pendings s G1 ++ pendings (s + zsum g_size G1) G2.
Proof.
  revert s. induction G1 as [|g G1 IH]; intros s; simpl; [by rewrite Z.add_0_r|].
  by rewrite IH, <- app_assoc, Z.add_assoc.
Qed.

Lemma groups_failed_nonneg s f T G : groups_ok s f T G -> 0 <= zsum g_failed G <= zsum g_size G.
Proof.
  revert s f. induction G as [|g G IH]; intros s f; simpl; [lia|]. intros (H1 & H2 & H3 & H4%IH).
  assert (0 <= g_failed g <= g_size g) by (unfold g_failed; destruct (g_got g); lia). lia.
Qed.

(** Never more granted than the tail allows: the last group that got something saw at least the
    failures it did not count as room. *)
Lemma groups_approved s f T G : groups_ok s f T G -> 0 <= zsum g_approved G /\
  (0 < zsum g_approved G -> s - f + zsum g_approved G <= T).
Proof.
  revert s f. induction G as [|g G IH]; intros s f; simpl; [lia|]. intros (H1 & H2 & H3 & H4).
  destruct (IH _ _ H4) as [I1 I2].
  assert (0 <= g_approved g /\ (0 < g_approved g -> s + g_approved g - g_over g <= T) /\ g_failed g <= g_size g - g_approved g)
    by (unfold g_approved, g_failed; destruct (g_got g); simpl; lia).
  destruct (decide (0 < zsum g_approved G)); lia.
Qed.

(** An undecided group, found by its pending entry. *)
Lemma pendings_elem s G over size my :
  (over, size, my) ∈ pendings s G ->
  exists G1 G2, G = G1 ++ mkGroup size over None :: G2 /\ my = s + zsum g_size G1.
Proof.
  revert s. induction G as [|g G IH]; intros s; simpl; [by intros ?%not_elem_of_nil|].
  intros [H|H]%elem_of_app.
  - destruct g as [w o [a|]]; simpl in H; [by apply not_elem_of_nil in H|].
    apply list_elem_of_singleton in H as [= <- <- <-]. exists [], G. simpl. split; [done|lia].
  - apply IH in H as (G1 & G2 & -> & ->). exists (g :: G1), G2. simpl. split; [done|lia].
Qed.

(** Deciding it. *)
Lemma groups_ok_decide s f T G1 G2 over size a :
  groups_ok s f T (G1 ++ mkGroup size over None :: G2) -> 0 <= a <= size ->
  (0 < a -> s + zsum g_size G1 + a - over <= T) ->
  groups_ok s f T (G1 ++ mkGroup size over (Some a) :: G2).
Proof.
  rewrite !groups_ok_app. intros (H1 & H2 & H3 & _ & H4) Ha HT. split; [done|]. simpl in *.
  split_and!; try done; try lia. eapply groups_ok_mono; [exact H4|unfold g_failed; simpl; lia|lia].
Qed.

Lemma pendings_decide s G1 G2 over size a :
  pendings s (G1 ++ mkGroup size over None :: G2) ≡ₚ
  (over, size, s + zsum g_size G1) :: pendings s (G1 ++ mkGroup size over (Some a) :: G2).
Proof. rewrite !pendings_app. simpl. by rewrite <- Permutation_middle. Qed.

(** ** The counters *)

Section Counters.
Context {A : Type}.
Implicit Types (p : Producer A) (st : reader_stage A) (r : kind * reader_stage A).

Definition undecided r : list (Z * Z * Z) := match r.2 with RTail2 o d my => [(o, d, my)] | _ => [] end.
Definition owed_over r : Z := match r.2 with RFail d => d | RPartial s _ => s | _ => 0 end.
Definition granted r : Z := match r.2 with RPartial _ a | RHead a => a | _ => 0 end.
Definition committed r : Z :=
  match r.2 with RTail | ROver _ | RCount _ _ | RCommit _ _ => 0 | _ => limit r.1 end.

(** Evaluate these at a concrete stage, and only there. *)
Ltac stage_simpl_with f k st :=
  let v := eval cbv beta iota delta [owed_over granted committed g_failed g_approved g_got g_size default fst snd] in (f (k, st)) in
  change (f (k, st)) with v in *.
Ltac stage_simpl :=
  repeat match goal with
         | |- context [owed_over (?k, ?st)] => stage_simpl_with owed_over k st
         | |- context [granted (?k, ?st)] => stage_simpl_with granted k st
         | |- context [committed (?k, ?st)] => stage_simpl_with committed k st
         | H : context [owed_over (?k, ?st)] |- _ => stage_simpl_with owed_over k st
         | H : context [granted (?k, ?st)] |- _ => stage_simpl_with granted k st
         | H : context [committed (?k, ?st)] |- _ => stage_simpl_with committed k st
         end.

Definition reader_counts_ok p r : Prop :=
  1 <= limit r.1 /\
  match r.2 with
  | ROver t => 0 <= t <= tailIndex p
  | RCount t o => 0 <= t <= tailIndex p /\ 0 <= o <= dequeueOvercommit p
  | RCommit o d => 0 <= o <= dequeueOvercommit p /\ 1 <= d <= limit r.1
  | RTail2 o d _ => 0 <= o <= dequeueOvercommit p
  | RFail d => 0 <= d
  | RPartial s a => 1 <= s /\ 1 <= a
  | RHead a => 1 <= a
  | _ => True
  end.

(** What ties the counters to the readers, through the groups. *)
Record counters_ok p (rs : list (kind * reader_stage A)) (G : list group) : Prop := {
  co_readers : Forall (reader_counts_ok p) rs;
  co_groups : groups_ok 0 0 (tailIndex p) G;
  co_count : dequeueOptimisticCount p = zsum g_size G;
  co_over : zsum g_failed G = dequeueOvercommit p + zsum owed_over rs;
  co_head : zsum g_approved G = headIndex p + zsum granted rs;
  co_pending : concat (undecided <$> rs) ≡ₚ pendings 0 G;
  co_over_pos : 0 <= dequeueOvercommit p;
  co_head_pos : 0 <= headIndex p;
  co_size : zsum g_size G <= zsum committed rs
}.

Lemma want_range k t o c : 1 <= limit k -> 0 <= want k t o c <= limit k.
Proof.
  unfold want, want_one, want_bulk, circular_less_than. destruct k as [|max]; simpl; intros Hl.
  - destruct (_ <? _); lia.
  - destruct (_ <? wrapU 64 (0 - _)) eqn:E; [|lia].
    pose proof (wrapU_range 64 (t - u64 (c - o)) ltac:(lia)) as [Hw _].
    destruct (decide (u64 (t - u64 (c - o)) = 0)) as [E0|]; [|destruct (_ <? max) eqn:?; zbool; lia].
    rewrite E0 in E. discriminate.
Qed.

Lemma grant_range k d t o my : 1 <= d -> 0 <= grant k d t o my <= d.
Proof.
  unfold grant, grant_one, grant_bulk, circular_less_than. intros Hd. destruct k as [|max]; simpl.
  - destruct (_ <? _); lia.
  - destruct (_ <? wrapU 64 (0 - _)); [|lia].
    pose proof (wrapU_range 64 (t - u64 (my - o)) ltac:(lia)) as [Hw _]. destruct (d <? _) eqn:?; zbool; lia.
Qed.

(** A granted dequeue ends before the tail it saw. *)
Lemma grant_tail k d t o my :
  1 <= d -> 0 <= o <= my -> my < 2 ^ 62 -> 0 <= t < 2 ^ 62 -> 0 < grant k d t o my -> my + grant k d t o my - o <= t.
Proof.
  intros Hd Ho Hm Ht. assert (u64 (my - o) = my - o) as Hu by (apply wrapU_id; unfold inU; lia).
  unfold grant. destruct k as [|max]; unfold grant_one, grant_bulk; rewrite Hu.
  - rewrite circular_64 by lia. destruct (my - o <? t) eqn:E; zbool; lia.
  - assert (circular_less_than 64 0 (u64 (t - (my - o))) = (0 <? t - (my - o))) as ->
      by (apply (circular_less_than_spec 64 0); lia).
    destruct (0 <? t - (my - o)) eqn:E; [|lia]. zbool.
    assert (u64 (t - (my - o)) = t - (my - o)) as -> by (apply wrapU_id; unfold inU; lia).
    destruct (d <? _) eqn:?; zbool; lia.
Qed.

Lemma counters_ok_perm p rs rs' G : rs ≡ₚ rs' -> counters_ok p rs G -> counters_ok p rs' G.
Proof. intros E []. split; rewrite <- ?E; done. Qed.

Lemma reader_counts_mono p p' r :
  tailIndex p <= tailIndex p' -> dequeueOvercommit p <= dequeueOvercommit p' -> reader_counts_ok p r -> reader_counts_ok p' r.
Proof. intros Ht Ho [H1 H2]. split; [done|]. destruct r.2; try done; lia. Qed.

Lemma counts_sums p rs : Forall (reader_counts_ok p) rs ->
  0 <= zsum owed_over rs /\ 0 <= zsum granted rs /\ zsum committed rs <= zsum (fun r => limit r.1) rs.
Proof.
  induction 1 as [|r rs [H1 H2] _ IH]; [done|]. rewrite !zsum_cons. unfold owed_over at 1, granted at 1, committed at 1.
  destruct r.2; simpl in *; lia.
Qed.

(** What the groups bound. *)
Lemma counters_bounds p rs G :
  counters_ok p rs G -> 0 <= tailIndex p ->
  0 <= dequeueOptimisticCount p <= zsum (fun r => limit r.1) rs /\ dequeueOvercommit p <= dequeueOptimisticCount p /\
  headIndex p + zsum granted rs <= tailIndex p.
Proof.
  intros [Hr Hg Hc Ho Hh _ Ho0 Hh0 Hs] Ht. pose proof (counts_sums _ _ Hr) as (S1 & S2 & S3).
  pose proof (groups_failed_nonneg _ _ _ _ Hg). pose proof (groups_approved _ _ _ _ Hg) as [A1 A2].
  split_and!; [lia|lia|lia|]. destruct (decide (0 < zsum g_approved G)); lia.
Qed.

(** A step that at most pays what its reader owed to the overcommit and to the head. *)
Lemma counters_pay p r r' rest G p' :
  counters_ok p (r :: rest) G -> tailIndex p' = tailIndex p ->
  dequeueOptimisticCount p' = dequeueOptimisticCount p ->
  headIndex p' = headIndex p + (granted r - granted r') -> granted r' <= granted r ->
  dequeueOvercommit p' = dequeueOvercommit p + (owed_over r - owed_over r') -> owed_over r' <= owed_over r ->
  r'.1 = r.1 -> reader_counts_ok p r' -> undecided r' = undecided r -> committed r <= committed r' ->
  counters_ok p' (r' :: rest) G.
Proof.
  intros [Hr Hg Hc Ho Hh Hp Ho0 Hh0 Hs] E1 E3 E2 D2 E4 D4 Ek Hr' U1 U4.
  inversion_clear Hr as [|? ? Hr0 Hrest].
  split; rewrite ?E1, ?E2, ?E3, ?E4; simpl in *; rewrite ?U1; try done; try lia.
  constructor; [|eapply Forall_impl; [exact Hrest|]; intros x; apply reader_counts_mono; lia].
  revert Hr'. apply reader_counts_mono; lia.
Qed.

Lemma commit_counters p k o d rest G :
  let r := (k, RCommit o d) in
  counters_ok p (r :: rest) G -> 0 <= tailIndex p -> zsum (fun r => limit r.1) (r :: rest) < 2 ^ 62 ->
  counters_ok (set_counters (headIndex p) (u64 (dequeueOptimisticCount p + d)) (dequeueOvercommit p) p)
    ((k, RTail2 o d (dequeueOptimisticCount p)) :: rest) (G ++ [mkGroup d o None]).
Proof.
  intros r H Ht Hb. destruct (counters_bounds _ _ _ H Ht) as (B1 & B2 & B3).
  destruct H as [Hr Hg Hc Ho Hh Hp Ho0 Hh0 Hs]. inversion_clear Hr as [|? ? [Hl Hr0] Hrest]. simpl in Hl, Hr0.
  pose proof (counts_sums _ _ Hrest) as (S1 & S2 & S3). simpl in Hb, Hs, Ho, Hh, Hp, B1, B3.
  assert (committed r = 0 /\ owed_over r = 0 /\ granted r = 0) as (Ec & Eo & Eg) by done. rewrite Ec in Hs. rewrite Eo in Ho. rewrite Eg in Hh, B3.
  assert (u64 (dequeueOptimisticCount p + d) = dequeueOptimisticCount p + d) as Hu by (apply wrapU_id; unfold inU; lia).
  split; simpl; rewrite ?zsum_app, ?zsum_cons, ?Hu; try done.
  - constructor; [split; simpl; [done|lia]|]. eapply Forall_impl; [exact Hrest|]. intros ?. apply reader_counts_mono; simpl; lia.
  - apply groups_ok_app. split; [done|]. simpl. split_and!; [lia|lia|done|done].
  - simpl. lia.
  - stage_simpl. unfold g_failed at 2. simpl. lia.
  - stage_simpl. unfold g_approved at 2. simpl. lia.
  - rewrite pendings_app. simpl. rewrite Hp, Hc. by rewrite Permutation_app_comm.
  - stage_simpl. simpl. lia.
Qed.

(** Deciding a group: its outcome is [a]; the reader now owes the overcommit the rest. *)
Lemma decide_counters p k o d my rest G st' :
  let r := (k, RTail2 o d my) in
  let a := grant k d (tailIndex p) o my in
  counters_ok p (r :: rest) G -> 0 <= tailIndex p < 2 ^ 62 -> zsum (fun r => limit r.1) (r :: rest) < 2 ^ 62 ->
  st' = (if a =? 0 then RFail d else if a <? d then RPartial (d - a) a else RHead a) ->
  exists G', counters_ok p ((k, st') :: rest) G'.
Proof.
  intros r a H Ht Hb ->. destruct (counters_bounds _ _ _ H ltac:(lia)) as (B1 & B2 & B3).
  destruct H as [Hr Hg Hc Ho Hh Hp Ho0 Hh0 Hs]. inversion_clear Hr as [|? ? [Hl Hr0] Hrest]. simpl in Hl, Hr0, Hp.
  destruct (pendings_elem 0 G o d my) as (G1 & G2 & -> & Hmy); [rewrite <- Hp; by left|].
  pose proof Hg as Hg'. rewrite groups_ok_app in Hg'. destruct Hg' as (Hg1 & Hd & Hof & _ & _). simpl in Hd, Hof.
  pose proof (groups_failed_nonneg _ _ _ _ Hg1) as Hf1.
  pose proof (grant_range k d (tailIndex p) o my Hd) as Ha. fold a in Ha.
  assert (0 < a -> my + a - o <= tailIndex p) as Hat.
  { apply grant_tail; try lia. rewrite zsum_app, zsum_cons in Hc. simpl in Hc.
    pose proof (groups_failed_nonneg _ _ _ _ (proj2 (proj1 (groups_ok_app _ _ _ _ _) Hg))) as Hf2.
    rewrite zsum_cons in Hf2. simpl in Hf2. lia. }
  exists (G1 ++ mkGroup d o (Some a) :: G2).
  assert (committed r = limit k /\ owed_over r = 0 /\ granted r = 0) as (Ec & Eo & Eg) by done.
  rewrite zsum_app in Hc, Ho, Hh, Hs. simpl in Hc, Ho, Hh, Hs. rewrite Ec in Hs. rewrite Eo in Ho. rewrite Eg in Hh.
  change (g_failed (mkGroup d o None)) with 0 in Ho. change (g_approved (mkGroup d o None)) with 0 in Hh.
  split; rewrite ?zsum_app, ?zsum_cons; simpl; try done.
  - constructor; [|done]. split; [done|]. simpl. destruct (a =? 0) eqn:E0; [|destruct (a <? d) eqn:E1]; zbool; simpl; lia.
  - apply groups_ok_decide; [done|lia|lia].
  - unfold g_failed at 2. simpl.
    destruct (a =? 0) eqn:E0; [|destruct (a <? d) eqn:E1]; zbool; stage_simpl; lia.
  - unfold g_approved at 2. simpl.
    destruct (a =? 0) eqn:E0; [|destruct (a <? d) eqn:E1]; zbool; stage_simpl; lia.
  - apply (Permutation_cons_inv (a := (o, d, my))).
    transitivity (pendings 0 (G1 ++ mkGroup d o None :: G2)); [|rewrite Hmy; apply pendings_decide].
    rewrite <- Hp. simpl. destruct (a =? 0); [|destruct (a <? d)]; done.
  - destruct (a =? 0); [|destruct (a <? d)]; stage_simpl; lia.
Qed.

Ltac counts := split; [assumption|simpl; first [exact I | lia]].

Ltac pay H := apply H; simpl; try done; stage_simpl; try lia; try counts.

Lemma reader_step_counters p k st st' p' rest G :
  counters_ok p ((k, st) :: rest) G -> 0 <= tailIndex p < 2 ^ 62 ->
  zsum (fun r => limit r.1) ((k, st) :: rest) < 2 ^ 62 -> reader_step k st p = Some (st', p') ->
  tailIndex p' = tailIndex p /\ headIndex p <= headIndex p' /\ exists G', counters_ok p' ((k, st') :: rest) G'.
Proof.
  intros H Ht Hb E. destruct (counters_bounds _ _ _ H ltac:(lia)) as (B1 & B2 & B3).
  pose proof (co_readers _ _ _ H) as Hr. inversion_clear Hr as [|? ? [Hl Hr0] Hrest]. simpl in Hl, Hr0.
  pose proof (counts_sums _ _ Hrest) as (S1 & S2 & S3). pose proof (co_over_pos _ _ _ H). pose proof (co_head_pos _ _ _ H).
  pose proof (co_over _ _ _ H) as Ho. pose proof (groups_failed_nonneg _ _ _ _ (co_groups _ _ _ H)).
  pose proof (co_count _ _ _ H). rewrite zsum_cons in B3. rewrite zsum_cons in Ho. simpl in Hb, B1.
  assert (forall p1 st1, tailIndex p1 = tailIndex p -> dequeueOptimisticCount p1 = dequeueOptimisticCount p ->
    headIndex p1 = headIndex p + (granted (k, st) - granted (k, st1)) -> granted (k, st1) <= granted (k, st) ->
    dequeueOvercommit p1 = dequeueOvercommit p + (owed_over (k, st) - owed_over (k, st1)) ->
    owed_over (k, st1) <= owed_over (k, st) -> reader_counts_ok p (k, st1) ->
    undecided (k, st1) = undecided (k, st) -> committed (k, st) <= committed (k, st1) ->
    tailIndex p1 = tailIndex p /\ headIndex p <= headIndex p1 /\ exists G', counters_ok p1 ((k, st1) :: rest) G') as Hpay.
  { intros p1 st1 E1 E2 E3 E4 E5 E6 E7 E8 E9. split_and!; [done|lia|]. exists G. by eapply counters_pay. }
  destruct st as [|t|t o|o d|o d my|d|s a|a|i stop got|seg i e stop got|b i stop got|got|]; simpl in E;
    try (injection E as <- <-); try discriminate.
  - pay Hpay.
  - pay Hpay.
  - pose proof (want_range k t o (dequeueOptimisticCount p) Hl).
    destruct (want _ _ _ _ =? 0) eqn:Ew; zbool; pay Hpay.
  - split_and!; [done|done|]. exists (G ++ [mkGroup d o None]). apply commit_counters; [done|lia|simpl; lia].
  - split_and!; [done|done|]. eapply decide_counters; [done|done|simpl; lia|done].
  - stage_simpl. pay Hpay.
    rewrite wrapU_id; [lia|unfold inU; lia].
  - stage_simpl. pay Hpay.
    rewrite wrapU_id; [lia|unfold inU; lia].
  - stage_simpl. pay Hpay.
    rewrite wrapU_id; [lia|unfold inU; lia].
  - destruct (blocks p !! _); injection E as <- <-; pay Hpay.
  - assert (reader_counts_ok p (k, next_segment e stop got)) by (unfold next_segment; destruct (e =? stop); counts).
    destruct (blocks p !! _); [|injection E as <- <-; pay Hpay].
    destruct (i =? e).
    + injection E as <- <-. destruct (_ =? BLOCK_SIZE); [pay Hpay|].
      unfold next_segment in *. destruct (e =? stop); pay Hpay.
    + destruct (cells p !! i); injection E as <- <-; pay Hpay.
  - unfold next_segment. destruct (i =? stop); pay Hpay.
Qed.

Lemma counters_grow p p' rs G :
  counters_ok p rs G -> tailIndex p <= tailIndex p' -> headIndex p' = headIndex p ->
  dequeueOptimisticCount p' = dequeueOptimisticCount p -> dequeueOvercommit p' = dequeueOvercommit p -> counters_ok p' rs G.
Proof.
  intros [Hr Hg Hc Ho Hh Hp Ho0 Hh0 Hs] Ht E2 E3 E4. split; rewrite ?E2, ?E3, ?E4; try done.
  - eapply Forall_impl; [exact Hr|]. intros r. apply reader_counts_mono; lia.
  - eapply groups_ok_mono; [done|lia|done].
Qed.

Lemma counters_start p rs G k : 1 <= limit k -> counters_ok p rs G -> counters_ok p ((k, RTail) :: rs) G.
Proof. intros Hl []. split; simpl; try done. constructor; [|done]. by split. Qed.
End Counters.
