(* ===== verification/ImplicitProducerCells.v ===== *)
(** * What a producer keeps where

    The elements: an index below the tail is either still to be read, by nobody yet or by the one
    reader that was given it, and then its cell holds its element, or it has been read and the
    cell is gone.  The blocks: the counter of a block is 32 less the slots that are still to be
    emptied; the block leaves the index when there are none. *)

From S2P Require Import Prelude Circular ImplicitProducer.
From stdpp Require Import base list gmap.
From Stdlib Require Import ZArith Lia.
Local Open Scope Z_scope.

(** ** The cells *)

Section Cells.
Context {A : Type}.
Implicit Types (m : gmap Z A) (pub tk : list A) (live : list Z).

Definition pub_at pub (i : Z) : option A := pub !! Z.to_nat i.

(** [live]: the indices below the tail not read yet; [tk]: what was read. *)
Record cells_ok m pub live tk : Prop := {
  ce_nodup : NoDup live;
  ce_range : forall i, i ∈ live -> 0 <= i < Z.of_nat (length pub);
  ce_cell : forall i, i ∈ live -> m !! i = pub_at pub i;
  ce_items : omap (pub_at pub) live ++ tk ≡ₚ pub
}.

Lemma cells_perm m pub live live' tk tk' :
  live ≡ₚ live' -> tk ≡ₚ tk' -> cells_ok m pub live tk -> cells_ok m pub live' tk'.
Proof.
  intros E1 E2 [H1 H2 H3 H4]. split.
  - by rewrite <- E1.
  - intros i. rewrite <- E1. apply H2.
  - intros i. rewrite <- E1. apply H3.
  - by rewrite <- E1, <- E2.
Qed.

Lemma omap_agree (f g : Z -> option A) live : (forall i, i ∈ live -> f i = g i) -> omap f live = omap g live.
Proof.
  intros H. induction live as [|i live IH]; [done|]. simpl. rewrite H by (by left).
  destruct (g i); [f_equal|]; apply IH; intros j Hj; apply H; by right.
Qed.

Lemma pub_at_some pub i : 0 <= i < Z.of_nat (length pub) -> exists x, pub_at pub i = Some x.
Proof. intros Hi. apply lookup_lt_is_Some_2. lia. Qed.

Lemma cells_take m pub live tk i :
  cells_ok m pub (i :: live) tk ->
  exists x, m !! i = Some x /\ cells_ok (delete i m) pub live (x :: tk).
Proof.
  intros [H1 H2 H3 H4]. destruct (pub_at_some pub i) as [x Hx]; [apply H2; by left|].
  exists x. split; [rewrite H3; [done|by left]|]. inversion_clear H1 as [|? ? Hni Hnd].
  simpl in H4. rewrite Hx in H4. split; [done| | |].
  - intros j Hj. apply H2. by right.
  - intros j Hj. rewrite lookup_delete_ne by (intros ->; done). apply H3. by right.
  - etrans; [symmetry; apply Permutation_middle|exact H4].
Qed.

(** A write at or above the tail changes nothing below it. *)
Lemma cells_write m pub live tk i x : Z.of_nat (length pub) <= i -> cells_ok m pub live tk -> cells_ok (<[i := x]> m) pub live tk.
Proof.
  intros Hi [H1 H2 H3 H4]. split; [done|done| |done]. intros j Hj. rewrite lookup_insert_ne; [by apply H3|].
  apply H2 in Hj. lia.
Qed.

Lemma omap_seqZ_app pub items :
  omap (pub_at (pub ++ items)) (seqZ (Z.of_nat (length pub)) (Z.of_nat (length items))) = items.
Proof.
  revert pub. induction items as [|x items IH]; intros pub; [done|].
  rewrite seqZ_cons by (simpl; lia). cbn [omap list_omap].
  assert (pub_at (pub ++ x :: items) (Z.of_nat (length pub)) = Some x) as ->.
  { unfold pub_at. rewrite Nat2Z.id. apply list_lookup_middle. done. }
  f_equal. specialize (IH (pub ++ [x])). rewrite <- app_assoc in IH. rewrite length_app in IH. simpl in IH |- *.
  etrans; [|exact IH]. do 2 f_equal; lia.
Qed.

Lemma cells_publish m pub live tk items :
  cells_ok m pub live tk ->
  (forall j, (j < length items)%nat -> m !! (Z.of_nat (length pub + j)) = items !! j) ->
  cells_ok m (pub ++ items) (seqZ (Z.of_nat (length pub)) (Z.of_nat (length items)) ++ live) tk.
Proof.
  intros [H1 H2 H3 H4] Hm. split.
  - apply NoDup_app. split_and!; [apply NoDup_seqZ| |done]. intros i Hi%elem_of_seqZ Hl%H2. lia.
  - intros i [Hi%elem_of_seqZ|Hi%H2]%elem_of_app; rewrite length_app; lia.
  - intros i [Hi%elem_of_seqZ|Hi]%elem_of_app.
    + specialize (Hm (Z.to_nat i - length pub)%nat ltac:(lia)).
      replace (Z.of_nat (length pub + (Z.to_nat i - length pub))) with i in Hm by lia.
      rewrite Hm. unfold pub_at. rewrite lookup_app_r by lia. done.
    + rewrite H3 by done. unfold pub_at. rewrite lookup_app_l; [done|]. apply H2 in Hi. lia.
  - rewrite omap_app, omap_seqZ_app.
    assert (omap (pub_at (pub ++ items)) live = omap (pub_at pub) live) as ->.
    2: { etrans; [|apply Permutation_app_comm]. rewrite <- app_assoc. by apply Permutation_app_head. }
    apply omap_agree. intros i Hi. unfold pub_at. apply lookup_app_l. specialize (H2 i Hi). lia.
Qed.
End Cells.

(** ** The blocks *)

(** How many of the slots of the block at [b] have an index from [x] to [y]. *)
Definition overlap (b x y : Z) : Z := Z.max 0 (Z.min (b + 32) y - Z.max b x).
Definition hold (b : Z) (h : Z * Z) : Z := overlap b h.1 h.2.

(** The slots of the block at [b] still to be emptied: those at or above the head, and those a
    reader was given. *)
Definition owed (hd : Z) (hs : list (Z * Z)) (b : Z) : Z := overlap b hd (b + 32) + zsum (hold b) hs.

(** [hd]: the head; [e]: the end of the blocks allocated; [hs]: for each reader the indices it was
    given and whose slots it has not marked empty; [fb]: the blocks readers are about to return;
    [fr]: those returned. *)
Record blocks_ok (bl : gmap Z Z) (fr : list Z) (hd e : Z) (hs : list (Z * Z)) (fb : list Z) : Prop := {
  bo_count : forall b c, bl !! b = Some c -> b mod 32 = 0 /\ 0 <= b < e /\ 0 <= c /\ c + owed hd hs b = 32;
  bo_all : forall b, b mod 32 = 0 -> 0 <= b < e -> is_Some (bl !! b) \/ b ∈ fr;
  bo_freeing : forall b, b ∈ fb <-> bl !! b = Some 32;
  bo_once : NoDup fb;
  bo_freed_once : NoDup fr;
  bo_freed : forall b, b ∈ fr -> bl !! b = None /\ b + 32 <= hd /\ owed hd hs b = 0;
  bo_held : forall h, h ∈ hs -> h.2 <= hd
}.

Lemma overlap_nonneg b x y : 0 <= overlap b x y.
Proof. unfold overlap. lia. Qed.
Lemma overlap_other b b' x y : b mod 32 = 0 -> b' mod 32 = 0 -> b' <> b -> b <= x -> y <= b + 32 -> overlap b' x y = 0.
Proof. intros Hb Hb' Hne Hx Hy. unfold overlap. pose proof (Z.div_mod b 32). pose proof (Z.div_mod b' 32). lia. Qed.
Lemma hold_nonneg b hs : 0 <= zsum (hold b) hs.
Proof. apply zsum_nonneg. intros h _. apply overlap_nonneg. Qed.
Lemma owed_nonneg hd hs b : 0 <= owed hd hs b.
Proof. unfold owed. pose proof (overlap_nonneg b hd (b + 32)). pose proof (hold_nonneg b hs). lia. Qed.

#[export] Instance owed_perm hd : Proper ((≡ₚ) ==> (=) ==> (=)) (owed hd).
Proof. intros hs hs' E b _ <-. unfold owed. by rewrite E. Qed.

(** A block with a slot still to be emptied is in the index. *)
Lemma blocks_there bl fr hd e hs fb b :
  blocks_ok bl fr hd e hs fb -> b mod 32 = 0 -> 0 <= b < e -> 0 < owed hd hs b -> is_Some (bl !! b).
Proof.
  intros H Hb He Ho. destruct (bo_all _ _ _ _ _ _ H b Hb He) as [?|Hf]; [done|].
  pose proof (bo_freed _ _ _ _ _ _ H b Hf). lia.
Qed.

Lemma blocks_perm bl fr hd e hs hs' fb fb' : hs ≡ₚ hs' -> fb ≡ₚ fb' -> blocks_ok bl fr hd e hs fb -> blocks_ok bl fr hd e hs' fb'.
Proof.
  intros E1 E2 [H1 H2 H3 H4 H5 H6 H7].
  assert (forall b, owed hd hs' b = owed hd hs b) as Eo by (intros b; by rewrite E1).
  split; [|done| |by rewrite <- E2|done| |].
  - intros b c Hb. rewrite Eo. by apply H1.
  - intros b. rewrite <- E2. apply H3.
  - intros b. rewrite Eo. apply H6.
  - intros h. rewrite <- E1. apply H7.
Qed.

(** The slots owed decide everything about the head and the readers. *)
Lemma blocks_owed bl fr hd hd' e hs hs' fb :
  blocks_ok bl fr hd e hs fb -> hd <= hd' -> (forall b, owed hd' hs' b = owed hd hs b) ->
  (forall h, h ∈ hs' -> h.2 <= hd') -> blocks_ok bl fr hd' e hs' fb.
Proof.
  intros [H1 H2 H3 H4 H5 H6 H7] Hle Eo Hh. split; try done.
  - intros b c Hb. rewrite Eo. by apply H1.
  - intros b Hb. rewrite Eo. destruct (H6 b Hb) as (? & ? & ?). split_and!; [done|lia|done].
Qed.

(** [headIndex.fetch_add]: indices pass from the queue to a reader. *)
Lemma blocks_head bl fr hd e hs fb a :
  blocks_ok bl fr hd e ((0, 0) :: hs) fb -> 0 <= hd -> 0 < a -> blocks_ok bl fr (hd + a) e ((hd, hd + a) :: hs) fb.
Proof.
  intros Hbl Hhd Ha. eapply blocks_owed; [done|lia| |].
  - intros b. unfold owed. rewrite !zsum_cons. unfold hold at 1 3, overlap. simpl. lia.
  - intros h [->|Hh]%elem_of_cons; [simpl; lia|]. pose proof (bo_held _ _ _ _ _ _ Hbl h ltac:(by right)). lia.
Qed.

(** A reader done with the part [x] to [y] of its indices, which lies in the block at [b], adds
    their number to the block's counter; at 32 it is to return the block. *)
Lemma blocks_empty bl fr hd e x y z hs fb b c :
  blocks_ok bl fr hd e ((x, z) :: hs) fb -> b mod 32 = 0 -> b <= x -> x < y -> y <= b + 32 -> y <= z -> bl !! b = Some c ->
  0 <= c + (y - x) <= 32 /\
  blocks_ok (<[b := c + (y - x)]> bl) fr hd e ((y, z) :: hs) (if c + (y - x) =? 32 then b :: fb else fb).
Proof.
  intros [H1 H2 H3 H4 H5 H6 H7] Hb Hbx Hxy Hyb Hyz Hc.
  assert (forall b', owed hd ((x, z) :: hs) b' = owed hd ((y, z) :: hs) b' + overlap b' x y) as Eo.
  { intros b'. unfold owed. rewrite !zsum_cons. unfold hold at 1 3, overlap. simpl. lia. }
  assert (overlap b x y = y - x) as Eb by (unfold overlap; lia).
  assert (forall b', b' mod 32 = 0 -> b' <> b -> overlap b' x y = 0) as En by (intros; by apply (overlap_other b)).
  pose proof (owed_nonneg hd ((y, z) :: hs)) as Hnn. destruct (H1 b c Hc) as (_ & Hbe & Hc0 & Hsum). rewrite Eo, Eb in Hsum.
  specialize (Hnn b) as Hnb. split; [lia|]. split; [| | | |done| |].
  - intros b' c'. rewrite lookup_insert. case_decide as Hd; [subst b'; intros [= <-]; split_and!; try done; lia|].
    intros Hb'. destruct (H1 b' c' Hb') as (? & ? & ? & Hs). rewrite Eo, En in Hs by done. split_and!; try done; lia.
  - intros b' Hm Hr. rewrite lookup_insert. case_decide; [left; done|by apply H2].
  - intros b'. rewrite lookup_insert. case_decide as Hd.
    + subst b'. assert (b ∉ fb) by (rewrite H3, Hc; intros [=]; lia).
      destruct (_ =? 32) eqn:E; zbool; [rewrite E; set_solver|]. split; [done|]. intros [=]. lia.
    + destruct (_ =? 32); rewrite <- H3; set_solver.
  - destruct (_ =? 32); [|done]. constructor; [|done]. rewrite H3, Hc. intros [=]. lia.
  - intros b' (Hn & Hle & Ho)%H6. assert (b' <> b) by (intros ->; congruence).
    rewrite lookup_insert_ne by done. split_and!; try done. rewrite Eo in Ho. pose proof (overlap_nonneg b' x y).
    specialize (Hnn b'). lia.
  - intros h [->|Hh]%elem_of_cons; [apply (H7 (x, z)); by left|apply H7; by right].
Qed.

(** Returning it. *)
Lemma blocks_free bl fr hd e hs fb b :
  blocks_ok bl fr hd e hs (b :: fb) -> blocks_ok (delete b bl) (fr ++ [b]) hd e hs fb.
Proof.
  intros [H1 H2 H3 H4 H5 H6 H7]. assert (bl !! b = Some 32) as Hb by (apply H3; by left).
  destruct (H1 b 32 Hb) as (? & ? & ? & Hs). inversion_clear H4 as [|? ? Hni Hnd].
  assert (owed hd hs b = 0) as Ho by lia. split; [| | |done| | |done].
  - intros b' c. rewrite lookup_delete. case_decide; [done|apply H1].
  - intros b' Hm Hr. rewrite lookup_delete, elem_of_app. case_decide; [subst; right; right; by left|].
    destruct (H2 b' Hm Hr); [by left|right; by left].
  - intros b'. rewrite lookup_delete. specialize (H3 b'). rewrite elem_of_cons in H3.
    case_decide; [subst; split; done|]. rewrite <- H3. naive_solver.
  - apply NoDup_app. split_and!; [done| |apply NoDup_singleton]. intros b' (Hn & _)%H6 ->%list_elem_of_singleton. congruence.
  - intros b' [Hb'| ->%list_elem_of_singleton]%elem_of_app.
    + destruct (H6 b' Hb') as (? & ? & ?). rewrite lookup_delete. case_decide; done.
    + rewrite lookup_delete_eq. split_and!; [done| |done]. unfold owed, overlap in Ho. pose proof (hold_nonneg b hs). lia.
Qed.

(** The writer adds a block at the end. *)
Lemma blocks_alloc bl fr hd e hs fb :
  blocks_ok bl fr hd e hs fb -> e mod 32 = 0 -> 0 <= hd <= e -> blocks_ok (<[e := 0]> bl) fr hd (e + 32) hs fb.
Proof.
  intros [H1 H2 H3 H4 H5 H6 H7] He Hhd.
  assert (bl !! e = None) as Hn by (destruct (bl !! e) as [c|] eqn:E; [apply H1 in E; lia|done]).
  assert (owed hd hs e = 32) as Ho.
  { unfold owed. rewrite (zsum_zero (hold e) hs); [unfold overlap; lia|].
    intros h Hh%H7. unfold hold, overlap. lia. }
  split; try done.
  - intros b c. rewrite lookup_insert. case_decide as Hd; [subst; intros [= <-]; split_and!; lia|].
    intros Hb. destruct (H1 b c Hb) as (? & ? & ? & ?). split_and!; try done; lia.
  - intros b Hb Hr. rewrite lookup_insert. case_decide; [by left|]. apply H2; [done|].
    pose proof (Z.div_mod b 32). pose proof (Z.div_mod e 32). lia.
  - intros b. rewrite H3, lookup_insert. case_decide; [subst; rewrite Hn; done|done].
  - intros b Hb. destruct (H6 b Hb) as (? & ? & ?). rewrite lookup_insert_ne by lia. done.
Qed.

(** It takes the last one back. *)
Lemma blocks_revert bl fr hd e hs fb :
  blocks_ok bl fr hd (e + 32) hs fb -> e mod 32 = 0 -> 0 <= hd <= e -> blocks_ok (delete e bl) fr hd e hs fb.
Proof.
  intros [H1 H2 H3 H4 H5 H6 H7] He Hhd.
  assert (forall c, bl !! e = Some c -> c = 0) as Hz.
  { intros c Hc. destruct (H1 e c Hc) as (_ & _ & Hc0 & Hs). pose proof (hold_nonneg e hs).
    unfold owed, overlap in Hs. lia. }
  split; try done.
  - intros b c. rewrite lookup_delete. case_decide; [done|]. intros Hb. destruct (H1 b c Hb) as (? & ? & ? & ?).
    split_and!; try done; [lia|]. pose proof (Z.div_mod b 32). pose proof (Z.div_mod e 32). lia.
  - intros b Hb Hr. rewrite lookup_delete. case_decide; [lia|]. apply H2; [done|lia].
  - intros b. rewrite H3, lookup_delete. case_decide; [|done]. subst. split; [|done]. intros Hc%Hz. done.
  - intros b Hb. destruct (H6 b Hb) as (? & ? & ?). rewrite lookup_delete. case_decide; done.
Qed.
