(* ===== verification/ImplicitProducerInvariant.v ===== *)
(** * The invariant of a producer of the lock-free queue

    What ties the counters, the cells, the block index and the stages of the readers and of the
    writer together, and that every step of a reader and of the writer keeps it. *)

From S2P Require Import Prelude Circular ImplicitProducer ImplicitProducerProofs ImplicitProducerCells.
From stdpp Require Import base list gmap.
From Stdlib Require Import ZArith Lia.
Local Open Scope Z_scope.

Section Invariant.
Context {A : Type}.
Implicit Types (p : Producer A) (st : reader_stage A) (r : kind * reader_stage A) (rs : list (kind * reader_stage A)).

(** What a reader holds: the indices still to read, those whose slots it has not marked empty,
    and the block it is returning. *)
Definition live_of r : list Z :=
  match r.2 with RBlock i stop _ | RTake _ i _ stop _ | RFree _ i stop _ => seqZ i (stop - i) | _ => [] end.
Definition held r : Z * Z :=
  match r.2 with RBlock i stop _ | RTake i _ _ stop _ | RFree _ i stop _ => (i, stop) | _ => (0, 0) end.
Definition freeing r : list Z := match r.2 with RFree b _ _ _ => [b] | _ => [] end.

Definition shape (hd : Z) r : Prop :=
  match r.2 with
  | RBlock i stop _ => 0 <= i < stop /\ stop <= hd
  | RTake seg i e stop _ => 0 <= seg <= i /\ i <= e /\ seg < e <= stop /\ stop <= hd /\ e <= block_base seg + 32
  | RFree _ i stop _ => 0 <= i <= stop /\ stop <= hd
  | RCrash => False
  | _ => True
  end.

Definition round_up (i : Z) : Z := i + (- i) mod 32.

(** The end of the blocks the writer has allocated. *)
Definition alloc_end (w : writer_stage A) (tail : Z) : Z :=
  match w with
  | WIdle | WCrash => round_up tail
  | WAlloc _ _ _ got => round_up tail + 32 * Z.of_nat (length got)
  | WBuild items _ _ _ => round_up (tail + Z.of_nat (length items))
  end.

Definition bases (from : Z) (n : nat) : list Z := (fun j => from + 32 * Z.of_nat j) <$> seq 0 n.

Definition writer_ok p (w : writer_stage A) : Prop :=
  match w with
  | WIdle => True
  | WAlloc items start todo got =>
      start = tailIndex p /\ exists n, got ++ todo = bases (round_up start) n /\
      round_up start + 32 * Z.of_nat n = round_up (start + Z.of_nat (length items))
  | WBuild items start index rest =>
      start = tailIndex p /\ exists built, items = built ++ rest /\ index = start + Z.of_nat (length built) /\
      forall j, (j < length built)%nat -> cells p !! (start + Z.of_nat j) = built !! j
  | WCrash => False
  end.

Record sub_ok p (w : writer_stage A) rs (pub : list A) : Prop := {
  so_tail : tailIndex p = Z.of_nat (length pub);
  so_counters : exists G, counters_ok p rs G;
  so_shape : Forall (shape (headIndex p)) rs;
  so_cells : cells_ok (cells p) pub (concat (live_of <$> rs) ++ seqZ (headIndex p) (tailIndex p - headIndex p))
               (concat (taken <$> rs));
  so_blocks : blocks_ok (blocks p) (freed p) (headIndex p) (alloc_end w (tailIndex p)) (held <$> rs) (concat (freeing <$> rs));
  so_writer : writer_ok p w
}.

Lemma sub_ok_perm p w rs rs' pub : rs ≡ₚ rs' -> sub_ok p w rs pub -> sub_ok p w rs' pub.
Proof.
  intros E [H1 [G H2] H3 H4 H5 H6]. split; try done.
  - exists G. by eapply counters_ok_perm.
  - by rewrite <- E.
  - eapply cells_perm; [| |exact H4]; by rewrite E.
  - eapply blocks_perm; [| |exact H5]; by rewrite E.
Qed.

Lemma round_up_spec i : i <= round_up i < i + 32 /\ round_up i mod 32 = 0.
Proof.
  unfold round_up. pose proof (Z.mod_pos_bound (- i) 32). split; [lia|].
  rewrite <- Zplus_mod_idemp_r, Zmod_mod, Zplus_mod_idemp_r, Z.add_opp_diag_r. done.
Qed.

Lemma alloc_end_tail w p : writer_ok p w -> 0 <= tailIndex p -> tailIndex p <= alloc_end w (tailIndex p).
Proof.
  intros Hw Ht. destruct w as [|items start todo got|items start index rest|]; simpl in *.
  - apply round_up_spec.
  - pose proof (round_up_spec (tailIndex p)). lia.
  - pose proof (round_up_spec (tailIndex p + Z.of_nat (length items))). lia.
  - done.
Qed.

(** A block with an index that is still owed is in the block index. *)
Lemma block_there p w hs fb i :
  blocks_ok (blocks p) (freed p) (headIndex p) (alloc_end w (tailIndex p)) hs fb ->
  0 <= i < alloc_end w (tailIndex p) -> i < 2 ^ 64 -> headIndex p <= i \/ (exists h, h ∈ hs /\ h.1 <= i < h.2) ->
  exists c, blocks p !! block_base i = Some c.
Proof.
  intros Hb Hi Hi' Ho. pose proof (block_base_bounds i ltac:(lia)). apply (blocks_there _ _ _ _ _ _ _ Hb).
  - rewrite block_base_sub by lia. rewrite Zminus_mod, Zmod_mod, Z.sub_diag. done.
  - lia.
  - unfold owed. pose proof (overlap_nonneg (block_base i) (headIndex p) (block_base i + 32)).
    pose proof (hold_nonneg (block_base i) hs). destruct Ho as [Ho|(h & Hh & Hr)]; [unfold overlap in *; lia|].
    pose proof (zsum_elem_le (hold (block_base i)) hs h ltac:(intros; apply overlap_nonneg) Hh) as Hle.
    unfold hold at 1 in Hle. unfold overlap in *. lia.
Qed.

(** A step that touches only the counters, and not the head. *)
Lemma light_step p p' w k st st' rest pub :
  sub_ok p w ((k, st) :: rest) pub -> (exists G, counters_ok p' ((k, st') :: rest) G) ->
  tailIndex p' = tailIndex p -> headIndex p' = headIndex p -> cells p' = cells p -> blocks p' = blocks p -> freed p' = freed p ->
  live_of (k, st') = live_of (k, st) -> held (k, st') = held (k, st) -> freeing (k, st') = freeing (k, st) ->
  taken (k, st') = taken (k, st) -> shape (headIndex p) (k, st') -> sub_ok p' w ((k, st') :: rest) pub.
Proof.
  intros [H1 H2 H3 H4 H5 H6] HG E1 E2 E3 E4 E5 L1 L2 L3 L4 Hs. inversion_clear H3.
  split; try done; rewrite ?E1, ?E2, ?E3, ?E4, ?E5; try done; rewrite ?fmap_cons in *.
  - by constructor.
  - by rewrite L1, L4.
  - by rewrite L2, L3.
  - clear -H6 E1 E3. unfold writer_ok in *. rewrite E1, E3. done.
Qed.

(** [headIndex.fetch_add]. *)
Lemma head_step p p' w k a rest pub :
  let st' := RBlock (headIndex p) (headIndex p + a) [] in
  sub_ok p w ((k, RHead a) :: rest) pub -> 1 <= a -> 0 <= headIndex p -> headIndex p + a <= tailIndex p ->
  p' = set_counters (headIndex p + a) (dequeueOptimisticCount p) (dequeueOvercommit p) p ->
  (exists G, counters_ok p' ((k, st') :: rest) G) -> sub_ok p' w ((k, st') :: rest) pub.
Proof.
  intros st' [H1 H2 H3 H4 H5 H6] Ha Hh Ht -> HG. inversion_clear H3 as [|? ? _ Hrest]. split; try done; simpl in *.
  - constructor; [unfold shape; simpl; lia|]. eapply Forall_impl; [exact Hrest|].
    intros [k0 s]. unfold shape. simpl. destruct s; try done; lia.
  - eapply cells_perm; [|reflexivity|exact H4]. unfold live_of at 3. simpl.
    assert (seqZ (headIndex p) (tailIndex p - headIndex p) =
      seqZ (headIndex p) (headIndex p + a - headIndex p) ++ seqZ (headIndex p + a) (tailIndex p - (headIndex p + a))) as ->.
    { assert (tailIndex p - headIndex p = (headIndex p + a - headIndex p) + (tailIndex p - (headIndex p + a))) as -> by lia.
      rewrite seqZ_app by lia. do 2 f_equal. lia. }
    rewrite !app_assoc. apply Permutation_app_tail. apply Permutation_app_comm.
  - apply (blocks_head _ _ _ _ (held <$> rest)); [exact H5|lia|lia].
Qed.

(** Reading the element at [i]. *)
Lemma take_step p w k seg i e stop got rest pub :
  sub_ok p w ((k, RTake seg i e stop got) :: rest) pub -> i < e ->
  exists x, cells p !! i = Some x /\
    ((exists G, counters_ok (set_cells (delete i (cells p)) p) ((k, RTake seg (i + 1) e stop (got ++ [x])) :: rest) G) ->
     match w with WBuild _ start _ _ => i < start | _ => True end ->
     sub_ok (set_cells (delete i (cells p)) p) w ((k, RTake seg (i + 1) e stop (got ++ [x])) :: rest) pub).
Proof.
  intros [H1 H2 H3 H4 H5 H6] Hie. inversion_clear H3 as [|? ? Hs Hrest]. unfold shape in Hs. simpl in Hs.
  simpl in H4. unfold live_of at 1, taken at 1 in H4. simpl in H4. rewrite (seqZ_cons i) in H4 by lia. simpl in H4.
  apply cells_take in H4 as (x & Hx & H4). exists x. split; [done|]. intros HG Hw. split; try done; simpl in *.
  - constructor; [unfold shape; simpl; lia|done].
  - eapply cells_perm; [| |exact H4].
    + change (live_of (k, RTake seg (i + 1) e stop (got ++ [x]))) with (seqZ (i + 1) (stop - (i + 1))).
      assert (stop - (i + 1) = Z.pred (stop - i)) as -> by lia. done.
    + change (taken (k, RTake seg (i + 1) e stop (got ++ [x]))) with (got ++ [x]).
      rewrite <- app_assoc. simpl. by rewrite Permutation_middle.
  - destruct w as [| |items start index built|]; simpl in *; try done.
    destruct H6 as (? & b & ? & ? & Hc). split; [done|]. exists b. split_and!; [done|done|].
    intros j Hj. rewrite lookup_delete_ne by lia. by apply Hc.
Qed.

Lemma next_segment_parts k e stop (got : list A) : e <= stop ->
  live_of (k, next_segment e stop got) = seqZ e (stop - e) /\ taken (k, next_segment e stop got) = got /\
  freeing (k, next_segment e stop got) = [] /\ (forall b, hold b (held (k, next_segment e stop got)) = hold b (e, stop)) /\
  (forall hd, 0 <= e -> stop <= hd -> shape hd (k, next_segment e stop got)) /\
  (held (k, next_segment e stop got)).2 <= Z.max 0 stop.
Proof.
  intros He. unfold next_segment.
  destruct (e =? stop) eqn:E; zbool; split_and!; try done; try (unfold shape; simpl; lia);
    solve [rewrite seqZ_nil by lia; done | intros b; unfold hold, overlap; simpl; lia | simpl; lia].
Qed.

(** Two readers that hold the same slots. *)
Lemma blocks_next bl fr hd e k i stop got hs fb : i <= stop -> 0 <= hd ->
  blocks_ok bl fr hd e ((i, stop) :: hs) fb -> blocks_ok bl fr hd e (held (k, next_segment i stop (A := A) got) :: hs) fb.
Proof.
  intros Hi Hhd Hb. destruct (next_segment_parts k i stop got Hi) as (_ & _ & _ & Hh & _ & Hm).
  eapply blocks_owed; [done|lia| |].
  - intros b. unfold owed. rewrite !zsum_cons. by rewrite Hh.
  - intros h [->|Hin]%elem_of_cons; [|apply (bo_held _ _ _ _ _ _ Hb); by right].
    pose proof (bo_held _ _ _ _ _ _ Hb (i, stop) ltac:(by left)). simpl in *. lia.
Qed.

(** [set_many_empty] at the end of a reader's part of a block. *)
Lemma mark_step p w k seg e stop got rest pub c :
  let c' := c + (e - seg) in
  let p' := set_blocks (<[block_base seg := c']> (blocks p)) p in
  let st' := if c' =? 32 then RFree (block_base seg) e stop got else next_segment e stop got in
  sub_ok p w ((k, RTake seg e e stop got) :: rest) pub -> 0 <= headIndex p < 2 ^ 63 -> blocks p !! block_base seg = Some c ->
  0 <= c' <= 32 /\ ((exists G, counters_ok p' ((k, st') :: rest) G) -> sub_ok p' w ((k, st') :: rest) pub).
Proof.
  intros c' p' st' [H1 H2 H3 H4 H5 H6] Hhd Hc. inversion_clear H3 as [|? ? Hs Hrest]. unfold shape in Hs. simpl in Hs.
  destruct (next_segment_parts k e stop got ltac:(lia)) as (L1 & L2 & L3 & _ & L5 & _).
  pose proof (block_base_bounds seg ltac:(lia)) as Hbb.
  destruct (blocks_empty (blocks p) (freed p) (headIndex p) (alloc_end w (tailIndex p)) seg e stop (held <$> rest)
    (concat (freeing <$> rest)) (block_base seg) c) as [Hr Hbl]; try lia; try done.
  { rewrite block_base_sub by lia. by rewrite Zminus_mod, Zmod_mod, Z.sub_diag. }
  fold c' in Hbl. split; [done|]. intros HG. split; [exact H1|exact HG| | | |exact H6]; subst st'; rewrite ?fmap_cons.
  - constructor; [|done]. destruct (c' =? 32); [unfold shape; simpl; lia|apply L5; simpl; lia].
  - eapply cells_perm; [| |exact H4]; destruct (c' =? 32); rewrite ?L1, ?L2; done.
  - simpl. destruct (c' =? 32); [exact Hbl|]. rewrite L3. apply blocks_next; [lia|lia|exact Hbl].
Qed.

(** Returning a block. *)
Lemma free_step p p' w k b i stop got rest pub :
  let st' := next_segment i stop got in
  sub_ok p w ((k, RFree b i stop got) :: rest) pub -> 0 <= headIndex p ->
  p' = mkProducer (tailIndex p) (headIndex p) (dequeueOptimisticCount p) (dequeueOvercommit p) (cells p)
         (delete b (blocks p)) (freed p ++ [b]) (reverted p) ->
  (exists G, counters_ok p' ((k, st') :: rest) G) -> sub_ok p' w ((k, st') :: rest) pub.
Proof.
  intros st' [H1 H2 H3 H4 H5 H6] Hhd -> HG. inversion_clear H3 as [|? ? Hs Hrest]. unfold shape in Hs. simpl in Hs.
  destruct (next_segment_parts k i stop got ltac:(lia)) as (L1 & L2 & L3 & _ & L5 & _).
  split; [exact H1|exact HG| | | |exact H6]; rewrite ?fmap_cons.
  - constructor; [apply L5; simpl; lia|done].
  - eapply cells_perm; [| |exact H4]; rewrite !concat_cons; subst st'; by rewrite ?L1, ?L2.
  - rewrite concat_cons. subst st'. rewrite L3. apply blocks_next; [lia|done|]. apply blocks_free. exact H5.
Qed.

(** Every step of a reader keeps the invariant: it never crashes, in particular. *)
Lemma reader_step_ok p w k st st' p' rest pub :
  sub_ok p w ((k, st) :: rest) pub -> tailIndex p < 2 ^ 62 -> zsum (fun r => limit r.1) ((k, st) :: rest) < 2 ^ 62 ->
  reader_step k st p = Some (st', p') -> sub_ok p' w ((k, st') :: rest) pub.
Proof.
  intros H Ht Hb E. pose proof (so_tail _ _ _ _ H) as Htl. destruct (so_counters _ _ _ _ H) as [G HG].
  destruct (counters_bounds _ _ _ HG ltac:(lia)) as (_ & _ & B3). pose proof (co_head_pos _ _ _ HG) as Hhd.
  pose proof (co_readers _ _ _ HG) as Hr. inversion_clear Hr as [|? ? [Hl Hr0] Hrest]. simpl in Hl, Hr0.
  pose proof (counts_sums _ _ Hrest) as (_ & S2 & _). rewrite zsum_cons in B3.
  assert (0 <= granted (k, st)) by (unfold granted; simpl; destruct st; lia).
  pose proof (alloc_end_tail w p (so_writer _ _ _ _ H) ltac:(lia)) as He.
  pose proof (so_shape _ _ _ _ H) as Hs. inversion_clear Hs as [|? ? Hs0 _]. unfold shape in Hs0. simpl in Hs0.
  destruct (reader_step_counters p k st st' p' rest G HG ltac:(lia) Hb E) as (_ & _ & HG').
  destruct st as [|t|t o|o d|o d my|d|s a|a|i stop got|seg i e stop got|b i stop got|got|]; simpl in E;
    try (injection E as <- <-); try discriminate.
  1-7: apply (light_step p _ w k _ _ rest pub H HG'); try done; repeat destruct (_ =? 0); try destruct (_ <? _); done.
  - assert (u64 (headIndex p + a) = headIndex p + a) as Hu by (apply wrapU_id; unfold inU, granted in *; simpl in *; lia).
    rewrite Hu in *. eapply head_step; try done. unfold granted in *; simpl in *; lia.
  - destruct (block_there p w _ _ i (so_blocks _ _ _ _ H) ltac:(lia) ltac:(lia)) as [c Hc].
    { right. exists (i, stop). simpl. split; [by left|lia]. }
    rewrite Hc in E. injection E as <- <-. apply (light_step p _ w k _ _ rest pub H HG'); try done.
    unfold shape, segment_end. simpl. pose proof (block_base_bounds i ltac:(lia)). unfold BLOCK_SIZE.
    rewrite wrapU_id by (unfold inU; lia). rewrite circular_64 by lia. destruct (stop <? _) eqn:Ec; zbool; lia.
  - destruct (block_there p w _ _ seg (so_blocks _ _ _ _ H) ltac:(lia) ltac:(lia)) as [c Hc].
    { right. exists (seg, stop). simpl. split; [by left|lia]. }
    rewrite Hc in E. destruct (i =? e) eqn:Eie; zbool.
    + subst i. destruct (mark_step p w k seg e stop got rest pub c H ltac:(lia) Hc) as [Hc' Hm].
      unfold BLOCK_SIZE in E. rewrite (wrapU_id 64) in E by (unfold inU; lia). injection E as <- <-. by apply Hm.
    + destruct (take_step p w k seg i e stop got rest pub H ltac:(lia)) as (v & Hv & Htk). rewrite Hv in E.
      rewrite (wrapU_id 64) in E by (unfold inU; lia). injection E as <- <-. apply Htk; [done|].
      pose proof (so_writer _ _ _ _ H) as Hw. destruct w; try done. simpl in Hw. lia.
  - by eapply free_step.
Qed.

(** ** The blocks of an enqueue *)

Lemma bases_app from n m : bases from (n + m) = bases from n ++ bases (from + 32 * Z.of_nat n) m.
Proof.
  unfold bases. rewrite seq_app, fmap_app. f_equal. simpl.
  assert (seq n m = Nat.add n <$> seq 0 m) as -> by (rewrite fmap_add_seq; f_equal; lia).
  rewrite <- list_fmap_compose. apply list_fmap_ext. intros j x _. simpl. lia.
Qed.
Lemma bases_S from n : bases from (S n) = bases from n ++ [from + 32 * Z.of_nat n].
Proof. replace (S n) with (n + 1)%nat by lia. rewrite bases_app. unfold bases at 2. simpl. do 2 f_equal. lia. Qed.
Lemma bases_cons from n : bases from (S n) = from :: bases (from + 32) n.
Proof. change (S n) with (1 + n)%nat. rewrite bases_app. unfold bases at 1. simpl. f_equal. lia. Qed.
Lemma bases_split from n got b todo :
  got ++ b :: todo = bases from n -> got = bases from (length got) /\ b = from + 32 * Z.of_nat (length got).
Proof.
  revert from n. induction got as [|g got IH]; intros from n H; (destruct n as [|n]; [done|]); rewrite bases_cons in H;
    injection H as -> H.
  - split; [done|]. simpl. lia.
  - destruct (IH _ _ H) as [I1 I2]. simpl length. rewrite bases_cons. split; [by f_equal|lia].
Qed.

Lemma new_block_bases tail : 0 <= tail < 2 ^ 63 ->
  exists n, new_block tail = bases (round_up tail) n /\ round_up tail + 32 * Z.of_nat n = round_up (tail + 1).
Proof.
  intros Ht. unfold new_block. rewrite block_slot_mod.
  pose proof (round_up_spec tail) as [R1 R2]. pose proof (round_up_spec (tail + 1)) as [R3 R4].
  pose proof (Z.div_mod tail 32). pose proof (Z.mod_pos_bound tail 32). pose proof (Z.div_mod (round_up tail) 32).
  pose proof (Z.div_mod (round_up (tail + 1)) 32). destruct (tail mod 32 =? 0) eqn:E; zbool.
  - exists 1%nat. unfold bases. simpl. split; [f_equal; lia|lia].
  - exists 0%nat. split; [done|lia].
Qed.

Lemma base_before i : 0 <= i < 2 ^ 63 -> block_base (u64 (i - 1)) = u64 (round_up i - 32).
Proof.
  intros Hi. destruct (decide (i = 0)) as [->|]; [reflexivity|].
  pose proof (round_up_spec i) as [R1 R2]. rewrite (wrapU_id 64 (i - 1)) by (unfold inU; lia).
  pose proof (Z.div_mod (round_up i) 32). rewrite wrapU_id by (unfold inU; lia).
  rewrite block_base_sub by lia. pose proof (Z.div_mod (i - 1) 32). pose proof (Z.mod_pos_bound (i - 1) 32). lia.
Qed.

Lemma next_bases_bases n f : 0 <= f -> f + 32 * Z.of_nat n < 2 ^ 64 -> next_bases n (u64 (f - 32)) = bases f n.
Proof.
  revert f. induction n as [|n IH]; intros f Hr Hn; [done|]. rewrite bases_cons. simpl.
  assert (u64 (u64 (f - 32) + BLOCK_SIZE) = f) as ->.
  { unfold wrapU, BLOCK_SIZE. rewrite Zplus_mod_idemp_l. rewrite Z.mod_small; lia. }
  f_equal. rewrite <- IH by lia. f_equal. rewrite wrapU_id by (unfold inU; lia). lia.
Qed.

Lemma new_blocks_bases start count : 0 <= start -> 0 <= count -> start + count < 2 ^ 63 ->
  exists n, new_blocks start count = bases (round_up start) n /\ round_up start + 32 * Z.of_nat n = round_up (start + count).
Proof.
  intros Hs Hc Hb. unfold new_blocks. rewrite !base_before by lia.
  pose proof (round_up_spec start) as [R1 R2]. pose proof (round_up_spec (start + count)) as [R3 R4].
  pose proof (Z.div_mod (round_up start) 32). pose proof (Z.div_mod (round_up (start + count)) 32).
  set (n := round_up (start + count) / 32 - round_up start / 32). assert (0 <= n) by lia.
  assert (u64 (u64 (round_up (start + count) - 32) - u64 (round_up start - 32)) = 32 * n) as ->.
  { unfold wrapU. rewrite <- Zminus_mod. rewrite Z.mod_small; lia. }
  unfold BLOCK_SIZE. assert (32 * n / 32 = n) as -> by (rewrite Z.mul_comm; apply Z.div_mul; lia).
  exists (Z.to_nat n). split; [apply next_bases_bases; lia|lia].
Qed.

(** ** The steps of the writer *)

Lemma sub_head p w rs pub : sub_ok p w rs pub -> 0 <= headIndex p <= tailIndex p.
Proof.
  intros H. destruct (so_counters _ _ _ _ H) as [G HG]. pose proof (so_tail _ _ _ _ H).
  destruct (counters_bounds _ _ _ HG ltac:(lia)) as (_ & _ & B). pose proof (co_head_pos _ _ _ HG).
  pose proof (counts_sums _ _ (co_readers _ _ _ HG)). lia.
Qed.

(** Only the blocks change, or only the cells at or above the tail. *)
Lemma blocks_step p w w' rs pub bl rv :
  let p' := mkProducer (tailIndex p) (headIndex p) (dequeueOptimisticCount p) (dequeueOvercommit p) (cells p) bl (freed p) rv in
  sub_ok p w rs pub ->
  blocks_ok bl (freed p) (headIndex p) (alloc_end w' (tailIndex p)) (held <$> rs) (concat (freeing <$> rs)) ->
  writer_ok p w' -> sub_ok p' w' rs pub.
Proof.
  intros p' [H1 [G H2] H3 H4 H5 H6] Hb Hw. split; try done. exists G. by eapply counters_grow.
Qed.

Lemma stage_step p w w' rs pub :
  sub_ok p w rs pub -> alloc_end w' (tailIndex p) = alloc_end w (tailIndex p) -> writer_ok p w' -> sub_ok p w' rs pub.
Proof. intros [H1 H2 H3 H4 H5 H6] He Hw. split; try done. by rewrite He. Qed.

Lemma cells_step p w w' rs pub i x :
  sub_ok p w rs pub -> tailIndex p <= i -> alloc_end w' (tailIndex p) = alloc_end w (tailIndex p) ->
  writer_ok (set_cells (<[i := x]> (cells p)) p) w' -> sub_ok (set_cells (<[i := x]> (cells p)) p) w' rs pub.
Proof.
  intros [H1 [G H2] H3 H4 H5 H6] Hi He Hw. split; try done.
  - exists G. by eapply counters_grow.
  - apply cells_write; [lia|done].
  - simpl. by rewrite He.
Qed.

Lemma publish_step p rs pub items start index :
  let w := WBuild items start index [] in
  let p' := mkProducer (start + Z.of_nat (length items)) (headIndex p) (dequeueOptimisticCount p) (dequeueOvercommit p)
              (cells p) (blocks p) (freed p) (reverted p) in
  sub_ok p w rs pub -> sub_ok p' WIdle rs (pub ++ items).
Proof.
  intros w p' H. pose proof (sub_head _ _ _ _ H) as Hh. destruct H as [H1 [G H2] H3 H4 H5 H6].
  simpl in H6. destruct H6 as (Hst & built & Hit & Hix & Hc). rewrite app_nil_r in Hit. subst built start.
  split; try done; simpl.
  - rewrite length_app. lia.
  - exists G. eapply counters_grow; try done. simpl. lia.
  - assert (seqZ (headIndex p) (tailIndex p + Z.of_nat (length items) - headIndex p) =
      seqZ (headIndex p) (tailIndex p - headIndex p) ++ seqZ (tailIndex p) (Z.of_nat (length items))) as ->.
    { replace (tailIndex p + Z.of_nat (length items) - headIndex p)
        with ((tailIndex p - headIndex p) + Z.of_nat (length items)) by lia.
      rewrite seqZ_app by lia. do 2 f_equal. lia. }
    eapply cells_perm; [|reflexivity|].
    2: { apply (cells_publish _ _ _ _ items H4). intros j Hj. rewrite Nat2Z.inj_add, <- H1. by apply Hc. }
    rewrite H1. etrans; [apply Permutation_app_comm|]. by rewrite <- app_assoc.
Qed.

(** A failed enqueue takes back the blocks it had. *)
Lemma blocks_revert_all bl fr hd f n hs fb :
  blocks_ok bl fr hd (f + 32 * Z.of_nat n) hs fb -> f mod 32 = 0 -> 0 <= hd <= f ->
  blocks_ok (foldr delete bl (bases f n)) fr hd f hs fb.
Proof.
  revert bl. induction n as [|n IH]; intros bl H Hf Hhd; [simpl; by rewrite Z.add_0_r in H|].
  rewrite bases_S, foldr_app. apply IH; [|done|done]. simpl.
  apply blocks_revert; [|rewrite Z.mul_comm, Z_mod_plus_full; done|lia].
  by replace (f + 32 * Z.of_nat n + 32) with (f + 32 * Z.of_nat (S n)) by lia.
Qed.

(** What an enqueue still has to publish. *)
Definition pending (w : writer_stage A) : Z :=
  match w with WAlloc items _ _ _ | WBuild items _ _ _ => Z.of_nat (length items) | _ => 0 end.

Lemma writer_step_ok p w ok w' p' items rs pub :
  sub_ok p w rs pub -> tailIndex p + pending w < 2 ^ 62 -> writer_step w ok p = Some (w', p', items) ->
  sub_ok p' w' rs (pub ++ items) /\ tailIndex p' + pending w' <= tailIndex p + pending w /\ dequeueOvercommit p' = dequeueOvercommit p.
Proof.
  intros H Ht E. pose proof (sub_head _ _ _ _ H) as Hh. pose proof (so_writer _ _ _ _ H) as Hw.
  pose proof (so_blocks _ _ _ _ H) as Hb. pose proof (round_up_spec (tailIndex p)) as [R1 R2].
  destruct w as [|its start [|b todo] got|its start index [|x rest]|]; simpl in E, Hw, Ht; try discriminate.
  - injection E as <- <- <-. rewrite app_nil_r. split; [|simpl; lia].
    destruct Hw as (-> & n & Hn & He). rewrite app_nil_r in Hn. subst got.
    eapply stage_step; [done| |].
    + simpl. unfold bases. by rewrite length_fmap, length_seq.
    + simpl. split; [done|]. exists []. split_and!; [done|simpl; lia|simpl; lia].
  - destruct Hw as (-> & n & Hn & He). destruct (bases_split _ _ _ _ _ Hn) as [Hg ->].
    destruct (_ && ok); injection E as <- <- <-; rewrite app_nil_r; (split; [|simpl; lia]).
    + apply (blocks_step p _ _ rs pub _ _ H); simpl in *.
      * rewrite length_app. simpl. replace (round_up (tailIndex p) + 32 * Z.of_nat (length got + 1))
          with (round_up (tailIndex p) + 32 * Z.of_nat (length got) + 32) by lia.
        apply blocks_alloc; [done|rewrite Z.mul_comm, Z_mod_plus_full; done|lia].
      * split; [done|]. exists n. by rewrite <- app_assoc.
    + apply (blocks_step p _ _ rs pub _ _ H); simpl in *; [|done]. rewrite Hg. apply blocks_revert_all; [done|done|lia].
  - injection E as <- <- <-. destruct Hw as (Hst & _). rewrite wrapU_id by (unfold inU; lia).
    split; [by eapply publish_step|simpl; lia].
  - destruct Hw as (-> & built & -> & -> & Hc). rewrite length_app in Ht. simpl in Ht.
    destruct (block_there p (WBuild (built ++ x :: rest) (tailIndex p) (tailIndex p + Z.of_nat (length built)) (x :: rest)) _ _
      (tailIndex p + Z.of_nat (length built)) Hb) as [c Hbc].
    { simpl. pose proof (round_up_spec (tailIndex p + Z.of_nat (length (built ++ x :: rest)))). rewrite length_app in *. simpl in *. lia. }
    { lia. } { left. lia. }
    rewrite Hbc in E. rewrite wrapU_id in E by (unfold inU; lia). injection E as <- <- <-. rewrite app_nil_r.
    split; [|simpl; rewrite length_app; lia].
    eapply cells_step; [done|lia|done|]. simpl. split; [done|]. exists (built ++ [x]). rewrite <- app_assoc, length_app. simpl.
    split_and!; [done|lia|]. intros j Hj. destruct (decide (j = length built)) as [->|].
    + rewrite lookup_insert_eq. by rewrite list_lookup_middle.
    + rewrite lookup_insert_ne by lia. rewrite lookup_app_l by lia. apply Hc. lia.
Qed.
End Invariant.
