(* ===== verification/ImplicitProducerTheorems.v ===== *)
(** * A producer of the lock-free queue is a queue

    Whatever the interleaving of its writer and its readers: no access to a block that is not
    there or to an empty slot, every element made visible is given out once, a block is returned
    once and only when its 32 slots have been emptied; a dequeue finishes in a bounded number of
    its own steps, and one running alone gets the oldest element whenever there is one. *)

From S2P Require Import Prelude Circular ImplicitProducer ImplicitProducerProofs ImplicitProducerCells ImplicitProducerInvariant.
From stdpp Require Import base list gmap.
From Stdlib Require Import ZArith Lia.
Local Open Scope Z_scope.

Section Runs.
Context {A : Type}.
Implicit Types (q : SubQueue A) (l : list (sub_action A)).

(** How much the actions ask the indices and the tickets to hold. *)
Definition demand (a : sub_action A) : Z :=
  match a with StartEnqueue _ => 1 | StartEnqueueBulk items => Z.of_nat (length items) | _ => 0 end.
Definition asks (a : sub_action A) : Z := match a with StartDequeue k => limit k | _ => 0 end.

(** Less than 2^62 elements and 2^62 requests: the indices do not wrap around; and no dequeue of
    at most 0 elements. *)
Definition fits l : Prop :=
  Forall (fun a => match a with StartDequeue k => 1 <= limit k | _ => True end) l /\ zsum demand l < 2 ^ 62 /\ zsum asks l < 2 ^ 62.

Lemma fits_nonneg l : Forall (fun a => match a with StartDequeue k => 1 <= limit k | _ => True end) l ->
  0 <= zsum demand l /\ 0 <= zsum asks l.
Proof.
  induction 1 as [|a l Ha _ IH]; [done|]. rewrite !zsum_cons. destruct a; simpl in *; lia.
Qed.

Definition queue_ok q l : Prop :=
  sub_ok (producer q) (writer q) (readers q) (published q) /\
  Forall (fun a => match a with StartDequeue k => 1 <= limit k | _ => True end) l /\
  tailIndex (producer q) + pending (writer q) + zsum demand l < 2 ^ 62 /\
  zsum (fun r => limit r.1) (readers q) + zsum asks l < 2 ^ 62.

Lemma start_writer (p : Producer A) w rs pub items todo :
  sub_ok p w rs pub -> w = WIdle -> writer_ok p (WAlloc items (tailIndex p) todo []) ->
  sub_ok p (WAlloc items (tailIndex p) todo []) rs pub.
Proof. intros H -> Hw. eapply stage_step; [done|simpl; lia|done]. Qed.

Lemma start_reader (p : Producer A) w rs pub k : 1 <= limit k -> sub_ok p w rs pub -> sub_ok p w ((k, RTail) :: rs) pub.
Proof.
  intros Hk [H1 [G H2] H3 H4 H5 H6]. split; try done.
  - exists G. by apply counters_start.
  - by constructor.
  - eapply (blocks_owed _ _ _ _ _ (held <$> rs)); [done|lia| |].
    + intros b. unfold owed. rewrite fmap_cons, zsum_cons. unfold hold at 1, overlap. simpl. lia.
    + intros h [->|Hh]%elem_of_cons; [|by apply (bo_held _ _ _ _ _ _ H5)]. simpl.
      pose proof (co_head_pos _ _ _ H2). lia.
Qed.

Lemma sub_exec_ok q a l q' : queue_ok q (a :: l) -> sub_exec a q = Some q' -> queue_ok q' l.
Proof.
  intros (H & Ha & Hd & Hk) E. inversion_clear Ha as [|? ? Ha0 Hl]. rewrite zsum_cons in Hd, Hk.
  pose proof (fits_nonneg l Hl) as [D1 D2]. pose proof (sub_head _ _ _ _ H) as Hh.
  assert (0 <= zsum (fun r => limit r.1) (readers q)) as D3.
  { destruct (so_counters _ _ _ _ H) as [G HG]. pose proof (counters_bounds _ _ _ HG ltac:(lia)). lia. }
  assert (0 <= pending (writer q)) as D4 by (destruct (writer q); simpl; lia).
  destruct a as [x|items|ok|k|i]; simpl in E, Hd, Hk, Ha0.
  - destruct (writer q) eqn:Ew; try discriminate. injection E as <-. split; [|split_and!; simpl in *; try done; lia].
    simpl. eapply start_writer; [done|done|]. simpl. split; [done|]. apply new_block_bases. lia.
  - destruct (writer q) eqn:Ew; try discriminate. injection E as <-. split; [|split_and!; simpl in *; try done; lia].
    simpl. eapply start_writer; [done|done|]. simpl. split; [done|]. apply new_blocks_bases; simpl in *; lia.
  - destruct (writer_step (writer q) ok (producer q)) as [[[w p] items]|] eqn:Ew; [|discriminate]. injection E as <-.
    destruct (writer_step_ok _ _ _ _ _ _ _ _ H ltac:(lia) Ew) as (H' & Hle & _).
    split; [done|]. split_and!; simpl; [done|lia|lia].
  - injection E as <-. split; [by apply start_reader|]. split_and!; simpl; [done|lia|]. simpl. lia.
  - destruct (readers q !! i) as [[k st]|] eqn:Er; [|discriminate].
    destruct (reader_step k st (producer q)) as [[st' p]|] eqn:Es; [|discriminate]. injection E as <-.
    pose proof (delete_Permutation (readers q) i (k, st) Er) as Hp. pose proof (insert_perm (readers q) i (k, st) (k, st') Er) as Hp'.
    rewrite Hp in D3, Hk. 
    assert (sub_ok p (writer q) ((k, st') :: delete i (readers q)) (published q)) as H'.
    { eapply reader_step_ok; [eapply sub_ok_perm; [exact Hp|done]|lia| |done]. lia. }
    split; [eapply sub_ok_perm; [|exact H']; by symmetry|]. simpl. rewrite Hp'.
    assert (tailIndex p = tailIndex (producer q)) as -> by (rewrite (so_tail _ _ _ _ H), (so_tail _ _ _ _ H'); done).
    split_and!; [done|lia|]. rewrite zsum_cons in *. simpl in *. lia.
Qed.

Lemma sub_run_ok l q l' q' : queue_ok q (l ++ l') -> sub_run l q = Some q' -> queue_ok q' l'.
Proof.
  revert q. induction l as [|a l IH]; intros q H E; simpl in E; [by injection E as <-|].
  destruct (sub_exec a q) as [q1|] eqn:Ea; [|discriminate]. eapply IH; [|done]. by eapply sub_exec_ok.
Qed.

Lemma empty_sub_ok l : fits l -> queue_ok empty_sub l.
Proof.
  intros (H1 & H2 & H3). split; [|split_and!; simpl; done || lia]. split; simpl; try done.
  - exists []. split; simpl; done || lia.
  - split; simpl; [apply NoDup_nil_2|by intros i ?%not_elem_of_nil|by intros i ?%not_elem_of_nil|done].
  - split; simpl; try done; try apply NoDup_nil_2; try (by intros ? ?%not_elem_of_nil).
    + intros b Hb Hr. change (round_up 0) with 0 in Hr. lia.
    + intros b. split; [by intros ?%not_elem_of_nil|done].
Qed.

Definition finished (r : kind * reader_stage A) : bool := match r.2 with RDone _ => true | _ => false end.

(** The indices still to be read, by the readers that were given them or by nobody yet. *)
Definition unread q : list Z :=
  concat (live_of <$> readers q) ++ seqZ (headIndex (producer q)) (tailIndex (producer q) - headIndex (producer q)).

(** An index still to be read keeps its block. *)
Lemma unread_owed q i l :
  queue_ok q l -> i ∈ unread q -> 0 <= i < tailIndex (producer q) /\ 0 < owed (headIndex (producer q)) (held <$> readers q) (block_base i).
Proof.
  intros (H & Hall & Hd & _) Hi. pose proof (ce_range _ _ _ _ (so_cells _ _ _ _ H) i Hi) as Hr.
  pose proof (so_tail _ _ _ _ H). split; [lia|]. pose proof (sub_head _ _ _ _ H).
  destruct (fits_nonneg l Hall) as [Hdm _]. assert (0 <= pending (writer q)) by (destruct (writer q); simpl; lia).
  pose proof (block_base_bounds i ltac:(lia)) as Hb. unfold owed.
  pose proof (overlap_nonneg (block_base i) (headIndex (producer q)) (block_base i + 32)).
  pose proof (hold_nonneg (block_base i) (held <$> readers q)).
  unfold unread in Hi. apply elem_of_app in Hi as [Hi|Hi%elem_of_seqZ].
  - apply elem_of_concat in Hi as (ks & Hi & Hks). apply list_elem_of_fmap in Hks as (r & -> & Hr').
    pose proof (proj1 (Forall_forall _ _) (so_shape _ _ _ _ H) r Hr') as Hs.
    pose proof (zsum_elem_le (hold (block_base i)) (held <$> readers q) (held r) ltac:(intros; apply overlap_nonneg)
      ltac:(by apply list_elem_of_fmap_2)) as Hle.
    unfold live_of, held, shape, hold, overlap in *. destruct r as [k []]; simpl in *;
      try (by apply not_elem_of_nil in Hi); apply elem_of_seqZ in Hi; lia.
  - unfold overlap in *. lia.
Qed.

(** The readers done hold nothing. *)
Lemma finished_parts rs : Forall finished rs ->
  zsum owed_over rs = 0 /\ zsum granted rs = 0 /\ concat (undecided <$> rs) = [] /\ concat (freeing <$> rs) = [] /\
  forall b, zsum (hold b) (held <$> rs) = 0.
Proof.
  induction 1 as [|[k st] rs Hr _ (I1 & I2 & I3 & I4 & I5)]; [done|]. destruct st; try done.
  rewrite !fmap_cons, !zsum_cons, !concat_cons, I1, I2, I3, I4. split_and!; try done.
  intros b. rewrite zsum_cons, I5. unfold hold, overlap. simpl. lia.
Qed.

(** What the readers took and what is in the slots still to be read is what was made visible. *)
Lemma sub_items (p : Producer A) w rs pub : sub_ok p w rs pub ->
  concat (taken <$> rs) ++
    omap (fun i => cells p !! i) (concat (live_of <$> rs) ++ seqZ (headIndex p) (tailIndex p - headIndex p)) ≡ₚ pub.
Proof.
  intros H. pose proof (so_cells _ _ _ _ H) as Hc. rewrite Permutation_app_comm, <- (ce_items _ _ _ _ Hc).
  apply Permutation_app_tail. rewrite (omap_agree _ (pub_at pub)); [done|]. apply Hc.
Qed.

(** C23: whatever the order of the steps of the writer and of the readers of a producer, fewer than
    2^62 elements and requests: no step touches a block that is not in the index or a slot without
    an element; what the readers took and what is still in unread slots is what was made visible,
    each element once; a block is returned at most once, only when all its 32 elements were
    read, and, when the readers are done, every block wholly before the head was returned. *)
Theorem implicit_producer_correct l q :
  fits l -> sub_run l empty_sub = Some q ->
  writer q <> WCrash /\ (forall k, (k, RCrash) ∉ readers q) /\
  concat (taken <$> readers q) ++ omap (fun i => cells (producer q) !! i) (unread q) ≡ₚ published q /\
  Forall (fun i => is_Some (cells (producer q) !! i)) (unread q) /\
  NoDup (freed (producer q)) /\
  (forall b, b ∈ freed (producer q) -> blocks (producer q) !! b = None /\ Forall (fun i => block_base i <> b) (unread q)) /\
  (Forall finished (readers q) -> forall b, b mod 32 = 0 -> 0 <= b -> b + 32 <= headIndex (producer q) -> b ∈ freed (producer q)).
Proof.
  intros Hl E. assert (queue_ok q []) as Hq by (eapply (sub_run_ok l _ []); [rewrite app_nil_r; by apply empty_sub_ok|done]).
  destruct (Hq) as (H & _). pose proof (so_cells _ _ _ _ H) as Hc. fold (unread q) in Hc.
  assert (forall i, i ∈ unread q -> cells (producer q) !! i = pub_at (published q) i) as Hcell by apply Hc.
  split_and!.
  - intros Ew. pose proof (so_writer _ _ _ _ H) as Hw. by rewrite Ew in Hw.
  - intros k Hk. exact (proj1 (Forall_forall _ _) (so_shape _ _ _ _ H) _ Hk).
  - by apply (sub_items _ _ _ _ H).
  - apply Forall_forall. intros i Hi. rewrite Hcell by done. apply lookup_lt_is_Some_2.
    pose proof (ce_range _ _ _ _ Hc i Hi). lia.
  - apply (bo_freed_once _ _ _ _ _ _ (so_blocks _ _ _ _ H)).
  - intros b Hb. destruct (bo_freed _ _ _ _ _ _ (so_blocks _ _ _ _ H) b Hb) as (Hn & _ & Ho). split; [done|].
    apply Forall_forall. intros i Hi Hib. pose proof (unread_owed q i [] Hq Hi) as [_ Hu]. rewrite Hib, Ho in Hu. lia.
  - intros Hf b Hm Hb Hh. pose proof (so_blocks _ _ _ _ H) as Hbl. pose proof (sub_head _ _ _ _ H).
    pose proof (alloc_end_tail _ _ (so_writer _ _ _ _ H) ltac:(lia)).
    destruct (bo_all _ _ _ _ _ _ Hbl b Hm ltac:(lia)) as [[c Hc']|]; [|done]. exfalso.
    destruct (finished_parts _ Hf) as (_ & _ & _ & Hn & Hz). destruct (bo_count _ _ _ _ _ _ Hbl b c Hc') as (_ & _ & _ & Hs).
    unfold owed in Hs. rewrite Hz in Hs. assert (c = 32) as -> by (unfold overlap in Hs; lia).
    apply (bo_freeing _ _ _ _ _ _ Hbl) in Hc'. rewrite Hn in Hc'. by apply not_elem_of_nil in Hc'.
Qed.

(** ** A dequeue alone *)

(** [n] steps of one reader. *)
Fixpoint solo (n : nat) (k : kind) (st : reader_stage A) (p : Producer A) : option (reader_stage A * Producer A) :=
  match n with
  | O => Some (st, p)
  | S n' => match reader_step k st p with Some (st', p') => solo n' k st' p' | None => None end
  end.

Lemma sub_run_solo n k st p w rest pub st' p' :
  solo n k st p = Some (st', p') ->
  sub_run (replicate n (ReaderStep 0)) (mkSub p w ((k, st) :: rest) pub) = Some (mkSub p' w ((k, st') :: rest) pub).
Proof.
  revert st p. induction n as [|n IH]; intros st p E; simpl in E |- *; [by injection E as <- <-|].
  destruct (reader_step k st p) as [[st1 p1]|]; [|discriminate]. by apply IH.
Qed.

Lemma solo_app n m k st p st1 p1 : solo n k st p = Some (st1, p1) -> solo (n + m) k st p = solo m k st1 p1.
Proof.
  revert st p. induction n as [|n IH]; intros st p E; simpl in E |- *; [by injection E as <- <-|].
  destruct (reader_step k st p) as [[st2 p2]|]; [|discriminate]. by apply IH.
Qed.

(** When the readers are done, the tickets drawn less those that failed are the head. *)
Lemma counters_settled p rs G : counters_ok (A := A) p rs G -> Forall finished rs ->
  dequeueOptimisticCount p = dequeueOvercommit p + headIndex p.
Proof.
  intros [_ _ Hc Ho Hh Hp _ _ _] Hf. destruct (finished_parts rs Hf) as (F1 & F2 & F3 & _).
  rewrite F1 in Ho. rewrite F2 in Hh. rewrite F3 in Hp. apply Permutation_nil_l in Hp.
  assert (forall s, pendings s G = [] -> zsum g_size G = zsum g_failed G + zsum g_approved G) as Hg; [|specialize (Hg 0 (eq_sym Hp)); lia].
  clear. induction G as [|[w o [a|]] G IH]; intros s H; simpl in *; [done| |done].
  specialize (IH _ H). unfold g_failed at 1, g_approved at 1. simpl. lia.
Qed.

(** Its first six steps. *)
Lemma solo_claim p :
  dequeueOptimisticCount p = dequeueOvercommit p + headIndex p -> 0 <= dequeueOvercommit p -> 0 <= headIndex p < tailIndex p ->
  dequeueOvercommit p < 2 ^ 62 -> tailIndex p < 2 ^ 62 ->
  solo 6 One RTail p = Some (RBlock (headIndex p) (headIndex p + 1) [],
    set_counters (headIndex p + 1) (dequeueOptimisticCount p + 1) (dequeueOvercommit p) p).
Proof.
  intros Hc Ho Hh Ho' Ht.
  assert (u64 (dequeueOptimisticCount p - dequeueOvercommit p) = headIndex p) as Hd.
  { rewrite Hc. replace (dequeueOvercommit p + headIndex p - dequeueOvercommit p) with (headIndex p) by lia.
    apply wrapU_id. unfold inU. lia. }
  assert (circular_less_than 64 (headIndex p) (tailIndex p) = true) as Hl by (rewrite circular_64 by lia; apply Z.ltb_lt; lia).
  cbn -[circular_less_than wrapU]. unfold want_one. rewrite Hd, Hl. cbn -[circular_less_than wrapU].
  unfold grant_one. rewrite Hd, Hl. cbn -[circular_less_than wrapU]. unfold set_counters at 2. rewrite !(wrapU_id 64) by (unfold inU; lia). done.
Qed.

(** A step with [RCrash] cannot happen. *)
Lemma solo_block p w i stop got rest pub :
  sub_ok p w ((One, RBlock i stop got) :: rest) pub -> tailIndex p < 2 ^ 62 ->
  zsum (fun r => limit r.1) ((One, RBlock i stop got) :: rest) < 2 ^ 62 ->
  solo 1 One (RBlock i stop got) p = Some (RTake i i (segment_end i stop) stop got, p).
Proof.
  intros H Ht Hb. simpl. destruct (blocks p !! block_base i) eqn:E; [done|]. exfalso.
  assert (sub_ok p w ((One, RCrash) :: rest) pub) as H'.
  { eapply reader_step_ok; [exact H|done|done|]. simpl. by rewrite E. }
  pose proof (so_shape _ _ _ _ H') as Hs. by inversion_clear Hs.
Qed.

Lemma solo_ok n p w k st st' p' rest pub :
  sub_ok p w ((k, st) :: rest) pub -> tailIndex p < 2 ^ 62 -> zsum (fun r => limit r.1) ((k, st) :: rest) < 2 ^ 62 ->
  solo n k st p = Some (st', p') -> sub_ok p' w ((k, st') :: rest) pub /\ tailIndex p' = tailIndex p.
Proof.
  revert st p. induction n as [|n IH]; intros st p H Ht Hb E; simpl in E; [injection E as <- <-; done|].
  destruct (reader_step k st p) as [[st1 p1]|] eqn:E1; [|discriminate].
  pose proof (reader_step_ok _ _ _ _ _ _ _ _ H Ht Hb E1) as H1.
  assert (tailIndex p1 = tailIndex p) as Et by (rewrite (so_tail _ _ _ _ H), (so_tail _ _ _ _ H1); done).
  destruct (IH _ _ H1 ltac:(lia) Hb E) as [H2 Et2]. split; [done|lia].
Qed.

(** The one element of a dequeue: read, marked, and its block returned if it was the last. *)
Lemma solo_element p w i rest pub :
  sub_ok p w ((One, RTake i i (i + 1) (i + 1) []) :: rest) pub -> tailIndex p < 2 ^ 62 ->
  zsum (fun r => limit r.1) ((One, RTake i i (i + 1) (i + 1) []) :: rest) < 2 ^ 62 ->
  exists n x p', (n <= 3)%nat /\ pub !! Z.to_nat i = Some x /\ solo n One (RTake i i (i + 1) (i + 1) []) p = Some (RDone [x], p').
Proof.
  intros H Ht Hb. destruct (take_step _ _ _ _ _ _ _ _ _ _ H ltac:(lia)) as (x & Hx & _).
  pose proof (so_tail _ _ _ _ H) as Htl. pose proof (so_shape _ _ _ _ H) as Hs. inversion_clear Hs as [|? ? Hs0 _].
  unfold shape in Hs0. simpl in Hs0. pose proof (sub_head _ _ _ _ H) as Hh.
  pose proof (ce_cell _ _ _ _ (so_cells _ _ _ _ H) i) as Hp. rewrite Hx in Hp. unfold pub_at in Hp.
  pose proof (alloc_end_tail w p (so_writer _ _ _ _ H) ltac:(lia)).
  destruct (block_there p w _ _ i (so_blocks _ _ _ _ H) ltac:(lia) ltac:(lia)) as [c Hc].
  { right. exists (i, i + 1). simpl. split; [by left|lia]. }
  assert (exists stl pl, solo 2 One (RTake i i (i + 1) (i + 1) []) p = Some (stl, pl) /\
    (stl = RDone [x] \/ exists b, stl = RFree b (i + 1) (i + 1) [x])) as (stl & pl & E2 & Hst).
  { simpl. rewrite Hc, Hx. assert ((i =? i + 1) = false) as -> by (apply Z.eqb_neq; lia). simpl. rewrite Hc.
    rewrite !(wrapU_id 64 (i + 1)) by (unfold inU; lia). rewrite Z.eqb_refl. unfold next_segment. rewrite Z.eqb_refl.
    destruct (_ =? BLOCK_SIZE); eexists _, _; (split; [reflexivity|]); [right; by eexists|by left]. }
  assert (pub !! Z.to_nat i = Some x) as Hpx.
  { symmetry. apply Hp. apply elem_of_app. left. apply elem_of_concat. exists (live_of (One, RTake i i (i + 1) (i + 1) [] (A := A))).
    split; [apply elem_of_seqZ; lia|by left]. }
  destruct Hst as [->|[b ->]]; [exists 2%nat, x, pl; split_and!; done || lia|].
  eexists (2 + 1)%nat, x, _. split_and!; [lia|done|]. rewrite (solo_app 2 1 _ _ _ _ _ E2). simpl.
  unfold next_segment. by rewrite Z.eqb_refl.
Qed.

(** A lone dequeue: the readers before it are done. *)
Lemma lone_solo p w rs pub :
  sub_ok p w ((One, RTail) :: rs) pub -> Forall finished rs -> sub_ok p w rs pub ->
  tailIndex p < 2 ^ 62 -> zsum (fun r => limit r.1) ((One, RTail (A := A)) :: rs) < 2 ^ 62 ->
  exists n p', (n <= 10)%nat /\ solo n One RTail p = Some (RDone (option_list (pub !! Z.to_nat (headIndex p))), p').
Proof.
  intros H Hf Hs Hd Hb. pose proof (so_tail _ _ _ _ H) as Htl. pose proof (sub_head _ _ _ _ H) as Hh.
  destruct (so_counters _ _ _ _ Hs) as [G HG]. pose proof (counters_settled _ _ _ HG Hf) as Hc.
  rewrite zsum_cons in Hb. simpl in Hb.
  pose proof (counters_bounds _ _ _ HG ltac:(lia)) as (B1 & B2 & _). pose proof (co_over_pos _ _ _ HG) as Ho.
  destruct (decide (headIndex p = tailIndex p)) as [He|Hne].
  - exists 3%nat, p. split; [lia|]. cbn -[circular_less_than wrapU]. unfold want_one.
    replace (dequeueOptimisticCount p - dequeueOvercommit p) with (headIndex p) by lia.
    rewrite (wrapU_id 64) by (unfold inU; lia). rewrite circular_64 by lia. rewrite He, Z.ltb_irrefl.
    rewrite (lookup_ge_None_2 pub) by lia. done.
  - pose proof (solo_claim p Hc Ho ltac:(lia) ltac:(lia) ltac:(lia)) as S1.
    destruct (solo_ok _ _ _ _ _ _ _ _ _ H ltac:(lia) ltac:(simpl; lia) S1) as [H1 Ht1].
    pose proof (solo_block _ _ _ _ _ _ _ H1 ltac:(lia) ltac:(simpl in *; lia)) as S2.
    assert (segment_end (headIndex p) (headIndex p + 1) = headIndex p + 1) as Hse.
    { unfold segment_end. pose proof (block_base_bounds (headIndex p) ltac:(lia)). unfold BLOCK_SIZE.
      rewrite wrapU_id by (unfold inU; lia). rewrite circular_64 by lia. destruct (_ <? _) eqn:?; zbool; lia. }
    rewrite Hse in S2.
    destruct (solo_ok _ _ _ _ _ _ _ _ _ H1 ltac:(lia) ltac:(simpl in *; lia) S2) as [H2 Ht2].
    destruct (solo_element _ _ _ _ _ H2 ltac:(lia) ltac:(simpl in *; lia)) as (n & x & p' & Hn & Hx & S3).
    exists (6 + (1 + n))%nat, p'. split; [lia|]. rewrite (solo_app 6 (1 + n) _ _ _ _ _ S1), (solo_app 1 n _ _ _ _ _ S2), S3.
    by rewrite Hx.
Qed.

(** A dequeue that runs while no other dequeue does gets the oldest element not taken, and
    reports an empty queue only when there is none: what earlier dequeues drew in vain is repaid. *)
Theorem lone_dequeue_gets l q :
  fits (l ++ [StartDequeue One]) -> sub_run l empty_sub = Some q -> Forall finished (readers q) ->
  exists n q', (n <= 10)%nat /\ sub_run (StartDequeue One :: replicate n (ReaderStep 0)) q = Some q' /\
    readers q' = (One, RDone (option_list (published q !! Z.to_nat (headIndex (producer q))))) :: readers q.
Proof.
  intros Hl E Hf. pose proof (sub_run_ok _ _ _ _ (empty_sub_ok _ Hl) E) as Hq.
  pose proof (sub_exec_ok q (StartDequeue One) [] _ Hq eq_refl) as (H & _ & Hd & Hb).
  destruct q as [p w rs pub]. destruct Hq as (Hs & _). simpl in *.
  assert (0 <= pending w) by (destruct w; simpl; lia).
  destruct (lone_solo p w rs pub H Hf Hs ltac:(lia) ltac:(simpl; lia)) as (n & p' & Hn & S).
  exists n, (mkSub p' w ((One, RDone (option_list (pub !! Z.to_nat (headIndex p)))) :: rs) pub).
  split; [exact Hn|]. split; [by apply (sub_run_solo n _ _ _ _ rs pub)|done].
Qed.

(** ** Every dequeue ends *)

(** A bound of the steps a reader has left: from its claim on, it depends on nobody. *)
Definition steps_left (r : kind * reader_stage A) : Z :=
  match r.2 with
  | RTail => 7 + 4 * limit r.1 | ROver _ => 6 + 4 * limit r.1 | RCount _ _ => 5 + 4 * limit r.1
  | RCommit _ d => 4 + 4 * d | RTail2 _ d _ => 3 + 4 * d | RFail _ => 1
  | RPartial _ a => 2 + 4 * a | RHead a => 1 + 4 * a
  | RBlock i stop _ => 4 * (stop - i)
  | RTake _ i e stop _ => (e - i) + 2 + 4 * (stop - e)
  | RFree _ i stop _ => 1 + 4 * (stop - i)
  | RDone _ | RCrash => 0
  end.

Lemma commit_positive (p : Producer A) w rs pub k o d my : sub_ok p w rs pub -> (k, RTail2 o d my) ∈ rs -> 1 <= d.
Proof.
  intros H Hr. destruct (so_counters _ _ _ _ H) as [G HG]. destruct (pendings_elem 0 G o d my) as (G1 & G2 & -> & _).
  - rewrite <- (co_pending _ _ _ HG). apply elem_of_concat. exists [(o, d, my)]. split; [by left|].
    by apply (list_elem_of_fmap_2 undecided rs (k, RTail2 o d my)).
  - pose proof (co_groups _ _ _ HG) as Hg. apply groups_ok_app in Hg as (_ & Hd & _). done.
Qed.

Lemma steps_left_nonneg (p : Producer A) w rs pub r : sub_ok p w rs pub -> r ∈ rs -> 0 <= steps_left r /\ (steps_left r = 0 -> finished r).
Proof.
  intros H Hr. destruct (so_counters _ _ _ _ H) as [G HG].
  pose proof (proj1 (Forall_forall _ _) (so_shape _ _ _ _ H) r Hr) as Hs.
  pose proof (proj1 (Forall_forall _ _) (co_readers _ _ _ HG) r Hr) as [Hl Hc]. destruct r as [k st].
  assert (forall o d my, st = RTail2 o d my -> 1 <= d) as Hd by (intros o d my ->; by eapply commit_positive).
  unfold steps_left, shape, finished in *.
  destruct st as [| | | |o d my| | | | | | | |]; simpl in *; try specialize (Hd o d my eq_refl); lia || done.
Qed.

Lemma next_segment_left k i stop (got : list A) : i <= stop -> steps_left (k, next_segment i stop got) = 4 * (stop - i).
Proof. intros Hi. unfold next_segment. destruct (i =? stop) eqn:E; zbool; unfold steps_left; simpl; lia. Qed.

Lemma reader_step_left (p : Producer A) w k st st' p' rest pub :
  sub_ok p w ((k, st) :: rest) pub -> tailIndex p < 2 ^ 62 ->
  reader_step k st p = Some (st', p') -> steps_left (k, st') < steps_left (k, st).
Proof.
  intros H Ht E. destruct (so_counters _ _ _ _ H) as [G HG]. pose proof (sub_head _ _ _ _ H) as Hh.
  destruct (counters_bounds _ _ _ HG ltac:(lia)) as (_ & _ & B3). rewrite zsum_cons in B3.
  pose proof (co_readers _ _ _ HG) as Hr. inversion_clear Hr as [|? ? [Hl Hr0] Hrest]. simpl in Hl, Hr0.
  pose proof (counts_sums _ _ Hrest) as (_ & S2 & _).
  pose proof (so_shape _ _ _ _ H) as Hs. inversion_clear Hs as [|? ? Hs0 _]. unfold shape in Hs0. simpl in Hs0.
  destruct st as [|t|t o|o d|o d my|d|s a|a|i stop got|seg i e stop got|b i stop got|got|]; simpl in E;
    try (injection E as <- <-); try discriminate; unfold steps_left in *; simpl in *; try lia.
  - destruct (_ =? 0); simpl; [lia|]. pose proof (want_range k t o (dequeueOptimisticCount p) Hl). lia.
  - pose proof (commit_positive p w _ pub k o d my H ltac:(by left)) as Hd. pose proof (grant_range k d (tailIndex p) o my Hd).
    destruct (_ =? 0); simpl; [lia|]. destruct (_ <? _); simpl; lia.
  - unfold granted at 1 in B3. simpl in B3. rewrite wrapU_id by (unfold inU; lia). lia.
  - destruct (blocks p !! _); injection E as <- <-; simpl; [|lia]. 
    unfold segment_end. pose proof (block_base_bounds i ltac:(lia)). unfold BLOCK_SIZE.
    rewrite wrapU_id by (unfold inU; lia). rewrite circular_64 by lia. destruct (_ <? _) eqn:?; zbool; lia.
  - pose proof (next_segment_left k e stop got ltac:(lia)) as Hnx. unfold steps_left in Hnx. simpl in Hnx.
    destruct (blocks p !! _); [|injection E as <- <-; simpl; lia]. destruct (i =? e) eqn:Eie; zbool.
    + injection E as <- <-. destruct (_ =? BLOCK_SIZE); simpl; lia.
    + destruct (cells p !! i); injection E as <- <-; simpl; [|lia]. rewrite wrapU_id by (unfold inU; lia). lia.
  - pose proof (next_segment_left k i stop got ltac:(lia)) as Hnx. unfold steps_left in Hnx. simpl in Hnx. lia.
Qed.

Definition reader_steps (a : sub_action A) : Z := match a with ReaderStep _ => 1 | _ => 0 end.
Definition granted_steps (a : sub_action A) : Z := match a with StartDequeue k => 7 + 4 * limit k | _ => 0 end.

Lemma run_steps_left l l' q q' :
  queue_ok q (l ++ l') -> sub_run l q = Some q' ->
  zsum reader_steps l + zsum steps_left (readers q') <= zsum steps_left (readers q) + zsum granted_steps l.
Proof.
  revert q. induction l as [|a l IH]; intros q Hq E; simpl in E; [injection E as <-; simpl; lia|].
  destruct (sub_exec a q) as [q1|] eqn:Ea; [|discriminate]. pose proof (sub_exec_ok q a (l ++ l') q1 Hq Ea) as Hq1.
  specialize (IH q1 Hq1 E). rewrite !zsum_cons.
  cut (reader_steps a + zsum steps_left (readers q1) <= zsum steps_left (readers q) + granted_steps a); [lia|]. clear IH E.
  destruct Hq as (H & Hall & Hd & Hk). destruct (fits_nonneg _ Hall) as [D1 D2].
  assert (0 <= pending (writer q)) by (destruct (writer q); simpl; lia).
  destruct a as [x|items|ok|k|i]; simpl in Ea.
  - destruct (writer q); [injection Ea as <-; simpl; lia|discriminate..].
  - destruct (writer q); [injection Ea as <-; simpl; lia|discriminate..].
  - destruct (writer_step _ _ _) as [[[? ?] ?]|]; [|discriminate]. injection Ea as <-. simpl. lia.
  - injection Ea as <-. simpl. unfold steps_left at 1. simpl. lia.
  - destruct (readers q !! i) as [[k st]|] eqn:Er; [|discriminate].
    destruct (reader_step k st (producer q)) as [[st' p]|] eqn:Es; [|discriminate]. injection Ea as <-. simpl.
    pose proof (delete_Permutation (readers q) i (k, st) Er) as Hp.
    pose proof (zsum_perm steps_left _ _ Hp) as Hz. rewrite (insert_perm _ _ _ (k, st') Er). rewrite zsum_cons in *.
    pose proof (reader_step_left _ _ _ _ _ _ _ _ (sub_ok_perm _ _ _ _ _ Hp H) ltac:(lia) Es). lia.
Qed.

(** A reader that is not done can take its next step. *)
Lemma reader_step_total k (st : reader_stage A) (p : Producer A) : st <> RCrash -> (forall got, st <> RDone got) -> is_Some (reader_step k st p).
Proof.
  intros Hc Hd. destruct st; simpl; try done; try (by destruct (Hd got)); try (by eexists).
  - destruct (blocks p !! _); by eexists.
  - destruct (blocks p !! _); [|by eexists]. destruct (_ =? _); [by eexists|]. destruct (cells p !! _); by eexists.
Qed.

(** C27: dequeues are wait-free: a reader that is not finished can always take its next step,
    and of at most [n] elements a dequeue takes no more than 7 + 4n steps, whatever the writer and
    the other readers do in between; all the readers together, the sum of that. *)
Theorem dequeue_wait_free l q :
  fits l -> sub_run l empty_sub = Some q ->
  zsum reader_steps l + zsum steps_left (readers q) <= zsum granted_steps l /\
  forall i r, readers q !! i = Some r ->
    0 <= steps_left r /\
    (finished r \/ exists q' r', sub_exec (ReaderStep i) q = Some q' /\ readers q' !! i = Some r' /\ steps_left r' < steps_left r).
Proof.
  intros Hl E. pose proof (empty_sub_ok l Hl) as H0. rewrite <- (app_nil_r l) in H0.
  pose proof (run_steps_left _ _ _ _ H0 E) as Hs. pose proof (sub_run_ok _ _ _ _ H0 E) as (H & _ & Hd & _).
  split; [exact Hs|]. intros i [k st] Hr. pose proof (list_elem_of_lookup_2 _ _ _ Hr) as Hin.
  destruct (steps_left_nonneg _ _ _ _ _ H Hin) as [Hn Hf]. split; [done|].
  pose proof (proj1 (Forall_forall _ _) (so_shape _ _ _ _ H) _ Hin) as Hsh.
  assert (0 <= pending (writer q)) by (destruct (writer q); simpl; lia). simpl in Hd.
  destruct (reader_step k st (producer q)) as [[st' p']|] eqn:Es; [right|left].
  - eexists _, (k, st'). simpl. rewrite Hr, Es. split; [reflexivity|]. simpl.
    rewrite list_lookup_insert_eq by (by eapply lookup_lt_Some). split; [done|].
    eapply reader_step_left; [eapply sub_ok_perm; [by apply delete_Permutation|exact H]|lia|done].
  - destruct (decide (finished (k, st))) as [|Hnf]; [done|]. exfalso.
    destruct (reader_step_total k st (producer q)) as [x Hx]; [by intros ->|intros got ->; by apply Hnf|]. by rewrite Hx in Es.
Qed.
End Runs.

(** ** Examples *)

(** 33 elements in one enqueue, two blocks; a dequeue of all of them and one of a single element
    both see them there, and the second is too late. *)
Definition contended_run : list (sub_action Z) :=
  [StartEnqueueBulk (Z.of_nat <$> seq 0 33)] ++ replicate 37 (WriterStep true) ++
  [StartDequeue (Bulk 40); StartDequeue One] ++ concat (replicate 3 [ReaderStep 0; ReaderStep 1]) ++
  [ReaderStep 1; ReaderStep 0; ReaderStep 0; ReaderStep 0].
Definition whole_run : list (sub_action Z) := contended_run ++ replicate 40 (ReaderStep 1).

(** An element, two dequeues of which one gets it, and another element. *)
Definition repaid_run : list (sub_action Z) :=
  [StartEnqueue 7] ++ replicate 4 (WriterStep true) ++ [StartDequeue One; StartDequeue One] ++
  concat (replicate 3 [ReaderStep 0; ReaderStep 1]) ++ replicate 6 (ReaderStep 0) ++ replicate 3 (ReaderStep 1) ++
  [StartEnqueue 8] ++ replicate 3 (WriterStep true).

Ltac fits_example := split_and!; [repeat first [constructor | done]|vm_compute; done..].

Lemma implicit_producer_correct_witness :
  exists q, sub_run whole_run empty_sub = Some q /\
    (taken <$> readers q, freed (producer q)) = ([[]; Z.of_nat <$> seq 0 33], [0]) /\
    concat (taken <$> readers q) ++ omap (fun i => cells (producer q) !! i) (unread q) ≡ₚ published q.
Proof.
  destruct (sub_run whole_run empty_sub) as [q|] eqn:E; [|vm_compute in E; discriminate].
  assert ((fun q => (taken <$> readers q, freed (producer q))) <$> sub_run whole_run empty_sub =
    Some ([[]; Z.of_nat <$> seq 0 33], [0])) as Hq by (vm_compute; reflexivity).
  rewrite E in Hq. exists q. split; [reflexivity|]. split; [exact (f_equal (default ([], [])) Hq)|].
  apply (implicit_producer_correct whole_run q ltac:(fits_example) E).
Defined.

Lemma lone_dequeue_gets_witness :
  exists q q' n, sub_run repaid_run empty_sub = Some q /\ dequeueOvercommit (producer q) = 1 /\
    sub_run (StartDequeue One :: replicate n (ReaderStep 0)) q = Some q' /\ head (readers q') = Some (One, RDone [8]).
Proof.
  destruct (sub_run repaid_run empty_sub) as [q|] eqn:E; [|vm_compute in E; discriminate].
  assert ((fun q => (bool_decide (Forall finished (readers q)), dequeueOvercommit (producer q), published q,
    headIndex (producer q))) <$> sub_run repaid_run empty_sub = Some (true, 1, [7; 8], 1)) as Hq by (vm_compute; reflexivity).
  rewrite E in Hq. injection Hq as Hf Ho Hp Hh. exists q.
  destruct (lone_dequeue_gets repaid_run q ltac:(fits_example) E (bool_decide_eq_true_1 _ Hf)) as (n & q' & _ & R1 & R2).
  exists q', n. split_and!; [reflexivity|exact Ho|exact R1|]. rewrite R2, Hp, Hh. reflexivity.
Defined.

Lemma dequeue_wait_free_witness :
  exists q, sub_run contended_run empty_sub = Some q /\
    zsum reader_steps contended_run + zsum steps_left (readers q) <= 7 + 4 * 40 + (7 + 4 * 1) /\
    exists q', sub_exec (ReaderStep 1) q = Some q'.
Proof.
  destruct (sub_run contended_run empty_sub) as [q|] eqn:E; [|vm_compute in E; discriminate].
  assert ((fun q => finished <$> readers q !! 1%nat) <$> sub_run contended_run empty_sub = Some (Some false)) as Hq
    by (vm_compute; reflexivity).
  rewrite E in Hq. injection Hq as Hq. exists q. split; [reflexivity|].
  destruct (dequeue_wait_free contended_run q ltac:(fits_example) E) as [W1 W2]. split; [exact W1|].
  destruct (readers q !! 1%nat) as [r|] eqn:Er; [|discriminate]. injection Hq as Hr.
  destruct (W2 1%nat r Er) as [_ [Hfin|(q' & _ & Hs & _)]]; [rewrite Hr in Hfin; destruct Hfin|]. exists q'. exact Hs.
Defined.
