(* ===== verification/ProducerHash.v ===== *)
(** * The table of producers of the enqueuing threads

    [get_or_add_implicit_producer] and [implicit_producer_thread_exited] of
    [src/include/concurrentqueue.h]: a lock-free hash table from thread ids to producers, with
    open addressing.  When it fills up a larger table is put in front of it, and entries move
    over when their threads come by; a thread that exits leaves its slots for reuse.

    Pointers are places in a list plus one, 0 the null pointer: tables are never freed while
    the queue lives, so they stay where they are.  Each atomic access is a step of one thread.
    The value beside a key is plain memory: its store is a step, its load goes with the load of
    the key, which precedes it without a fence.  [recycle_or_create_producer] is one step, by
    what ConcurrentQueue.v shows of it: an idle producer, a new one, or none.  The mutex that
    [ThreadExitNotifier] holds while a thread runs its listeners is left out, so that exits
    interleave here more freely than they do there. *)

From S2P Require Import Prelude.
From stdpp Require Import base list.
From Stdlib Require Import ZArith Lia.
Local Open Scope Z_scope.

(** ** Thread ids and their hash *)

(** Addresses of a thread-local variable: neither 0 nor 1. *)
Definition invalid_thread_id : Z := 0.
Definition invalid_thread_id2 : Z := 1.

Definition hash_64 (h : Z) : Z :=
  let h := Z.lxor h (Z.shiftr h 33) in
  let h := u64 (h * 0xff51afd7ed558ccd) in
  let h := Z.lxor h (Z.shiftr h 33) in
  let h := u64 (h * 0xc4ceb9fe1a85ec53) in
  Z.lxor h (Z.shiftr h 33).
Definition hash_thread_id (id : Z) : Z := hash_64 id.

(** ** The tables *)

Record ImplicitProducerKVP := mkKVP { key : Z; value : nat }.
Record ImplicitProducerHash := mkHash { entries : list ImplicitProducerKVP; prev : nat }.

Definition capacity (t : ImplicitProducerHash) : Z := Z.of_nat (length (entries t)).

(** A table of [n] free slots. *)
Definition new_hash (n : nat) (prev : nat) : ImplicitProducerHash :=
  mkHash (replicate n (mkKVP invalid_thread_id 0)) prev.

(** [index &= hash->capacity - 1u]. *)
Definition masked (index : Z) (t : ImplicitProducerHash) : Z := Z.land index (capacity t - 1).

(** What the threads share: the tables in the order of their making, the current one, the count,
    the lock of the resize, and for each producer whether it is inactive. *)
Record Shared := mkShared {
  hashes : list ImplicitProducerHash;
  implicitProducerHash : nat;
  implicitProducerHashCount : Z;
  implicitProducerHashResizeInProgress : bool;
  inactive : list bool
}.
Implicit Types (s : Shared) (t : ImplicitProducerHash).

Definition set_hashes l s : Shared :=
  mkShared l (implicitProducerHash s) (implicitProducerHashCount s) (implicitProducerHashResizeInProgress s) (inactive s).
Definition set_main p s : Shared :=
  mkShared (hashes s) p (implicitProducerHashCount s) (implicitProducerHashResizeInProgress s) (inactive s).
Definition set_count n s : Shared :=
  mkShared (hashes s) (implicitProducerHash s) n (implicitProducerHashResizeInProgress s) (inactive s).
Definition set_resize b s : Shared :=
  mkShared (hashes s) (implicitProducerHash s) (implicitProducerHashCount s) b (inactive s).
Definition set_flags l s : Shared :=
  mkShared (hashes s) (implicitProducerHash s) (implicitProducerHashCount s) (implicitProducerHashResizeInProgress s) l.

Definition INITIAL_IMPLICIT_PRODUCER_HASH_SIZE : nat := 32.

(** [populate_initial_implicit_producer_hash]. *)
Definition populate_initial_implicit_producer_hash : Shared :=
  mkShared [new_hash INITIAL_IMPLICIT_PRODUCER_HASH_SIZE 0] 1 0 false [].

Definition set_key (k : Z) (e : ImplicitProducerKVP) : ImplicitProducerKVP := mkKVP k (value e).
Definition set_value (v : nat) (e : ImplicitProducerKVP) : ImplicitProducerKVP := mkKVP (key e) v.

(** Change the slot [x] of the table [i]. *)
Definition update_slot (i x : nat) (f : ImplicitProducerKVP -> ImplicitProducerKVP) s : Shared :=
  set_hashes (alter (fun t => mkHash (alter f x (entries t)) (prev t)) i (hashes s)) s.

(** ** A thread *)

(** Before each of its accesses. *)
Inductive stage :=
| Away                                                   (* in no call *)
| Load                                                   (* implicitProducerHash.load *)
| Search (mainHash hash : nat) (index : Z)               (* key.load *)
| Adopt (mainHash : nat) (index : Z) (v : nat)           (* key.compare_exchange(empty) in the current table *)
| AdoptReusable (mainHash : nat) (index : Z) (v : nat)   (* key.compare_exchange(reusable) *)
| Draw (mainHash : nat)                                  (* implicitProducerHashCount.fetch_add *)
| TestAndSet (mainHash : nat) (newCount : Z)
| Reload (newCount : Z)                                  (* implicitProducerHash.load, locked *)
| Allocate (mainHash : nat) (newCount : Z)
| GiveBack                                               (* no memory: fetch_sub *)
| GiveUp                                                 (* ... clear, return nullptr *)
| Publish (mainHash : nat) (newCount newCapacity : Z)    (* implicitProducerHash.store *)
| Unlock (mainHash : nat) (newCount : Z)                 (* clear *)
| Recycle (mainHash : nat)                               (* recycle_or_create_producer *)
| NoProducer                                             (* none: fetch_sub, return nullptr *)
| ClaimReusable (mainHash : nat) (index : Z) (p : nat)   (* key.compare_exchange(reusable) *)
| Uncount (mainHash : nat) (index : Z) (p : nat)         (* fetch_sub *)
| ClaimEmpty (mainHash : nat) (index : Z) (p : nat)      (* key.compare_exchange(empty) *)
| Store (mainHash : nat) (index : Z) (p : nat)           (* value = p, return p *)
| Wait (newCount : Z)                                    (* implicitProducerHash.load *)
| Got (p : nat)                                          (* the call returned p *)
| Leave                                                  (* ~ThreadExitNotifier, before the next listener *)
| Erase (p hash : nat) (index : Z)                       (* key.compare_exchange(id, invalid_thread_id2) *)
| Retire (p : nat)                                       (* inactive.store *)
| Gone
| Lost.                                                  (* a null pointer or a wild index is followed *)

(** A thread: its id, its stage, and the producers that listen to its exit. *)
Record Thread := mkThread { tid : Z; stage_of : stage; listeners : list nat }.

(** How the calls of the program's environment turn out: an allocation succeeds or not; the
    producer that [recycle_or_create_producer] finds inactive. *)
Inductive luck := Fine | NoMemory | Reused (i : nat).

(** Following a pointer to a table. *)
Definition at_hash (p : nat) s (f : nat -> ImplicitProducerHash -> stage * list nat * Shared) : stage * list nat * Shared :=
  match p with
  | O => (Lost, [], s)
  | S i => match hashes s !! i with Some t => f i t | None => (Lost, [], s) end
  end.
(** ... and to a slot of it; [f] is given the place of the table, the masked index and the slot. *)
Definition at_slot (p : nat) (index : Z) s (f : nat -> Z -> ImplicitProducerKVP -> stage * list nat * Shared)
    : stage * list nat * Shared :=
  at_hash p s (fun i t =>
    match entries t !! Z.to_nat (masked index t) with Some e => f i (masked index t) e | None => (Lost, [], s) end).

(** [for (; hash != nullptr; hash = hash->prev)] in the search: the next table, or the insertion. *)
Definition search_from (mainHash hash : nat) (hashedId : Z) : stage :=
  match hash with O => Draw mainHash | _ => Search mainHash hash hashedId end.
(** ... and in the thread's exit. *)
Definition erase_from (p hash : nat) (hashedId : Z) : stage :=
  match hash with O => Retire p | _ => Erase p hash hashedId end.

(** [if (newCount < (capacity >> 1) + (capacity >> 2))], or wait for the one who allocates. *)
Definition try_insert (mainHash : nat) (newCount : Z) t : stage :=
  if newCount <? Z.shiftr (capacity t) 1 + Z.shiftr (capacity t) 2 then Recycle mainHash else Wait newCount.
(** The head of the insertion's loop. *)
Definition insert_loop (mainHash : nat) (newCount : Z) t : stage :=
  if Z.shiftr (capacity t) 1 <=? newCount then TestAndSet mainHash newCount else try_insert mainHash newCount t.

(** [while (newCount >= (newCapacity >> 1)) newCapacity <<= 1]. *)
Fixpoint grow_capacity (fuel : nat) (newCount newCapacity : Z) : option Z :=
  if Z.shiftr newCapacity 1 <=? newCount
  then match fuel with O => None | S fuel' => grow_capacity fuel' newCount (u64 (Z.shiftl newCapacity 1)) end
  else Some newCapacity.

(** [compare_exchange_strong(expected, desired)] on the key of a slot. *)
Definition cas_key (i : nat) (index : Z) (e : ImplicitProducerKVP) (expected desired : Z) s : option Shared :=
  if key e =? expected then Some (update_slot i (Z.to_nat index) (set_key desired) s) else None.

(** The search through the tables, and the entry it adds to the current one. *)
Definition search_step (id : Z) (st : stage) (ls : list nat) s : option (stage * list nat * Shared) :=
  let hashedId := hash_thread_id id in
  match st with
  | Load => Some (search_from (implicitProducerHash s) (implicitProducerHash s) hashedId, ls, s)
  | Search mainHash hash index =>
      Some (at_slot hash index s (fun i index e =>
        if key e =? id then
          (if negb (hash =? mainHash)%nat then Adopt mainHash hashedId (value e) else Got (value e), ls, s)
        else if key e =? invalid_thread_id then
          at_hash hash s (fun _ t => (search_from mainHash (prev t) hashedId, ls, s))
        else (Search mainHash hash (index + 1), ls, s)))
  | Adopt mainHash index v =>
      Some (at_slot mainHash index s (fun i index e =>
        match cas_key i index e invalid_thread_id id s with
        | Some s' => (Store mainHash index v, ls, s')
        | None => (AdoptReusable mainHash index v, ls, s)
        end))
  | AdoptReusable mainHash index v =>
      Some (at_slot mainHash index s (fun i index e =>
        match cas_key i index e invalid_thread_id2 id s with
        | Some s' => (Store mainHash index v, ls, s')
        | None => (Adopt mainHash (index + 1) v, ls, s)
        end))
  | _ => None
  end.

(** The larger table, made under the lock. *)
Definition resize_step (st : stage) (ok : luck) (ls : list nat) s : option (stage * list nat * Shared) :=
  match st with
  | TestAndSet mainHash newCount =>
      if implicitProducerHashResizeInProgress s
      then Some (at_hash mainHash s (fun _ t => (try_insert mainHash newCount t, ls, s)))
      else Some (Reload newCount, ls, set_resize true s)
  | Reload newCount =>
      let mainHash := implicitProducerHash s in
      Some (at_hash mainHash s (fun _ t =>
        (if Z.shiftr (capacity t) 1 <=? newCount then Allocate mainHash newCount else Unlock mainHash newCount, ls, s)))
  | Allocate mainHash newCount =>
      match ok with
      | NoMemory => Some (GiveBack, ls, s)
      | _ =>
          match hashes s !! pred mainHash with
          | Some t =>
              match grow_capacity 64 newCount (u64 (Z.shiftl (capacity t) 1)) with
              | Some newCapacity => Some (Publish mainHash newCount newCapacity, ls, s)
              | None => None
              end
          | None => Some (Lost, [], s)
          end
      end
  | GiveBack => Some (GiveUp, ls, set_count (u64 (implicitProducerHashCount s - 1)) s)
  | GiveUp => Some (Got 0, ls, set_resize false s)
  | Publish mainHash newCount newCapacity =>
      let newHash := S (length (hashes s)) in
      Some (Unlock newHash newCount, ls, set_main newHash (set_hashes (hashes s ++ [new_hash (Z.to_nat newCapacity) mainHash]) s))
  | Unlock mainHash newCount =>
      Some (at_hash mainHash s (fun _ t => (try_insert mainHash newCount t, ls, set_resize false s)))
  | _ => None
  end.

(** The insertion of a thread that has no producer. *)
Definition insert_step (id : Z) (st : stage) (ok : luck) (ls : list nat) s : option (stage * list nat * Shared) :=
  let hashedId := hash_thread_id id in
  match st with
  | Draw mainHash =>
      let newCount := u64 (1 + implicitProducerHashCount s) in
      let s' := set_count (u64 (implicitProducerHashCount s + 1)) s in
      Some (at_hash mainHash s' (fun _ t => (insert_loop mainHash newCount t, ls, s')))
  | Wait newCount =>
      let mainHash := implicitProducerHash s in
      Some (at_hash mainHash s (fun _ t => (insert_loop mainHash newCount t, ls, s)))
  | Recycle mainHash =>
      match ok with
      | NoMemory => Some (NoProducer, ls, s)
      | Reused i =>
          match inactive s !! i with
          | Some true => Some (ClaimReusable mainHash hashedId (S i), S i :: ls, set_flags (<[i := false]> (inactive s)) s)
          | _ => None
          end
      | Fine =>
          let p := S (length (inactive s)) in
          Some (ClaimReusable mainHash hashedId p, p :: ls, set_flags (inactive s ++ [false]) s)
      end
  | NoProducer => Some (Got 0, ls, set_count (u64 (implicitProducerHashCount s - 1)) s)
  | ClaimReusable mainHash index p =>
      Some (at_slot mainHash index s (fun i index e =>
        match cas_key i index e invalid_thread_id2 id s with
        | Some s' => (Uncount mainHash index p, ls, s')
        | None => (ClaimEmpty mainHash index p, ls, s)
        end))
  | Uncount mainHash index p => Some (Store mainHash index p, ls, set_count (u64 (implicitProducerHashCount s - 1)) s)
  | ClaimEmpty mainHash index p =>
      Some (at_slot mainHash index s (fun i index e =>
        match cas_key i index e invalid_thread_id id s with
        | Some s' => (Store mainHash index p, ls, s')
        | None => (ClaimReusable mainHash (index + 1) p, ls, s)
        end))
  | Store mainHash index p =>
      Some (at_slot mainHash index s (fun i index e => (Got p, ls, update_slot i (Z.to_nat index) (set_value p) s)))
  | _ => None
  end.

(** [implicit_producer_thread_exited], for each listener. *)
Definition exit_step (id : Z) (st : stage) (ls : list nat) s : option (stage * list nat * Shared) :=
  let hashedId := hash_thread_id id in
  match st with
  | Leave =>
      match ls with
      | [] => Some (Gone, [], s)
      | p :: ls' => Some (erase_from p (implicitProducerHash s) hashedId, ls, s)
      end
  | Erase p hash index =>
      Some (at_slot hash index s (fun i index e =>
        match cas_key i index e id invalid_thread_id2 s with
        | Some s' => at_hash hash s (fun _ t => (erase_from p (prev t) hashedId, ls, s'))
        | None =>
            if key e =? invalid_thread_id
            then at_hash hash s (fun _ t => (erase_from p (prev t) hashedId, ls, s))
            else (Erase p hash (index + 1), ls, s)
        end))
  | Retire p => Some (Leave, tail ls, set_flags (<[pred p := true]> (inactive s)) s)
  | _ => None
  end.

Definition thread_step (id : Z) (st : stage) (ok : luck) (ls : list nat) s : option (stage * list nat * Shared) :=
  match st with
  | Load | Search _ _ _ | Adopt _ _ _ | AdoptReusable _ _ _ => search_step id st ls s
  | TestAndSet _ _ | Reload _ | Allocate _ _ | GiveBack | GiveUp | Publish _ _ _ | Unlock _ _ => resize_step st ok ls s
  | Draw _ | Wait _ | Recycle _ | NoProducer | ClaimReusable _ _ _ | Uncount _ _ _ | ClaimEmpty _ _ _ | Store _ _ _ =>
      insert_step id st ok ls s
  | Leave | Erase _ _ _ | Retire _ => exit_step id st ls s
  | Away | Got _ | Gone | Lost => None
  end.

(** ** Interleavings *)

Record World := mkWorld { shared : Shared; threads : list Thread }.
Implicit Types (w : World).

Definition empty_world : World := mkWorld populate_initial_implicit_producer_hash [].

Inductive hash_action :=
| Arrive (id : Z)               (* a thread starts *)
| GetOrAdd (j : nat)            (* it calls get_or_add_implicit_producer *)
| Depart (j : nat)              (* it exits *)
| Advance (j : nat) (ok : luck).

(** The ids of the threads that have not ended. *)
Definition living (l : list Thread) : list Z :=
  omap (fun th => match stage_of th with Gone => None | _ => Some (tid th) end) l.

Definition between_calls (st : stage) : bool := match st with Away | Got _ => true | _ => false end.

(** The address of a thread-local variable is that of no other thread's. *)
Definition valid_id (id : Z) : bool := (invalid_thread_id2 <? id) && (id <? 2 ^ 64).

Definition hash_exec (a : hash_action) w : option World :=
  match a with
  | Arrive id =>
      if valid_id id && bool_decide (id ∉ living (threads w))
      then Some (mkWorld (shared w) (threads w ++ [mkThread id Away []])) else None
  | GetOrAdd j =>
      match threads w !! j with
      | Some th => if between_calls (stage_of th)
                   then Some (mkWorld (shared w) (<[j := mkThread (tid th) Load (listeners th)]> (threads w))) else None
      | None => None
      end
  | Depart j =>
      match threads w !! j with
      | Some th => if between_calls (stage_of th)
                   then Some (mkWorld (shared w) (<[j := mkThread (tid th) Leave (listeners th)]> (threads w))) else None
      | None => None
      end
  | Advance j ok =>
      match threads w !! j with
      | Some th =>
          match thread_step (tid th) (stage_of th) ok (listeners th) (shared w) with
          | Some (st, ls, s') => Some (mkWorld s' (<[j := mkThread (tid th) st ls]> (threads w)))
          | None => None
          end
      | None => None
      end
  end.

Fixpoint hash_run (l : list hash_action) w : option World :=
  match l with
  | [] => Some w
  | a :: l' => match hash_exec a w with Some w' => hash_run l' w' | None => None end
  end.
