(* ===== verification/ProducerHashProofs.v ===== *)
(** * Probing the table of producers

    What a thread may rely on while others change the table: a key that is not free never
    becomes free again, and the entries of a thread are changed by that thread alone.  So the
    slots a search has passed stay passed ([scanned]), an entry stays within the reach of a
    search that starts at its hash ([reached]), and a free slot ends the search rightly. *)

From S2P Require Import Prelude ProducerHash.
From stdpp Require Import base list.
From Stdlib Require Import ZArith Lia.
Local Open Scope Z_scope.
Implicit Types (s : Shared) (t : ImplicitProducerHash).

(** ** Slots *)

Definition hash_ok (t : ImplicitProducerHash) : Prop := exists k, 0 <= k /\ capacity t = 2 ^ k.

Definition slot (t : ImplicitProducerHash) (index : Z) : nat := Z.to_nat (masked index t).
(** The [c]-th slot of a search for [id]. *)
Definition nth_slot (t : ImplicitProducerHash) (id : Z) (c : nat) : nat := slot t (hash_thread_id id + Z.of_nat c).

Lemma masked_mod t index : hash_ok t -> masked index t = index mod capacity t.
Proof.
  intros (k & Hk & Hc). unfold masked. by rewrite Hc, Z.sub_1_r, <- Z.ones_equiv, Z.land_ones.
Qed.

Lemma capacity_pos t : hash_ok t -> 0 < capacity t.
Proof. intros (k & Hk & ->). by apply Z.pow_pos_nonneg. Qed.

Lemma masked_range t index : hash_ok t -> 0 <= masked index t < capacity t.
Proof. intros Ht. rewrite masked_mod by done. apply Z.mod_pos_bound. by apply capacity_pos. Qed.

Lemma masked_twice t index : hash_ok t -> masked (masked index t) t = masked index t.
Proof. intros Ht. rewrite (masked_mod t (masked index t)) by done. apply Z.mod_small. by apply masked_range. Qed.

Lemma masked_next t index index' : hash_ok t -> masked index t = masked index' t -> masked (index + 1) t = masked (index' + 1) t.
Proof.
  intros Ht. rewrite !masked_mod by done. intros E. rewrite <- (Zplus_mod_idemp_l index), <- (Zplus_mod_idemp_l index'). by rewrite E.
Qed.

Lemma masked_next_masked t index : hash_ok t -> masked (masked index t + 1) t = masked (index + 1) t.
Proof. intros Ht. by apply masked_next, masked_twice. Qed.

Lemma slot_masked t index : hash_ok t -> slot t (masked index t) = slot t index.
Proof. intros Ht. unfold slot. by rewrite masked_twice. Qed.

Lemma slot_lookup t index : hash_ok t -> is_Some (entries t !! slot t index).
Proof.
  intros Ht. apply lookup_lt_is_Some. pose proof (masked_range t index Ht). unfold slot, capacity in *. lia.
Qed.

(** ** Passed slots *)

Definition key_at t (x : nat) (P : Z -> Prop) : Prop := exists e, entries t !! x = Some e /\ P (key e).

(** A search for [id] that stands before [index] has found [P] in every slot before. *)
Definition scanned (P : Z -> Prop) t (id index : Z) : Prop :=
  exists d, masked index t = masked (hash_thread_id id + Z.of_nat d) t /\
    forall c, (c < d)%nat -> key_at t (nth_slot t id c) P.
(** ... and a search for [id] gets to [x] before it gets to a free slot. *)
Definition reached t (id : Z) (x : nat) : Prop :=
  exists d, nth_slot t id d = x /\ forall c, (c < d)%nat -> key_at t (nth_slot t id c) (fun k => k <> 0).

Lemma scanned_start P t id : scanned P t id (hash_thread_id id).
Proof. exists 0%nat. split; [by rewrite Z.add_0_r|]. intros c Hc. lia. Qed.

Lemma scanned_masked P t id index : hash_ok t -> scanned P t id index -> scanned P t id (masked index t).
Proof. intros Ht (d & E & H). exists d. by rewrite masked_twice. Qed.

Lemma scanned_next P t id index e :
  hash_ok t -> scanned P t id index -> entries t !! slot t index = Some e -> P (key e) -> scanned P t id (masked index t + 1).
Proof.
  intros Ht (d & E & H) He HP. exists (S d). split.
  - rewrite masked_next_masked by done. rewrite (masked_next t _ _ Ht E). f_equal. lia.
  - intros c Hc. destruct (decide (c = d)) as [->|]; [|apply H; lia].
    exists e. split; [|done]. unfold nth_slot, slot. by rewrite <- E.
Qed.

Lemma scanned_weaken (P Q : Z -> Prop) t id index : (forall k, P k -> Q k) -> scanned P t id index -> scanned Q t id index.
Proof. intros HPQ (d & E & H). exists d. split; [done|]. intros c (e & He & HP)%H. exists e. auto. Qed.

Lemma scanned_reached t id index : scanned (fun k => k <> 0) t id index -> reached t id (slot t index).
Proof. intros (d & E & H). exists d. split; [|done]. unfold nth_slot, slot. by rewrite E. Qed.

(** A search that comes to a free slot without having seen [id] has not passed it. *)
Lemma scanned_free t id index x e :
  scanned (fun k => k <> 0 /\ k <> id) t id index -> entries t !! slot t index = Some e -> key e = 0 ->
  reached t id x -> key_at t x (fun k => k = id) -> id <> 0 -> False.
Proof.
  intros (d & E & H) He H0 (d' & <- & H') (e' & He' & Hid) Hne.
  assert (nth_slot t id d = slot t index) as Es by (unfold nth_slot, slot; by rewrite E).
  destruct (lt_eq_lt_dec d' d) as [[Hlt| ->]|Hlt].
  - destruct (H d' Hlt) as (e2 & He2 & _ & Hn). congruence.
  - rewrite Es in He'. congruence.
  - destruct (H' d Hlt) as (e2 & He2 & Hn). rewrite Es in He2. congruence.
Qed.

(** ** What others leave alone *)

(** What a thread [id] sees of the steps of others in one table. *)
Record unmoved (id : Z) t t' : Prop := {
  um_length : length (entries t') = length (entries t);
  um_prev : prev t' = prev t;
  um_slot x e : entries t !! x = Some e ->
    exists e', entries t' !! x = Some e' /\ (key e <> 0 -> key e' <> 0) /\ (key e = id \/ key e' = id -> e' = e)
}.

Definition absent t (id : Z) : Prop := forall x e, entries t !! x = Some e -> key e <> id.

(** ... and in the list of tables. *)
Record evolves (id : Z) s s' : Prop := {
  ev_old i t : hashes s !! i = Some t -> exists t', hashes s' !! i = Some t' /\ unmoved id t t';
  ev_new i t' : hashes s' !! i = Some t' -> (length (hashes s) <= i)%nat -> absent t' id
}.

Lemma unmoved_refl id t : unmoved id t t.
Proof. split; [done..|]. intros x e He. by exists e. Qed.

Lemma evolves_refl id s : evolves id s s.
Proof. split; [|intros i t' H%lookup_lt_Some ?; lia]. intros i t Ht. exists t. split; [done|apply unmoved_refl]. Qed.

Section Unmoved.
Context (id : Z) t t' (U : unmoved id t t').

Lemma um_capacity : capacity t' = capacity t.
Proof. unfold capacity. by rewrite (um_length _ _ _ U). Qed.

Lemma um_ok : hash_ok t -> hash_ok t'.
Proof. intros (k & Hk & E). exists k. by rewrite um_capacity. Qed.

Lemma um_masked index : masked index t' = masked index t.
Proof. unfold masked. by rewrite um_capacity. Qed.

Lemma um_nth id' c : nth_slot t' id' c = nth_slot t id' c.
Proof. unfold nth_slot, slot. by rewrite um_masked. Qed.

(** The slots of the new table, from those of the old. *)
Lemma um_back x e' : entries t' !! x = Some e' ->
  exists e, entries t !! x = Some e /\ (key e <> 0 -> key e' <> 0) /\ (key e = id \/ key e' = id -> e' = e).
Proof.
  intros He'. assert (is_Some (entries t !! x)) as [e He].
  { apply lookup_lt_is_Some. rewrite <- (um_length _ _ _ U). by eapply lookup_lt_Some. }
  exists e. split; [done|]. destruct (um_slot _ _ _ U x e He) as (e2 & He2 & H). by simplify_eq.
Qed.

Lemma um_key_at x (P : Z -> Prop) :
  (P = (fun k => k <> 0) \/ P = (fun k => k <> 0 /\ k <> id)) -> key_at t x P -> key_at t' x P.
Proof.
  intros HP (e & He & H). destruct (um_slot _ _ _ U x e He) as (e' & He' & H0 & Hid). exists e'. split; [done|].
  destruct HP as [-> | ->]; [by apply H0|]. destruct H as [Hn Hi]. split; [by apply H0|].
  intros E. rewrite (Hid (or_intror E)) in E. done.
Qed.

Lemma um_scanned P index :
  (P = (fun k => k <> 0) \/ P = (fun k => k <> 0 /\ k <> id)) -> scanned P t id index -> scanned P t' id index.
Proof.
  intros HP (d & E & H). exists d. rewrite !um_masked. split; [done|]. intros c Hc. rewrite um_nth.
  by apply um_key_at, H.
Qed.

Lemma um_reached x : reached t id x -> reached t' id x.
Proof.
  intros (d & E & H). exists d. rewrite um_nth. split; [done|]. intros c Hc. rewrite um_nth. apply um_key_at; auto.
Qed.

Lemma um_absent : absent t id -> absent t' id.
Proof.
  intros Ha x e' He' E. destruct (um_back x e' He') as (e & He & _ & Hid). rewrite (Hid (or_intror E)) in E.
  by apply (Ha x e He).
Qed.
End Unmoved.
