(* ===== verification/ProducerHashInvariant.v ===== *)
(** * What each thread knows of the table of producers

    [thread_ok] says, for every stage of a thread, what it may count on; it speaks of the
    entries with the thread's own id only.  [thread_step_ok] is the rely/guarantee argument: a
    step keeps what its thread knows, and moves nothing another thread relies on ([evolves]). *)

From S2P Require Import Prelude ProducerHash ProducerHashProofs.
From stdpp Require Import base list.
From Stdlib Require Import ZArith Lia.
Local Open Scope Z_scope.
Implicit Types (s : Shared) (t : ImplicitProducerHash) (e : ImplicitProducerKVP).

(** ** The shared state *)

Definition look s (p : nat) : option ImplicitProducerHash := match p with O => None | S i => hashes s !! i end.

(** The tables are chained in the order of their making, the last is the current one, and their
    capacities are powers of two. *)
Record shape s : Prop := {
  sh_table i t : hashes s !! i = Some t -> prev t = i /\ hash_ok t;
  sh_main : implicitProducerHash s = length (hashes s);
  sh_some : (0 < length (hashes s))%nat
}.

Definition pow2 (n : Z) : Prop := exists k, 0 <= k /\ n = 2 ^ k.

Lemma double_pow2 c : pow2 c -> pow2 (u64 (Z.shiftl c 1)) \/ u64 (Z.shiftl c 1) = 0.
Proof.
  intros (k & Hk & ->). rewrite Z.shiftl_mul_pow2, <- Z.pow_add_r by lia. unfold wrapU.
  destruct (decide (k + 1 < 64)).
  - left. exists (k + 1). split; [lia|]. apply Z.mod_small. split; [apply Z.pow_nonneg; lia|]. by apply Z.pow_lt_mono_r; lia.
  - right. replace (k + 1) with ((k + 1 - 64) + 64) by lia. rewrite Z.pow_add_r by lia. apply Z.mod_mul. lia.
Qed.

Lemma grow_zero fuel n : 0 <= n -> grow_capacity fuel n 0 = None.
Proof.
  intros Hn. induction fuel as [|fuel IH]; simpl; rewrite Z.shiftr_0_l.
  - by replace (0 <=? n) with true by lia.
  - replace (0 <=? n) with true by lia. exact IH.
Qed.

Lemma grow_pow2 fuel n c c' : 0 <= n -> pow2 c \/ c = 0 -> grow_capacity fuel n c = Some c' -> pow2 c'.
Proof.
  intros Hn. revert c. induction fuel as [|fuel IH]; intros c [Hc| ->]; try (by rewrite grow_zero); cbn [grow_capacity];
    destruct (_ <=? n); try done; try (by intros [= <-]).
  apply IH. by apply double_pow2.
Qed.

Lemma new_hash_ok c p : pow2 c -> hash_ok (new_hash (Z.to_nat c) p).
Proof.
  intros (k & Hk & ->). exists k. split; [done|]. unfold capacity, new_hash. simpl. rewrite length_replicate.
  rewrite Z2Nat.id; [done|]. apply Z.pow_nonneg. lia.
Qed.

Lemma new_hash_absent n p id : id <> 0 -> absent (new_hash n p) id.
Proof. intros Hid x e He. apply lookup_replicate in He as [-> _]. simpl. unfold invalid_thread_id. congruence. Qed.

(** ** The entries of one id *)

(** Every entry of [id] can be found, is alone in its table and has the value [p], but for the
    slot [ex], whose value is still to be stored. *)
Definition keeps s (id : Z) (p : nat) (ex : option (nat * nat)) : Prop :=
  forall i t x e, hashes s !! i = Some t -> entries t !! x = Some e -> key e = id ->
    reached t id x /\ (forall y e', entries t !! y = Some e' -> key e' = id -> y = x) /\
    (value e = p \/ ex = Some (i, x)).
(** No table from [lo] on has an entry of [id]; some table has. *)
Definition none s (id : Z) (lo : nat) : Prop := forall i t, (lo <= i)%nat -> hashes s !! i = Some t -> absent t id.
Definition present s (id : Z) : Prop := exists i t x, hashes s !! i = Some t /\ key_at t x (fun k => k = id).

Definition resting s (id : Z) (ls : list nat) : Prop :=
  match ls with
  | [] => none s id 0
  | [p] => p <> 0%nat /\ keeps s id p None /\ present s id
  | _ => False
  end.

Definition nonfree (k : Z) : Prop := k <> 0.
Definition passed (id k : Z) : Prop := k <> 0 /\ k <> id.
Definition searching (P : Z -> Prop) s (id : Z) (m : nat) (index : Z) : Prop :=
  exists t, look s m = Some t /\ scanned P t id index.

(** The thread has put its key at [index], and not yet the value. *)
Definition claimed s (id : Z) (m : nat) (index : Z) (p : nat) : Prop :=
  exists i t, m = S i /\ hashes s !! i = Some t /\ key_at t (slot t index) (fun k => k = id) /\
    keeps s id p (Some (i, slot t index)).

Definition thread_ok s (id : Z) (st : stage) (ls : list nat) : Prop :=
  match st with
  | Away | Load | Leave => resting s id ls
  | Got p => resting s id ls /\ ls = match p with O => [] | _ => [p] end
  | Search m h index => resting s id ls /\ is_Some (look s m) /\ (h <= m)%nat /\ none s id h /\ searching (passed id) s id h index
  | Adopt m index v => ls = [v] /\ v <> 0%nat /\ keeps s id v None /\ none s id (pred m) /\ searching nonfree s id m index
  | AdoptReusable m index v =>
      ls = [v] /\ v <> 0%nat /\ keeps s id v None /\ none s id (pred m) /\ searching nonfree s id m index /\
      exists t, look s m = Some t /\ key_at t (slot t index) nonfree
  | Draw m | Recycle m | Unlock m _ | TestAndSet m _ => ls = [] /\ none s id 0 /\ is_Some (look s m)
  | Allocate m _ => ls = [] /\ none s id 0 /\ is_Some (look s m)
  | Publish m _ c => ls = [] /\ none s id 0 /\ is_Some (look s m) /\ pow2 c
  | Reload _ | Wait _ | GiveBack | GiveUp | NoProducer => ls = [] /\ none s id 0
  | ClaimReusable m index p | ClaimEmpty m index p => ls = [p] /\ p <> 0%nat /\ none s id 0 /\ searching nonfree s id m index
  | Uncount m index p | Store m index p => ls = [p] /\ p <> 0%nat /\ claimed s id m index p
  | Erase p h index => ls = [p] /\ p <> 0%nat /\ keeps s id p None /\ none s id h /\ searching (passed id) s id h index
  | Retire p => ls = [p] /\ p <> 0%nat /\ none s id 0
  | Gone => ls = []
  | Lost => False
  end.

(** The counts drawn are not negative. *)
Definition count_ok (st : stage) : Prop :=
  match st with TestAndSet _ n | Reload n | Allocate _ n | Publish _ n _ | Unlock _ n | Wait n => 0 <= n | _ => True end.

(** ** The steps of others *)

Section Stable.
Context (id : Z) s s' (E : evolves id s s').

Lemma look_stable p t : look s p = Some t -> exists t', look s' p = Some t' /\ unmoved id t t'.
Proof. destruct p as [|i]; [done|]. apply (ev_old _ _ _ E). Qed.

Lemma look_some_stable p : is_Some (look s p) -> is_Some (look s' p).
Proof. intros [t (t' & Ht' & _)%look_stable]. eauto. Qed.

(** A table of [s'] that has [id] is an old one. *)
Lemma old_table i t' x : hashes s' !! i = Some t' -> key_at t' x (fun k => k = id) ->
  exists t, hashes s !! i = Some t /\ unmoved id t t'.
Proof.
  intros Ht' (e & He & Hid). destruct (hashes s !! i) as [t|] eqn:Ht.
  - destruct (ev_old _ _ _ E i t Ht) as (t2 & Ht2 & U). simplify_eq. eauto.
  - apply lookup_ge_None in Ht. by destruct (ev_new _ _ _ E i t' Ht' Ht x e He).
Qed.

Lemma none_stable lo : none s id lo -> none s' id lo.
Proof.
  intros H i t' Hlo Ht' x e He Hk.
  destruct (old_table i t' x Ht' ltac:(by exists e)) as (t & Ht & U).
  by apply (um_absent _ _ _ U (H i t Hlo Ht) x e He).
Qed.

Lemma present_stable : present s id -> present s' id.
Proof.
  intros (i & t & x & Ht & e & He & Hid). destruct (ev_old _ _ _ E i t Ht) as (t' & Ht' & U).
  exists i, t', x. split; [done|]. destruct (um_slot _ _ _ U x e He) as (e' & He' & _ & Hsame).
  exists e'. split; [done|]. by rewrite (Hsame (or_introl Hid)).
Qed.

Lemma keeps_stable p ex : keeps s id p ex -> keeps s' id p ex.
Proof.
  intros H i t' x e' Ht' He' Hid. destruct (old_table i t' x Ht' ltac:(by exists e')) as (t & Ht & U).
  destruct (um_back _ _ _ U x e' He') as (e & He & _ & Hsame). pose proof (Hsame (or_intror Hid)) as ->.
  destruct (H i t x e Ht He Hid) as (H1 & H2 & H3). split_and!; [by eapply um_reached| |done].
  intros y e2 Hy Hk. destruct (um_back _ _ _ U y e2 Hy) as (e3 & He3 & _ & Hs3). pose proof (Hs3 (or_intror Hk)) as ->.
  by eapply H2.
Qed.

Lemma searching_stable P m index : P = nonfree \/ P = passed id -> searching P s id m index -> searching P s' id m index.
Proof.
  intros HP (t & Ht & Hs). destruct (look_stable m t Ht) as (t' & Ht' & U). exists t'. split; [done|].
  eapply um_scanned; [exact U|exact HP|exact Hs].
Qed.

Lemma resting_stable ls : resting s id ls -> resting s' id ls.
Proof.
  destruct ls as [|p [|]]; simpl; [apply none_stable| |done].
  intros (H1 & H2 & H3). split_and!; [done|by apply keeps_stable|by apply present_stable].
Qed.

Lemma claimed_stable m index p : claimed s id m index p -> claimed s' id m index p.
Proof.
  intros (i & t & -> & Ht & (e & He & Hid) & Hk).
  destruct (ev_old _ _ _ E i t Ht) as (t' & Ht' & U). exists i, t'. unfold slot. rewrite (um_masked _ _ _ U).
  split_and!; [done..| |by apply keeps_stable].
  destruct (um_slot _ _ _ U _ e He) as (e' & He' & _ & Hsame). exists e'. split; [done|].
  by rewrite (Hsame (or_introl Hid)).
Qed.

Lemma thread_stable st ls : thread_ok s id st ls -> thread_ok s' id st ls.
Proof.
  pose proof none_stable. pose proof look_some_stable. pose proof keeps_stable. pose proof searching_stable. pose proof resting_stable.
  pose proof claimed_stable.
  destruct st; simpl; try (intuition eauto; fail).
  - intros (-> & Hv & Hk & Hn & Hs & t & Ht & e & He & Hne). split_and!; auto.
    destruct (look_stable _ t Ht) as (t' & Ht' & U). exists t'. split; [done|].
    unfold slot. rewrite (um_masked _ _ _ U). apply (um_key_at _ _ _ U); [auto|]. by exists e.
Qed.
End Stable.

(** ** A step on one slot *)

Definition updated (f : ImplicitProducerKVP -> ImplicitProducerKVP) (x : nat) t : ImplicitProducerHash :=
  mkHash (alter f x (entries t)) (prev t).

Section Update.
Context s (i x : nat) (f : ImplicitProducerKVP -> ImplicitProducerKVP) t e.
Context (Hs : shape s) (Ht : hashes s !! i = Some t) (He : entries t !! x = Some e).
Local Notation s' := (update_slot i x f s).
Local Notation t' := (updated f x t).

Lemma upd_same : hashes s' !! i = Some t'.
Proof. unfold update_slot. simpl. by rewrite list_lookup_alter_eq, Ht. Qed.

Lemma upd_other i' : i' <> i -> hashes s' !! i' = hashes s !! i'.
Proof. intros Hne. unfold update_slot. simpl. by rewrite list_lookup_alter_ne. Qed.

Lemma upd_length : length (hashes s') = length (hashes s).
Proof. unfold update_slot. simpl. by rewrite length_alter. Qed.

Lemma upd_entry : entries t' !! x = Some (f e).
Proof. unfold updated. simpl. by rewrite list_lookup_alter_eq, He. Qed.

Lemma upd_entry_ne y : y <> x -> entries t' !! y = entries t !! y.
Proof. intros Hne. unfold updated. simpl. by rewrite list_lookup_alter_ne. Qed.

Lemma upd_masked index : masked index t' = masked index t.
Proof. unfold masked, capacity, updated. simpl. by rewrite length_alter. Qed.

(** The tables after the update. *)
Lemma upd_lookup i' t2 : hashes s' !! i' = Some t2 -> i' = i /\ t2 = t' \/ i' <> i /\ hashes s !! i' = Some t2.
Proof.
  destruct (decide (i' = i)) as [->|Hne]; [rewrite upd_same|rewrite upd_other by done]; [intros [= <-]|]; auto.
Qed.

Lemma upd_shape : shape s'.
Proof.
  split.
  - intros i' t2 [[-> ->]|[_ H]]%upd_lookup; [|by apply Hs]. destruct (sh_table s Hs i t Ht) as [H1 (k & Hk & H2)].
    split; [done|]. exists k. split; [done|]. unfold capacity, updated. simpl. by rewrite length_alter.
  - rewrite upd_length. apply Hs.
  - rewrite upd_length. apply Hs.
Qed.

Lemma upd_evolves id :
  (key e <> 0 -> key (f e) <> 0) -> key e <> id -> key (f e) <> id -> evolves id s s'.
Proof.
  intros H0 H1 H2. split; [|intros i' t2 H%lookup_lt_Some; rewrite upd_length in H; lia].
  intros i' t2 Ht2. destruct (decide (i' = i)) as [->|Hne].
  - simplify_eq. exists t'. split; [apply upd_same|]. split; [unfold updated; simpl; by rewrite length_alter|done|].
    intros y e2 He2. destruct (decide (y = x)) as [->|Hy].
    + simplify_eq. exists (f e). split; [apply upd_entry|]. tauto.
    + exists e2. rewrite upd_entry_ne by done. tauto.
  - exists t2. rewrite upd_other by done. split; [done|apply unmoved_refl].
Qed.

(** The slots that are not free stay so. *)
Lemma upd_reached id y : (key e <> 0 -> key (f e) <> 0) -> reached t id y -> reached t' id y.
Proof.
  intros H0 (d & E & H). exists d. unfold nth_slot, slot in *. rewrite upd_masked. split; [done|].
  intros c Hc. rewrite upd_masked. destruct (H c Hc) as (e2 & He2 & Hn).
  destruct (decide (Z.to_nat (masked (hash_thread_id id + Z.of_nat c) t) = x)) as [Ex|Hne].
  - rewrite Ex in He2 |- *. assert (e2 = e) as -> by congruence. exists (f e). split; [apply upd_entry|auto].
  - exists e2. by rewrite upd_entry_ne.
Qed.
End Update.

(** Putting the key into the slot a search for a place has come to. *)
Lemma claim_claimed s i t index e id p :
  shape s -> hashes s !! i = Some t -> entries t !! slot t index = Some e -> scanned nonfree t id index ->
  keeps s id p None -> absent t id -> id <> 0 -> claimed (update_slot i (slot t index) (set_key id) s) id (S i) index p.
Proof.
  intros Hs Ht He Hscan Hk Ha Hid.
  exists i, (updated (set_key id) (slot t index) t).
  assert (slot (updated (set_key id) (slot t index) t) index = slot t index) as ->
    by (unfold slot; by rewrite upd_masked).
  split_and!; [done|by apply upd_same|exists (set_key id e); split; [by apply upd_entry|done]|].
  intros i' t2 y e2 Ht2 He2 Hk2. apply (upd_lookup _ _ _ _ _ Ht) in Ht2 as [[-> ->]|[Hne Ht2]].
  - destruct (decide (y = slot t index)) as [->|Hy].
    + split_and!; [|intros z e3 He3 Hk3|by right].
      * eapply upd_reached; [exact He|simpl; auto|]. by apply scanned_reached.
      * destruct (decide (z = slot t index)) as [|Hz]; [done|]. rewrite upd_entry_ne in He3 by done. by destruct (Ha z e3 He3).
    + rewrite upd_entry_ne in He2 by done. by destruct (Ha y e2 He2).
  - destruct (Hk i' t2 y e2 Ht2 He2 Hk2) as (H1 & H2 & [H3|H3]); [|done]. auto.
Qed.

Lemma none_keeps s id p ex : none s id 0 -> keeps s id p ex.
Proof. intros H i t x e Ht He Hid. by destruct (H i t ltac:(lia) Ht x e He). Qed.

(** Storing the value ends the claim. *)
Lemma store_resting s id i t index p :
  hashes s !! i = Some t -> key_at t (slot t index) (fun k => k = id) -> keeps s id p (Some (i, slot t index)) -> p <> 0%nat ->
  resting (update_slot i (slot t index) (set_value p) s) id [p].
Proof.
  intros Ht (e & He & Hid) Hk Hp. destruct (Hk i t (slot t index) e Ht He Hid) as (Hreach & Huniq & _). split_and!; [done| |].
  - intros i' t2 y e2 Ht2 He2 Hk2. apply (upd_lookup _ _ _ _ _ Ht) in Ht2 as [[-> ->]|[Hne Ht2]].
    + assert (forall z e3, entries (updated (set_value p) (slot t index) t) !! z = Some e3 ->
        key e3 = id -> z = slot t index) as Honly.
      { intros z e3 He3 Hk3. destruct (decide (z = slot t index)) as [|Hz]; [done|]. rewrite upd_entry_ne in He3 by done.
        by apply Huniq with e3. }
      pose proof (Honly y e2 He2 Hk2) as ->. rewrite (upd_entry _ _ _ _ He) in He2. injection He2 as <-.
      split_and!; [|intros z e3 He3 Hk3; by eapply Honly|by left].
      eapply upd_reached; [exact He|simpl; auto|done].
    + destruct (Hk i' t2 y e2 Ht2 He2 Hk2) as (H1 & H2 & [H3|[= E _]]); [auto|congruence].
  - exists i, (updated (set_value p) (slot t index) t), (slot t index).
    split; [by apply upd_same|]. exists (set_value p e). split; [by apply upd_entry|done].
Qed.

(** Erasing the entry of a table. *)
Lemma erase_none s id i t index e p :
  hashes s !! i = Some t -> entries t !! slot t index = Some e -> key e = id -> id <> 1 -> id <> 0 -> keeps s id p None ->
  none s id (S i) ->
  let s' := update_slot i (slot t index) (set_key invalid_thread_id2) s in none s' id i /\ keeps s' id p None.
Proof.
  intros Ht He Hid H1 H0 Hk Hn s'. destruct (Hk i t (slot t index) e Ht He Hid) as (_ & Huniq & _).
  assert (absent (updated (set_key invalid_thread_id2) (slot t index) t) id) as Ha.
  { intros y e2 He2 Hk2. destruct (decide (y = slot t index)) as [->|Hy].
    - rewrite (upd_entry _ _ _ _ He) in He2. injection He2 as <-. simpl in Hk2. unfold invalid_thread_id2 in Hk2. congruence.
    - rewrite upd_entry_ne in He2 by done. by apply Hy, Huniq with e2. }
  split.
  - intros i' t2 Hlo Ht2. apply (upd_lookup _ _ _ _ _ Ht) in Ht2 as [[-> ->]|[Hne Ht2]]; [done|]. apply (Hn i'); [lia|done].
  - intros i' t2 y e2 Ht2 He2 Hk2. apply (upd_lookup _ _ _ _ _ Ht) in Ht2 as [[-> ->]|[Hne Ht2]]; [by destruct (Ha y e2 He2)|].
    by apply (Hk i' t2 y e2).
Qed.
