(* ===== verification/ProducerHashSteps.v ===== *)
(** * Every step of the table keeps what the threads know

    The guarantee half of the argument: [thread_step_ok] and the four kinds of steps it is made
    of. *)

From S2P Require Import Prelude ProducerHash ProducerHashProofs ProducerHashInvariant.
From stdpp Require Import base list.
From Stdlib Require Import ZArith Lia.
Local Open Scope Z_scope.
Implicit Types (s : Shared) (t : ImplicitProducerHash) (e : ImplicitProducerKVP).

(** The one who allocates a table puts it in front of the current one. *)
Definition lock_fact s (st : stage) : Prop :=
  match st with Allocate m _ | Publish m _ _ => m = length (hashes s) | _ => True end.

(** What holds of a thread between its steps, and what the others see of a step. *)
Definition settled s (id : Z) (st : stage) (ls : list nat) : Prop :=
  shape s /\ thread_ok s id st ls /\ count_ok st /\ lock_fact s st.
Definition harmless (id : Z) s s' : Prop := forall id', id' <> id -> 1 < id' -> evolves id' s s'.
Definition good (id : Z) s (r : stage * list nat * Shared) : Prop :=
  settled r.2 id r.1.1 r.1.2 /\ harmless id s r.2.

Lemma harmless_same id s s' : hashes s' = hashes s -> harmless id s s'.
Proof.
  intros E id' _ _. split; [|intros i t' H%lookup_lt_Some; rewrite E in H; lia].
  intros i t Ht. exists t. rewrite E. split; [done|apply unmoved_refl].
Qed.

(** A step that leaves the tables alone, or changes nothing. *)
Lemma good_same id s st ls s' :
  shape s -> hashes s' = hashes s -> implicitProducerHash s' = implicitProducerHash s ->
  thread_ok s id st ls -> count_ok st -> lock_fact s st -> good id s (st, ls, s').
Proof.
  intros [H1 H2 H3] E1 E2 Ht Hc Hl. split; [|by apply harmless_same]. split_and!; simpl; [split; by rewrite E1, ?E2|..|done|].
  - destruct s, s'; simpl in *; subst. exact Ht.
  - unfold lock_fact in *. by rewrite E1.
Qed.

Lemma at_hash_look s p f t : look s p = Some t -> at_hash p s f = f (pred p) t.
Proof. destruct p as [|i]; [done|]. simpl. by intros ->. Qed.

Lemma look_shape s p t : shape s -> look s p = Some t -> prev t = pred p /\ hash_ok t /\ p = S (pred p).
Proof. intros Hs. destruct p as [|i]; [done|]. simpl. intros [? ?]%(sh_table s Hs). done. Qed.

Lemma at_slot_look s p index f t : shape s -> look s p = Some t ->
  exists e, entries t !! slot t index = Some e /\ at_slot p index s f = f (pred p) (masked index t) e.
Proof.
  intros Hs Ht. destruct (look_shape s p t Hs Ht) as (_ & Hok & _). destruct (slot_lookup t index Hok) as [e He].
  exists e. split; [done|]. unfold at_slot. rewrite (at_hash_look s p _ t Ht). unfold slot in He. by rewrite He.
Qed.

Lemma look_le s p : shape s -> is_Some (look s p) -> (0 < p <= length (hashes s))%nat.
Proof. intros Hs [t Ht]. destruct p as [|i]; [done|]. apply lookup_lt_Some in Ht. lia. Qed.

Lemma look_main s : shape s -> is_Some (look s (implicitProducerHash s)).
Proof.
  intros Hs. rewrite (sh_main s Hs). pose proof (sh_some s Hs). destruct (length (hashes s)) as [|n] eqn:E; [lia|].
  apply lookup_lt_is_Some. lia.
Qed.

Lemma look_below s p q : shape s -> is_Some (look s p) -> (0 < q <= p)%nat -> is_Some (look s q).
Proof. intros Hs Hp%look_le Hq; [|done]. destruct q as [|i]; [lia|]. apply lookup_lt_is_Some. lia. Qed.

(** ** Knowing that there is no entry *)

Lemma none_weaken s id lo hi : (lo <= hi)%nat -> none s id lo -> none s id hi.
Proof. intros Hle H i t Hi. apply H. lia. Qed.

Lemma none_above s id n : (length (hashes s) <= n)%nat -> none s id n.
Proof. intros Hn i t Hi Ht%lookup_lt_Some. lia. Qed.

Lemma none_step s id i t : none s id (S i) -> hashes s !! i = Some t -> absent t id -> none s id i.
Proof.
  intros H Ht Ha i' t' Hi Ht'. destruct (decide (i' = i)) as [->|]; [by simplify_eq|]. apply (H i'); [lia|done].
Qed.

Lemma none_not_present s id : none s id 0 -> present s id -> False.
Proof. intros H (i & t & x & Ht & e & He & Hk). by apply (H i t ltac:(lia) Ht x e He). Qed.

Lemma keeps_reached s id p i t x e : keeps s id p None -> hashes s !! i = Some t -> entries t !! x = Some e -> key e = id ->
  value e = p.
Proof. intros H Ht He Hk. by destruct (H i t x e Ht He Hk) as (_ & _ & [?|?]). Qed.

(** A search that comes to a free slot. *)
Lemma free_absent s id p i t index e :
  keeps s id p None -> hashes s !! i = Some t -> scanned (passed id) t id index -> entries t !! slot t index = Some e ->
  key e = 0 -> 1 < id -> absent t id.
Proof.
  intros Hk Ht Hscan He H0 Hid x e' He' Hk'. destruct (Hk i t x e' Ht He' Hk') as [Hr _].
  by eapply (scanned_free t id index x e); [exact Hscan|exact He|done|done|by exists e'|lia].
Qed.

Lemma resting_keeps s id ls : resting s id ls -> exists p, keeps s id p None.
Proof.
  destruct ls as [|p [|]]; simpl; [|by intros (_ & ? & _); exists p|done].
  intros H. exists 0%nat. by apply none_keeps.
Qed.

(** Going on to the next table, or to the insertion. *)
Lemma search_from_ok s id m h ls :
  shape s -> resting s id ls -> is_Some (look s m) -> (h <= m)%nat -> none s id h ->
  thread_ok s id (search_from m h (hash_thread_id id)) ls.
Proof.
  intros Hs Hr Hm Hh Hn. destruct h as [|i]; simpl.
  - split_and!; [|done|done]. destruct ls as [|p [|]]; [done| |done]. destruct Hr as (_ & _ & Hp). by destruct (none_not_present s id).
  - split_and!; [done..|]. destruct (look_below s m (S i) Hs Hm ltac:(lia)) as [t Ht]. exists t. split; [done|apply scanned_start].
Qed.

Lemma erase_from_ok s id p h :
  shape s -> p <> 0%nat -> keeps s id p None -> none s id h -> (h <= length (hashes s))%nat ->
  thread_ok s id (erase_from p h (hash_thread_id id)) [p].
Proof.
  intros Hs Hp Hk Hn Hh. destruct h as [|i]; simpl; [done|]. split_and!; [done..|].
  assert (is_Some (hashes s !! i)) as [t Ht] by (apply lookup_lt_is_Some; lia).
  exists t. split; [done|apply scanned_start].
Qed.

(** ** The steps on one slot *)

(** A slot that is free, reusable or the thread's own gets a key that is no other thread's. *)
Lemma harmless_key s id i x t e k :
  hashes s !! i = Some t -> entries t !! x = Some e -> key e = 0 \/ key e = 1 \/ key e = id -> k = 1 \/ k = id -> 1 < id ->
  harmless id s (update_slot i x (set_key k) s).
Proof.
  intros Ht He He' Hk Hid id' Hne Hid'. eapply upd_evolves; [exact Ht|exact He|..]; simpl; lia.
Qed.

Lemma harmless_value s id i x t e v :
  hashes s !! i = Some t -> entries t !! x = Some e -> key e = id -> harmless id s (update_slot i x (set_value v) s).
Proof. intros Ht He Hk id' Hne Hid'. eapply upd_evolves; [exact Ht|exact He|..]; simpl; congruence. Qed.

(** A claim that succeeds. *)
Lemma claim_good s id i t index e k p st :
  shape s -> hashes s !! i = Some t -> entries t !! slot t index = Some e -> cas_key i (masked index t) e k id s <> None ->
  k = 0 \/ k = 1 -> scanned nonfree t id index -> keeps s id p None -> absent t id -> 1 < id ->
  (forall s', claimed s' id (S i) (masked index t) p -> thread_ok s' id st [p]) -> count_ok st -> (forall s', lock_fact s' st) ->
  good id s (st, [p], update_slot i (slot t index) (set_key id) s).
Proof.
  intros Hs Ht He Hcas Hk Hscan Hkeep Ha Hid Hst Hc Hl. unfold cas_key in Hcas. destruct (Z.eqb_spec (key e) k); [|done].
  destruct (sh_table s Hs i t Ht) as [_ Hok]. split; simpl.
  - split_and!; [by apply upd_shape with t| |done|done]. simpl. apply Hst.
    rewrite <- slot_masked by done. eapply claim_claimed; [done|done| | |done|done|lia].
    + rewrite slot_masked by done. exact He.
    + by apply scanned_masked.
  - eapply harmless_key; [exact Ht|exact He| |by right|done]. lia.
Qed.

Section Search.
Context s (id : Z) (Hs : shape s) (Hid : 1 < id).

Lemma load_good ls : resting s id ls ->
  good id s (search_from (implicitProducerHash s) (implicitProducerHash s) (hash_thread_id id), ls, s).
Proof.
  intros Hr. assert (is_Some (look s (implicitProducerHash s))) as Hm by by apply look_main.
  apply good_same; [done..| | |by destruct (implicitProducerHash s)].
  - apply search_from_ok; [done..|]. rewrite (sh_main s Hs). by apply none_above.
  - by destruct (implicitProducerHash s).
Qed.

Lemma search_good m h index ls r : thread_ok s id (Search m h index) ls ->
  search_step id (Search m h index) ls s = Some r -> good id s r.
Proof.
  intros (Hr & Hm & Hle & Hn & t & Ht & Hscan) [= <-].
  destruct (at_slot_look s h index (fun i index e =>
        if key e =? id then
          (if negb (h =? m)%nat then Adopt m (hash_thread_id id) (value e) else Got (value e), ls, s)
        else if key e =? invalid_thread_id then
          at_hash h s (fun _ t => (search_from m (prev t) (hash_thread_id id), ls, s))
        else (Search m h (index + 1), ls, s)) t Hs Ht) as (e & He & ->).
  destruct (look_shape s h t Hs Ht) as (Hprev & Hok & Hh). assert (hashes s !! pred h = Some t) as Ht' by (by rewrite Hh in Ht).
  destruct (Z.eqb_spec (key e) id) as [Hk|Hk].
  - destruct ls as [|p [|]]; [|destruct Hr as (Hp & Hkeep & Hpres)|done].
    { by destruct (Hr (pred h) t ltac:(lia) Ht' _ e He). }
    rewrite (keeps_reached s id p _ t _ e Hkeep Ht' He Hk). apply good_same; [done..| | |].
    + destruct (Nat.eqb_spec h m) as [->|Hne]; simpl.
      * destruct p; [done|]. done.
      * split_and!; [done..| |]. { apply (none_weaken s id h); [lia|done]. }
        destruct Hm as [tm Htm]. exists tm. split; [done|apply scanned_start].
    + by destruct (negb _).
    + by destruct (negb _).
  - destruct (Z.eqb_spec (key e) invalid_thread_id) as [H0|H0].
    + rewrite (at_hash_look s h _ t Ht), Hprev. destruct (resting_keeps s id ls Hr) as [p Hkeep].
      apply good_same; [done..| |by destruct (pred h)|by destruct (pred h)].
      apply search_from_ok; [done|done|done|lia|]. apply none_step with t; [by rewrite <- Hh|done|].
      by eapply free_absent.
    + apply good_same; [done..| |done|done]. split_and!; [done..|]. exists t. split; [done|].
      by eapply scanned_next.
Qed.

(** The current table, seen from a search for a place in it. *)
Lemma place_table m index : searching nonfree s id m index ->
  exists i t, m = S i /\ hashes s !! i = Some t /\ hash_ok t /\ scanned nonfree t id index.
Proof.
  intros (t & Ht & Hscan). destruct m as [|i]; [done|]. exists i, t. split_and!; [done..| |done].
  by apply (sh_table s Hs i t).
Qed.

Lemma place_slot i index f t : hashes s !! i = Some t ->
  exists e, entries t !! slot t index = Some e /\ at_slot (S i) index s f = f i (masked index t) e.
Proof. intros Ht. exact (at_slot_look s (S i) index f t Hs Ht). Qed.

Lemma cas_cases i x e k k' : (exists s', cas_key i x e k k' s = Some s' /\ key e = k /\ s' = update_slot i (Z.to_nat x) (set_key k') s) \/
  cas_key i x e k k' s = None /\ key e <> k.
Proof. unfold cas_key. destruct (Z.eqb_spec (key e) k); eauto. Qed.

Lemma adopt_good m index v ls r : thread_ok s id (Adopt m index v) ls ->
  search_step id (Adopt m index v) ls s = Some r -> good id s r.
Proof.
  intros (-> & Hv & Hkeep & Hn & Hplace) [= <-]. destruct (place_table m index Hplace) as (i & t & -> & Ht & Hok & Hscan).
  edestruct (place_slot i index) as (e & He & ->); [done|].
  destruct (cas_cases i (masked index t) e invalid_thread_id id) as [(s' & Ec & Hk & ->)|[Ec Hk]]; rewrite Ec.
  - eapply (claim_good s id i t index e invalid_thread_id); [done..|by rewrite Ec|by left|done|done| |done| |done|done].
    + by apply (Hn i).
    + intros s' H. simpl. eauto.
  - apply good_same; [done..| |done|done]. split_and!; [done..| |].
    + exists t. split; [done|]. by apply scanned_masked.
    + exists t. split; [done|]. rewrite slot_masked by done. by exists e.
Qed.

Lemma adopt_reusable_good m index v ls r : thread_ok s id (AdoptReusable m index v) ls ->
  search_step id (AdoptReusable m index v) ls s = Some r -> good id s r.
Proof.
  intros (-> & Hv & Hkeep & Hn & Hplace & Hne) [= <-].
  destruct (place_table m index Hplace) as (i & t & -> & Ht & Hok & Hscan).
  destruct Hne as (t2 & Ht2 & Hne). simpl in Ht2. assert (t2 = t) as -> by congruence.
  edestruct (place_slot i index) as (e & He & ->); [done|].
  destruct (cas_cases i (masked index t) e invalid_thread_id2 id) as [(s' & Ec & Hk & ->)|[Ec Hk]]; rewrite Ec.
  - eapply (claim_good s id i t index e invalid_thread_id2); [done..|by rewrite Ec|by right|done|done| |done| |done|done].
    + by apply (Hn i).
    + intros s' H. simpl. eauto.
  - apply good_same; [done..| |done|done]. split_and!; [done..|]. exists t. split; [done|].
    destruct Hne as (e' & He' & Hne). assert (e' = e) as -> by congruence. by eapply scanned_next.
Qed.
End Search.

Lemma search_step_good s id st ls r :
  shape s -> 1 < id -> thread_ok s id st ls -> search_step id st ls s = Some r -> good id s r.
Proof.
  intros Hs Hid Ht E. destruct st; try discriminate.
  - injection E as <-. by apply load_good.
  - by eapply search_good.
  - by eapply adopt_good.
  - by eapply adopt_reusable_good.
Qed.

(** ** The larger table *)

Lemma try_insert_ok s id m n t : 0 <= n -> none s id 0 -> is_Some (look s m) ->
  thread_ok s id (try_insert m n t) [] /\ count_ok (try_insert m n t) /\ lock_fact s (try_insert m n t).
Proof. intros Hn H Hm. unfold try_insert. by destruct (_ <? _). Qed.

Lemma insert_loop_ok s id m n t : 0 <= n -> none s id 0 -> is_Some (look s m) ->
  thread_ok s id (insert_loop m n t) [] /\ count_ok (insert_loop m n t) /\ lock_fact s (insert_loop m n t).
Proof. intros Hn H Hm. unfold insert_loop. destruct (_ <=? _); [done|by apply try_insert_ok]. Qed.

Lemma publish_good s id m n c :
  shape s -> 1 < id -> none s id 0 -> pow2 c -> m = length (hashes s) -> 0 <= n ->
  good id s (Unlock (S (length (hashes s))) n, [],
    set_main (S (length (hashes s))) (set_hashes (hashes s ++ [new_hash (Z.to_nat c) m]) s)).
Proof.
  intros Hs Hid Hnone Hc -> Hn. set (t0 := new_hash _ _).
  assert (forall i t, (hashes s ++ [t0]) !! i = Some t -> hashes s !! i = Some t \/ i = length (hashes s) /\ t = t0) as Hlook.
  { intros i t H. apply lookup_app_Some in H as [H|[Hge H]]; [by left|right].
    apply list_lookup_singleton_Some in H as [? <-]. split; [lia|done]. }
  split; simpl.
  - split_and!; [split|split_and!|done|done].
    + intros i t [H|[-> ->]]%Hlook; [by apply Hs|]. split; [done|by apply new_hash_ok].
    + simpl. rewrite length_app. simpl. lia.
    + simpl. rewrite length_app. simpl. lia.
    + done.
    + intros i t _ [H|[-> ->]]%Hlook; [apply (Hnone i); [lia|done]|]. apply new_hash_absent. lia.
    + simpl. apply lookup_lt_is_Some. rewrite length_app. simpl. lia.
  - intros id' _ Hid'. split.
    + intros i t Ht. exists t. split; [|apply unmoved_refl]. simpl. by apply lookup_app_l_Some.
    + intros i t [H%lookup_lt_Some|[-> ->]]%Hlook Hge; [lia|]. apply new_hash_absent. lia.
Qed.

Lemma resize_step_good s id st ok ls r :
  shape s -> 1 < id -> thread_ok s id st ls -> count_ok st -> lock_fact s st -> resize_step st ok ls s = Some r -> good id s r.
Proof.
  intros Hs Hid Ht Hc Hl E. destruct st; try discriminate; cbn -[grow_capacity] in E, Ht, Hc, Hl.
  - destruct Ht as (-> & Hn & Hm). destruct (implicitProducerHashResizeInProgress s); injection E as <-; [|by apply good_same].
    pose proof Hm as [t Ht]. rewrite (at_hash_look s _ _ t Ht).
    destruct (try_insert_ok s id mainHash newCount t Hc Hn Hm) as (H1 & H2 & H3). by apply good_same.
  - destruct Ht as (-> & Hn). injection E as <-. destruct (look_main s Hs) as [t Ht]. rewrite (at_hash_look s _ _ t Ht).
    assert (is_Some (look s (implicitProducerHash s))) as Hm by eauto.
    apply good_same; [done..| | |]; destruct (_ <=? newCount); try done. apply Hs.
  - destruct Ht as (-> & Hn & Hm). pose proof Hm as [t Ht]. destruct (look_shape s _ t Hs Ht) as (_ & Hok & Hmm).
    assert (hashes s !! pred mainHash = Some t) as Ht' by (by rewrite Hmm in Ht). rewrite Ht' in E.
    assert (good id s (GiveBack, [], s)) as Hg by by apply good_same.
    assert (forall c, grow_capacity 64 newCount (u64 (Z.shiftl (capacity t) 1)) = Some c -> pow2 c) as Hgrow.
    { intros c. apply grow_pow2; [done|]. apply double_pow2. destruct Hok as (k & ? & ?). by exists k. }
    destruct ok; [|by injection E as <-|]; (destruct (grow_capacity 64 newCount _) as [c|] eqn:Eg; [|discriminate]);
      injection E as <-; (apply good_same; try done); (split_and!; try done); by apply Hgrow.
  - injection E as <-. destruct Ht as (-> & Hn). by apply good_same.
  - injection E as <-. destruct Ht as (-> & Hn). by apply good_same.
  - injection E as <-. destruct Ht as (-> & Hn & Hm & Hp). by apply publish_good.
  - injection E as <-. destruct Ht as (-> & Hn & Hm). pose proof Hm as [t Ht]. rewrite (at_hash_look s _ _ t Ht).
    destruct (try_insert_ok s id mainHash newCount t Hc Hn Hm) as (H1 & H2 & H3). by apply good_same.
Qed.

(** ** The insertion *)

Lemma store_good s id i t index p :
  shape s -> hashes s !! i = Some t -> key_at t (slot t index) (fun k => k = id) -> keeps s id p (Some (i, slot t index)) ->
  p <> 0%nat -> good id s (Got p, [p], update_slot i (slot t index) (set_value p) s).
Proof.
  intros Hs Ht (e & He & Hk) Hkeep Hp. split; simpl.
  - split_and!; [by apply upd_shape with t| |done|done]. split; [|by destruct p].
    apply store_resting; [done|by exists e|done|done].
  - eapply harmless_value; [exact Ht|exact He|done].
Qed.

Lemma claim_start s id i p :
  shape s -> none s id 0 -> is_Some (look s (S i)) -> thread_ok s id (ClaimReusable (S i) (hash_thread_id id) (S p)) [S p].
Proof.
  intros Hs Hn [t Ht]. split_and!; [done|lia|done|]. exists t. split; [done|apply scanned_start].
Qed.

Section Insert.
Context s (id : Z) (Hs : shape s) (Hid : 1 < id).

Lemma claim_step_good (st_done st_next : Z -> stage) k i index p t :
  hashes s !! i = Some t -> k = 0 \/ k = 1 -> scanned nonfree t id index -> none s id 0 -> p <> 0%nat ->
  (forall index s', claimed s' id (S i) index p -> thread_ok s' id (st_done index) [p]) ->
  (forall index, count_ok (st_done index)) -> (forall index s', lock_fact s' (st_done index)) ->
  (forall e, entries t !! slot t index = Some e -> key e <> k ->
    thread_ok s id (st_next (masked index t)) [p] /\ count_ok (st_next (masked index t)) /\ lock_fact s (st_next (masked index t))) ->
  good id s (at_slot (S i) index s (fun i index e =>
    match cas_key i index e k id s with
    | Some s' => (st_done index, [p], s')
    | None => (st_next index, [p], s)
    end)).
Proof.
  intros Ht Hk Hscan Hn Hp Hd1 Hd2 Hd3 Hnext. edestruct (place_slot s Hs i index) as (e & He & ->); [done|].
  destruct (cas_cases s i (masked index t) e k id) as [(s' & Ec & Hke & ->)|[Ec Hke]]; rewrite Ec.
  - eapply (claim_good s id i t index e k p); [done..|by rewrite Ec|done|done|by apply none_keeps| |done|by apply Hd1|done|by apply Hd3].
    apply (Hn i); [lia|done].
  - destruct (Hnext e He Hke) as (H1 & H2 & H3). by apply good_same.
Qed.

Lemma insert_step_good st ok ls r :
  thread_ok s id st ls -> count_ok st -> insert_step id st ok ls s = Some r -> good id s r.
Proof.
  intros Ht Hc E. destruct st; try discriminate; cbn in E, Ht, Hc.
  - destruct Ht as (-> & Hn & Hm). injection E as <-. pose proof Hm as [t Ht].
    assert (0 <= u64 (1 + implicitProducerHashCount s)) as Hnn by (apply (wrapU_range 64); lia).
    rewrite (at_hash_look _ mainHash _ t) by exact Ht.
    destruct (insert_loop_ok s id mainHash _ t Hnn Hn Hm) as (H1 & H2 & H3). by apply good_same.
  - destruct Ht as (-> & Hn & Hm). pose proof Hm as [t Ht]. destruct (look_shape s _ t Hs Ht) as (_ & _ & Hmm). rewrite Hmm in *.
    destruct ok as [| |i]; [injection E as <-|injection E as <-|destruct (inactive s !! i) as [[]|]; [injection E as <-|done|done]].
    + apply good_same; try done. by apply claim_start.
    + by apply good_same.
    + apply good_same; try done. by apply claim_start.
  - injection E as <-. destruct Ht as (-> & Hn). by apply good_same.
  - injection E as <-. destruct Ht as (-> & Hp & Hn & Hplace). destruct (place_table s id Hs _ _ Hplace) as (i & t & -> & Ht & Hok & Hscan).
    apply (claim_step_good (fun index => Uncount (S i) index p) (fun index => ClaimEmpty (S i) index p) _ i index p t);
      try done; [by right|]. intros e He Hk. simpl. split_and!; try done. exists t. split; [done|]. by apply scanned_masked.
  - injection E as <-. by apply good_same.
  - injection E as <-. destruct Ht as (-> & Hp & Hn & Hplace). destruct (place_table s id Hs _ _ Hplace) as (i & t & -> & Ht & Hok & Hscan).
    apply (claim_step_good (fun index => Store (S i) index p) (fun index => ClaimReusable (S i) (index + 1) p) _ i index p t);
      try done; [by left|]. intros e He Hk. simpl. split_and!; try done. exists t. split; [done|]. by eapply scanned_next.
  - injection E as <-. destruct Ht as (-> & Hp & i & t & -> & Ht & Hkey & Hkeep).
    edestruct (place_slot s Hs i index) as (e & He & ->); [done|]. by apply store_good.
  - injection E as <-. destruct Ht as (-> & Hn). destruct (look_main s Hs) as [t Ht]. rewrite (at_hash_look _ _ _ t Ht).
    destruct (insert_loop_ok s id (implicitProducerHash s) newCount t Hc Hn ltac:(eauto)) as (H1 & H2 & H3). by apply good_same.
Qed.
End Insert.

(** ** The exit of a thread *)

Lemma erase_from_settled s id p i :
  shape s -> p <> 0%nat -> keeps s id p None -> none s id i -> (i <= length (hashes s))%nat ->
  settled s id (erase_from p i (hash_thread_id id)) [p].
Proof.
  intros Hs Hp Hk Hn Hle. split_and!; [done|by apply erase_from_ok|by destruct i..].
Qed.

Lemma erase_good s id p h index ls r :
  shape s -> 1 < id -> thread_ok s id (Erase p h index) ls -> exit_step id (Erase p h index) ls s = Some r -> good id s r.
Proof.
  intros Hs Hid (-> & Hp & Hkeep & Hn & t & Ht & Hscan) [= <-].
  destruct (look_shape s h t Hs Ht) as (Hprev & Hok & Hh). assert (hashes s !! pred h = Some t) as Ht' by (by rewrite Hh in Ht).
  pose proof (look_le s h Hs ltac:(eauto)) as Hle. rewrite Hh. edestruct (place_slot s Hs (pred h) index) as (e & He & ->); [done|].
  rewrite <- Hh.
  destruct (cas_cases s (pred h) (masked index t) e id invalid_thread_id2) as [(s' & Ec & Hk & ->)|[Ec Hk]]; rewrite Ec.
  - rewrite (at_hash_look s h _ t Ht), Hprev. rewrite Hh in Hn.
    destruct (erase_none s id (pred h) t index e p Ht' He Hk ltac:(lia) ltac:(lia) Hkeep Hn) as [H1 H2]. split; simpl.
    + apply erase_from_settled; [by apply upd_shape with t|done..|]. rewrite upd_length. lia.
    + eapply harmless_key; [exact Ht'|exact He|auto|by left|done].
  - destruct (Z.eqb_spec (key e) invalid_thread_id) as [H0|H0].
    + rewrite (at_hash_look s h _ t Ht), Hprev. split; [|by apply harmless_same]. apply erase_from_settled; [done..| |simpl; lia].
      apply none_step with t; [by rewrite <- Hh|done|]. by eapply free_absent.
    + apply good_same; [done..| |done|done]. split_and!; [done..|]. exists t. split; [done|]. by eapply scanned_next.
Qed.

Lemma exit_step_good s id st ls r :
  shape s -> 1 < id -> thread_ok s id st ls -> exit_step id st ls s = Some r -> good id s r.
Proof.
  intros Hs Hid Ht E. destruct st; try discriminate; [| |].
  - cbn in Ht, E. destruct ls as [|p [|]]; [injection E as <-; by apply good_same| |done]. injection E as <-.
    destruct Ht as (Hp & Hk & _). split; [|by apply harmless_same]. rewrite (sh_main s Hs).
    apply erase_from_settled; [done..| |done]. by apply none_above.
  - by eapply erase_good.
  - destruct Ht as (-> & Hp & Hn). injection E as <-. by apply good_same.
Qed.

(** Every step keeps what its thread knows, and is harmless to the others. *)
Lemma thread_step_good s id st ok ls r :
  1 < id -> settled s id st ls -> thread_step id st ok ls s = Some r -> good id s r.
Proof.
  intros Hid (Hs & Ht & Hc & Hl).
  pose proof (search_step_good s id st ls r Hs Hid Ht). pose proof (resize_step_good s id st ok ls r Hs Hid Ht Hc Hl).
  pose proof (insert_step_good s id Hs Hid st ok ls r Ht Hc). pose proof (exit_step_good s id st ls r Hs Hid Ht).
  by destruct st.
Qed.
