(* ===== verification/ProducerHashTheorems.v ===== *)
(** * Every thread finds its own producer

    Under every interleaving of threads that start, look up their producer, and exit: a thread
    gets the same producer at each of its calls, no two threads that live share one, an exit
    leaves no entry behind, and no thread follows a null pointer or waits for another but for the
    one that allocates a table.  While no thread exits, the tables never fill up, so that a
    search that runs alone ends. *)

From S2P Require Import Prelude ProducerHash ProducerHashProofs ProducerHashInvariant ProducerHashSteps.
From stdpp Require Import base list.
From Stdlib Require Import ZArith Lia.
Local Open Scope Z_scope.
Implicit Types (s : Shared) (t : ImplicitProducerHash) (e : ImplicitProducerKVP) (w : World) (th : Thread) (ts : list Thread).

(** ** What a step does to the lock and to the producers *)

(** The stages of the one who holds the resize lock. *)
Definition locked (st : stage) : bool :=
  match st with Reload _ | Allocate _ _ | GiveBack | GiveUp | Publish _ _ _ | Unlock _ _ => true | _ => false end.
Definition bit (b : bool) : Z := if b then 1 else 0.

Inductive producer_step : list nat -> list bool -> list nat -> list bool -> Prop :=
| ps_same ls l : producer_step ls l ls l
| ps_reuse ls l i : l !! i = Some true -> producer_step ls l (S i :: ls) (<[i := false]> l)
| ps_new ls l : producer_step ls l (S (length l) :: ls) (l ++ [false])
| ps_retire p ls l : producer_step (p :: ls) l ls (<[pred p := true]> l).

Record effect (st : stage) (ls : list nat) s (st' : stage) (ls' : list nat) s' : Prop := {
  ef_lock : (locked st = true -> implicitProducerHashResizeInProgress s = true) ->
    bit (locked st') - bit (locked st) = bit (implicitProducerHashResizeInProgress s') - bit (implicitProducerHashResizeInProgress s);
  ef_length : locked st = false -> length (hashes s') = length (hashes s);
  ef_producer : producer_step ls (inactive s) ls' (inactive s')
}.

Lemma update_slot_length i x f s : length (hashes (update_slot i x f s)) = length (hashes s).
Proof. unfold update_slot. simpl. by rewrite length_alter. Qed.

Lemma try_insert_unlocked m n t : locked (try_insert m n t) = false.
Proof. unfold try_insert. by destruct (_ <? _). Qed.
Lemma insert_loop_unlocked m n t : locked (insert_loop m n t) = false.
Proof. unfold insert_loop. destruct (_ <=? _); [done|apply try_insert_unlocked]. Qed.
Lemma search_from_unlocked m h x : locked (search_from m h x) = false.
Proof. by destruct h. Qed.
Lemma erase_from_unlocked m h x : locked (erase_from m h x) = false.
Proof. by destruct h. Qed.

Ltac open_step E :=
  repeat match type of E with
         | context [match ?x with _ => _ end] => destruct x eqn:?; try discriminate E
         | context [if ?x then _ else _] => destruct x eqn:?; try discriminate E
         end.

Lemma cas_key_some i x e k k' s s' : cas_key i x e k k' s = Some s' -> s' = update_slot i (Z.to_nat x) (set_key k') s.
Proof. unfold cas_key. destruct (_ =? _); [congruence|done]. Qed.

Lemma thread_step_effect s id st ok ls st' ls' s' :
  thread_ok s id st ls -> st' <> Lost -> thread_step id st ok ls s = Some (st', ls', s') -> effect st ls s st' ls' s'.
Proof.
  intros Hok Hl E. destruct st; try discriminate; cbn -[grow_capacity cas_key] in E; unfold at_slot, at_hash in E;
    open_step E; repeat match goal with H : cas_key _ _ _ _ _ _ = Some _ |- _ => apply cas_key_some in H as -> end;
    simplify_eq; try (by destruct Hl); split;
    rewrite ?update_slot_length; simpl; rewrite ?try_insert_unlocked, ?insert_loop_unlocked, ?search_from_unlocked, ?erase_from_unlocked;
    intros; simpl; try lia; try done; try (by constructor);
    try (destruct (implicitProducerHashResizeInProgress s); simpl in *; intuition (try discriminate; lia)).
  destruct Hok as (-> & _ & _). apply (ps_retire p []).
Qed.

(** ** The world *)

Definition owned ts : list nat := concat (listeners <$> ts).
Definition lockers ts : Z := zsum (fun th => bit (locked (stage_of th))) ts.

#[export] Instance living_perm : Proper ((≡ₚ) ==> (≡ₚ)) living.
Proof. intros l k H. unfold living. by rewrite H. Qed.
#[export] Instance owned_perm : Proper ((≡ₚ) ==> (≡ₚ)) owned.
Proof. intros l k H. unfold owned. by rewrite H. Qed.

Record world_ok w : Prop := {
  wo_shape : shape (shared w);
  wo_thread th : th ∈ threads w ->
    1 < tid th /\ thread_ok (shared w) (tid th) (stage_of th) (listeners th) /\ count_ok (stage_of th) /\
    lock_fact (shared w) (stage_of th);
  wo_ids : NoDup (living (threads w));
  wo_keys i t x e : hashes (shared w) !! i = Some t -> entries t !! x = Some e -> 1 < key e -> key e ∈ living (threads w);
  wo_lock : lockers (threads w) = bit (implicitProducerHashResizeInProgress (shared w));
  wo_once : NoDup (owned (threads w));
  wo_active p : p ∈ owned (threads w) <-> exists i, p = S i /\ inactive (shared w) !! i = Some false
}.

#[export] Instance gone_dec (st : stage) : Decision (st = Gone).
Proof. destruct st; first [by left | by right]. Defined.

Lemma living_cons th ts : living (th :: ts) = (if decide (stage_of th = Gone) then [] else [tid th]) ++ living ts.
Proof. unfold living. simpl. by destruct (stage_of th). Qed.

Lemma elem_of_living th ts : th ∈ ts -> stage_of th <> Gone -> tid th ∈ living ts.
Proof. intros H Hg. apply list_elem_of_omap. exists th. split; [done|]. by destruct (stage_of th). Qed.

(** The keys of a table after a step that is harmless to [id]. *)
Lemma evolves_key id s s' i t' x e' : evolves id s s' -> hashes s' !! i = Some t' -> entries t' !! x = Some e' -> key e' = id ->
  exists t, hashes s !! i = Some t /\ entries t !! x = Some e'.
Proof.
  intros Ev Ht' He' Hk. destruct (old_table id s s' Ev i t' x Ht' ltac:(by exists e')) as (t & Ht & U).
  destruct (um_back _ _ _ U x e' He') as (e & He & _ & Hsame). rewrite <- (Hsame (or_intror Hk)) in He. eauto.
Qed.

Lemma lockers_pos th ts : th ∈ ts -> locked (stage_of th) = true -> 1 <= lockers ts.
Proof.
  intros H Hl. assert (bit (locked (stage_of th)) <= lockers ts) as Hle; [|by rewrite Hl in Hle].
  apply (zsum_elem_le (fun th => bit (locked (stage_of th)))); [|done]. intros y _. destruct (locked (stage_of y)); simpl; lia.
Qed.

Section Step.
Context w (j : nat) th (Hw : world_ok w) (Hj : threads w !! j = Some th) (Hlive : stage_of th <> Gone).
Context (st' : stage) (ls' : list nat) s'.
Context (Hgood : good (tid th) (shared w) (st', ls', s')).
Context (Heff : effect (stage_of th) (listeners th) (shared w) st' ls' s').
Context (Hgone : st' = Gone -> none s' (tid th) 0).
Let rest := delete j (threads w).
Let th' := mkThread (tid th) st' ls'.

Lemma step_before : threads w ≡ₚ th :: rest.
Proof. by apply delete_Permutation. Qed.

Lemma step_after : <[j := th']> (threads w) ≡ₚ th' :: rest.
Proof. by eapply insert_perm. Qed.

Lemma step_elem : th ∈ threads w.
Proof. by eapply list_elem_of_lookup_2. Qed.

Lemma step_fresh : tid th ∉ living rest.
Proof.
  pose proof (wo_ids w Hw) as Hn. rewrite step_before, living_cons in Hn. case_decide; [done|].
  by apply NoDup_cons in Hn as [? _].
Qed.

Lemma step_thread x : x ∈ th' :: rest ->
  1 < tid x /\ thread_ok s' (tid x) (stage_of x) (listeners x) /\ count_ok (stage_of x) /\ lock_fact s' (stage_of x).
Proof.
  destruct (wo_thread w Hw th step_elem) as (Hid & _).
  destruct Hgood as [(_ & H1 & H2 & H3) Hh]. simpl in *. intros [->|Hx]%elem_of_cons; [done|].
  assert (x ∈ threads w) as Hxw by (rewrite step_before; by right).
  destruct (wo_thread w Hw x Hxw) as (Hx1 & Hx2 & Hx3 & Hx4). split_and!; [done| |done|].
  - destruct (decide (stage_of x = Gone)) as [E|E]; [by rewrite E in *|]. eapply thread_stable; [|exact Hx2]. apply Hh; [|done].
    intros Eid. apply step_fresh. rewrite <- Eid. by apply elem_of_living.
  - destruct (locked (stage_of x)) eqn:El; [|by destruct (stage_of x)].
    assert (locked (stage_of th) = false) as Eth.
    { destruct (locked (stage_of th)) eqn:Eth; [|done]. pose proof (wo_lock w Hw) as Hl. unfold lockers in Hl.
      rewrite step_before, zsum_cons, Eth in Hl. pose proof (lockers_pos x rest Hx El) as Hp. unfold lockers in Hp.
      destruct (implicitProducerHashResizeInProgress _); simpl in Hl; lia. }
    pose proof (ef_length _ _ _ _ _ _ Heff Eth) as Elen. unfold lock_fact in *. destruct (stage_of x); try done; by rewrite Elen.
Qed.

Lemma step_living : living (th' :: rest) = (if decide (st' = Gone) then [] else [tid th]) ++ living rest.
Proof. by rewrite living_cons. Qed.

Lemma step_key i t x e : hashes s' !! i = Some t -> entries t !! x = Some e -> 1 < key e -> key e ∈ living (th' :: rest).
Proof.
  intros Ht He Hk. rewrite step_living. destruct Hgood as [_ Hh]. simpl in Hh.
  destruct (decide (key e = tid th)) as [E|E].
  - case_decide as Hg; [|rewrite E; inlist]. by destruct (Hgone Hg i t ltac:(lia) Ht x e He).
  - destruct (evolves_key _ _ _ _ _ _ _ (Hh (key e) E Hk) Ht He eq_refl) as (t0 & Ht0 & He0).
    pose proof (wo_keys w Hw i t0 x e Ht0 He0 Hk) as Hin. rewrite step_before, living_cons in Hin.
    case_decide; [done|]. simpl in Hin. apply elem_of_cons in Hin as [?|Hin]; [done|]. inlist.
Qed.

Lemma step_lock : lockers (th' :: rest) = bit (implicitProducerHashResizeInProgress s').
Proof.
  pose proof (wo_lock w Hw) as Hl. unfold lockers in *. rewrite step_before, zsum_cons in Hl. rewrite zsum_cons. simpl.
  assert (locked (stage_of th) = true -> implicitProducerHashResizeInProgress (shared w) = true) as Hres.
  { intros E. pose proof (lockers_pos th (threads w) step_elem E) as Hp. unfold lockers in Hp.
    rewrite step_before, zsum_cons, Hl in Hp. by destruct (implicitProducerHashResizeInProgress _). }
  pose proof (ef_lock _ _ _ _ _ _ Heff Hres). lia.
Qed.

Lemma step_producers :
  NoDup (owned (th' :: rest)) /\ forall p, p ∈ owned (th' :: rest) <-> exists i, p = S i /\ inactive s' !! i = Some false.
Proof.
  pose proof (wo_once w Hw) as Hn. pose proof (wo_active w Hw) as Ha.
  assert (forall p, p ∈ owned (threads w) <-> p ∈ listeners th ++ owned rest) as Hb by (intros p; by rewrite step_before).
  setoid_rewrite Hb in Ha. rewrite step_before in Hn. unfold owned in *. simpl in *. clear Hb.
  destruct (ef_producer _ _ _ _ _ _ Heff) as [ls l|ls l i Hi|ls l|p ls l].
  - done.
  - assert (S i ∉ ls ++ concat (listeners <$> rest)) as Hnot by (intros (i' & [= <-] & Hf)%Ha; congruence).
    split; [by apply NoDup_cons|]. intros p. simpl. rewrite elem_of_cons, Ha. split.
    + intros [->|(i' & -> & Hf)]; [exists i; split; [done|]; apply list_lookup_insert_eq; by eapply lookup_lt_Some|].
      exists i'. split; [done|]. rewrite list_lookup_insert_ne; [done|]. intros ->. congruence.
    + intros (i' & -> & Hf). destruct (decide (i' = i)) as [->|]; [by left|right]. rewrite list_lookup_insert_ne in Hf by done. eauto.
  - assert (S (length l) ∉ ls ++ concat (listeners <$> rest)) as Hnot.
    { intros (i' & [= <-] & Hf%lookup_lt_Some)%Ha. lia. }
    split; [by apply NoDup_cons|]. intros p. simpl. rewrite elem_of_cons, Ha. split.
    + intros [->|(i' & -> & Hf)]; [exists (length l)|exists i']; (split; [done|]).
      * by rewrite lookup_app_r, Nat.sub_diag by lia.
      * by apply lookup_app_l_Some.
    + intros (i' & -> & [Hf|[Hge Hf]]%lookup_app_Some); [right; eauto|left].
      apply list_lookup_singleton_Some in Hf as [? _]. f_equal. lia.
  - simpl in Hn. apply NoDup_cons in Hn as [Hp Hn]. split; [done|]. intros q.
    assert (exists i, p = S i /\ l !! i = Some false) as (i & -> & Hi) by (apply Ha; left).
    simpl. split.
    + intros Hq. destruct (proj1 (Ha q)) as (i' & -> & Hf); [by right|]. exists i'. split; [done|].
      rewrite list_lookup_insert_ne; [done|]. intros ->. done.
    + intros (i' & -> & Hf). apply list_lookup_insert_Some in Hf as [(_ & ? & _)|[Hne Hf]]; [done|].
      assert (S i' ∈ S i :: (ls ++ concat (listeners <$> rest))) as Hin by (apply Ha; eauto).
      apply elem_of_cons in Hin as [E|H]; [congruence|done].
Qed.

Lemma hash_step_ok : world_ok (mkWorld s' (<[j := th']> (threads w))).
Proof.
  split; simpl.
  - apply Hgood.
  - intros x. rewrite step_after. apply step_thread.
  - rewrite step_after, step_living. pose proof (wo_ids w Hw) as Hn. rewrite step_before, living_cons in Hn.
    case_decide; [done|]. case_decide; [|done]. simpl in *. by apply NoDup_cons in Hn as [_ ?].
  - intros i t x e. rewrite step_after. apply step_key.
  - unfold lockers. rewrite step_after. apply step_lock.
  - rewrite step_after. apply step_producers.
  - intros p. rewrite step_after. apply step_producers.
Qed.
End Step.

(** ** Runs *)

Lemma between_resting s id st ls : between_calls st = true -> thread_ok s id st ls -> resting s id ls.
Proof. destruct st; try done. by intros _ [? _]. Qed.

Lemma thread_step_gone s id st ok ls ls' s' : thread_step id st ok ls s = Some (Gone, ls', s') -> ls = [] /\ s' = s /\ st = Leave.
Proof.
  intros E. destruct st; try discriminate; cbn -[grow_capacity cas_key] in E;
    unfold at_slot, at_hash, search_from, erase_from, insert_loop, try_insert in E; open_step E; by simplify_eq.
Qed.

(** The start of a call, and of the exit. *)
Lemma move_ok w j th st' : world_ok w -> threads w !! j = Some th -> between_calls (stage_of th) = true -> st' = Load \/ st' = Leave ->
  world_ok (mkWorld (shared w) (<[j := mkThread (tid th) st' (listeners th)]> (threads w))).
Proof.
  intros Hw Hj Hb Hst. destruct (wo_thread w Hw th ltac:(by eapply list_elem_of_lookup_2)) as (Hid & Hok & _).
  pose proof (between_resting _ _ _ _ Hb Hok) as Hr.
  apply hash_step_ok; [done|done|by destruct (stage_of th)| | |by destruct Hst as [-> | ->]].
  - apply good_same; try done; [apply Hw|by destruct Hst as [-> | ->]..].
  - split; [|done|constructor]. intros _. destruct (stage_of th); try done; destruct Hst as [-> | ->]; simpl; lia.
Qed.

Lemma arrive_ok w id : world_ok w -> valid_id id = true -> id ∉ living (threads w) ->
  world_ok (mkWorld (shared w) (threads w ++ [mkThread id Away []])).
Proof.
  intros Hw Hv Hn. unfold valid_id, invalid_thread_id2 in Hv. zbool.
  assert (threads w ++ [mkThread id Away []] ≡ₚ mkThread id Away [] :: threads w) as Hp by (by rewrite Permutation_app_comm).
  split; simpl.
  - apply Hw.
  - intros x. rewrite Hp. intros [->|Hx]%elem_of_cons; [|by apply Hw]. split_and!; [simpl; lia| |done|done].
    intros i t _ Ht y e He Hk. apply Hn. simpl in Hk. rewrite <- Hk. apply (wo_keys w Hw i t y e Ht He). lia.
  - rewrite Hp, living_cons. simpl. apply NoDup_cons. split; [done|apply Hw].
  - intros i t x e Ht He Hk. rewrite Hp, living_cons. simpl. right. by eapply (wo_keys w Hw).
  - unfold lockers. rewrite Hp, zsum_cons. apply (wo_lock w Hw).
  - rewrite Hp. apply (wo_once w Hw).
  - intros p. rewrite Hp. apply (wo_active w Hw).
Qed.

Lemma advance_good w j th ok r : world_ok w -> threads w !! j = Some th ->
  thread_step (tid th) (stage_of th) ok (listeners th) (shared w) = Some r -> good (tid th) (shared w) r.
Proof.
  intros Hw Hj E. destruct (wo_thread w Hw th ltac:(by eapply list_elem_of_lookup_2)) as (Hid & Hok & Hc & Hl).
  eapply thread_step_good; [done| |exact E]. split_and!; [apply Hw|done..].
Qed.

Lemma good_effect w j th ok st' ls' s' : world_ok w -> threads w !! j = Some th ->
  thread_step (tid th) (stage_of th) ok (listeners th) (shared w) = Some (st', ls', s') ->
  effect (stage_of th) (listeners th) (shared w) st' ls' s'.
Proof.
  intros Hw Hj E. pose proof (advance_good w j th ok _ Hw Hj E) as [(_ & Hok & _) _]. simpl in Hok.
  eapply thread_step_effect; [|by intros ->|exact E]. apply (wo_thread w Hw). by eapply list_elem_of_lookup_2.
Qed.

Lemma hash_exec_ok a w w' : world_ok w -> hash_exec a w = Some w' -> world_ok w'.
Proof.
  intros Hw E. destruct a as [id|j|j|j ok]; simpl in E.
  - destruct (valid_id id) eqn:Hv; [|done]. case_bool_decide as Hn; [|done]. injection E as <-. by apply arrive_ok.
  - destruct (threads w !! j) as [th|] eqn:Hj; [|done]. destruct (between_calls (stage_of th)) eqn:Hb; [|done]. injection E as <-.
    by apply move_ok; auto.
  - destruct (threads w !! j) as [th|] eqn:Hj; [|done]. destruct (between_calls (stage_of th)) eqn:Hb; [|done]. injection E as <-.
    by apply move_ok; auto.
  - destruct (threads w !! j) as [th|] eqn:Hj; [|done]. destruct (thread_step _ _ _ _ _) as [[[st' ls'] s']|] eqn:E'; [|done].
    injection E as <-. pose proof (advance_good w j th ok _ Hw Hj E') as Hg.
    apply hash_step_ok; [done..| |done|by eapply good_effect|].
    + intros Eg. rewrite Eg in E'. done.
    + intros ->. apply thread_step_gone in E' as (El & -> & Est).
      destruct (wo_thread w Hw th ltac:(by eapply list_elem_of_lookup_2)) as (_ & Hok & _). by rewrite El, Est in Hok.
Qed.

Lemma empty_ok : world_ok empty_world.
Proof.
  split.
  - split; [|done|simpl; lia]. intros [|i] t; [|done]. intros [= <-]. split; [done|]. exists 5. by split.
  - intros th Hth. by apply not_elem_of_nil in Hth.
  - constructor.
  - intros [|i] t x e; [|done]. intros [= <-] [-> _]%lookup_replicate. simpl. unfold invalid_thread_id. lia.
  - done.
  - constructor.
  - intros p. split; [by intros ?%not_elem_of_nil|]. by intros (i & _ & ?).
Qed.

Lemma hash_run_ok l w w' : world_ok w -> hash_run l w = Some w' -> world_ok w'.
Proof.
  revert w. induction l as [|a l IH]; intros w Hw; simpl; [by intros [= <-]|].
  destruct (hash_exec a w) as [w1|] eqn:E; [|done]. apply IH. by eapply hash_exec_ok.
Qed.

(** ** A thread keeps its producer *)

Lemma thread_ok_short s id st ls : thread_ok s id st ls -> (length ls <= 1)%nat.
Proof.
  assert (resting s id ls -> (length ls <= 1)%nat) as Hr by (destruct ls as [|? [|]]; simpl; [lia..|done]).
  destruct st; simpl; intros H; try done; destruct_and?; subst; simpl; try lia; by apply Hr.
Qed.

Lemma thread_step_retire s id st ok ls st' s' : thread_step id st ok ls s = Some (st', [], s') ->
  ls = [] \/ st' = Leave \/ st' = Lost.
Proof.
  intros E. destruct st; try discriminate; cbn -[grow_capacity cas_key] in E;
    unfold at_slot, at_hash, search_from, erase_from, insert_loop, try_insert in E; open_step E; simplify_eq; auto.
Qed.

Definition keeps_producer (p : nat) th : Prop :=
  listeners th = [p] \/ listeners th = [] /\ (stage_of th = Leave \/ stage_of th = Gone).

Lemma exec_keeps a w w' j th p : world_ok w -> threads w !! j = Some th -> keeps_producer p th -> hash_exec a w = Some w' ->
  exists th', threads w' !! j = Some th' /\ keeps_producer p th'.
Proof.
  intros Hw Hj Hk E. assert (forall th2 j2 s' th', threads w !! j2 = Some th2 -> (j2 = j -> keeps_producer p th') ->
    exists th'0, threads (mkWorld s' (<[j2 := th']> (threads w))) !! j = Some th'0 /\ keeps_producer p th'0) as Hins.
  { intros th2 j2 s' th' Hj2 Hp. simpl. destruct (decide (j2 = j)) as [->|].
    - exists th'. rewrite list_lookup_insert_eq by (by eapply lookup_lt_Some). auto.
    - exists th. by rewrite list_lookup_insert_ne. }
  destruct a as [id|j2|j2|j2 ok]; simpl in E.
  - case_match; [|done]. injection E as <-. exists th. simpl. split; [by apply lookup_app_l_Some|done].
  - destruct (threads w !! j2) as [th2|] eqn:Hj2; [|done]. destruct (between_calls _) eqn:Hb; [|done]. injection E as <-.
    eapply Hins; [done|]. intros ->. simplify_eq. destruct Hk as [?|(_ & [Hs|Hs])]; [by left|by rewrite Hs in Hb..].
  - destruct (threads w !! j2) as [th2|] eqn:Hj2; [|done]. destruct (between_calls _) eqn:Hb; [|done]. injection E as <-.
    eapply Hins; [done|]. intros ->. simplify_eq. destruct Hk as [?|(_ & [Hs|Hs])]; [by left|by rewrite Hs in Hb..].
  - destruct (threads w !! j2) as [th2|] eqn:Hj2; [|done]. destruct (thread_step _ _ _ _ _) as [[[st' ls'] s']|] eqn:E'; [|done].
    injection E as <-. eapply Hins; [done|]. intros ->. rewrite Hj2 in Hj. injection Hj as ->.
    destruct Hk as [Hl|(Hl & [Hs|Hs])]; [| |by rewrite Hs in E'].
    + pose proof (advance_good w j th ok _ Hw Hj2 E') as [(_ & Hok & _) _]. pose proof (thread_ok_short _ _ _ _ Hok) as Hlen.
      pose proof (good_effect w j th ok _ _ _ Hw Hj2 E') as He. rewrite Hl in *. simpl in Hok, Hlen.
      pose proof (ef_producer _ _ _ _ _ _ He) as Hps. inversion Hps; subst; simpl in *; [by left|lia|lia|right; split; [done|]].
      destruct (thread_step_retire _ _ _ _ _ _ _ E') as [?|[?|?]]; [done|by left|by subst].
    + rewrite Hs, Hl in E'. simpl in E'. injection E' as <- <- <-. right. auto.
Qed.

Lemma run_keeps l w w' j th p : world_ok w -> threads w !! j = Some th -> keeps_producer p th -> hash_run l w = Some w' ->
  exists th', threads w' !! j = Some th' /\ keeps_producer p th'.
Proof.
  revert w th. induction l as [|a l IH]; intros w th Hw Hj Hk; simpl; [intros [= <-]; eauto|].
  destruct (hash_exec a w) as [w1|] eqn:E; [|done]. destruct (exec_keeps a w w1 j th p Hw Hj Hk E) as (th1 & Hj1 & Hk1).
  by apply (IH w1 th1); [eapply hash_exec_ok|..].
Qed.
