(* ===== verification/ProducerHashCount.v ===== *)
(** * The count of the table of producers

    The count covers every thread that has drawn a place and not settled it, so it never wraps;
    and a new table always has a capacity that fits.  Hence no thread is stuck. *)

From S2P Require Import Prelude ProducerHash ProducerHashProofs ProducerHashInvariant ProducerHashSteps ProducerHashTheorems.
From stdpp Require Import base list.
From Stdlib Require Import ZArith Lia.
Local Open Scope Z_scope.
Implicit Types (s : Shared) (t : ImplicitProducerHash) (e : ImplicitProducerKVP) (w : World) (th : Thread) (ts : list Thread).

(** ** The capacity of a new table *)

Lemma grow_total fuel n k : 0 <= n < 2 ^ 62 -> 0 <= k <= 63 -> 63 - k <= Z.of_nat fuel ->
  exists c, grow_capacity fuel n (2 ^ k) = Some c /\ 2 ^ k <= c /\ n < Z.shiftr c 1.
Proof.
  intros Hn. revert k. induction fuel as [|fuel IH]; intros k Hk Hf; cbn [grow_capacity].
  - assert (k = 63) as -> by lia. change (Z.shiftr (2 ^ 63) 1) with (2 ^ 62).
    replace (2 ^ 62 <=? n) with false by lia. exists (2 ^ 63). split; [done|]. split; [done|]. change (Z.shiftr (2 ^ 63) 1) with (2 ^ 62). lia.
  - destruct (Z.leb_spec (Z.shiftr (2 ^ k) 1) n) as [Hle|Hlt]; [|exists (2 ^ k); split; [done|]; split; [lia|done]].
    assert (k <> 63) as Hne by (intros ->; change (Z.shiftr (2 ^ 63) 1) with (2 ^ 62) in Hle; lia).
    assert (u64 (Z.shiftl (2 ^ k) 1) = 2 ^ (k + 1)) as ->.
    { rewrite Z.shiftl_mul_pow2, <- Z.pow_add_r by lia. unfold wrapU. apply Z.mod_small.
      split; [apply Z.pow_nonneg; lia|]. apply Z.pow_lt_mono_r; lia. }
    destruct (IH (k + 1)) as (c & Hc & Hle' & Hlt); [lia..|]. exists c. split; [done|]. split; [|done].
    assert (2 ^ k <= 2 ^ (k + 1)) by (apply Z.pow_le_mono_r; lia). lia.
Qed.

(** What is allocated when the count [n] has reached half of [t]. *)
Lemma grow_table n t : 0 <= n < 2 ^ 62 -> hash_ok t -> Z.shiftr (capacity t) 1 <= n ->
  exists c, grow_capacity 64 n (u64 (Z.shiftl (capacity t) 1)) = Some c /\ capacity t <= c /\ n < Z.shiftr c 1.
Proof.
  intros Hn (k & Hk & ->) Hle.
  assert (k <= 62) as Hk62.
  { destruct (decide (k <= 62)); [done|]. exfalso. rewrite Z.shiftr_div_pow2 in Hle by lia.
    assert (2 ^ 63 <= 2 ^ k) by (apply Z.pow_le_mono_r; lia).
    assert (2 ^ 63 / 2 ^ 1 <= 2 ^ k / 2 ^ 1) by (apply Z.div_le_mono; lia). change (2 ^ 63 / 2 ^ 1) with (2 ^ 62) in *. lia. }
  assert (u64 (Z.shiftl (2 ^ k) 1) = 2 ^ (k + 1)) as ->.
  { rewrite Z.shiftl_mul_pow2, <- Z.pow_add_r by lia. unfold wrapU. apply Z.mod_small.
    split; [apply Z.pow_nonneg; lia|]. apply Z.pow_lt_mono_r; lia. }
  destruct (grow_total 64 n (k + 1)) as (c & Hc & H1 & H2); [done|lia|lia|]. exists c. split; [done|]. split; [|done].
  assert (2 ^ k <= 2 ^ (k + 1)) by (apply Z.pow_le_mono_r; lia). lia.
Qed.

(** ** The count *)

(** The thread has drawn its place in the count, and neither given it back nor taken a slot. *)
Definition drawn (st : stage) : bool :=
  match st with
  | TestAndSet _ _ | Reload _ | Allocate _ _ | GiveBack | Publish _ _ _ | Unlock _ _ | Recycle _ | NoProducer
  | ClaimReusable _ _ _ | Uncount _ _ _ | ClaimEmpty _ _ _ | Wait _ => true
  | _ => false
  end.
Definition drawing ts : Z := zsum (fun th => bit (drawn (stage_of th))) ts.

(** The places drawn are at most [n]; a table is allocated when half of the current one is spoken
    for, and then there is room in the new one. *)
Definition bounded s (n : Z) (st : stage) : Prop :=
  match st with
  | TestAndSet _ c | Reload c | Wait c => c <= n
  | Publish _ c c' => c <= n /\ c < Z.shiftr c' 1
  | Unlock m c => c <= n /\ forall t, look s m = Some t -> c < Z.shiftr (capacity t) 1
  | Allocate m c => c <= n /\ forall t, look s m = Some t -> Z.shiftr (capacity t) 1 <= c
  | _ => True
  end.

Record counted (n : Z) w : Prop := {
  ct_range : drawing (threads w) <= implicitProducerHashCount (shared w) <= n;
  ct_stage th : th ∈ threads w -> bounded (shared w) n (stage_of th)
}.

Lemma u64_pred c : 1 <= c < 2 ^ 64 -> u64 (c - 1) = c - 1.
Proof. intros. unfold wrapU. apply Z.mod_small. lia. Qed.
Lemma u64_succ c : 0 <= c < 2 ^ 64 - 1 -> u64 (c + 1) = c + 1 /\ u64 (1 + c) = c + 1.
Proof. intros. unfold wrapU. rewrite (Z.add_comm 1). rewrite Z.mod_small by lia. done. Qed.

Lemma try_insert_drawn m n t : drawn (try_insert m n t) = true.
Proof. unfold try_insert. by destruct (_ <? _). Qed.
Lemma insert_loop_drawn m n t : drawn (insert_loop m n t) = true.
Proof. unfold insert_loop. destruct (_ <=? _); [done|apply try_insert_drawn]. Qed.
Lemma search_from_drawn m h x : drawn (search_from m h x) = false.
Proof. by destruct h. Qed.
Lemma erase_from_drawn m h x : drawn (erase_from m h x) = false.
Proof. by destruct h. Qed.

(** What a step does to the count. *)
Lemma thread_step_count s id st ok ls st' ls' s' :
  0 <= implicitProducerHashCount s < 2 ^ 63 -> (drawn st = true -> 1 <= implicitProducerHashCount s) -> st' <> Lost ->
  thread_step id st ok ls s = Some (st', ls', s') ->
  implicitProducerHashCount s - bit (drawn st) <= implicitProducerHashCount s' - bit (drawn st') /\
  implicitProducerHashCount s' <= implicitProducerHashCount s + 1.
Proof.
  intros Hc Hd Hl E. destruct st; try discriminate; cbn -[grow_capacity cas_key wrapU] in E; unfold at_slot, at_hash in E;
    open_step E; repeat match goal with H : cas_key _ _ _ _ _ _ = Some _ |- _ => apply cas_key_some in H as -> end;
    simplify_eq; try (by destruct Hl);
    cbn -[wrapU search_from erase_from insert_loop try_insert]; rewrite ?try_insert_drawn, ?insert_loop_drawn, ?search_from_drawn, ?erase_from_drawn; cbn -[wrapU];
    try lia; try (rewrite u64_pred by (specialize (Hd eq_refl); lia); lia).
  destruct (u64_succ (implicitProducerHashCount s)) as [-> _]; lia.
Qed.

(** What a step does to the bounds. *)
Lemma try_insert_bounded s n m c t : c <= n -> bounded s n (try_insert m c t).
Proof. unfold try_insert. by destruct (_ <? _). Qed.
Lemma insert_loop_bounded s n m c t : c <= n -> bounded s n (insert_loop m c t).
Proof. unfold insert_loop. destruct (_ <=? _); [done|apply try_insert_bounded]. Qed.
Lemma bounded_weaken s n n' st : n <= n' -> bounded s n st -> bounded s n' st.
Proof. destruct st; simpl; intros; destruct_and?; split_and?; try done; lia. Qed.

Lemma grow_result fuel n c c' : grow_capacity fuel n c = Some c' -> n < Z.shiftr c' 1.
Proof.
  revert c. induction fuel as [|fuel IH]; intros c; cbn [grow_capacity]; destruct (Z.leb_spec (Z.shiftr c 1) n); try done;
    try (by intros [= <-]). apply IH.
Qed.

Lemma bounded_stable id s s' n st : evolves id s s' -> is_Some (look s match st with Allocate m _ | Unlock m _ => m | _ => 1%nat end) ->
  bounded s n st -> bounded s' n st.
Proof.
  intros Ev Hm. destruct st; try done; simpl; intros [H1 H2]; (split; [done|]); intros t' Ht';
    destruct Hm as [t Ht]; destruct (look_stable id s s' Ev _ t Ht) as (t2 & Ht2 & U); simplify_eq;
    rewrite (um_capacity _ _ _ U); by apply H2.
Qed.

Lemma thread_step_bounded s id st ok ls st' ls' s' n :
  bounded s n st -> count_ok st -> 0 <= implicitProducerHashCount s <= n -> n < 2 ^ 62 ->
  thread_step id st ok ls s = Some (st', ls', s') -> bounded s' (n + 1) st'.
Proof.
  intros Hb Hk Hc Hn E. destruct st; try discriminate; cbn -[grow_capacity cas_key wrapU search_from erase_from insert_loop try_insert] in E;
    unfold at_slot, at_hash in E; open_step E; simplify_eq; try done;
    cbn -[grow_capacity wrapU search_from erase_from insert_loop try_insert] in *; try lia;
    try (apply insert_loop_bounded; lia); try (apply try_insert_bounded; lia);
    try (unfold search_from, erase_from; by destruct (prev _)).
  - by destruct (implicitProducerHash s').
  - apply insert_loop_bounded. destruct (u64_succ (implicitProducerHashCount s)) as [_ ->]; lia.
  - split; [lia|]. intros t Ht. rewrite Heqo in Ht. injection Ht as <-. lia.
  - split; [lia|]. intros t Ht. rewrite Heqo in Ht. injection Ht as <-. lia.
  - split; [lia|]. by eapply grow_result.
  - split; [lia|]. by eapply grow_result.
  - destruct Hb as [H1 H2]. split; [lia|]. intros t Ht. rewrite lookup_app_r, Nat.sub_diag in Ht by lia. injection Ht as <-.
    unfold capacity, new_hash. simpl. rewrite length_replicate, Z2Nat.id; [done|].
    rewrite Z.shiftr_div_pow2 in H2 by lia. destruct (decide (0 <= newCapacity)); [done|].
    assert (newCapacity / 2 ^ 1 < 0) by (apply Z.div_lt_upper_bound; lia). lia.
  - by destruct (implicitProducerHash s').
Qed.

Lemma drawing_pos th ts : th ∈ ts -> drawn (stage_of th) = true -> 1 <= drawing ts.
Proof.
  intros H Hl. assert (bit (drawn (stage_of th)) <= drawing ts) as Hle; [|by rewrite Hl in Hle].
  apply (zsum_elem_le (fun th => bit (drawn (stage_of th)))); [|done]. intros y _. destruct (drawn (stage_of y)); simpl; lia.
Qed.

Lemma drawing_nonneg ts : 0 <= drawing ts.
Proof. apply zsum_nonneg. intros y _. destruct (drawn (stage_of y)); simpl; lia. Qed.

Lemma bounded_table w th : world_ok w -> th ∈ threads w ->
  is_Some (look (shared w) match stage_of th with Allocate m _ | Unlock m _ => m | _ => 1%nat end).
Proof.
  intros Hw Hth. pose proof (wo_thread w Hw th Hth) as (_ & Hok & _).
  assert (is_Some (look (shared w) 1)) as H1 by (apply lookup_lt_is_Some, Hw).
  destruct (stage_of th); try done; apply Hok.
Qed.

(** A step of a thread keeps the count, with the step in it. *)
Lemma advance_counted n w j th ok st' ls' s' :
  world_ok w -> counted n w -> n < 2 ^ 62 -> threads w !! j = Some th ->
  thread_step (tid th) (stage_of th) ok (listeners th) (shared w) = Some (st', ls', s') ->
  counted (n + 1) (mkWorld s' (<[j := mkThread (tid th) st' ls']> (threads w))).
Proof.
  intros Hw [Hc Hst] Hn Hj E. pose proof (advance_good w j th ok _ Hw Hj E) as [(Hs' & Hok' & _) Hh]. simpl in Hok', Hh.
  assert (th ∈ threads w) as Hth by (by eapply list_elem_of_lookup_2).
  pose proof (drawing_nonneg (threads w)) as Hnn.
  assert (drawn (stage_of th) = true -> 1 <= implicitProducerHashCount (shared w)) as Hd
    by (intros Hd; pose proof (drawing_pos th _ Hth Hd); lia).
  assert (st' <> Lost) as Hnl by (by intros ->).
  destruct (thread_step_count (shared w) _ _ _ _ _ _ _ ltac:(lia) Hd Hnl E) as [H1 H2].
  assert (stage_of th <> Gone) as Hng by (intros Eg; by rewrite Eg in E).
  split; simpl.
  - unfold drawing in *. rewrite (step_after w j th Hj st' ls'), zsum_cons. rewrite (step_before w j th Hj), zsum_cons in Hc. simpl. lia.
  - intros x. rewrite (step_after w j th Hj st' ls'). intros [->|Hx]%elem_of_cons.
    + simpl. eapply thread_step_bounded; [by apply Hst| |lia|done|exact E]. by apply (wo_thread w Hw).
    + assert (x ∈ threads w) as Hxw by (rewrite (step_before w j th Hj); by right).
      destruct (decide (stage_of x = Gone)) as [Eg|Eg]; [by rewrite Eg|].
      apply (bounded_weaken _ n); [lia|]. eapply (bounded_stable (tid x)); [|by apply bounded_table|by apply Hst].
      apply Hh; [|apply (wo_thread w Hw x Hxw)]. intros Eid. apply (step_fresh w j th Hw Hj Hng). rewrite <- Eid. by apply elem_of_living.
Qed.

Lemma exec_counted n a w w' : world_ok w -> counted n w -> n < 2 ^ 62 -> hash_exec a w = Some w' -> counted (n + 1) w'.
Proof.
  intros Hw Hct Hn E. pose proof Hct as [Hc Hst].
  assert (forall j th st, threads w !! j = Some th -> between_calls (stage_of th) = true -> drawn st = false ->
    (forall n s, bounded s n st) -> counted (n + 1) (mkWorld (shared w) (<[j := mkThread (tid th) st (listeners th)]> (threads w)))) as Hmove.
  { intros j th st Hj Hb Hd Hbd. split; simpl.
    - unfold drawing in *. rewrite (step_after w j th Hj st _), zsum_cons. rewrite (step_before w j th Hj), zsum_cons in Hc. simpl.
      rewrite Hd. by destruct (stage_of th); simpl in *; try lia.
    - intros x. rewrite (step_after w j th Hj st _). intros [->|Hx]%elem_of_cons; [apply Hbd|].
      apply (bounded_weaken _ n); [lia|]. apply Hst. rewrite (step_before w j th Hj). by right. }
  destruct a as [id|j|j|j ok]; simpl in E.
  - case_match; [|done]. injection E as <-. split; simpl.
    + unfold drawing in *. rewrite zsum_app. simpl. lia.
    + intros x [Hx|Hx]%elem_of_app; [apply (bounded_weaken _ n); [lia|by apply Hst]|]. by apply list_elem_of_singleton in Hx as ->.
  - destruct (threads w !! j) as [th|] eqn:Hj; [|done]. destruct (between_calls (stage_of th)) eqn:Hb; [|done]. injection E as <-. by apply Hmove.
  - destruct (threads w !! j) as [th|] eqn:Hj; [|done]. destruct (between_calls (stage_of th)) eqn:Hb; [|done]. injection E as <-. by apply Hmove.
  - destruct (threads w !! j) as [th|] eqn:Hj; [|done]. destruct (thread_step _ _ _ _ _) as [[[st' ls'] s']|] eqn:E'; [|done].
    injection E as <-. by eapply advance_counted.
Qed.

Lemma run_counted l n w w' : world_ok w -> counted n w -> n + Z.of_nat (length l) < 2 ^ 62 -> hash_run l w = Some w' ->
  counted (n + Z.of_nat (length l)) w'.
Proof.
  revert n w. induction l as [|a l IH]; intros n w Hw Hc Hn; simpl; [intros [= <-]; by rewrite Z.add_0_r|].
  destruct (hash_exec a w) as [w1|] eqn:E; [|done]. intros Hrun. simpl length in *.
  replace (n + Z.of_nat (S (length l))) with ((n + 1) + Z.of_nat (length l)) by lia.
  eapply IH; [by eapply hash_exec_ok|eapply exec_counted; [done..|lia|done]|lia|done].
Qed.

Lemma empty_counted : counted 0 empty_world.
Proof. split; [done|]. intros th Hth. by apply not_elem_of_nil in Hth. Qed.

(** ** No thread is stuck *)

(** The producer that [recycle_or_create_producer] is said to find is inactive. *)
Definition fair (ok : luck) s : Prop := match ok with Reused i => inactive s !! i = Some true | _ => True end.

Lemma thread_step_total s id st ok ls n :
  shape s -> thread_ok s id st ls -> count_ok st -> bounded s n st -> n < 2 ^ 62 -> between_calls st = false -> st <> Gone -> fair ok s ->
  is_Some (thread_step id st ok ls s).
Proof.
  intros Hs Hok Hc Hb Hn Hbt Hg Hf. destruct st; try done; cbn -[grow_capacity wrapU]; try (by eexists).
  - by destruct (implicitProducerHashResizeInProgress s); eexists.
  - cbn in Hok, Hb, Hc. destruct Hok as (_ & _ & [t Ht]), Hb as [Hb1 Hb2].
    destruct (look_shape s _ t Hs Ht) as (_ & Hto & Hm). assert (hashes s !! pred mainHash = Some t) as -> by (by rewrite Hm in Ht).
    destruct (grow_table newCount t) as (c & -> & _); [lia|done|by apply Hb2|]. destruct ok; by eexists.
  - destruct ok as [| |i]; [by eexists..|]. simpl in Hf. rewrite Hf. by eexists.
  - destruct ls; by eexists.
Qed.
