(* ===== verification/ProducerHashRoom.v ===== *)
(** * The tables of producers have room

    As long as no thread has exited, the count is the number of threads that have or are about
    to have an entry, and each has drawn its place in the order of the count: so an entry's place
    is within the bound of its table, and no table fills up ([free_slot]). *)

From S2P Require Import Prelude ProducerHash ProducerHashProofs ProducerHashInvariant ProducerHashSteps ProducerHashTheorems ProducerHashCount.
From stdpp Require Import base list.
From Stdlib Require Import ZArith Lia.
Local Open Scope Z_scope.
Implicit Types (s : Shared) (t : ImplicitProducerHash) (e : ImplicitProducerKVP) (w : World) (th : Thread) (ts : list Thread).

(** ** Room, while no thread exits *)

(** A thread that stays. *)
Definition staying (st : stage) : Prop := match st with Leave | Erase _ _ _ | Retire _ | Gone => False | _ => True end.
(** A thread that has, or is about to have, an entry. *)
Definition claimant (st : stage) (ls : list nat) : bool := match ls with [] => drawn st | _ => true end.
Definition claims ts : Z := zsum (fun th => bit (claimant (stage_of th) (listeners th))) ts.
(** ... whose place in the count is at most [m]. *)
Definition claims_to (rank : Z -> Z) (m : Z) ts : Z :=
  zsum (fun th => bit (claimant (stage_of th) (listeners th) && (rank (tid th) <=? m))) ts.

(** The places of the threads that go into a table. *)
Definition bound t : Z := Z.shiftr (capacity t) 1 + Z.shiftr (capacity t) 2.

(** What the stage of a thread says about its place. *)
Definition ranked s (r : Z) (st : stage) : Prop :=
  match st with
  | TestAndSet _ n | Reload n | Allocate _ n | Unlock _ n | Wait n => r = n
  | Publish m n c => r = n /\ forall t, look s m = Some t -> capacity t <= c
  | Recycle m | ClaimReusable m _ _ | ClaimEmpty m _ _ | Adopt m _ _ | AdoptReusable m _ _ =>
      forall t, look s m = Some t -> r < bound t
  | Uncount _ _ _ => False
  | _ => True
  end.

(** The tables as far as room is concerned: nothing is reusable, the capacities grow, and an
    entry's place is within the bound of its table. *)
Record tables_ranked (rank : Z -> Z) s : Prop := {
  tr_key i t x e : hashes s !! i = Some t -> entries t !! x = Some e -> key e = 0 \/ 1 < key e;
  tr_rank i t x e : hashes s !! i = Some t -> entries t !! x = Some e -> key e <> 0 -> rank (key e) < bound t;
  tr_grow i j t t' : (i <= j)%nat -> hashes s !! i = Some t -> hashes s !! j = Some t' -> capacity t <= capacity t'
}.

Record roomy (rank : Z -> Z) w : Prop := {
  ro_tables : tables_ranked rank (shared w);
  ro_count : implicitProducerHashCount (shared w) = claims (threads w);
  ro_rank m : 0 <= m -> claims_to rank m (threads w) <= m;
  ro_thread th : th ∈ threads w -> staying (stage_of th) /\ ranked (shared w) (rank (tid th)) (stage_of th)
}.

Lemma search_from_claimant m h x ls : claimant (search_from m h x) ls = match ls with [] => false | _ => true end.
Proof. destruct ls; [apply search_from_drawn|done]. Qed.
Lemma try_insert_staying m n t : staying (try_insert m n t).
Proof. unfold try_insert. by destruct (_ <? _). Qed.
Lemma insert_loop_staying m n t : staying (insert_loop m n t).
Proof. unfold insert_loop. destruct (_ <=? _); [done|apply try_insert_staying]. Qed.
Lemma search_from_staying m h x : staying (search_from m h x).
Proof. by destruct h. Qed.

(** A step of a thread that stays makes it stay, and counts its place exactly. *)
Lemma thread_step_claims rank s id st ok ls st' ls' s' :
  ranked s (rank id) st -> thread_ok s id st ls -> staying st -> st' <> Lost ->
  0 <= implicitProducerHashCount s < 2 ^ 63 -> (claimant st ls = true -> 1 <= implicitProducerHashCount s) ->
  thread_step id st ok ls s = Some (st', ls', s') ->
  staying st' /\ implicitProducerHashCount s' - bit (claimant st' ls') = implicitProducerHashCount s - bit (claimant st ls) /\
  (claimant st' ls' = true -> claimant st ls = true \/ exists m, st = Draw m).
Proof.
  intros Hr Hok Hst Hl Hc Hd E. destruct st; try discriminate; try done; cbn -[grow_capacity cas_key wrapU] in E;
    unfold at_slot, at_hash in E; open_step E;
    repeat match goal with H : cas_key _ _ _ _ _ _ = Some _ |- _ => pose proof H; apply cas_key_some in H as -> end;
    simplify_eq; try (by destruct Hl); cbn in Hok; destruct_and?; subst;
    cbn -[wrapU search_from insert_loop try_insert] in *;
    rewrite ?try_insert_drawn, ?insert_loop_drawn, ?search_from_drawn.
  all: split_and!; eauto using try_insert_staying, insert_loop_staying, search_from_staying;
    rewrite ?search_from_claimant; try (destruct ls'; auto; fail); try (rewrite u64_pred by (specialize (Hd eq_refl); lia); lia).
  rewrite (proj1 (u64_succ (implicitProducerHashCount s) ltac:(lia))). simpl. lia.
Qed.

Lemma bound_mono t t' : capacity t <= capacity t' -> bound t <= bound t'.
Proof.
  intros H. unfold bound. rewrite !Z.shiftr_div_pow2 by lia.
  assert (capacity t / 2 ^ 1 <= capacity t' / 2 ^ 1) by (apply Z.div_le_mono; lia).
  assert (capacity t / 2 ^ 2 <= capacity t' / 2 ^ 2) by (apply Z.div_le_mono; lia). lia.
Qed.

Lemma try_insert_ranked s m n t : look s m = Some t -> ranked s n (try_insert m n t).
Proof.
  intros Ht. unfold try_insert. destruct (Z.ltb_spec n (Z.shiftr (capacity t) 1 + Z.shiftr (capacity t) 2)); [|done].
  simpl. intros t' Ht'. by simplify_eq.
Qed.
Lemma insert_loop_ranked s m n t : look s m = Some t -> ranked s n (insert_loop m n t).
Proof. intros Ht. unfold insert_loop. destruct (_ <=? _); [done|by apply try_insert_ranked]. Qed.

(** The tables as they were, as far as places are concerned. *)
Lemma ranked_same s s' r st : hashes s' = hashes s -> ranked s r st -> ranked s' r st.
Proof. intros E. unfold ranked, look. by rewrite E. Qed.

(** An entry found in an older table may go into the current one. *)
Lemma found_ranked rank s id m h t x e : shape s -> tables_ranked rank s -> (h <= m)%nat -> look s h = Some t ->
  entries t !! x = Some e -> key e = id -> id <> 0 -> forall t', look s m = Some t' -> rank id < bound t'.
Proof.
  intros Hs Htr Hle Ht He Hk Hid t' Ht'. destruct h as [|h], m as [|m]; try done. simpl in *.
  pose proof (tr_rank _ _ Htr h t x e Ht He ltac:(congruence)) as Hr. rewrite Hk in Hr.
  pose proof (bound_mono _ _ (tr_grow _ _ Htr h m t t' ltac:(lia) Ht Ht')). lia.
Qed.

Lemma draw_ranked s id m ok ls st' ls' s' : is_Some (look s m) -> 0 <= implicitProducerHashCount s < 2 ^ 63 ->
  insert_step id (Draw m) ok ls s = Some (st', ls', s') -> ranked s' (implicitProducerHashCount s + 1) st'.
Proof.
  intros [t Ht] Hc E. cbn -[wrapU] in E. rewrite (at_hash_look (set_count _ s) m _ t Ht) in E. injection E as <- <- <-.
  rewrite (proj2 (u64_succ (implicitProducerHashCount s) ltac:(lia))). by apply insert_loop_ranked.
Qed.

Section Ranked.
Context (rank : Z -> Z) s (id : Z) (Hs : shape s) (Htr : tables_ranked rank s) (Hid : 1 < id).

Lemma search_ranked st ls st' ls' s' : thread_ok s id st ls -> ranked s (rank id) st -> st' <> Lost ->
  search_step id st ls s = Some (st', ls', s') -> ranked s' (rank id) st'.
Proof.
  intros Hok Hr Hl E. destruct st; try discriminate; cbn -[cas_key] in E; unfold at_slot, at_hash in E; open_step E;
    simplify_eq; try done; try (by destruct Hl); try (unfold search_from; by destruct (prev _)); simpl in *.
  - by destruct (implicitProducerHash s').
  - destruct Hok as (_ & _ & Hle & _). zbool. eapply (found_ranked rank s' _ mainHash (S n)); try done; lia.
Qed.

Lemma allocate_ranked n m c ok ls st' ls' s' : thread_ok s id (Allocate m c) ls -> ranked s (rank id) (Allocate m c) -> 0 <= c ->
  bounded s n (Allocate m c) -> n < 2 ^ 62 -> resize_step (Allocate m c) ok ls s = Some (st', ls', s') -> ranked s' (rank id) st'.
Proof.
  intros (_ & _ & t & Ht) Hr Hc [Hb1 Hb2] Hn E. destruct (look_shape s _ t Hs Ht) as (_ & Hto & Hm). cbn -[grow_capacity wrapU] in E.
  assert (hashes s !! pred m = Some t) as Ht' by (by rewrite Hm in Ht). rewrite Ht' in E.
  destruct (grow_table c t) as (c' & Ec & Hle & _); [lia|done|by apply Hb2|]. rewrite Ec in E.
  assert (ranked s (rank id) (Publish m c c')) as Hp by (split; [done|]; intros t' Htt; by simplify_eq).
  destruct ok; by simplify_eq.
Qed.

Lemma resize_ranked n st ok ls st' ls' s' : thread_ok s id st ls -> ranked s (rank id) st -> count_ok st -> bounded s n st -> n < 2 ^ 62 ->
  st' <> Lost -> resize_step st ok ls s = Some (st', ls', s') -> ranked s' (rank id) st'.
Proof.
  intros Hok Hr Hc Hb Hn Hl E.
  destruct st as [| | | | | | | |m c| | | | | | | | | | | | | | | | |]; try discriminate; try (by eapply (allocate_ranked n m c));
    cbn -[grow_capacity wrapU] in E; unfold at_hash in E; open_step E; simplify_eq; try done; try (by destruct Hl);
    cbn -[grow_capacity wrapU try_insert] in *; try (subst; by apply try_insert_ranked); by destruct Hr.
Qed.

Lemma insert_ranked st ok ls st' ls' s' : thread_ok s id st ls -> ranked s (rank id) st -> (forall m, st <> Draw m) ->
  st' <> Lost -> insert_step id st ok ls s = Some (st', ls', s') -> ranked s' (rank id) st'.
Proof.
  intros Hok Hr Hd Hl E. destruct st; try discriminate; cbn -[wrapU cas_key] in E; unfold at_slot, at_hash in E; open_step E;
    simplify_eq; try done; try (by destruct Hl); simpl in *.
  - by destruct (Hd (S n)).
  - unfold cas_key, invalid_thread_id2 in Heqo1. destruct (Z.eqb_spec (key i0) 1) as [E|]; [|done].
    destruct (tr_key _ _ Htr n i _ i0 Heqo Heqo0); lia.
  - subst. by apply insert_loop_ranked.
Qed.
End Ranked.

(** *** The tables after a step *)

Lemma tables_ranked_same rank s s' : hashes s' = hashes s -> tables_ranked rank s -> tables_ranked rank s'.
Proof. intros E [H1 H2 H3]. split; rewrite E; done. Qed.

Lemma tables_ranked_update rank s i x f t e :
  hashes s !! i = Some t -> entries t !! x = Some e -> key (f e) = 0 \/ 1 < key (f e) -> (key (f e) <> 0 -> rank (key (f e)) < bound t) ->
  tables_ranked rank s -> tables_ranked rank (update_slot i x f s).
Proof.
  intros Ht He H1 H2 Htr.
  assert (forall i' t', hashes (update_slot i x f s) !! i' = Some t' -> exists t0, hashes s !! i' = Some t0 /\ capacity t' = capacity t0 /\
    forall y e', entries t' !! y = Some e' -> entries t0 !! y = Some e' \/ e' = f e /\ t0 = t) as Hlook.
  { intros i' t' [[-> ->]|[Hne H]]%(upd_lookup _ _ _ _ _ Ht).
    - exists t. split; [done|]. split; [unfold capacity, updated; simpl; by rewrite length_alter|]. intros y e' He'.
      destruct (decide (y = x)) as [->|Hy]; [right|left; by rewrite upd_entry_ne in He'].
      rewrite (upd_entry _ _ _ _ He) in He'. split; congruence.
    - exists t'. auto. }
  assert (forall t1 t2, capacity t1 = capacity t2 -> bound t1 = bound t2) as Hb by (intros t1 t2 E; unfold bound; by rewrite E).
  split.
  - intros i' t' y e' (t0 & Ht0 & _ & Hent)%Hlook He'. destruct (Hent y e' He') as [Ho|[-> _]]; [|done]. by apply (tr_key _ _ Htr i' t0 y).
  - intros i' t' y e' (t0 & Ht0 & Hcap & Hent)%Hlook He' Hk. rewrite (Hb _ _ Hcap).
    destruct (Hent y e' He') as [Ho|[-> ->]]; [by apply (tr_rank _ _ Htr i' t0 y)|by apply H2].
  - intros i1 i2 t1 t2 Hle (t3 & H3 & -> & _)%Hlook (t4 & H4 & -> & _)%Hlook. by apply (tr_grow _ _ Htr i1 i2).
Qed.

Lemma tables_ranked_publish rank s m c p : tables_ranked rank s -> 0 < c -> (0 < length (hashes s))%nat ->
  (forall t, hashes s !! pred (length (hashes s)) = Some t -> capacity t <= c) ->
  tables_ranked rank (set_main p (set_hashes (hashes s ++ [new_hash (Z.to_nat c) m]) s)).
Proof.
  intros Htr Hc Hlen Hlast. set (t0 := new_hash _ _).
  assert (capacity t0 = c) as Hcap by (unfold capacity, t0, new_hash; simpl; rewrite length_replicate; lia).
  assert (forall i t, (hashes s ++ [t0]) !! i = Some t -> hashes s !! i = Some t \/ i = length (hashes s) /\ t = t0) as Hlook.
  { intros i t H. apply lookup_app_Some in H as [H|[Hge H]]; [by left|right].
    apply list_lookup_singleton_Some in H as [? <-]. split; [lia|done]. }
  split; simpl.
  - intros i t x e [H|[_ ->]]%Hlook He; [by apply (tr_key _ _ Htr i t x)|]. apply lookup_replicate in He as [-> _]. by left.
  - intros i t x e [H|[_ ->]]%Hlook He Hk; [by apply (tr_rank _ _ Htr i t x)|]. by apply lookup_replicate in He as [-> _].
  - intros i j t t' Hij [Hi|[-> ->]]%Hlook [Hj|[-> ->]]%Hlook.
    + by apply (tr_grow _ _ Htr i j).
    + assert (is_Some (hashes s !! pred (length (hashes s)))) as [tl Htl] by (apply lookup_lt_is_Some; lia).
      pose proof (Hlast tl Htl). pose proof (lookup_lt_Some _ _ _ Hi).
      pose proof (tr_grow _ _ Htr i (pred (length (hashes s))) t tl ltac:(lia) Hi Htl). lia.
    + apply lookup_lt_Some in Hj. lia.
    + done.
Qed.

Lemma cas_ranked rank s id i x e k s' t : tables_ranked rank s -> 1 < id -> hashes s !! i = Some t ->
  entries t !! Z.to_nat x = Some e -> rank id < bound t -> cas_key i x e k id s = Some s' -> tables_ranked rank s'.
Proof.
  intros Htr Hid Ht He Hr ->%cas_key_some. eapply tables_ranked_update; [exact Ht|exact He|simpl; lia|done|done].
Qed.

Lemma thread_step_tables rank s id st ok ls st' ls' s' :
  shape s -> 1 < id -> tables_ranked rank s -> thread_ok s id st ls -> ranked s (rank id) st -> staying st -> lock_fact s st ->
  st' <> Lost -> thread_step id st ok ls s = Some (st', ls', s') -> tables_ranked rank s'.
Proof.
  intros Hs Hid Htr Hok Hr Hst Hlf Hl E. destruct st; try discriminate; try done; cbn -[grow_capacity cas_key wrapU] in E;
    unfold at_slot, at_hash in E; open_step E; simplify_eq; try done; try (by destruct Hl);
    try (eapply tables_ranked_same; [|exact Htr]; done);
    try (simpl in Hr; eapply cas_ranked; [exact Htr|exact Hid|eassumption|eassumption|by apply Hr|eassumption]).
  - destruct Hok as (_ & _ & [t Ht] & (k & Hk & ->)). simpl in Hlf, Hr. subst.
    destruct (look_shape s _ t Hs Ht) as (_ & _ & Hm). apply tables_ranked_publish; [done|by apply Z.pow_pos_nonneg|lia|].
    intros t' Ht'. apply Hr. rewrite Hm in *. exact Ht'.
  - eapply tables_ranked_update; [eassumption|eassumption| | |done].
    + simpl. eapply (tr_key _ _ Htr n i); eassumption.
    + simpl. eapply (tr_rank _ _ Htr n i); eassumption.
Qed.

(** *** The threads after a step *)

Lemma ranked_stable id s s' r st ls : evolves id s s' -> thread_ok s id st ls -> ranked s r st -> ranked s' r st.
Proof.
  intros Ev Hok Hr.
  assert (forall m, is_Some (look s m) -> forall t', look s' m = Some t' -> exists t, look s m = Some t /\ capacity t' = capacity t) as Hlook.
  { intros m [t Ht] t' Ht'. destruct (look_stable id s s' Ev m t Ht) as (t2 & Ht2 & U). exists t. split; [done|].
    rewrite Ht' in Ht2. injection Ht2 as ->. apply (um_capacity _ _ _ U). }
  assert (forall m, is_Some (look s m) -> (forall t, look s m = Some t -> r < bound t) -> forall t, look s' m = Some t -> r < bound t) as Hb.
  { intros m Hm H t' Ht'. destruct (Hlook m Hm t' Ht') as (t & Ht & E). pose proof (H t Ht). unfold bound in *. by rewrite E. }
  assert (forall P m x, searching P s id m x -> is_Some (look s m)) as Hsearch by (intros P m x (t & ? & _); eauto).
  destruct st; try done; simpl in Hok, Hr |- *; destruct_and?; eauto.
  split; [done|]. intros t' Ht'. destruct (Hlook mainHash ltac:(done) t' Ht') as (t & Ht & ->). auto.
Qed.

Section RoomStep.
Context (rank : Z -> Z) w (j : nat) th (ok : luck) (st' : stage) (ls' : list nat) s' (n : Z).
Context (Hw : world_ok w) (Hct : counted n w) (Hn : n < 2 ^ 62) (Hro : roomy rank w) (Hj : threads w !! j = Some th).
Context (E : thread_step (tid th) (stage_of th) ok (listeners th) (shared w) = Some (st', ls', s')).
Local Notation rest := (delete j (threads w)).
Local Notation th' := (mkThread (tid th) st' ls').

Lemma room_elem : th ∈ threads w.
Proof. by eapply list_elem_of_lookup_2. Qed.

Lemma room_not_lost : st' <> Lost.
Proof. intros ->. by destruct (advance_good w j th ok _ Hw Hj E) as [(_ & Hok & _) _]. Qed.

Lemma room_count : 0 <= implicitProducerHashCount (shared w) < 2 ^ 63.
Proof. pose proof (ct_range _ _ Hct). pose proof (drawing_nonneg (threads w)). lia. Qed.

Lemma claims_nonneg ts : 0 <= claims ts.
Proof. apply zsum_nonneg. intros y _. by destruct (claimant (stage_of y) (listeners y)). Qed.

Lemma room_claims : staying st' /\
  implicitProducerHashCount s' - bit (claimant st' ls') = implicitProducerHashCount (shared w) - bit (claimant (stage_of th) (listeners th)) /\
  (claimant st' ls' = true -> claimant (stage_of th) (listeners th) = true \/ exists m, stage_of th = Draw m).
Proof.
  destruct (ro_thread _ _ Hro th room_elem) as [Hst Hr]. destruct (wo_thread w Hw th room_elem) as (_ & Hok & _).
  eapply thread_step_claims; [exact Hr|exact Hok|exact Hst|exact room_not_lost|exact room_count| |exact E].
  intros Hc. rewrite (ro_count _ _ Hro). unfold claims. rewrite (step_before w j th Hj), zsum_cons, Hc.
  pose proof (claims_nonneg rest) as Hp. unfold claims in Hp. simpl. lia.
Qed.

Lemma room_other x : x ∈ rest -> x ∈ threads w /\ tid x <> tid th /\ 1 < tid x.
Proof.
  intros Hx. assert (x ∈ threads w) as Hxw by (rewrite (step_before w j th Hj); by right).
  destruct (ro_thread _ _ Hro x Hxw) as [Hst _]. split_and!; [done| |apply (wo_thread w Hw x Hxw)].
  intros Eid. apply (step_fresh w j th Hw Hj); [by intros Eg; rewrite Eg in E|]. rewrite <- Eid.
  apply elem_of_living; [done|]. intros Eg. by rewrite Eg in Hst.
Qed.

Lemma room_others rank' : (forall k, k <> tid th -> rank' k = rank k) -> ranked s' (rank' (tid th)) st' ->
  forall x, x ∈ th' :: rest -> staying (stage_of x) /\ ranked s' (rank' (tid x)) (stage_of x).
Proof.
  intros Hrank Hr x [->|Hx]%elem_of_cons; [split; [apply room_claims|done]|].
  destruct (room_other x Hx) as (Hxw & Hne & Hid). destruct (ro_thread _ _ Hro x Hxw) as [Hst Hrx]. split; [done|].
  rewrite Hrank by done. destruct (advance_good w j th ok _ Hw Hj E) as [_ Hh]. simpl in Hh.
  eapply ranked_stable; [by apply Hh| |exact Hrx]. apply (wo_thread w Hw x Hxw).
Qed.

Lemma room_rest rank' m : (forall k, k <> tid th -> rank' k = rank k) -> claims_to rank' m rest = claims_to rank m rest.
Proof. intros Hrank. apply zsum_ext. intros x Hx. destruct (room_other x Hx) as (_ & Hne & _). by rewrite Hrank. Qed.

Lemma room_total : implicitProducerHashCount s' = claims (th' :: rest).
Proof.
  destruct room_claims as (_ & Hc & _). pose proof (ro_count _ _ Hro) as Hold. unfold claims in *.
  rewrite (step_before w j th Hj), zsum_cons in Hold. rewrite zsum_cons. simpl. lia.
Qed.

(** The place drawn is behind all the others. *)
Lemma room_draw m : stage_of th = Draw m ->
  exists rank', roomy rank' (mkWorld s' (<[j := th']> (threads w))).
Proof.
  intros Ed. set (c := implicitProducerHashCount (shared w)).
  set (rank' := fun k => if decide (k = tid th) then c + 1 else rank k). exists rank'.
  assert (forall k, k <> tid th -> rank' k = rank k) as Hrank by (intros k ?; unfold rank'; by case_decide).
  assert (rank' (tid th) = c + 1) as Hnew by (unfold rank'; by rewrite decide_True).
  destruct (wo_thread w Hw th room_elem) as (Hid & Hok & _). rewrite Ed in Hok. destruct Hok as (Hls & Hnone & Hm).
  pose proof E as E2. rewrite Ed in E2. pose proof (draw_ranked (shared w) (tid th) m ok _ st' ls' s' Hm room_count E2) as Hr.
  assert (hashes s' = hashes (shared w)) as Eh.
  { destruct Hm as [t Ht]. simpl in E2. rewrite (at_hash_look (set_count _ _) m _ t Ht) in E2. by injection E2 as _ _ <-. }
  split; simpl.
  - apply (tables_ranked_same _ _ _ Eh). destruct (ro_tables _ _ Hro) as [H1 H2 H3]. split; [done| |done].
    intros i t x e Ht He Hk. rewrite Hrank; [by eapply H2|]. by apply (Hnone i t ltac:(lia) Ht x e He).
  - rewrite room_total. unfold claims. by rewrite (step_after w j th Hj st' ls').
  - intros k Hk. unfold claims_to. rewrite (step_after w j th Hj st' ls'), zsum_cons.
    pose proof (room_rest rank' k Hrank) as Hrest. unfold claims_to in Hrest. rewrite Hrest. simpl. rewrite Hnew.
    assert (c = claims (delete j (threads w))) as Ec.
    { unfold c. rewrite (ro_count _ _ Hro). unfold claims. rewrite (step_before w j th Hj) at 1. rewrite zsum_cons, Hls, Ed. done. }
    destruct (Z.leb_spec (c + 1) k) as [Hle|Hgt].
    + assert (claims_to rank k (delete j (threads w)) <= claims (delete j (threads w))) as Hsub.
      { apply zsum_le. intros x _. destruct (claimant _ _), (_ <=? _); simpl; lia. }
      unfold claims_to in Hsub. destruct (claimant st' ls' && true); simpl; lia.
    + rewrite andb_false_r. pose proof (ro_rank _ _ Hro k Hk) as Hold. unfold claims_to in Hold.
      rewrite (step_before w j th Hj), zsum_cons in Hold.
      destruct (claimant (stage_of th) (listeners th) && (rank (tid th) <=? k)); simpl in *; lia.
  - intros x. rewrite (step_after w j th Hj st' ls'). apply (room_others rank'); [done|]. by rewrite Hnew.
Qed.

Lemma room_keep : (forall m, stage_of th <> Draw m) -> roomy rank (mkWorld s' (<[j := th']> (threads w))).
Proof.
  intros Hnd. destruct (wo_thread w Hw th room_elem) as (Hid & Hok & Hco & Hlf).
  destruct (ro_thread _ _ Hro th room_elem) as [Hst Hr]. destruct room_claims as (_ & _ & Hmono).
  split; simpl.
  - eapply thread_step_tables; [apply Hw|exact Hid|apply Hro|exact Hok|exact Hr|exact Hst|exact Hlf|exact room_not_lost|exact E].
  - rewrite room_total. unfold claims. by rewrite (step_after w j th Hj st' ls').
  - intros k Hk. pose proof (ro_rank _ _ Hro k Hk) as Hold. unfold claims_to in *.
    rewrite (step_before w j th Hj), zsum_cons in Hold. rewrite (step_after w j th Hj st' ls'), zsum_cons. simpl.
    destruct (claimant st' ls') eqn:Ec; [|destruct (claimant (stage_of th) (listeners th) && _); simpl in *; lia].
    destruct (Hmono eq_refl) as [Hold2|[m Hm]]; [by rewrite Hold2 in Hold|by destruct (Hnd m)].
  - intros x. rewrite (step_after w j th Hj st' ls'). apply (room_others rank); [done|].
    pose proof room_not_lost as Hnl. pose proof (ct_stage _ _ Hct th room_elem) as Hb. pose proof (wo_shape w Hw) as Hs.
    pose proof (ro_tables _ _ Hro) as Htr.
    pose proof (search_ranked rank (shared w) (tid th) Hs Htr Hid _ _ st' ls' s' Hok Hr Hnl) as Hse.
    pose proof (resize_ranked rank (shared w) (tid th) Hs Htr n _ ok _ st' ls' s' Hok Hr Hco Hb Hn Hnl) as Hre.
    pose proof (insert_ranked rank (shared w) (tid th) Hs Htr _ ok _ st' ls' s' Hok Hr Hnd Hnl) as Hin.
    destruct (stage_of th); try done; auto.
Qed.
End RoomStep.

(** ** Runs without exits *)

Definition no_exit (a : hash_action) : bool := match a with Depart _ => false | _ => true end.

Lemma roomy_call rank w j th : roomy rank w -> threads w !! j = Some th -> between_calls (stage_of th) = true ->
  roomy rank (mkWorld (shared w) (<[j := mkThread (tid th) Load (listeners th)]> (threads w))).
Proof.
  intros [Htr Hc Hr Hth] Hj Hb.
  assert (claimant Load (listeners th) = claimant (stage_of th) (listeners th)) as Ecl by (destruct (listeners th); [by destruct (stage_of th)|done]).
  split; simpl; [done| | |].
  - unfold claims in *. rewrite Hc, (step_before w j th Hj) at 1. rewrite (step_after w j th Hj Load _), !zsum_cons. simpl stage_of. simpl listeners. by rewrite Ecl.
  - intros m Hm. specialize (Hr m Hm). unfold claims_to in *. rewrite (step_before w j th Hj), zsum_cons in Hr.
    rewrite (step_after w j th Hj Load _), zsum_cons. simpl stage_of. simpl listeners. simpl tid. by rewrite Ecl.
  - intros x. rewrite (step_after w j th Hj Load _). intros [->|Hx]%elem_of_cons; [done|]. apply Hth. rewrite (step_before w j th Hj). by right.
Qed.

Lemma exec_roomy rank n a w w' : world_ok w -> counted n w -> n < 2 ^ 62 -> roomy rank w -> no_exit a = true ->
  hash_exec a w = Some w' -> exists rank', roomy rank' w'.
Proof.
  intros Hw Hct Hn Hro Ha E. destruct a as [id|j|j|j ok]; simpl in E; [| |done|].
  - case_match; [|done]. injection E as <-. exists rank. destruct Hro as [Htr Hc Hr Hth]. split; simpl; [done| | |].
    + rewrite Hc. unfold claims. rewrite zsum_app. simpl. lia.
    + intros m Hm. unfold claims_to. rewrite zsum_app. simpl. specialize (Hr m Hm). unfold claims_to in Hr. lia.
    + intros x [Hx|Hx]%elem_of_app; [by apply Hth|]. by apply list_elem_of_singleton in Hx as ->.
  - destruct (threads w !! j) as [th|] eqn:Hj; [|done]. destruct (between_calls (stage_of th)) eqn:Hb; [|done]. injection E as <-.
    exists rank. by apply roomy_call.
  - destruct (threads w !! j) as [th|] eqn:Hj; [|done]. destruct (thread_step _ _ _ _ _) as [[[st' ls'] s']|] eqn:E'; [|done].
    injection E as <-.
    assert ((exists m, stage_of th = Draw m) \/ forall m, stage_of th <> Draw m) as [[m Hd]|Hd] by (destruct (stage_of th); eauto).
    + by eapply (room_draw rank w j th ok st' ls' s' n).
    + exists rank. by eapply (room_keep rank w j th ok st' ls' s' n).
Qed.

Lemma run_roomy l rank n w w' : world_ok w -> counted n w -> n + Z.of_nat (length l) < 2 ^ 62 -> roomy rank w ->
  forallb no_exit l = true -> hash_run l w = Some w' -> exists rank', roomy rank' w'.
Proof.
  revert rank n w. induction l as [|a l IH]; intros rank n w Hw Hct Hn Hro Hl; simpl; [intros [= <-]; eauto|].
  simpl in Hl. apply andb_prop in Hl as [Ha Hl]. destruct (hash_exec a w) as [w1|] eqn:E; [|done]. simpl length in Hn.
  destruct (exec_roomy rank n a w w1 Hw Hct ltac:(lia) Hro Ha E) as [rank1 Hro1].
  apply (IH rank1 (n + 1)); [by eapply hash_exec_ok|eapply exec_counted; [done..|lia|done]|lia|done|done].
Qed.

Lemma empty_roomy : roomy (fun _ => 0) empty_world.
Proof.
  split; [split| | |].
  - intros [|i] t x e; [|done]. intros [= <-] [-> _]%lookup_replicate. by left.
  - intros [|i] t x e; [|done]. intros [= <-] [-> _]%lookup_replicate. by simpl.
  - intros [|i] [|j] t t' _; simpl; try done; try (by destruct i || by destruct j). by intros [= <-] [= <-].
  - done.
  - done.
  - intros th Hth. by apply not_elem_of_nil in Hth.
Qed.

(** ** A table has a free slot *)

Definition used t : list ImplicitProducerKVP := filter (fun e => key e <> 0) (entries t).

Lemma zsum_count {A} (f : A -> bool) l : zsum (fun x => bit (f x)) l = Z.of_nat (length (filter (fun x => f x = true) l)).
Proof.
  induction l as [|x l IH]; [done|]. rewrite zsum_cons, filter_cons, IH. destruct (f x); simpl; lia.
Qed.

Lemma used_distinct (l : list ImplicitProducerKVP) :
  (forall x y e e', l !! x = Some e -> l !! y = Some e' -> key e <> 0 -> key e = key e' -> x = y) ->
  NoDup (key <$> filter (fun e => key e <> 0) l).
Proof.
  induction l as [|e l IH]; intros H; [constructor|].
  assert (NoDup (key <$> filter (fun e => key e <> 0) l)) as Hl.
  { apply IH. intros x y e1 e2 H1 H2 H3 H4. by injection (H (S x) (S y) e1 e2 H1 H2 H3 H4). }
  rewrite filter_cons. case_decide as Hk; [|done]. rewrite fmap_cons. apply NoDup_cons. split; [|done].
  intros (e2 & Hk2 & [_ [y Hy]%list_elem_of_lookup_1]%list_elem_of_filter)%list_elem_of_fmap.
  by pose proof (H 0%nat (S y) e e2 eq_refl Hy Hk Hk2).
Qed.

Lemma thread_ok_none s id st : thread_ok s id st [] -> st <> Gone -> none s id 0.
Proof. destruct st; simpl; intros; destruct_and?; try done. Qed.

Lemma thread_ok_keeps s id st ls : thread_ok s id st ls -> st <> Gone -> exists p ex, keeps s id p ex.
Proof.
  intros H Hg.
  assert (forall ls, resting s id ls -> exists p ex, keeps s id p ex) as Hr.
  { intros k Hk. destruct (resting_keeps s id k Hk) as [q Hq]. by exists q, None. }
  assert (forall m x q, claimed s id m x q -> exists p ex, keeps s id p ex) as Hc by (intros m x q (i & t & _ & _ & _ & Hk); eauto).
  assert (none s id 0 -> exists p ex, keeps s id p ex) as Hn by (intros Hn; exists 0%nat, None; by apply none_keeps).
  destruct st; simpl in H; destruct_and?; try done; first [by eapply Hr | by eapply Hc | by apply Hn | eauto].
Qed.

Section Free.
Context (rank : Z -> Z) w (i : nat) t (Hw : world_ok w) (Hro : roomy rank w) (Ht : hashes (shared w) !! i = Some t).

(** The thread of an entry. *)
Lemma entry_thread x e : entries t !! x = Some e -> key e <> 0 ->
  exists th, th ∈ threads w /\ stage_of th <> Gone /\ tid th = key e /\ claimant (stage_of th) (listeners th) = true /\
    rank (tid th) < bound t.
Proof.
  intros He Hk. destruct (tr_key _ _ (ro_tables _ _ Hro) i t x e Ht He) as [?|Hid]; [done|].
  pose proof (wo_keys w Hw i t x e Ht He Hid) as Hin. apply list_elem_of_omap in Hin as (th & Hth & E).
  assert (stage_of th <> Gone /\ tid th = key e) as [Hg Et] by (by destruct (stage_of th); simplify_eq).
  exists th. rewrite Et. split_and!; [done..| |by apply (tr_rank _ _ (ro_tables _ _ Hro) i t x)].
  destruct (wo_thread w Hw th Hth) as (_ & Hok & _). destruct (listeners th) eqn:El; [|done].
  by destruct (thread_ok_none _ _ _ Hok Hg i t ltac:(lia) Ht x e He).
Qed.

Lemma used_nodup : NoDup (key <$> used t).
Proof.
  apply used_distinct. intros x y e e' He He' Hk Hkk. destruct (entry_thread x e He Hk) as (th & Hth & Hg & Et & _).
  destruct (wo_thread w Hw th Hth) as (_ & Hok & _). destruct (thread_ok_keeps _ _ _ _ Hok Hg) as (p & ex & Hkeep).
  destruct (Hkeep i t y e' Ht He' ltac:(congruence)) as (_ & Huniq & _). by apply (Huniq x e).
Qed.

(** The keys of a table belong to different threads with a place in its bound. *)
Lemma used_claims : Z.of_nat (length (used t)) <= claims_to rank (bound t - 1) (threads w).
Proof.
  unfold claims_to. rewrite zsum_count. rewrite <- (length_fmap key (used t)).
  set (F := filter _ _). rewrite <- (length_fmap tid F). apply Nat2Z.inj_le, submseteq_length, NoDup_submseteq; [apply used_nodup|].
  intros k (e & -> & [Hk [x He]%list_elem_of_lookup_1]%list_elem_of_filter)%list_elem_of_fmap.
  destruct (entry_thread x e He Hk) as (th & Hth & _ & <- & Hcl & Hr). apply list_elem_of_fmap. exists th. split; [done|].
  apply list_elem_of_filter. split; [|done]. rewrite Hcl. simpl. lia.
Qed.

Lemma claims_to_mono m m' ts : m <= m' -> claims_to rank m ts <= claims_to rank m' ts.
Proof.
  intros Hm. apply zsum_le. intros x _. destruct (claimant _ _); simpl; [|done].
  destruct (Z.leb_spec (rank (tid x)) m), (Z.leb_spec (rank (tid x)) m'); simpl; lia.
Qed.

(** Fewer than three quarters of the slots are used. *)
Lemma used_bound : Z.of_nat (length (used t)) <= Z.max 0 (bound t - 1).
Proof.
  pose proof used_claims as Hu. destruct (Z.le_gt_cases 0 (bound t - 1)) as [Hb|Hb].
  - pose proof (ro_rank _ _ Hro _ Hb). lia.
  - pose proof (claims_to_mono (bound t - 1) 0 (threads w) ltac:(lia)). pose proof (ro_rank _ _ Hro 0 ltac:(lia)). lia.
Qed.

Lemma bound_capacity : 0 < capacity t -> bound t - 1 < capacity t.
Proof.
  intros Hc. unfold bound. rewrite !Z.shiftr_div_pow2 by lia. change (2 ^ 1) with 2. change (2 ^ 2) with 4.
  Z.to_euclidean_division_equations. lia.
Qed.

Lemma free_slot : exists x e, entries t !! x = Some e /\ key e = 0.
Proof.
  destruct (sh_table _ (wo_shape w Hw) i t Ht) as [_ Hok]. pose proof (capacity_pos t Hok) as Hc.
  pose proof used_bound as Hu. pose proof (bound_capacity Hc) as Hb.
  destruct (decide (Forall (fun e => key e <> 0) (entries t))) as [Hall|Hnot].
  - unfold used in Hu. rewrite (filter_all (fun e => key e <> 0)) in Hu by (by apply Forall_forall). unfold capacity in *. lia.
  - apply not_Forall_Exists in Hnot; [|apply _]. apply Exists_exists in Hnot as (e & [x He]%list_elem_of_lookup_1 & Hk).
    exists x, e. split; [done|]. simpl in Hk. lia.
Qed.
End Free.
