(* ===== verification/ProducerHashReturns.v ===== *)
(** * A call that runs alone returns

    [returns n]: the thread, alone, is back from its call after [n] of its steps, its allocations
    succeeding.  A search ends because every table has a free slot; the insertion because a
    table made under the lock has room for the place the thread has drawn. *)

From S2P Require Import Prelude ProducerHash ProducerHashProofs ProducerHashInvariant ProducerHashSteps ProducerHashTheorems.
From S2P Require Import ProducerHashCount ProducerHashRoom.
From stdpp Require Import base list.
From Stdlib Require Import ZArith Lia.
Local Open Scope Z_scope.
Implicit Types (s : Shared) (t : ImplicitProducerHash) (e : ImplicitProducerKVP) (w : World) (th : Thread) (ts : list Thread).

Inductive returns (id : Z) : nat -> stage -> list nat -> Shared -> Prop :=
| ret_now p ls s : returns id 0 (Got p) ls s
| ret_step n st ls s st' ls' s' :
    thread_step id st Fine ls s = Some (st', ls', s') -> returns id n st' ls' s' -> returns id (S n) st ls s.

(** ** The way to a free slot *)

Definition ends s (id : Z) (st : stage) (ls : list nat) : Prop := exists n, returns id n st ls s.

Lemma ends_step s id st ls st' ls' s' :
  thread_step id st Fine ls s = Some (st', ls', s') -> ends s' id st' ls' -> ends s id st ls.
Proof. intros E [n H]. exists (S n). by eapply ret_step. Qed.

(** A slot is ahead of any index. *)
Lemma slot_ahead t index x e : hash_ok t -> entries t !! x = Some e -> exists d : nat, slot t (index + Z.of_nat d) = x.
Proof.
  intros Ht Hx%lookup_lt_Some. pose proof (capacity_pos t Ht) as Hc. unfold capacity in Hc.
  exists (Z.to_nat ((Z.of_nat x - index) mod capacity t)). unfold slot. rewrite masked_mod by done.
  pose proof (Z.mod_pos_bound (Z.of_nat x - index) (capacity t) ltac:(unfold capacity; lia)).
  rewrite Z2Nat.id by lia. rewrite Zplus_mod_idemp_r. replace (index + (Z.of_nat x - index)) with (Z.of_nat x) by lia.
  rewrite Z.mod_small by (unfold capacity; lia). apply Nat2Z.id.
Qed.

Lemma slot_next t index d : hash_ok t -> slot t (masked index t + 1 + Z.of_nat d) = slot t (index + Z.of_nat (S d)).
Proof.
  intros Ht. unfold slot. rewrite !masked_mod by done. f_equal.
  replace (index mod capacity t + 1 + Z.of_nat d) with (index mod capacity t + (1 + Z.of_nat d)) by lia.
  rewrite Zplus_mod_idemp_l. f_equal. lia.
Qed.

Definition free_at t (x : nat) : Prop := exists e, entries t !! x = Some e /\ key e = 0.
Definition all_free s : Prop := forall i t, hashes s !! i = Some t -> exists x, free_at t x.

Lemma not_here t index d e : entries t !! slot t index = Some e -> key e <> 0 -> free_at t (slot t (index + Z.of_nat d)) ->
  exists d', d = S d'.
Proof.
  intros He Hk (e' & He' & H0). destruct d as [|d]; [|eauto]. rewrite Z.add_0_r in He'. congruence.
Qed.

(** ** Taking a slot *)

Lemma store_ends s id m index p ls : shape s -> is_Some (look s m) -> ends s id (Store m index p) ls.
Proof.
  intros Hs [t Ht]. destruct (at_slot_look s m index (fun i index e => (Got p, ls, update_slot i (Z.to_nat index) (set_value p) s)) t Hs Ht)
    as (e & He & E). eapply ends_step; [cbn -[at_slot]; by rewrite E|]. exists 0%nat. constructor.
Qed.

Lemma update_look i x f s m : is_Some (look s m) -> is_Some (look (update_slot i x f s) m).
Proof. destruct m as [|j]; [done|]. simpl. rewrite !lookup_lt_is_Some, length_alter. done. Qed.

Lemma shape_count n s : shape s -> shape (set_count n s).
Proof. intros [H1 H2 H3]. by split. Qed.

Section Claim.
Context s (id : Z) (i : nat) t (ls : list nat) (Hs : shape s) (Ht : hashes s !! i = Some t).

Lemma claim_table : hash_ok t /\ is_Some (look s (S i)).
Proof. split; [by apply (sh_table s Hs i t)|by exists t]. Qed.

(** The stage after a successful exchange. *)
Lemma claimed_ends index p x e k : entries t !! x = Some e -> ends (update_slot i x (set_key k) s) id (Store (S i) index p) ls.
Proof. intros He. apply store_ends; [by apply upd_shape with t|]. apply update_look. apply claim_table. Qed.

Lemma claim_ends d : forall index p, free_at t (slot t (index + Z.of_nat d)) -> ends s id (ClaimReusable (S i) index p) ls.
Proof.
  destruct claim_table as [Hok Hl]. induction d as [d IH] using lt_wf_ind. intros index p Hd.
  edestruct (place_slot s Hs i index) as (e & He & E); [done|].
  destruct (cas_cases s i (masked index t) e invalid_thread_id2 id) as [(s' & Ec & Hk & ->)|[Ec Hk]].
  { eapply ends_step; [cbn -[at_slot]; rewrite E, Ec; reflexivity|]. eapply ends_step; [reflexivity|].
    apply store_ends; [by apply shape_count, upd_shape with t|]. exact (update_look i (Z.to_nat (masked index t)) (set_key id) s (S i) Hl). }
  eapply ends_step; [cbn -[at_slot]; rewrite E, Ec; reflexivity|]. clear E Ec.
  edestruct (place_slot s Hs i (masked index t)) as (e2 & He2 & E); [done|].
  rewrite slot_masked in He2 by done. rewrite masked_twice in E by done. assert (e2 = e) as -> by congruence.
  destruct (cas_cases s i (masked index t) e invalid_thread_id id) as [(s' & Ec & Hk0 & ->)|[Ec Hk0]].
  { eapply ends_step; [cbn -[at_slot]; rewrite E, Ec; reflexivity|]. by eapply claimed_ends. }
  eapply ends_step; [cbn -[at_slot]; rewrite E, Ec; reflexivity|].
  destruct (not_here t index d e He Hk0 Hd) as [d' ->]. apply (IH d'); [lia|]. by rewrite slot_next.
Qed.

Lemma adopt_ends d : forall index p, free_at t (slot t (index + Z.of_nat d)) -> ends s id (Adopt (S i) index p) ls.
Proof.
  destruct claim_table as [Hok Hl]. induction d as [d IH] using lt_wf_ind. intros index p Hd.
  edestruct (place_slot s Hs i index) as (e & He & E); [done|].
  destruct (cas_cases s i (masked index t) e invalid_thread_id id) as [(s' & Ec & Hk & ->)|[Ec Hk]].
  { eapply ends_step; [cbn -[at_slot]; rewrite E, Ec; reflexivity|]. by eapply claimed_ends. }
  eapply ends_step; [cbn -[at_slot]; rewrite E, Ec; reflexivity|]. clear E Ec.
  edestruct (place_slot s Hs i (masked index t)) as (e2 & He2 & E); [done|].
  rewrite slot_masked in He2 by done. rewrite masked_twice in E by done. assert (e2 = e) as -> by congruence.
  destruct (cas_cases s i (masked index t) e invalid_thread_id2 id) as [(s' & Ec & Hk0 & ->)|[Ec Hk0]].
  { eapply ends_step; [cbn -[at_slot]; rewrite E, Ec; reflexivity|]. by eapply claimed_ends. }
  eapply ends_step; [cbn -[at_slot]; rewrite E, Ec; reflexivity|].
  destruct (not_here t index d e He Hk Hd) as [d' ->]. apply (IH d'); [lia|]. by rewrite slot_next.
Qed.

(** From any index, there being a free slot. *)
Context (Hfree : exists x, free_at t x).

Lemma free_ahead index : exists d, free_at t (slot t (index + Z.of_nat d)).
Proof.
  destruct Hfree as (x & e & He & Hk), claim_table as [Hok _]. destruct (slot_ahead t index x e Hok He) as [d Hd].
  exists d. rewrite Hd. by exists e.
Qed.

Lemma claim_ends_any index p : ends s id (ClaimReusable (S i) index p) ls.
Proof. destruct (free_ahead index) as [d Hd]. by eapply claim_ends. Qed.

Lemma adopt_ends_any index p : ends s id (Adopt (S i) index p) ls.
Proof. destruct (free_ahead index) as [d Hd]. by eapply adopt_ends. Qed.
End Claim.

(** ** The insertion *)

Lemma grow_ends s id st ls st' ls' s' : thread_step id st Fine ls s = Some (st', ls', s') -> ends s' id st' ls' -> ends s id st ls.
Proof. exact (ends_step s id st ls st' ls' s'). Qed.

Lemma shape_flags l s : shape s -> shape (set_flags l s).
Proof. intros [H1 H2 H3]. by split. Qed.
Lemma shape_resize b s : shape s -> shape (set_resize b s).
Proof. intros [H1 H2 H3]. by split. Qed.

Section Insertion.
Context (id : Z).

Lemma recycle_ends s m ls : shape s -> all_free s -> is_Some (look s m) -> ends s id (Recycle m) ls.
Proof.
  intros Hs Hf [t Ht]. destruct m as [|i]; [done|]. eapply ends_step; [reflexivity|].
  apply (claim_ends_any _ _ i t); [by apply shape_flags|exact Ht|by apply (Hf i t)].
Qed.

Lemma try_insert_ends s m c t ls : shape s -> all_free s -> look s m = Some t -> c < Z.shiftr (capacity t) 1 ->
  ends s id (try_insert m c t) ls.
Proof.
  intros Hs Hf Ht Hc. unfold try_insert.
  assert (0 <= Z.shiftr (capacity t) 2) by (apply Z.shiftr_nonneg; unfold capacity; lia).
  replace (c <? _) with true by lia. apply recycle_ends; eauto.
Qed.

Lemma unlock_ends s m c t ls : shape s -> all_free s -> look s m = Some t -> c < Z.shiftr (capacity t) 1 -> ends s id (Unlock m c) ls.
Proof.
  intros Hs Hf Ht Hc. eapply ends_step; [cbn -[at_hash]; by rewrite (at_hash_look s m _ t Ht)|].
  apply try_insert_ends; [by apply shape_resize|exact Hf|exact Ht|done].
Qed.

Lemma publish_ends s c c' ls : 1 < id -> shape s -> all_free s -> none s id 0 -> pow2 c' -> 0 <= c < Z.shiftr c' 1 ->
  ends s id (Publish (length (hashes s)) c c') ls.
Proof.
  intros Hid Hs Hf Hn (k & Hk & ->) Hc. eapply ends_step; [reflexivity|].
  destruct (publish_good s id (length (hashes s)) c (2 ^ k) Hs Hid Hn ltac:(by exists k) eq_refl ltac:(lia)) as [(Hs' & _) _].
  set (t0 := new_hash (Z.to_nat (2 ^ k)) (length (hashes s))) in *.
  assert (capacity t0 = 2 ^ k) as Hcap.
  { unfold capacity, t0, new_hash. simpl. rewrite length_replicate, Z2Nat.id; [done|]. apply Z.pow_nonneg. lia. }
  apply (unlock_ends _ _ _ t0); [exact Hs'| | |rewrite Hcap; lia].
  - intros i t. simpl. intros [H|[Hge H]]%lookup_app_Some; [by apply (Hf i t)|].
    apply list_lookup_singleton_Some in H as [_ <-]. exists 0%nat, (mkKVP 0 0). split; [|done].
    apply lookup_replicate_2. pose proof (Z.pow_pos_nonneg 2 k). lia.
  - simpl. rewrite lookup_app_r, Nat.sub_diag by lia. done.
Qed.

Lemma allocate_ends s n c ls : 1 < id -> settled s id (Allocate (length (hashes s)) c) ls -> all_free s ->
  bounded s n (Allocate (length (hashes s)) c) -> n < 2 ^ 62 -> ends s id (Allocate (length (hashes s)) c) ls.
Proof.
  intros Hid Hset Hf [Hb1 Hb2] Hn. pose proof Hset as (Hs & (Hls & Hnone & [t Ht]) & Hc & _). simpl in Hc.
  destruct (look_shape s _ t Hs Ht) as (_ & Hto & Hm).
  assert (hashes s !! pred (length (hashes s)) = Some t) as Ht' by (by rewrite Hm in Ht).
  destruct (grow_table c t) as (c' & Ec & _ & Hlt); [lia|done|by apply Hb2|].
  eapply ends_step; [cbn -[grow_capacity wrapU]; rewrite Ht', Ec; reflexivity|].
  apply publish_ends; try done. eapply grow_pow2; [exact Hc| |exact Ec]. apply double_pow2. destruct Hto as (k & ? & ?). by exists k.
Qed.

Lemma reload_ends s n c ls : 1 < id -> settled s id (Reload c) ls -> all_free s -> c <= n < 2 ^ 62 -> ends s id (Reload c) ls.
Proof.
  intros Hid Hset Hf Hn. pose proof Hset as (Hs & Hok & Hc & _). destruct (look_main s Hs) as [t Ht].
  assert (thread_step id (Reload c) Fine ls s = Some
    (if Z.shiftr (capacity t) 1 <=? c then Allocate (implicitProducerHash s) c else Unlock (implicitProducerHash s) c, ls, s)) as E.
  { cbn -[at_hash]. by rewrite (at_hash_look s _ _ t Ht). }
  eapply ends_step; [exact E|]. pose proof (thread_step_good _ _ _ _ _ _ Hid Hset E) as [Hset' _]. simpl in Hset'.
  destruct (Z.leb_spec (Z.shiftr (capacity t) 1) c) as [Hle|Hlt]; [|by eapply unlock_ends].
  rewrite (sh_main s Hs) in *. eapply allocate_ends; [done..| |apply Hn]. split; [lia|]. intros t' Ht'. by simplify_eq.
Qed.

(** With the lock free, a thread that finds no room allocates. *)
Lemma insert_loop_ends s n m c t ls : 1 < id -> settled s id (insert_loop m c t) ls -> all_free s -> look s m = Some t -> c <= n < 2 ^ 62 ->
  implicitProducerHashResizeInProgress s = false -> ends s id (insert_loop m c t) ls.
Proof.
  intros Hid Hset Hf Ht Hn Hfree. unfold insert_loop in *. destruct (Z.leb_spec (Z.shiftr (capacity t) 1) c) as [Hle|Hlt].
  - assert (thread_step id (TestAndSet m c) Fine ls s = Some (Reload c, ls, set_resize true s)) as E by (simpl; by rewrite Hfree).
    eapply ends_step; [exact E|]. pose proof (thread_step_good _ _ _ _ _ _ Hid Hset E) as [Hset' _].
    by eapply reload_ends.
  - apply try_insert_ends; [apply Hset|done..].
Qed.

Lemma wait_ends s n c ls : 1 < id -> settled s id (Wait c) ls -> all_free s -> c <= n < 2 ^ 62 ->
  implicitProducerHashResizeInProgress s = false -> ends s id (Wait c) ls.
Proof.
  intros Hid Hset Hf Hn Hfree. pose proof Hset as (Hs & _). destruct (look_main s Hs) as [t Ht].
  assert (thread_step id (Wait c) Fine ls s = Some (insert_loop (implicitProducerHash s) c t, ls, s)) as E.
  { cbn -[at_hash]. by rewrite (at_hash_look s _ _ t Ht). }
  eapply ends_step; [exact E|]. pose proof (thread_step_good _ _ _ _ _ _ Hid Hset E) as [Hset' _]. by eapply insert_loop_ends.
Qed.

Lemma draw_ends s n m ls : 1 < id -> settled s id (Draw m) ls -> all_free s -> 0 <= implicitProducerHashCount s <= n -> n < 2 ^ 61 ->
  implicitProducerHashResizeInProgress s = false -> ends s id (Draw m) ls.
Proof.
  intros Hid Hset Hf Hc Hn Hfree. pose proof Hset as (Hs & (_ & _ & [t Ht]) & _).
  destruct (u64_succ (implicitProducerHashCount s) ltac:(lia)) as [_ E2].
  assert (thread_step id (Draw m) Fine ls s = Some (insert_loop m (implicitProducerHashCount s + 1) t, ls,
    set_count (u64 (implicitProducerHashCount s + 1)) s)) as E.
  { cbn -[at_hash wrapU]. by rewrite (at_hash_look (set_count _ _) _ _ t Ht), E2. }
  eapply ends_step; [exact E|]. pose proof (thread_step_good _ _ _ _ _ _ Hid Hset E) as [Hset' _].
  eapply (insert_loop_ends _ (n + 1)); [done|exact Hset'|exact Hf|exact Ht|lia|done].
Qed.

(** ** The search *)

Lemma search_ends s n m ls : 1 < id -> is_Some (look s m) -> all_free s -> 0 <= implicitProducerHashCount s <= n -> n < 2 ^ 61 ->
  implicitProducerHashResizeInProgress s = false ->
  forall h d index, (h <= m)%nat -> settled s id (search_from m h index) ls ->
    (forall t, look s h = Some t -> free_at t (slot t (index + Z.of_nat d))) -> ends s id (search_from m h index) ls.
Proof.
  intros Hid Hm Hf Hc Hn Hfree. induction h as [h IHh] using lt_wf_ind. induction d as [d IHd] using lt_wf_ind.
  intros index Hle Hset Hd. destruct h as [|i]; [by eapply draw_ends|]. simpl search_from in *.
  pose proof Hset as (Hs & (_ & _ & _ & _ & t & Ht & _) & _). destruct (look_shape s _ t Hs Ht) as (Hprev & Hok & _).
  assert (hashes s !! i = Some t) as Hti by exact Ht.
  destruct (at_slot_look s (S i) index (fun i' index e =>
        if key e =? id then
          (if negb (S i =? m)%nat then Adopt m (hash_thread_id id) (value e) else Got (value e), ls, s)
        else if key e =? invalid_thread_id then
          at_hash (S i) s (fun _ t => (search_from m (prev t) (hash_thread_id id), ls, s))
        else (Search m (S i) (index + 1), ls, s)) t Hs Ht) as (e & He & E).
  assert (forall st', thread_step id (Search m (S i) index) Fine ls s = Some (st', ls, s) -> settled s id st' ls) as Hnext.
  { intros st' E'. by destruct (thread_step_good _ _ _ _ _ _ Hid Hset E') as [? _]. }
  assert (thread_step id (Search m (S i) index) Fine ls s = Some (at_slot (S i) index s (fun i' index e =>
        if key e =? id then
          (if negb (S i =? m)%nat then Adopt m (hash_thread_id id) (value e) else Got (value e), ls, s)
        else if key e =? invalid_thread_id then
          at_hash (S i) s (fun _ t => (search_from m (prev t) (hash_thread_id id), ls, s))
        else (Search m (S i) (index + 1), ls, s)))) as Est by reflexivity.
  rewrite E in Est. cbv beta in Est. rewrite (at_hash_look s (S i) _ t Ht), Hprev in Est. clear E. simpl pred in Est. destruct (Z.eqb_spec (key e) id) as [Hk|Hk].
  - eapply ends_step; [exact Est|]. destruct (negb _); [|exists 0%nat; constructor].
    destruct Hm as [tm Htm]. destruct m as [|im]; [done|]. apply (adopt_ends_any s id im tm); [done|exact Htm|]. by apply (Hf im).
  - destruct (Z.eqb_spec (key e) invalid_thread_id) as [H0|H0].
    + eapply ends_step; [exact Est|]. pose proof (Hnext _ Est) as Hset'.
      assert (exists d', forall t, look s i = Some t -> free_at t (slot t (hash_thread_id id + Z.of_nat d'))) as [d' Hd'].
      { destruct (look s i) as [ti|] eqn:Hi; [|by exists 0%nat]. destruct i as [|i0]; [done|].
        destruct (free_ahead s i0 ti Hs Hi (Hf i0 ti Hi) (hash_thread_id id)) as [d' Hd']. exists d'. intros t' Ht'. by simplify_eq. }
      by apply (IHh i ltac:(lia) d'); [lia|..].
    + eapply ends_step; [exact Est|]. pose proof (Hnext _ Est) as Hset'.
      destruct (not_here t index d e He H0 (Hd t Ht)) as [d' ->].
      apply (IHd d' ltac:(lia) (masked index t + 1)); [done|exact Hset'|].
      intros t' Ht'. rewrite Ht in Ht'. injection Ht' as <-. rewrite slot_next by done. by apply Hd.
Qed.
End Insertion.

(** ** Every stage *)

Section Stages.
Context (rank : Z -> Z) w (j : nat) th (n : Z).
Context (Hw : world_ok w) (Hct : counted n w) (Hn : n < 2 ^ 61) (Hro : roomy rank w) (Hj : threads w !! j = Some th).
Context (Hlock : implicitProducerHashResizeInProgress (shared w) = true -> locked (stage_of th) = true).
Local Notation s := (shared w).
Local Notation id := (tid th).

Lemma world_free : all_free s.
Proof. intros i t Ht. destruct (free_slot rank w i t Hw Hro Ht) as (x & e & He & Hk). exists x, e. done. Qed.

Lemma world_settled : 1 < id /\ settled s id (stage_of th) (listeners th) /\ bounded s n (stage_of th) /\ staying (stage_of th).
Proof.
  assert (th ∈ threads w) as Hth by (by eapply list_elem_of_lookup_2). destruct (wo_thread w Hw th Hth) as (Hid & Hok & Hc & Hl).
  split_and!; [done|split_and!; [apply Hw|done..]|by apply (ct_stage _ _ Hct)|by apply (ro_thread _ _ Hro)].
Qed.

Lemma world_count : 0 <= implicitProducerHashCount s <= n.
Proof. pose proof (ct_range _ _ Hct). pose proof (drawing_nonneg (threads w)). lia. Qed.

Lemma next_settled st' ls' s' : thread_step id (stage_of th) Fine (listeners th) s = Some (st', ls', s') -> settled s' id st' ls'.
Proof. intros E. destruct world_settled as (Hid & Hset & _). by destruct (thread_step_good _ _ _ _ _ _ Hid Hset E) as [? _]. Qed.

(** A search at any index. *)
Lemma search_ends_any m h index ls : is_Some (look s m) -> (h <= m)%nat -> settled s id (search_from m h index) ls ->
  implicitProducerHashResizeInProgress s = false -> ends s id (search_from m h index) ls.
Proof.
  intros Hm Hle Hset Hfree. destruct world_settled as (Hid & (Hs & _) & _).
  assert (exists d, forall t, look s h = Some t -> free_at t (slot t (index + Z.of_nat d))) as [d Hd].
  { destruct (look s h) as [t|] eqn:Ht; [|by exists 0%nat]. destruct h as [|i]; [done|].
    destruct (free_ahead s i t Hs Ht (world_free i t Ht) index) as [d Hd]. exists d. intros t' Ht'. by simplify_eq. }
  by apply (search_ends id s n m ls Hid Hm world_free world_count Hn Hfree h d).
Qed.

Lemma slot_step_ends m index k f g : is_Some (look s m) ->
  thread_step id (stage_of th) Fine (listeners th) s = Some (at_slot m index s (fun i index e =>
    match cas_key i index e k id s with Some s' => (Store m index (f index), listeners th, s') | None => (g index, listeners th, s) end)) ->
  (forall index, ends s id (g index) (listeners th)) -> ends s id (stage_of th) (listeners th).
Proof.
  intros [t Ht] E Hg. destruct world_settled as (_ & (Hs & _) & _).
  destruct (at_slot_look s m index (fun i index e =>
    match cas_key i index e k id s with Some s' => (Store m index (f index), listeners th, s') | None => (g index, listeners th, s) end)
    t Hs Ht) as (e & He & E'). rewrite E' in E. clear E'.
  destruct (cas_cases s (pred m) (masked index t) e k id) as [(s' & Ec & Hk & ->)|[Ec Hk]]; rewrite Ec in E; (eapply ends_step; [exact E|]);
    [|apply Hg]. destruct m as [|i]; [done|]. eapply (claimed_ends s id i t); [exact Hs|exact Ht|exact He].
Qed.

Lemma thread_ends : between_calls (stage_of th) = false -> ends s id (stage_of th) (listeners th).
Proof.
  intros Hb. pose proof world_free as Hf. pose proof world_count as Hc. pose proof (wo_shape w Hw) as Hs.
  pose proof next_settled as Hnext. pose proof slot_step_ends as Hslot. pose proof search_ends_any as Hsearch.
  destruct world_settled as (Hid & Hset & Hbd & Hst). pose proof Hset as (_ & Hok & Hco & Hlf).
  destruct (implicitProducerHashResizeInProgress s) eqn:Hfl.
  { specialize (Hlock eq_refl). destruct (stage_of th) as [| | | | | | |c|m c| | |m c c'|m c| | | | | | | | | | | | |]; try done; simpl in Hok, Hbd, Hlf.
    - apply (reload_ends _ _ n); [done..|lia].
    - subst m. apply (allocate_ends _ _ n); [done..|lia].
    - eapply ends_step; [reflexivity|]. eapply ends_step; [reflexivity|]. exists 0%nat. constructor.
    - eapply ends_step; [reflexivity|]. exists 0%nat. constructor.
    - destruct Hok as (_ & Hnone & _ & Hp). subst m. apply publish_ends; try done. simpl in Hco. lia.
    - destruct Hok as (_ & _ & [t Ht]). eapply unlock_ends; [done..|]. by apply Hbd. }
  destruct (stage_of th) as [| |m h index|m index v|m index v|m|m c|c|m c| | |m c c'|m c|m| |m index p|m index p|m index p|m index p|c| | | | | |] eqn:Est;
    try done; simpl in Hok, Hbd, Hlf.
  - eapply ends_step; [reflexivity|]. apply Hsearch; [by apply look_main|done|by apply Hnext|done].
  - destruct Hok as (_ & Hm & Hle & _ & t & Ht & _). destruct h as [|i]; [done|]. by apply (Hsearch m (S i) index).
  - destruct Hok as (_ & _ & _ & _ & t & Ht & _). destruct m as [|i]; [done|]. apply (adopt_ends_any s id i t); [done|exact Ht|by apply (Hf i)].
  - destruct Hok as (_ & _ & _ & _ & (t & Ht & _) & _). destruct m as [|i]; [done|].
    eapply (Hslot (S i) index invalid_thread_id2 (fun _ => v) (fun index => Adopt (S i) (index + 1) v)); [by exists t|reflexivity|].
    intros x. apply (adopt_ends_any s id i t); [done|exact Ht|by apply (Hf i)].
  - by eapply draw_ends.
  - destruct Hok as (_ & _ & [t Ht]). assert (thread_step id (TestAndSet m c) Fine (listeners th) s = Some (Reload c, listeners th, set_resize true s)) as E
      by (simpl; by rewrite Hfl).
    eapply ends_step; [exact E|]. apply (reload_ends _ _ n); [done|by apply Hnext|exact Hf|lia].
  - apply (reload_ends _ _ n); [done..|lia].
  - subst m. apply (allocate_ends _ _ n); [done..|lia].
  - eapply ends_step; [reflexivity|]. eapply ends_step; [reflexivity|]. exists 0%nat. constructor.
  - eapply ends_step; [reflexivity|]. exists 0%nat. constructor.
  - destruct Hok as (_ & Hnone & _ & Hp). subst m. apply publish_ends; try done. simpl in Hco. lia.
  - destruct Hok as (_ & _ & [t Ht]). eapply unlock_ends; [done..|]. by apply Hbd.
  - destruct Hok as (_ & _ & Hm). by apply recycle_ends.
  - eapply ends_step; [reflexivity|]. exists 0%nat. constructor.
  - destruct Hok as (_ & _ & _ & t & Ht & _). destruct m as [|i]; [done|]. apply (claim_ends_any s id i t); [done|exact Ht|by apply (Hf i)].
  - destruct Hok as (_ & _ & i & t & -> & Ht & _). eapply ends_step; [reflexivity|]. apply store_ends; [by apply shape_count|by exists t].
  - destruct Hok as (_ & _ & _ & t & Ht & _). destruct m as [|i]; [done|].
    eapply (Hslot (S i) index invalid_thread_id (fun _ => p) (fun index => ClaimReusable (S i) (index + 1) p)); [by exists t|reflexivity|].
    intros x. apply (claim_ends_any s id i t); [done|exact Ht|by apply (Hf i)].
  - destruct Hok as (_ & _ & i & t & -> & Ht & _). apply store_ends; [done|by exists t].
  - apply (wait_ends _ _ n); [done..|lia|done].
Qed.
End Stages.

Lemma returns_run id n st ls s : returns id n st ls s -> forall w j, shared w = s -> threads w !! j = Some (mkThread id st ls) ->
  exists w' th' p, hash_run (replicate n (Advance j Fine)) w = Some w' /\ threads w' !! j = Some th' /\ stage_of th' = Got p.
Proof.
  induction 1 as [p ls s|n st ls s st' ls' s' E _ IH]; intros w j Hs Hj.
  - exists w, (mkThread id (Got p) ls), p. done.
  - destruct (IH (mkWorld s' (<[j := mkThread id st' ls']> (threads w))) j eq_refl) as (w' & th' & p & Hr & H).
    { simpl. apply list_lookup_insert_eq. by eapply lookup_lt_Some. }
    exists w', th', p. split; [|done]. simpl. rewrite Hj. simpl. by rewrite Hs, E.
Qed.

(** ** Theorems *)

Lemma run_facts l w : hash_run l empty_world = Some w -> Z.of_nat (length l) < 2 ^ 62 -> world_ok w /\ counted (Z.of_nat (length l)) w.
Proof.
  intros E Hl. split; [eapply hash_run_ok; [exact empty_ok|exact E]|].
  exact (run_counted l 0 empty_world w empty_ok empty_counted Hl E).
Qed.

(** C30: under every interleaving of threads that start, look up their producer and exit, a call
    that has returned with a producer returned the thread's own, which no other thread has and
    which is active; every later call of the thread returns the same one.  A producer is active
    exactly as long as a thread has it, every entry of a table belongs to a thread that has not
    ended, no null pointer or wild index is followed, and no thread is ever stuck. *)
Theorem thread_finds_producer l w :
  hash_run l empty_world = Some w -> Z.of_nat (length l) < 2 ^ 62 ->
  (forall j th p, threads w !! j = Some th -> stage_of th = Got p -> listeners th = match p with O => [] | _ => [p] end) /\
  (forall j th p l' w' th' q, threads w !! j = Some th -> listeners th = [p] -> hash_run l' w = Some w' ->
     threads w' !! j = Some th' -> stage_of th' = Got q -> q = p) /\
  (forall j k th th' p, j <> k -> threads w !! j = Some th -> threads w !! k = Some th' -> p ∈ listeners th -> p ∉ listeners th') /\
  (forall i, inactive (shared w) !! i = Some false <-> exists j th, threads w !! j = Some th /\ S i ∈ listeners th) /\
  (forall i t x e, hashes (shared w) !! i = Some t -> entries t !! x = Some e -> 1 < key e ->
     exists j th, threads w !! j = Some th /\ tid th = key e /\ stage_of th <> Gone) /\
  (forall j th ok, threads w !! j = Some th -> stage_of th <> Lost /\
     (between_calls (stage_of th) = false -> stage_of th <> Gone -> fair ok (shared w) -> is_Some (hash_exec (Advance j ok) w))).
Proof.
  intros E Hl. destruct (run_facts l w E Hl) as [Hw Hct].
  assert (forall j th, threads w !! j = Some th -> thread_ok (shared w) (tid th) (stage_of th) (listeners th)) as Hok.
  { intros j th Hj. apply (wo_thread w Hw). by eapply list_elem_of_lookup_2. }
  split_and!.
  - intros j th p Hj Hst. specialize (Hok j th Hj). rewrite Hst in Hok. by destruct Hok.
  - intros j th p l' w' th' q Hj Hls E' Hj' Hst. destruct (run_keeps l' w w' j th p Hw Hj (or_introl Hls) E') as (th2 & Hj2 & Hk).
    rewrite Hj' in Hj2. injection Hj2 as <-. pose proof (hash_run_ok l' w w' Hw E') as Hw'.
    destruct (wo_thread w' Hw' th') as (_ & Hok' & _); [by eapply list_elem_of_lookup_2|]. rewrite Hst in Hok'. destruct Hok' as [_ Hq].
    destruct Hk as [Hk|(_ & [Hk|Hk])]; [|congruence..]. destruct q; congruence.
  - intros j k th th' p Hne Hj Hk Hp Hp'. pose proof (wo_once w Hw) as Hn. rewrite (step_before w j th Hj) in Hn.
    unfold owned in Hn. simpl in Hn. apply NoDup_app in Hn as (_ & Hn & _). apply (Hn p Hp).
    apply elem_of_concat. exists (listeners th'). split; [done|]. apply list_elem_of_fmap. exists th'. split; [done|].
    apply list_elem_of_lookup. destruct (decide (k < j)%nat).
    + exists k. by rewrite list_lookup_delete_lt.
    + exists (pred k). rewrite list_lookup_delete_ge by lia. by replace (S (pred k)) with k by lia.
  - intros i.
    assert (inactive (shared w) !! i = Some false <-> S i ∈ owned (threads w)) as ->.
    { rewrite (wo_active w Hw). split; [eauto|]. by intros (i' & [= <-] & ?). }
    unfold owned. rewrite elem_of_concat. split.
    + intros (ls & Hi & (th & -> & [j Hj]%list_elem_of_lookup_1)%list_elem_of_fmap). eauto.
    + intros (j & th & Hj & Hi). exists (listeners th). split; [done|]. apply list_elem_of_fmap. exists th.
      split; [done|]. by eapply list_elem_of_lookup_2.
  - intros i t x e Ht He Hk. pose proof (wo_keys w Hw i t x e Ht He Hk) as Hin.
    apply list_elem_of_omap in Hin as (th & [j Hj]%list_elem_of_lookup_1 & Eth). exists j, th.
    by destruct (stage_of th); simplify_eq.
  - intros j th ok Hj. specialize (Hok j th Hj). split; [by intros Est; rewrite Est in Hok|]. intros Hb Hg Hf.
    destruct (wo_thread w Hw th) as (_ & _ & Hc & _); [by eapply list_elem_of_lookup_2|].
    destruct (thread_step_total (shared w) (tid th) (stage_of th) ok (listeners th) _ (wo_shape w Hw) Hok Hc
      (ct_stage _ _ Hct th ltac:(by eapply list_elem_of_lookup_2)) Hl Hb Hg Hf) as [[[st' ls'] s'] Est].
    simpl. rewrite Hj, Est. by eexists.
Qed.

(** C31: while no thread exits, fewer than three quarters of the slots of every table are used,
    and a call that runs alone, nobody else holding the lock of the resize, returns. *)
Theorem producer_lookup_terminates l w :
  hash_run l empty_world = Some w -> forallb no_exit l = true -> Z.of_nat (length l) < 2 ^ 61 ->
  (forall i t, hashes (shared w) !! i = Some t -> 4 * Z.of_nat (length (used t)) < 3 * capacity t) /\
  (forall j th, threads w !! j = Some th -> between_calls (stage_of th) = false ->
     (implicitProducerHashResizeInProgress (shared w) = true -> locked (stage_of th) = true) ->
     exists n w' th' p, hash_run (replicate n (Advance j Fine)) w = Some w' /\ threads w' !! j = Some th' /\ stage_of th' = Got p).
Proof.
  intros E Hne Hl. destruct (run_facts l w E ltac:(lia)) as [Hw Hct].
  destruct (run_roomy l (fun _ => 0) 0 empty_world w empty_ok empty_counted ltac:(lia) empty_roomy Hne E) as [rank Hro].
  split.
  - intros i t Ht. pose proof (used_bound rank w i t Hw Hro Ht) as Hu.
    destruct (sh_table _ (wo_shape w Hw) i t Ht) as [_ Hok]. pose proof (capacity_pos t Hok) as Hc. unfold bound in Hu.
    rewrite !Z.shiftr_div_pow2 in Hu by lia. change (2 ^ 1) with 2 in Hu. change (2 ^ 2) with 4 in Hu.
    Z.to_euclidean_division_equations. lia.
  - intros j th Hj Hb Hlock. destruct (thread_ends rank w j th _ Hw Hct Hl Hro Hj Hlock Hb) as [n Hn].
    destruct (returns_run _ _ _ _ _ Hn w j eq_refl) as (w' & th' & p & H); [by destruct th|]. by exists n, w', th', p.
Qed.

(** A thread takes producer 1, another producer 2; the first exits, and a new thread that has its
    id takes producer 1 over. *)
Module HashRun.
Definition steps (j n : nat) : list hash_action := replicate n (Advance j Fine).
Definition acts : list hash_action :=
  Arrive 4096 :: GetOrAdd 0 :: steps 0 7 ++ Arrive 8192 :: GetOrAdd 1 :: steps 1 7 ++ GetOrAdd 0 :: steps 0 2 ++
  Depart 0 :: steps 0 4 ++ Arrive 4096 :: GetOrAdd 2 :: steps 2 4 ++ Advance 2 (Reused 0) :: steps 2 3.
Definition world : World := default empty_world (hash_run acts empty_world).
Lemma world_run : hash_run acts empty_world = Some world.
Proof. vm_compute. reflexivity. Qed.

(** Two threads looking up their producers at once. *)
Definition busy : list hash_action :=
  Arrive 4096 :: Arrive 8192 :: GetOrAdd 0 :: GetOrAdd 1 :: steps 0 3 ++ steps 1 2.
Definition busy_world : World := default empty_world (hash_run busy empty_world).
Lemma busy_run : hash_run busy empty_world = Some busy_world.
Proof. vm_compute. reflexivity. Qed.
End HashRun.

Lemma thread_finds_producer_witness :
  exists th, threads HashRun.world !! 2%nat = Some th /\ stage_of th = Got 1 /\ listeners th = [1%nat].
Proof.
  destruct (thread_finds_producer HashRun.acts HashRun.world HashRun.world_run ltac:(vm_compute; reflexivity)) as (H & _).
  destruct (threads HashRun.world !! 2%nat) as [th|] eqn:E; [|vm_compute in E; discriminate E].
  assert (stage_of th = Got 1) as Est by (vm_compute in E; injection E as <-; reflexivity).
  exists th. split; [reflexivity|]. split; [exact Est|]. exact (H 2%nat th 1%nat E Est).
Defined.

Lemma producer_lookup_terminates_witness :
  exists n w' th' p, hash_run (replicate n (Advance 1 Fine)) HashRun.busy_world = Some w' /\ threads w' !! 1%nat = Some th' /\ stage_of th' = Got p.
Proof.
  destruct (producer_lookup_terminates HashRun.busy HashRun.busy_world HashRun.busy_run eq_refl ltac:(vm_compute; reflexivity)) as [_ H].
  destruct (threads HashRun.busy_world !! 1%nat) as [th|] eqn:E; [|vm_compute in E; discriminate E].
  apply (H 1%nat th E); vm_compute in E; injection E as <-; [reflexivity|vm_compute; discriminate].
Defined.
