(* ===== verification/ProducerHashFull.v ===== *)
(** * A lookup that never ends

    The comments of [get_or_add_implicit_producer] say that a slot of every table is free, so
    that its probes end.  That is so while no thread exits ([producer_lookup_terminates]).  A
    thread that exits leaves its slots in all tables, each for another thread to take over, and
    a thread that takes over a slot is not counted; but the slot of the new table into which a
    thread of the old one moves was never counted.  Here is a run in which this fills the current
    table, and the lookup of the next thread never ends. *)

From S2P Require Import Prelude ProducerHash ProducerHashProofs ProducerHashInvariant ProducerHashTheorems.
From stdpp Require Import base list.
From Stdlib Require Import ZArith Lia.
Local Open Scope Z_scope.

(** ** Probing a full table *)

(** The thread [j] is probing a table in which every slot belongs to another thread. *)
Definition spinning (j : nat) (w : World) : Prop :=
  exists th m i index t, threads w !! j = Some th /\ stage_of th = Search m (S i) index /\ hashes (shared w) !! i = Some t /\
    hash_ok t /\ Forall (fun e => key e <> invalid_thread_id /\ key e <> tid th) (entries t).

Lemma spinning_step j w : spinning j w -> exists w', hash_exec (Advance j Fine) w = Some w' /\ spinning j w'.
Proof.
  intros (th & m & i & index & t & Hj & Hst & Ht & Hok & Hall).
  destruct (slot_lookup t index Hok) as [e He]. pose proof (proj1 (Forall_lookup _ _) Hall _ _ He) as [Hz Hid].
  simpl. rewrite Hj, Hst. simpl. rewrite Ht. unfold slot in He. rewrite He.
  rewrite (proj2 (Z.eqb_neq _ _) Hid), (proj2 (Z.eqb_neq _ _) Hz). eexists. split; [reflexivity|].
  exists (mkThread (tid th) (Search m (S i) (masked index t + 1)) (listeners th)), m, i, (masked index t + 1), t. simpl.
  split; [|done]. apply list_lookup_insert_eq. by eapply lookup_lt_Some.
Qed.

Lemma spinning_forever n j w : spinning j w -> exists w', hash_run (replicate n (Advance j Fine)) w = Some w' /\ spinning j w'.
Proof.
  revert w. induction n as [|n IH]; intros w Hw; [by exists w|]. cbn [replicate hash_run].
  destruct (spinning_step j w Hw) as (w1 & -> & H1). by apply IH.
Qed.

(** What can be computed of it. *)
Definition full_for (j : nat) (w : World) : bool :=
  match threads w !! j with
  | Some th =>
      match stage_of th with
      | Search m (S i) _ =>
          match hashes (shared w) !! i with
          | Some t => forallb (fun e => negb (key e =? invalid_thread_id) && negb (key e =? tid th)) (entries t)
          | None => false
          end
      | _ => false
      end
  | None => false
  end.

Lemma full_spinning j w : world_ok w -> full_for j w = true -> spinning j w.
Proof.
  intros Hw. unfold full_for. destruct (threads w !! j) as [th|] eqn:Hj; [|done].
  destruct (stage_of th) as [| |m [|i] index| | | | | | | | | | | | | | | | | | | | | | |] eqn:Hst; try done.
  destruct (hashes (shared w) !! i) as [t|] eqn:Ht; [|done]. intros Hf.
  exists th, m, i, index, t. split_and!; [done..|by destruct (sh_table _ (wo_shape w Hw) i t Ht)|].
  apply List.Forall_forall. intros e He. rewrite forallb_forall in Hf. apply Hf in He.
  apply andb_true_iff in He as [H1 H2]. split; by apply Z.eqb_neq, negb_true_iff.
Qed.

(** ** The run *)

(** A run so far, the last action first, and the world it leads to. *)
Record Play := mkPlay { acts : list hash_action; stands : World }.
Implicit Types (x : Play).

Definition opening : Play := mkPlay [] empty_world.

Definition act (a : hash_action) x : Play :=
  match hash_exec a (stands x) with Some w => mkPlay (a :: acts x) w | None => x end.

Definition stage_at (j : nat) x : stage := match threads (stands x) !! j with Some th => stage_of th | None => Lost end.

(** A thread takes over the idle producer that was made last, or a new one. *)
Fixpoint last_inactive (i : nat) (l : list bool) : luck :=
  match l with
  | [] => Fine
  | b :: l' => match last_inactive (S i) l' with Reused k => Reused k | o => if b then Reused i else o end
  end.
Definition next_luck (j : nat) x : luck :=
  match stage_at j x with Recycle _ => last_inactive 0 (inactive (shared (stands x))) | _ => Fine end.

(** Let a thread go on until its stage is as asked for. *)
Fixpoint drive (fuel j : nat) (stop : stage -> bool) x : Play :=
  match fuel with
  | O => x
  | S fuel' => if stop (stage_at j x) then x else drive fuel' j stop (act (Advance j (next_luck j x)) x)
  end.

Definition at_got (st : stage) : bool := match st with Got _ => true | _ => false end.
Definition at_draw (st : stage) : bool := match st with Draw _ => true | _ => false end.
Definition at_reload (st : stage) : bool := match st with Reload _ => true | _ => false end.
Definition at_gone (st : stage) : bool := match st with Gone => true | _ => false end.

Definition go_on x (j : nat) : Play := drive 1000 j at_got x.
Definition look_up x (j : nat) : Play := go_on (act (GetOrAdd j) x) j.
(** A call that stops before it draws from the count. *)
Definition call_stale x (j : nat) : Play := drive 1000 j at_draw (act (GetOrAdd j) x).
Definition leave x (j : nat) : Play := drive 1000 j at_gone (act (Depart j) x).
Definition arrive x (id : Z) : Play := act (Arrive id) x.
(** New threads, each with a call. *)
Definition enrol x (ids : list Z) : Play :=
  fold_left look_up (seq (length (threads (stands x))) (length ids)) (fold_left arrive ids x).
(** Fifteen threads move over to the current table and exit; others with their ids come. *)
Definition replace_threads (k : nat) (ids : list Z) x : Play :=
  enrol (fold_left leave (seq k 15) (fold_left look_up (seq k 15) x)) ids.
(** ... after they got through with their calls, begun on the first table. *)
Definition stale_round (k : nat) (ids : list Z) x : Play := replace_threads k ids (fold_left go_on (seq k 15) x).

(** Ids whose hashes are 0 to 14 modulo 64, four times, and five whose hashes are 15. *)
Definition page (k : Z) : Z := 4096 * k.
Definition ids0 : list Z := map page [74; 36; 29; 147; 5; 48; 220; 69; 53; 50; 80; 15; 3; 57; 20].
Definition ids1 : list Z := map page [85; 55; 30; 150; 60; 155; 259; 192; 87; 209; 96; 18; 43; 211; 135].
Definition ids2 : list Z := map page [89; 164; 63; 166; 117; 202; 266; 224; 101; 307; 128; 76; 149; 302; 138].
Definition ids3 : list Z := map page [104; 210; 132; 174; 119; 355; 348; 225; 120; 520; 136; 197; 414; 321; 145].
Definition others : list Z := map page [9; 64; 123; 280; 333].

(** Fifteen threads are in the first table; 46 begin their calls on it and stop before they
    draw; another thread makes the second table, of 64 slots. *)
Definition stale_threads : Play :=
  enrol (fold_left call_stale (seq 15 46) (fold_left arrive (ids1 ++ ids2 ++ ids3 ++ take 1 others) (enrol opening ids0)))
    (take 1 (drop 1 others)).
(** One of the 46 goes on until it has the lock of the resize, and stops there.  The fifteen are
    replaced, then the rest of the 46, fifteen at a time. *)
Definition rounds : Play :=
  stale_round 45 ids3 (stale_round 30 ids2 (stale_round 15 ids1 (replace_threads 0 ids0 (drive 1000 60 at_reload stale_threads)))).
(** Three more threads fill the table; then one more calls. *)
Definition full_table : Play := act (Advance 125 Fine) (act (GetOrAdd 125) (arrive (enrol rounds (drop 2 others)) (page 6))).

(** Whatever is played is a run. *)
Definition play_ok x : Prop := hash_run (rev (acts x)) empty_world = Some (stands x).

Lemma hash_run_snoc l a w : hash_run (l ++ [a]) w = match hash_run l w with Some w' => hash_exec a w' | None => None end.
Proof.
  revert w. induction l as [|b l IH]; intros w; simpl; [by destruct (hash_exec a w)|]. by destruct (hash_exec b w).
Qed.

Lemma act_ok a x : play_ok x -> play_ok (act a x).
Proof.
  unfold play_ok, act. intros H. destruct (hash_exec a (stands x)) as [w|] eqn:E; [|done]. simpl. by rewrite hash_run_snoc, H.
Qed.

Lemma fold_ok {B} (f : Play -> B -> Play) l x : (forall y b, play_ok y -> play_ok (f y b)) -> play_ok x -> play_ok (fold_left f l x).
Proof. intros Hf. revert x. induction l as [|b l IH]; intros x Hx; [done|]. apply IH. by apply Hf. Qed.

Lemma drive_ok fuel j stop x : play_ok x -> play_ok (drive fuel j stop x).
Proof.
  revert x. induction fuel as [|fuel IH]; intros x Hx; [done|]. cbn [drive]. destruct (stop (stage_at j x)); [done|]. by apply IH, act_ok.
Qed.

Create HintDb play.
#[local] Hint Resolve act_ok fold_ok drive_ok : play.
#[local] Hint Unfold go_on look_up call_stale leave arrive enrol replace_threads stale_round : play.

Lemma enrol_ok x ids : play_ok x -> play_ok (enrol x ids).
Proof. autounfold with play. auto 8 with play. Qed.

Lemma replace_ok k ids x : play_ok x -> play_ok (replace_threads k ids x).
Proof. autounfold with play. auto 12 with play. Qed.

Lemma round_ok k ids x : play_ok x -> play_ok (stale_round k ids x).
Proof. intros H. apply replace_ok. autounfold with play. auto with play. Qed.

Lemma full_table_ok : play_ok full_table.
Proof.
  assert (play_ok opening) by reflexivity. assert (play_ok stale_threads).
  { apply enrol_ok, fold_ok; [intros; by apply drive_ok, act_ok|]. apply fold_ok; [intros; by apply act_ok|]. by apply enrol_ok. }
  do 2 apply act_ok. apply act_ok, enrol_ok. do 3 apply round_ok. by apply replace_ok, drive_ok.
Qed.

(** The lookup of a producer may never return, even when the thread runs alone: every slot of the
    current table can be in use. *)
Theorem lookup_can_spin :
  exists l w j, hash_run l empty_world = Some w /\
    forall n, exists w' th' m h index,
      hash_run (replicate n (Advance j Fine)) w = Some w' /\ threads w' !! j = Some th' /\ stage_of th' = Search m h index.
Proof.
  exists (rev (acts full_table)), (stands full_table), 125%nat. pose proof full_table_ok as Hp. split; [exact Hp|].
  assert (spinning 125 (stands full_table)) as Hs.
  { apply full_spinning; [by eapply hash_run_ok; [exact empty_ok|exact Hp]|]. vm_compute. reflexivity. }
  intros n. destruct (spinning_forever n _ _ Hs) as (w' & Hr & th & m & i & index & t & Hj & Hst & _).
  exists w', th, m, (S i), index. exact (conj Hr (conj Hj Hst)).
Qed.
