(* ===== verification/ConcurrentQueue.v ===== *)
(** * The lock-free queue as a whole

    [ConcurrentQueue] of [src/include/concurrentqueue.h]: one [ImplicitProducer] per enqueuing
    thread, in a list that only grows; a thread that exits leaves its producer inactive, for
    another to take over; a dequeue looks through the producers for one with elements.

    A pointer to a producer is its place in the list plus one, 0 the null pointer; a pointer
    that is followed when it is null makes the client [Null].  Each atomic access is a step of
    one client, and [cq_exec] interleaves them.  The producers are all implicit: the program
    makes no tokens.  That a thread finds its producer again is what the [Owner]s stand for; ProducerHash.v
    is how. *)

From S2P Require Import Prelude Circular ImplicitProducer.
From stdpp Require Import base list gmap.
From Stdlib Require Import ZArith Lia.
Local Open Scope Z_scope.

(** ** The producers *)

Section Queue.
Context {A : Type}.

(** A producer in the list, with the state of its thread's enqueue and what that thread has made
    visible so far. *)
Record Stream := mkStream {
  core : Producer A;
  writing : writer_stage A;
  visible : list A;
  next_prod : nat;
  inactive : bool
}.
Implicit Types (s : Stream) (l : list Stream).

Definition set_core (p : Producer A) s : Stream := mkStream p (writing s) (visible s) (next_prod s) (inactive s).
Definition set_inactive (b : bool) s : Stream := mkStream (core s) (writing s) (visible s) (next_prod s) b.

(** [create<ImplicitProducer>], and [producer->next = prevTail]. *)
Definition new_stream (prevTail : nat) : Stream := mkStream empty_producer WIdle [] prevTail false.

Definition producerListTail l : nat := length l.

(** [size_approx], from the two indices it loads. *)
Definition approx (tail head : Z) : Z := if circular_less_than 64 head tail then u64 (tail - head) else 0.

(** ** The clients *)

(** The locals of the first loop of [try_dequeue]. *)
Record scan := mkScan { nonEmptyCount : Z; best : nat; bestSize : Z }.

Definition seen (ptr : nat) (size : Z) (c : scan) : scan :=
  if 0 <? size then
    if bestSize c <? size then mkScan (nonEmptyCount c + 1) ptr size
    else mkScan (nonEmptyCount c + 1) (best c) (bestSize c)
  else c.

(** Who called a producer's [dequeue] or [dequeue_bulk]: [best->dequeue] and the loop after it in
    [try_dequeue], and [try_dequeue_bulk], with the elements it has so far. *)
Inductive purpose := ForBest | ForOthers (first : nat) | ForMany (max : Z) (got : list A).

Inductive client :=
| FindTail                                   (* recycle_or_create_producer: producerListTail.load *)
| FindInactive (ptr : nat)                   (* its loop: inactive.load *)
| Reuse (ptr : nat)                          (* inactive.compare_exchange_strong *)
| Create                                     (* create and, in add_producer, producerListTail.load *)
| Append (prevTail : nat)                    (* producerListTail.compare_exchange_weak *)
| NoProducer                                 (* nullptr: the enqueue returns false *)
| Owner (ptr : nat)                          (* this thread's producer *)
| Exited
| LoadTail (k : kind)                        (* a dequeue: producerListTail.load *)
| SizeTail (ptr : nat) (c : scan)            (* the first loop, before tailIndex.load *)
| SizeHead (ptr : nat) (c : scan) (tail : Z) (* before headIndex.load *)
| Reload (first : nat)                       (* best had nothing: producerListTail.load *)
| Other (first ptr : nat)                    (* the second loop *)
| Each (max : Z) (got : list A) (ptr : nat)  (* the loop of try_dequeue_bulk *)
| Call (c : purpose) (ptr : nat) (k : kind) (st : reader_stage A)
| Returned (k : kind) (got : list A)
| Null.

(** Following a pointer. *)
Definition deref l (ptr : nat) (f : nat -> Stream -> option (client * list Stream)) : option (client * list Stream) :=
  match ptr with
  | O => Some (Null, l)
  | S i => match l !! i with Some s => f i s | None => Some (Null, l) end
  end.

(** What a client does with the result of a call on the producer [ptr]. *)
Definition after_call (c : purpose) (ptr : nat) (got : list A) s : client :=
  match c with
  | ForBest => match got with [] => Reload ptr | _ => Returned One got end
  | ForOthers first => match got with [] => Other first (next_prod s) | _ => Returned One got end
  | ForMany max had =>
      let got' := had ++ got in
      if Z.of_nat (length got') =? max then Returned (Bulk max) got' else Each max got' (next_prod s)
  end.

(** [recycle_or_create_producer] and [add_producer].  [ok]: an allocation succeeds, a weak
    compare-and-swap does not fail spuriously. *)
Definition recycle_or_create_producer (t : client) (ok : bool) l : option (client * list Stream) :=
  match t with
  | FindTail => Some (FindInactive (producerListTail l), l)
  | FindInactive O => Some (Create, l)
  | FindInactive ptr => deref l ptr (fun i s => Some (if inactive s then Reuse ptr else FindInactive (next_prod s), l))
  | Reuse ptr =>
      deref l ptr (fun i s =>
        if inactive s then Some (Owner ptr, <[i := set_inactive false s]> l) else Some (FindInactive (next_prod s), l))
  | Create => Some (if ok then Append (producerListTail l) else NoProducer, l)
  | Append prevTail =>
      if ok && (producerListTail l =? prevTail)%nat
      then Some (Owner (S (length l)), l ++ [new_stream prevTail])
      else Some (Append (producerListTail l), l)
  | _ => None
  end.

(** [try_dequeue]. *)
Definition try_dequeue (t : client) l : option (client * list Stream) :=
  match t with
  | LoadTail One => Some (SizeTail (producerListTail l) (mkScan 0 0 0), l)
  | SizeTail ptr c =>
      if (nonEmptyCount c <? 3) && negb (ptr =? 0)%nat
      then deref l ptr (fun i s => Some (SizeHead ptr c (tailIndex (core s)), l))
      else if 0 <? nonEmptyCount c then Some (Call ForBest (best c) One RTail, l)
      else Some (Returned One [], l)
  | SizeHead ptr c tail =>
      deref l ptr (fun i s => Some (SizeTail (next_prod s) (seen ptr (approx tail (headIndex (core s))) c), l))
  | Reload first => Some (Other first (producerListTail l), l)
  | Other first O => Some (Returned One [], l)
  | Other first ptr =>
      deref l ptr (fun i s =>
        Some (if negb (ptr =? first)%nat then Call (ForOthers first) ptr One RTail else Other first (next_prod s), l))
  | _ => None
  end.

(** [try_dequeue_bulk]. *)
Definition try_dequeue_bulk (t : client) l : option (client * list Stream) :=
  match t with
  | LoadTail (Bulk max) => Some (Each max [] (producerListTail l), l)
  | Each max got O => Some (Returned (Bulk max) got, l)
  | Each max got ptr => Some (Call (ForMany max got) ptr (Bulk (max - Z.of_nat (length got))) RTail, l)
  | _ => None
  end.

(** [ProducerBase::dequeue] and [dequeue_bulk]. *)
Definition dequeue_call (c : purpose) (ptr : nat) (k : kind) (st : reader_stage A) l : option (client * list Stream) :=
  deref l ptr (fun i s =>
    match st with
    | RDone got => Some (after_call c ptr got s, l)
    | _ =>
        match reader_step k st (core s) with
        | Some (st', p') => Some (Call c ptr k st', <[i := set_core p' s]> l)
        | None => None
        end
    end).

Definition client_step (t : client) (ok : bool) l : option (client * list Stream) :=
  match t with
  | FindTail | FindInactive _ | Reuse _ | Create | Append _ => recycle_or_create_producer t ok l
  | LoadTail One | SizeTail _ _ | SizeHead _ _ _ | Reload _ | Other _ _ => try_dequeue t l
  | LoadTail (Bulk _) | Each _ _ _ => try_dequeue_bulk t l
  | Call c ptr k st => dequeue_call c ptr k st l
  | NoProducer | Owner _ | Exited | Returned _ _ | Null => None
  end.

(** ** Interleavings *)

Record ConcurrentQueue := mkCQ { streams : list Stream; clients : list client }.
Implicit Types (q : ConcurrentQueue).

Definition empty_cq : ConcurrentQueue := mkCQ [] [].

Inductive cq_action :=
| Enroll                                (* a thread's first enqueue *)
| TryDequeue | TryDequeueBulk (max : Z)
| Advance (j : nat) (ok : bool)
| Write (j : nat) (a : sub_action A)  (* an enqueue of an owner, or a step of it *)
| Exit (j : nat).                     (* implicit_producer_thread_exited *)

(** [inner_enqueue] and [inner_enqueue_bulk]: the enqueue of this thread's producer. *)
Definition inner_enqueue (a : sub_action A) s : option Stream :=
  match a with
  | StartDequeue _ | ReaderStep _ => None
  | _ =>
      match sub_exec a (mkSub (core s) (writing s) [] (visible s)) with
      | Some u => Some (mkStream (producer u) (writer u) (published u) (next_prod s) (inactive s))
      | None => None
      end
  end.

(** [implicit_producer_thread_exited]: the thread is not in an enqueue. *)
Definition implicit_producer_thread_exited s : option Stream :=
  match writing s with WIdle => Some (set_inactive true s) | _ => None end.

(** The producer of the [j]-th client. *)
Definition owned (j : nat) q : option (nat * Stream) :=
  match clients q !! j with
  | Some (Owner (S i)) => match streams q !! i with Some s => Some (i, s) | None => None end
  | _ => None
  end.

Definition cq_exec (a : cq_action) q : option ConcurrentQueue :=
  match a with
  | Enroll => Some (mkCQ (streams q) (FindTail :: clients q))
  | TryDequeue => Some (mkCQ (streams q) (LoadTail One :: clients q))
  | TryDequeueBulk max => Some (mkCQ (streams q) (LoadTail (Bulk max) :: clients q))
  | Advance j ok =>
      match clients q !! j with
      | None => None
      | Some t =>
          match client_step t ok (streams q) with
          | None => None
          | Some (t', l') => Some (mkCQ l' (<[j := t']> (clients q)))
          end
      end
  | Write j a =>
      match owned j q with
      | None => None
      | Some (i, s) =>
          match inner_enqueue a s with None => None | Some s' => Some (mkCQ (<[i := s']> (streams q)) (clients q)) end
      end
  | Exit j =>
      match owned j q with
      | None => None
      | Some (i, s) =>
          match implicit_producer_thread_exited s with
          | Some s' => Some (mkCQ (<[i := s']> (streams q)) (<[j := Exited]> (clients q)))
          | None => None
          end
      end
  end.

Fixpoint cq_run (l : list cq_action) q : option ConcurrentQueue :=
  match l with
  | [] => Some q
  | a :: l' => match cq_exec a q with Some q' => cq_run l' q' | None => None end
  end.
End Queue.
Arguments Stream : clear implicits.
Arguments purpose : clear implicits.
Arguments client : clear implicits.
Arguments ConcurrentQueue : clear implicits.
Arguments cq_action : clear implicits.
