(* ===== verification/ConcurrentQueueInvariant.v ===== *)
(** * The invariant of the lock-free queue

    The calls of the clients are the readers of the producers they call.  Together with the
    calls that have returned, they keep every producer's invariant; what a client has is what its
    calls gave it; every producer in use has one owner. *)

From S2P Require Import Prelude Circular ImplicitProducer ImplicitProducerProofs ImplicitProducerCells ImplicitProducerInvariant ImplicitProducerTheorems ConcurrentQueue.
From stdpp Require Import base list gmap.
From Stdlib Require Import ZArith Lia.
Local Open Scope Z_scope.

Section Invariant.
Context {A : Type}.
Implicit Types (s : Stream A) (l : list (Stream A)) (t : client A) (ts : list (client A))
  (c : nat * (kind * reader_stage A)) (cs : list (nat * (kind * reader_stage A))).

(** ** Calls *)

(** The call a client is in: the producer and the reader. *)
Definition live_call t : list (nat * (kind * reader_stage A)) :=
  match t with Call _ (S i) k st => [(i, (k, st))] | _ => [] end.
Definition live ts := concat (live_call <$> ts).

(** The readers of a producer among some calls. *)
Definition at_stream (i : nat) c : Prop := c.1 = i.
Global Instance at_stream_dec i c : Decision (at_stream i c).
Proof. unfold at_stream. apply _. Defined.
Definition readers_at (i : nat) cs : list (kind * reader_stage A) := snd <$> filter (at_stream i) cs.

(** What the calls that returned gave a client. *)
Definition kept t : list A :=
  match t with Each _ got _ | Call (ForMany _ got) _ _ _ | Returned _ got => got | _ => [] end.

(** What a client may still ask of the [i]-th producer. *)
Definition future (i : nat) t : Z :=
  match t with
  | LoadTail k => limit k
  | SizeTail _ _ | SizeHead _ _ _ => 1
  | Reload first => if decide (first = S i) then 0 else 1
  | Other first ptr => if decide ((i < ptr)%nat /\ first <> S i) then 1 else 0
  | Each max got ptr => if decide (i < ptr)%nat then max - Z.of_nat (length got) else 0
  | Call ForBest ptr _ _ => if decide (ptr = S i) then 0 else 1
  | Call (ForOthers first) ptr _ _ => if decide ((S i < ptr)%nat /\ first <> S i) then 1 else 0
  | Call (ForMany max got) ptr _ _ => if decide (S i < ptr)%nat then max - Z.of_nat (length got) else 0
  | _ => 0
  end.

(** A reader stays within what it asked for. *)
Definition room (r : kind * reader_stage A) : Prop :=
  match r.2 with
  | RCommit _ d | RTail2 _ d _ => 0 <= d <= limit r.1
  | RPartial _ a | RHead a => 0 <= a <= limit r.1
  | RBlock i stop got | RTake _ i _ stop got | RFree _ i stop got => Z.of_nat (length got) + (stop - i) <= limit r.1
  | RDone got => Z.of_nat (length got) <= limit r.1
  | _ => True
  end.

Definition scan_ok (n : nat) (c : scan) : Prop :=
  (best c <= n)%nat /\ 0 <= nonEmptyCount c /\ 0 <= bestSize c /\
  (nonEmptyCount c = 0 -> bestSize c = 0) /\ (0 < nonEmptyCount c -> (1 <= best c)%nat).

Definition purpose_ok (n : nat) (p : purpose A) (ptr : nat) (k : kind) : Prop :=
  match p with
  | ForBest => k = One
  | ForOthers first => k = One /\ (1 <= first <= n)%nat /\ ptr <> first
  | ForMany max got => k = Bulk (max - Z.of_nat (length got)) /\ Z.of_nat (length got) < max
  end.

(** With [n] producers in the list. *)
Definition client_ok (n : nat) t : Prop :=
  match t with
  | FindInactive ptr | Append ptr => (ptr <= n)%nat
  | Reuse ptr | Owner ptr => (1 <= ptr <= n)%nat
  | LoadTail k => 1 <= limit k
  | SizeTail ptr c => (ptr <= n)%nat /\ scan_ok n c
  | SizeHead ptr c _ => (1 <= ptr <= n)%nat /\ scan_ok n c
  | Reload first => (1 <= first <= n)%nat
  | Other first ptr => (1 <= first <= n)%nat /\ (ptr <= n)%nat
  | Each max got ptr => Z.of_nat (length got) < max /\ (ptr <= n)%nat
  | Call p ptr k st => (1 <= ptr <= n)%nat /\ purpose_ok n p ptr k /\ room (k, st)
  | Returned k got => Z.of_nat (length got) <= limit k
  | Null => False
  | _ => True
  end.

Definition owns (i : nat) t : Z := match t with Owner ptr => if decide (ptr = S i) then 1 else 0 | _ => 0 end.

(** [past]: the calls that returned; [D] and [K]: what the enqueues and the requests to come may
    still add. *)
Record cq_ok l ts (past : list (nat * (kind * reader_stage A))) (D K : Z) : Prop := {
  ok_next : forall i s, l !! i = Some s -> next_prod s = i;
  ok_sub : forall i s, l !! i = Some s -> sub_ok (core s) (writing s) (readers_at i (live ts ++ past)) (visible s);
  ok_room : forall i s, l !! i = Some s -> tailIndex (core s) + pending (writing s) + D < 2 ^ 62;
  ok_asks : forall i, zsum (fun r => limit r.1) (readers_at i (live ts ++ past)) + zsum (future i) ts + K < 2 ^ 62;
  ok_clients : Forall (client_ok (length l)) ts;
  ok_past : Forall (fun c => finished c.2 /\ (c.1 < length l)%nat) past;
  ok_kept : concat (taken <$> (snd <$> past)) ≡ₚ concat (kept <$> ts);
  ok_owner : forall i s, l !! i = Some s -> zsum (owns i) ts = if inactive s then 0 else 1;
  ok_future : 0 <= D < 2 ^ 62 /\ 0 <= K
}.

(** ** The parts under a step *)

Lemma readers_perm i cs cs' : cs ≡ₚ cs' -> readers_at i cs ≡ₚ readers_at i cs'.
Proof. intros E. unfold readers_at. by rewrite E. Qed.

Lemma readers_cons i c cs : readers_at i (c :: cs) = if decide (c.1 = i) then c.2 :: readers_at i cs else readers_at i cs.
Proof.
  unfold readers_at. rewrite filter_cons. unfold at_stream at 1.
  destruct (decide (at_stream i c)) as [E|E], (decide (c.1 = i)); done.
Qed.

Lemma live_cons t ts : live (t :: ts) = live_call t ++ live ts.
Proof. done. Qed.

Lemma live_perm ts ts' : ts ≡ₚ ts' -> live ts ≡ₚ live ts'.
Proof. intros E. unfold live. by rewrite E. Qed.

Lemma cq_perm l ts ts' past D K : ts ≡ₚ ts' -> cq_ok l ts past D K -> cq_ok l ts' past D K.
Proof.
  intros E [H1 H2 H3 H4 H5 H6 H7 H8 H9].
  assert (forall i, readers_at i (live ts ++ past) ≡ₚ readers_at i (live ts' ++ past)) as Er.
  { intros i. apply readers_perm. by rewrite (live_perm _ _ E). }
  split; try done.
  - intros i s Hs. eapply sub_ok_perm; [apply Er|by apply H2].
  - intros i. rewrite <- Er, <- E. apply H4.
  - by rewrite <- E.
  - by rewrite <- E.
  - intros i s Hs. rewrite <- E. by apply H8.
Qed.

(** More producers never hurt a client. *)
Lemma client_more n n' t : (n <= n')%nat -> client_ok n t -> client_ok n' t.
Proof.
  intros Hn. destruct t as [| | | | | | | | | | | | | |[]| |]; simpl; unfold scan_ok; try done; try lia; intuition lia.
Qed.

Lemma future_nonneg n i t : client_ok n t -> 0 <= future i t.
Proof. destruct t as [| | | | | | | | | | | | | |[]| |]; simpl; repeat case_decide; lia. Qed.

(** A step that only changes what a client knows. *)
Lemma stay_step l t t' ts past D K :
  live_call t' = live_call t -> kept t' = kept t -> (forall i, owns i t' = owns i t) ->
  (forall i, future i t' <= future i t) -> client_ok (length l) t' ->
  cq_ok l (t :: ts) past D K -> cq_ok l (t' :: ts) past D K.
Proof.
  intros E1 E2 E3 E4 Hc [H1 H2 H3 H4 H5 H6 H7 H8 H9]. inversion_clear H5.
  rewrite live_cons in *. split; try done; rewrite ?live_cons, ?E1; try done.
  - intros i. specialize (H4 i). specialize (E4 i). rewrite zsum_cons in *. lia.
  - by constructor.
  - rewrite fmap_cons in *. by rewrite E2.
  - intros i s Hs. specialize (H8 i s Hs). rewrite zsum_cons in *. by rewrite E3.
Qed.

(** A client calls a producer. *)
Lemma start_step l t p i k ts past D K :
  live_call t = [] -> kept t = kept (Call p (S i) k RTail) -> (forall j, owns j t = 0) -> (i < length l)%nat ->
  (forall j, future j (Call p (S i) k RTail) + (if decide (i = j) then limit k else 0) <= future j t) ->
  1 <= limit k -> client_ok (length l) (Call p (S i) k RTail) ->
  cq_ok l (t :: ts) past D K -> cq_ok l (Call p (S i) k RTail :: ts) past D K.
Proof.
  intros E1 E2 E3 Hi E4 Hk Hc [H1 H2 H3 H4 H5 H6 H7 H8 H9]. inversion_clear H5. rewrite live_cons, E1 in *.
  split; try done; rewrite ?live_cons; cbn [live_call].
  - intros j s Hs. simpl. rewrite readers_cons. specialize (H2 j s Hs). cbn [fst snd app] in *.
    case_decide; [|done]. by apply start_reader.
  - intros j. simpl app. rewrite readers_cons. specialize (H4 j). specialize (E4 j). cbn [fst snd app] in *.
    destruct (decide (i = j)); rewrite !zsum_cons in *; cbn [fst] in *; lia.
  - by constructor.
  - rewrite fmap_cons in *. by rewrite <- E2.
  - intros j s Hs. specialize (H8 j s Hs). rewrite zsum_cons in *. rewrite E3 in H8. done.
Qed.
(** ** Calls in progress *)

Lemma next_room k i stop (got : list A) :
  Z.of_nat (length got) + (stop - i) <= limit k -> room (k, next_segment i stop got).
Proof. intros H. unfold next_segment. destruct (i =? stop) eqn:E; zbool; unfold room; simpl; lia. Qed.

Lemma room_step (p : Producer A) w k st st' p' rest pub :
  sub_ok p w ((k, st) :: rest) pub -> tailIndex p < 2 ^ 62 -> room (k, st) ->
  reader_step k st p = Some (st', p') -> room (k, st').
Proof.
  intros H Ht Hr E. destruct (so_counters _ _ _ _ H) as [G HG]. pose proof (sub_head _ _ _ _ H) as Hh.
  destruct (counters_bounds _ _ _ HG ltac:(lia)) as (_ & _ & B3). rewrite zsum_cons in B3.
  pose proof (co_readers _ _ _ HG) as Hc. inversion_clear Hc as [|? ? [Hl _] Hrest]. simpl in Hl.
  pose proof (counts_sums _ _ Hrest) as (_ & S2 & _).
  pose proof (so_shape _ _ _ _ H) as Hs. inversion_clear Hs as [|? ? Hs0 _]. unfold shape in Hs0. simpl in Hs0.
  destruct st as [|t|t o|o d|o d my|d|sh a|a|i stop got|seg i e stop got|b i stop got|got|]; simpl in E;
    try (injection E as <- <-); try discriminate; unfold room in *; simpl in *; try done.
  - pose proof (want_range k t o (dequeueOptimisticCount p) Hl). destruct (_ =? 0); simpl; lia.
  - pose proof (commit_positive p w _ pub k o d my H ltac:(by left)) as Hd. pose proof (grant_range k d (tailIndex p) o my Hd).
    destruct (_ =? 0); simpl; [done|]. destruct (_ <? _); simpl; lia.
  - lia.
  - unfold granted at 1 in B3. simpl in B3. rewrite wrapU_id by (unfold inU; lia). lia.
  - destruct (blocks p !! _); injection E as <- <-; simpl; [|done]. lia.
  - destruct (blocks p !! _); [|by injection E as <- <-]. destruct (i =? e) eqn:Eie; zbool.
    + injection E as <- <-. subst e. destruct (_ =? BLOCK_SIZE); simpl; [lia|]. by apply next_room.
    + destruct (cells p !! i); injection E as <- <-; simpl; [|done].
      rewrite wrapU_id by (unfold inU; lia). rewrite length_app. simpl. lia.
  - by apply next_room.
Qed.

(** Updating one producer. *)
Lemma stream_update l i s s' (P : nat -> Stream A -> Prop) :
  l !! i = Some s -> (forall j u, l !! j = Some u -> P j u) -> P i s' -> forall j u, <[i := s']> l !! j = Some u -> P j u.
Proof.
  intros Hi HP Hs j u Hu. destruct (decide (j = i)) as [->|].
  - rewrite list_lookup_insert_eq in Hu by (by eapply lookup_lt_Some). by injection Hu as <-.
  - rewrite list_lookup_insert_ne in Hu by done. by apply HP.
Qed.

Lemma call_readers i k st p ts past :
  readers_at i (live (Call p (S i) k st :: ts) ++ past) = (k, st) :: readers_at i (live ts ++ past).
Proof. rewrite live_cons. simpl. rewrite readers_cons. simpl. by rewrite decide_True. Qed.

Lemma call_others i j k st p ts past : j <> i ->
  readers_at j (live (Call p (S i) k st :: ts) ++ past) = readers_at j (live ts ++ past).
Proof. intros Hj. rewrite live_cons. simpl. rewrite readers_cons. simpl. by rewrite decide_False. Qed.

(** What the numbers of a producer leave room for. *)
Lemma asks_bound l ts past D K i : cq_ok l ts past D K ->
  zsum (fun r => limit r.1) (readers_at i (live ts ++ past)) + K < 2 ^ 62.
Proof.
  intros H. pose proof (ok_asks _ _ _ _ _ H i). cut (0 <= zsum (future i) ts); [lia|].
  apply zsum_nonneg. intros t Ht. eapply future_nonneg. by apply (proj1 (Forall_forall _ _) (ok_clients _ _ _ _ _ H)).
Qed.

Lemma tail_bound l ts past D K i s : cq_ok l ts past D K -> l !! i = Some s -> tailIndex (core s) < 2 ^ 62.
Proof.
  intros H Hs. pose proof (ok_room _ _ _ _ _ H i s Hs). destruct (ok_future _ _ _ _ _ H).
  assert (0 <= pending (writing s)) by (destruct (writing s); simpl; lia). lia.
Qed.

(** A step of a call. *)
Lemma call_step l i s p k st st' p' ts past D K :
  l !! i = Some s -> reader_step k st (core s) = Some (st', p') ->
  cq_ok l (Call p (S i) k st :: ts) past D K ->
  cq_ok (<[i := set_core p' s]> l) (Call p (S i) k st' :: ts) past D K.
Proof.
  intros Hs E H. pose proof (asks_bound _ _ _ _ _ i H) as Ha. pose proof (tail_bound _ _ _ _ _ _ _ H Hs) as Ht.
  destruct H as [H1 H2 H3 H4 H5 H6 H7 H8 H9]. pose proof (H2 i s Hs) as Hi. rewrite call_readers in *.
  assert (sub_ok p' (writing s) ((k, st') :: readers_at i (live ts ++ past)) (visible s)) as Hi'
    by (eapply reader_step_ok; [exact Hi|lia|lia|exact E]).
  assert (tailIndex p' = tailIndex (core s)) as Et by (rewrite (so_tail _ _ _ _ Hi), (so_tail _ _ _ _ Hi'); done).
  inversion_clear H5 as [|? ? Hc Hcs]. split; try done.
  - eapply stream_update; [exact Hs|exact H1|exact (H1 i s Hs)].
  - intros j u Hu. destruct (decide (j = i)) as [->|Hj].
    + rewrite call_readers. rewrite list_lookup_insert_eq in Hu by (by eapply lookup_lt_Some). injection Hu as <-. done.
    + rewrite call_others by done. rewrite list_lookup_insert_ne in Hu by done. specialize (H2 j u Hu). by rewrite call_others in H2.
  - eapply stream_update; [exact Hs|exact H3|]. simpl. rewrite Et. exact (H3 i s Hs).
  - intros j. specialize (H4 j). rewrite zsum_cons in *. destruct (decide (j = i)) as [->|Hj].
    + rewrite call_readers, zsum_cons in *. exact H4.
    + rewrite call_others in * by done. exact H4.
  - rewrite length_insert. constructor; [|done]. simpl in *. destruct Hc as (C1 & C2 & C3). split; [lia|]. split; [done|].
    eapply room_step; [exact Hi|lia|exact C3|exact E].
  - by rewrite length_insert.
  - eapply stream_update; [exact Hs|exact H8|exact (H8 i s Hs)].
Qed.

(** A call returns. *)
Lemma finish_step l i p k got t' ts past D K :
  live_call t' = [] -> kept t' = kept (Call p (S i) k (RDone got)) ++ got -> (forall j, owns j t' = 0) ->
  (forall j, future j t' <= future j (Call p (S i) k (RDone got))) -> client_ok (length l) t' ->
  cq_ok l (Call p (S i) k (RDone got) :: ts) past D K ->
  cq_ok l (t' :: ts) ((i, (k, RDone got)) :: past) D K.
Proof.
  intros E1 E2 E3 E4 Hc [H1 H2 H3 H4 H5 H6 H7 H8 H9]. inversion_clear H5 as [|? ? Hc0 Hcs].
  assert (forall j, readers_at j (live (t' :: ts) ++ (i, (k, RDone got)) :: past) ≡ₚ
    readers_at j (live (Call p (S i) k (RDone got) :: ts) ++ past)) as Er.
  { intros j. apply readers_perm. rewrite !live_cons, E1. simpl. by rewrite Permutation_middle. }
  split; try done.
  - intros j u Hu. eapply sub_ok_perm; [symmetry; apply Er|by apply H2].
  - intros j. rewrite Er. specialize (H4 j). specialize (E4 j). rewrite zsum_cons in *. lia.
  - by constructor.
  - constructor; [|done]. simpl in *. split; [done|lia].
  - rewrite !fmap_cons, !concat_cons in *. rewrite E2. cbn [snd]. change (taken (k, RDone got)) with got.
    rewrite H7. rewrite <- !app_assoc. rewrite Permutation_app_swap_app. done.
  - intros j u Hu. specialize (H8 j u Hu). rewrite zsum_cons in *. rewrite E3. done.
Qed.
(** ** Owners *)

Lemma owns_nonneg i t : 0 <= owns i t.
Proof. destruct t; simpl; try case_decide; lia. Qed.

Lemma owners_nonneg i ts : 0 <= zsum (owns i) ts.
Proof. apply zsum_nonneg. intros. apply owns_nonneg. Qed.

(** A thread takes a producer, or leaves it. *)
Lemma owner_step l i s (b : bool) t t' ts past D K :
  l !! i = Some s -> live_call t = [] -> live_call t' = [] -> kept t = [] -> kept t' = [] ->
  (forall j, future j t = 0 /\ future j t' = 0) -> (forall j, j <> i -> owns j t = 0 /\ owns j t' = 0) ->
  zsum (owns i) (t' :: ts) = (if b then 0 else 1) -> client_ok (length l) t' ->
  cq_ok l (t :: ts) past D K -> cq_ok (<[i := set_inactive b s]> l) (t' :: ts) past D K.
Proof.
  intros Hs L1 L2 K1 K2 Hf Ho Hi Hc [H1 H2 H3 H4 H5 H6 H7 H8 H9]. inversion_clear H5. rewrite live_cons, L1 in *.
  split; try done; rewrite ?live_cons, ?L2; try rewrite length_insert; try done.
  - eapply stream_update; [exact Hs|exact H1|exact (H1 i s Hs)].
  - eapply stream_update; [exact Hs|exact H2|exact (H2 i s Hs)].
  - eapply stream_update; [exact Hs|exact H3|exact (H3 i s Hs)].
  - intros j. specialize (H4 j). destruct (Hf j). rewrite zsum_cons in *. lia.
  - by constructor.
  - rewrite !fmap_cons, !concat_cons in *. by rewrite K2, <- K1.
  - intros j u Hu. destruct (decide (j = i)) as [->|Hj].
    + rewrite list_lookup_insert_eq in Hu by (by eapply lookup_lt_Some). injection Hu as <-. exact Hi.
    + rewrite list_lookup_insert_ne in Hu by done. specialize (H8 j u Hu). destruct (Ho j Hj). rewrite zsum_cons in *. lia.
Qed.

(** An enqueue, or a step of it. *)
Lemma write_step l i s s' ts past D D' K :
  l !! i = Some s -> next_prod s' = next_prod s -> inactive s' = inactive s -> 0 <= D' <= D ->
  sub_ok (core s') (writing s') (readers_at i (live ts ++ past)) (visible s') ->
  tailIndex (core s') + pending (writing s') + D' < 2 ^ 62 ->
  cq_ok l ts past D K -> cq_ok (<[i := s']> l) ts past D' K.
Proof.
  intros Hs En Ei HD Hsub Hr [H1 H2 H3 H4 H5 H6 H7 H8 H9].
  split; try rewrite length_insert; try done; try lia.
  - eapply stream_update; [exact Hs|exact H1|]. rewrite En. exact (H1 i s Hs).
  - eapply stream_update; [exact Hs|exact H2|exact Hsub].
  - eapply stream_update; [exact Hs| |exact Hr]. intros j u Hu. specialize (H3 j u Hu). lia.
  - eapply stream_update; [exact Hs|exact H8|]. rewrite Ei. exact (H8 i s Hs).
Qed.

(** Nothing refers to a producer that is not in the list. *)
Lemma no_readers n i ts past : Forall (client_ok n) ts -> Forall (fun c => finished c.2 /\ (c.1 < n)%nat) past -> (n <= i)%nat ->
  readers_at i (live ts ++ past) = [].
Proof.
  intros Ht Hp Hi. unfold readers_at. rewrite filter_none; [done|]. intros c Hc E. unfold at_stream in E.
  apply elem_of_app in Hc as [Hc|Hc].
  - apply elem_of_concat in Hc as (cs & Hc & Hcs). apply list_elem_of_fmap in Hcs as (t & -> & Ht').
    pose proof (proj1 (Forall_forall _ _) Ht t Ht') as Hok. destruct t as [| | | | | | | | | | | | | |p [|i'] k st| |]; simpl in Hc;
      try (by apply not_elem_of_nil in Hc). apply list_elem_of_singleton in Hc as ->. simpl in *. lia.
  - pose proof (proj1 (Forall_forall _ _) Hp c Hc). simpl in *. lia.
Qed.

Lemma no_owner n i ts : Forall (client_ok n) ts -> (n <= i)%nat -> zsum (owns i) ts = 0.
Proof.
  intros Ht Hi. apply zsum_zero. intros t Hin. pose proof (proj1 (Forall_forall _ _) Ht t Hin) as H.
  destruct t; simpl in *; try done. case_decide; lia.
Qed.

(** [add_producer]: the compare-and-swap that succeeds. *)
Lemma append_step l ts past D K :
  cq_ok l (Append (length l) :: ts) past D K ->
  cq_ok (l ++ [new_stream (length l)]) (Owner (S (length l)) :: ts) past D K.
Proof.
  intros [H1 H2 H3 H4 H5 H6 H7 H8 H9]. inversion_clear H5 as [|? ? Hc Hcs]. rewrite live_cons in *. simpl in H2, H4.
  assert (forall j u, (l ++ [new_stream (length l)]) !! j = Some u ->
    (j <> length l /\ l !! j = Some u) \/ (j = length l /\ u = new_stream (length l))) as Hl.
  { intros j u Hu. apply lookup_snoc_Some in Hu as [[Hlt Hu]|[-> <-]]; [left|by right]. split; [lia|done]. }
  pose proof (no_readers (length l) (length l) ts past Hcs H6 ltac:(lia)) as Hn.
  split; try done; rewrite ?live_cons; simpl app; rewrite ?length_app; simpl length.
  - intros j u Hu. destruct (Hl j u Hu) as [[_ Hj]|[-> ->]]; [by apply H1|done].
  - intros j u Hu. destruct (Hl j u Hu) as [[_ Hj]|[-> ->]]; [by apply H2|]. rewrite Hn.
    destruct (empty_sub_ok (A := A) [] ltac:(split; [constructor|done])) as [Hsub _]. exact Hsub.
  - intros j u Hu. destruct (Hl j u Hu) as [[_ Hj]|[-> ->]]; [exact (H3 j u Hj)|]. simpl. lia.
  - constructor; [simpl; lia|]. eapply Forall_impl; [exact Hcs|]. intros t. apply client_more. lia.
  - eapply Forall_impl; [exact H6|]. simpl. intros c [F1 F2]. split; [done|lia].
  - intros j u Hu. rewrite zsum_cons. destruct (Hl j u Hu) as [[Hne Hj]|[-> ->]]; simpl.
    + rewrite decide_False by lia. specialize (H8 j u Hj). rewrite zsum_cons in H8. simpl in H8. lia.
    + rewrite decide_True by done. rewrite (no_owner (length l) (length l) ts Hcs); lia.
Qed.
End Invariant.
