(* ===== verification/ConcurrentQueueSteps.v ===== *)
(** * Every step of the lock-free queue keeps its invariant

    The steps of the clients, by [stay_step], [start_step], [call_step] and [finish_step], and the
    runs of the queue; what the threads may still ask for bounds what its counters reach. *)

From S2P Require Import Prelude Circular ImplicitProducer ImplicitProducerProofs ImplicitProducerCells ImplicitProducerInvariant ImplicitProducerTheorems ConcurrentQueue ConcurrentQueueInvariant.
From stdpp Require Import base list gmap.
From Stdlib Require Import ZArith Lia.
Local Open Scope Z_scope.

Section Steps.
Context {A : Type}.
Implicit Types (s : Stream A) (l : list (Stream A)) (t : client A) (ts : list (client A)) (q : ConcurrentQueue A)
  (past : list (nat * (kind * reader_stage A))) (a : cq_action A).

(** ** A step of a client *)

Lemma deref_ok l ptr : (1 <= ptr <= length l)%nat ->
  exists i s, ptr = S i /\ (i < length l)%nat /\ l !! i = Some s /\ forall f, deref l ptr f = f i s.
Proof.
  intros Hp. destruct ptr as [|i]; [lia|]. destruct (lookup_lt_is_Some_2 l i ltac:(lia)) as [s Hs].
  exists i, s. split_and!; [done|lia|done|]. intros f. simpl. by rewrite Hs.
Qed.

Lemma scan_seen n ptr size c : (1 <= ptr <= n)%nat -> scan_ok n c -> scan_ok n (seen ptr size c).
Proof.
  intros Hp (S1 & S2 & S3 & S4 & S5). unfold seen.
  destruct (0 <? size) eqn:E; zbool; [|done]. destruct (bestSize c <? size) eqn:E'; zbool; unfold scan_ok; simpl; lia.
Qed.

(** Discharge the side conditions of [stay_step], [start_step] and [finish_step]. *)
Ltac sides :=
  try done; try (intros; simpl; rewrite ?length_app; repeat case_decide; lia);
  simpl; unfold scan_ok, room, producerListTail in *; simpl in *; rewrite ?length_app in *; try lia; try (split_and!; done || lia).

Lemma call_returns l i s p k got ts past D K :
  l !! i = Some s -> cq_ok l (Call p (S i) k (RDone got) :: ts) past D K ->
  exists past', cq_ok l (after_call p (S i) got s :: ts) past' D K.
Proof.
  intros Hs H. pose proof (ok_next _ _ _ _ _ H i s Hs) as En. pose proof (lookup_lt_Some _ _ _ Hs) as Hi.
  pose proof (ok_clients _ _ _ _ _ H) as Hc. inversion_clear Hc as [|? ? Hc0 _]. destruct Hc0 as (C1 & C2 & C3).
  exists ((i, (k, RDone got)) :: past). unfold room in C3. simpl in C3.
  destruct p as [|first|max had]; simpl in C2 |- *; rewrite ?En.
  - subst k. destruct got as [|x got]; (eapply finish_step; [..|exact H]; sides).
  - destruct C2 as (-> & C4 & C5). destruct got as [|x got]; (eapply finish_step; [..|exact H]; sides).
  - destruct C2 as (-> & C4). simpl in C3. destruct (_ =? max) eqn:E; zbool;
      (eapply finish_step; [..|exact H]; sides).
Qed.

Ltac quiet H := eexists; eapply stay_step; [..|exact H]; sides.
Ltac start H := eexists; eapply start_step; [..|exact H]; sides.

(** A step of a thread that looks for a producer of its own. *)
Lemma join_step_ok t ok l t' l' ts past D K :
  match t with FindTail | FindInactive _ | Reuse _ | Create | Append _ => True | _ => False end ->
  cq_ok l (t :: ts) past D K -> client_step t ok l = Some (t', l') -> exists past', cq_ok l' (t' :: ts) past' D K.
Proof.
  intros Ht H E. pose proof (ok_clients _ _ _ _ _ H) as Hcs. inversion_clear Hcs as [|? ? Hc _].
  destruct t as [|[|ptr]|ptr| |prev| | | | | | | | | | | |]; try done; simpl in E, Hc.
  - injection E as <- <-. quiet H.
  - injection E as <- <-. quiet H.
  - destruct (deref_ok l (S ptr) ltac:(lia)) as (i & s & [= ->] & Hi & Hs & _). rewrite Hs in E. injection E as <- <-.
    pose proof (ok_next _ _ _ _ _ H i s Hs). destruct (inactive s); quiet H.
  - destruct (deref_ok l ptr ltac:(lia)) as (i & s & -> & Hi & Hs & Hd). rewrite Hd in E.
    pose proof (ok_next _ _ _ _ _ H i s Hs). pose proof (ok_owner _ _ _ _ _ H i s Hs) as Ho.
    destruct (inactive s); injection E as <- <-; [|quiet H]. rewrite zsum_cons in Ho. simpl in Ho.
    eexists. eapply owner_step; [exact Hs|..|exact H]; sides.
  - injection E as <- <-. destruct ok; quiet H.
  - unfold producerListTail in E. destruct (ok && (length l =? prev)%nat) eqn:Eo; injection E as <- <-; [|quiet H].
    apply andb_true_iff in Eo as [_ <-%Nat.eqb_eq]. eexists. by apply append_step.
Qed.

(** A step of a dequeue. *)
Lemma dequeue_step_ok t ok l t' l' ts past D K :
  match t with LoadTail _ | SizeTail _ _ | SizeHead _ _ _ | Reload _ | Other _ _ | Each _ _ _ => True | _ => False end ->
  cq_ok l (t :: ts) past D K -> client_step t ok l = Some (t', l') -> exists past', cq_ok l' (t' :: ts) past' D K.
Proof.
  intros Ht H E. pose proof (ok_clients _ _ _ _ _ H) as Hcs. inversion_clear Hcs as [|? ? Hc _].
  destruct t as [| | | | | | | |[|max]|ptr c|ptr c tail|first|first [|ptr]|max got [|ptr]| | |]; try done;
    cbn -[Nat.eqb] in E; simpl in Hc.
  - injection E as <- <-. quiet H.
  - injection E as <- <-. quiet H.
  - destruct Hc as [Hp Hc]. destruct (_ && _) eqn:Eb.
    + apply andb_true_iff in Eb as [_ Ep%negb_true_iff%Nat.eqb_neq]. destruct (deref_ok l ptr ltac:(lia)) as (i & s & -> & Hi & Hs & Hd). rewrite Hd in E. injection E as <- <-.
      quiet H.
    + destruct (0 <? nonEmptyCount c) eqn:E0; injection E as <- <-; [|quiet H]. zbool.
      destruct Hc as (S1 & _ & _ & _ & S5). destruct (best c) as [|i] eqn:Eb'; [lia|]. start H.
  - destruct Hc as [Hp Hc]. destruct (deref_ok l ptr ltac:(lia)) as (i & s & -> & Hi & Hs & Hd). rewrite Hd in E. injection E as <- <-.
    pose proof (ok_next _ _ _ _ _ H i s Hs). eexists. eapply stay_step; [..|exact H]; try done.
    split; [lia|]. by apply scan_seen.
  - injection E as <- <-. quiet H.
  - injection E as <- <-. quiet H.
  - destruct (deref_ok l (S ptr) ltac:(lia)) as (i & s & [= ->] & Hi & Hs & _). rewrite Hs in E.
    pose proof (ok_next _ _ _ _ _ H i s Hs). destruct (Nat.eqb_spec (S i) first); injection E as <- <-; [quiet H|start H].
  - injection E as <- <-. quiet H.
  - injection E as <- <-. start H.
Qed.

Lemma client_step_ok t ok l t' l' ts past D K :
  cq_ok l (t :: ts) past D K -> client_step t ok l = Some (t', l') -> exists past', cq_ok l' (t' :: ts) past' D K.
Proof.
  intros H E. destruct t as [| | | | | | | | | | | | | |p ptr k st| |]; try discriminate;
    
    first [refine (join_step_ok _ _ _ _ _ _ _ _ _ _ H E); exact I | refine (dequeue_step_ok _ _ _ _ _ _ _ _ _ _ H E); exact I | idtac].
  pose proof (ok_clients _ _ _ _ _ H) as Hcs. inversion_clear Hcs as [|? ? Hc _]. destruct Hc as [Hp _].
  destruct (deref_ok l ptr Hp) as (i & s & -> & Hi & Hs & Hd). cbn -[reader_step] in E. rewrite Hs in E.
  assert (forall st' p', reader_step k st (core s) = Some (st', p') -> (Call p (S i) k st', <[i := set_core p' s]> l) = (t', l') ->
    exists past', cq_ok l' (t' :: ts) past' D K) as Hstep.
  { intros st' p' E1 [= <- <-]. eexists. by eapply call_step. }
  destruct st; cbn -[reader_step] in E; try (destruct (reader_step k _ (core s)) as [[st' p']|] eqn:E1; [|discriminate];
    eapply Hstep; [reflexivity|congruence]).
  injection E as <- <-. by eapply call_returns.
Qed.

(** ** Runs *)

Definition cq_demand a : Z := match a with Write _ w => demand w | _ => 0 end.
Definition cq_asks a : Z := match a with TryDequeue => 1 | TryDequeueBulk max => max | _ => 0 end.
Definition asks_some a : Prop := match a with TryDequeueBulk max => 1 <= max | _ => True end.

(** Less than 2^62 elements and 2^62 requests, and no dequeue of at most 0 elements. *)
Definition cq_fits (l : list (cq_action A)) : Prop :=
  Forall asks_some l /\ zsum cq_demand l < 2 ^ 62 /\ zsum cq_asks l < 2 ^ 62.

Lemma demand_nonneg a : 0 <= cq_demand a.
Proof. destruct a as [| | | |j w|]; simpl; try lia. destruct w; simpl; lia. Qed.

Lemma asks_nonneg a : asks_some a -> 0 <= cq_asks a.
Proof. destruct a; simpl; lia. Qed.

Lemma sums_nonneg (l : list (cq_action A)) : Forall asks_some l -> 0 <= zsum cq_demand l /\ 0 <= zsum cq_asks l.
Proof.
  intros H. split; apply zsum_nonneg; intros a Ha; [apply demand_nonneg|].
  apply asks_nonneg. by apply (proj1 (Forall_forall _ _) H).
Qed.

Lemma begin_ok l t ts past D K N :
  live_call t = [] -> kept t = [] -> (forall i, owns i t = 0) -> (forall i, future i t <= N) -> client_ok (length l) t -> 0 <= K ->
  cq_ok l ts past D (N + K) -> cq_ok l (t :: ts) past D K.
Proof.
  intros E1 E2 E3 E4 Hc HK [H1 H2 H3 H4 H5 H6 H7 H8 H9].
  split; try done; rewrite ?live_cons, ?E1; try done; cbn [app].
  - intros i. rewrite zsum_cons. specialize (H4 i). specialize (E4 i). lia.
  - by constructor.
  - rewrite fmap_cons, concat_cons, E2. done.
  - intros i s Hs. rewrite zsum_cons, E3. by apply H8.
  - tauto.
Qed.

Lemma write_ok w s s' rs :
  inner_enqueue w s = Some s' -> sub_ok (core s) (writing s) rs (visible s) ->
  tailIndex (core s) + pending (writing s) + demand w < 2 ^ 62 -> zsum (fun r => limit r.1) rs < 2 ^ 62 ->
  sub_ok (core s') (writing s') rs (visible s') /\ next_prod s' = next_prod s /\ inactive s' = inactive s /\
  tailIndex (core s') + pending (writing s') <= tailIndex (core s) + pending (writing s) + demand w.
Proof.
  intros E H Hd Hr.
  assert (forall u, sub_exec w (mkSub (core s) (writing s) rs (visible s)) = Some u ->
    (forall k, w <> StartDequeue k) -> sub_ok (producer u) (writer u) (readers u) (published u)) as Hex.
  { intros u Eu Hk. refine (proj1 (sub_exec_ok (mkSub (core s) (writing s) rs (visible s)) w [] u _ Eu)).
    split; [exact H|]. rewrite !zsum_cons, !zsum_nil. simpl. destruct w; try (by destruct (Hk k)); simpl in *;
      (split; [by repeat constructor|lia]). }
  destruct w as [x|items|ok|k|i]; simpl in E, Hd, Hex; try discriminate.
  - destruct (writing s) eqn:Ew; try discriminate. injection E as <-. split; [exact (Hex _ eq_refl ltac:(done))|].
    split_and!; simpl; done || lia.
  - destruct (writing s) eqn:Ew; try discriminate. injection E as <-. split; [exact (Hex _ eq_refl ltac:(done))|].
    split_and!; simpl; done || lia.
  - destruct (writer_step (writing s) ok (core s)) as [[[w' p'] items]|] eqn:Ew; [|discriminate]. injection E as <-.
    split; [exact (Hex _ eq_refl ltac:(done))|].
    pose proof (writer_step_ok _ _ _ _ _ _ _ _ H ltac:(lia) Ew) as (_ & Hle & _). split_and!; simpl; done || lia.
Qed.

Lemma owned_spec j q i s : owned j q = Some (i, s) -> clients q !! j = Some (Owner (S i)) /\ streams q !! i = Some s.
Proof.
  unfold owned. destruct (clients q !! j) as [[| | | | | |[|i']| | | | | | | | | |]|] eqn:Ej; try done.
  destruct (streams q !! i') as [s'|] eqn:Es; [|done]. by intros [= -> ->].
Qed.

Lemma cq_exec_ok a q q' past D K :
  asks_some a -> 0 <= D -> 0 <= K -> cq_ok (streams q) (clients q) past (cq_demand a + D) (cq_asks a + K) ->
  cq_exec a q = Some q' -> exists past', cq_ok (streams q') (clients q') past' D K.
Proof.
  intros Ha HD HK H E. destruct a as [| |max|j ok|j w|j]; simpl in E, H, Ha.
  - injection E as <-. eexists. by eapply (begin_ok _ _ _ _ _ _ 0).
  - injection E as <-. eexists. by eapply (begin_ok _ _ _ _ _ _ 1).
  - injection E as <-. eexists. by eapply (begin_ok _ _ _ _ _ _ max).
  - destruct (clients q !! j) as [t|] eqn:Ej; [|discriminate].
    destruct (client_step t ok (streams q)) as [[t' l']|] eqn:Es; [|discriminate]. injection E as <-. simpl.
    destruct (client_step_ok t ok (streams q) t' l' (delete j (clients q)) past D K) as [past' Hp]; [|done|].
    + eapply cq_perm; [by apply delete_Permutation|done].
    + exists past'. eapply cq_perm; [symmetry; by eapply insert_perm|done].
  - destruct (owned j q) as [[i s]|] eqn:Eo; [|discriminate]. apply owned_spec in Eo as [_ Hs].
    destruct (inner_enqueue w s) as [s'|] eqn:Ew; [|discriminate]. injection E as <-. simpl. exists past.
    pose proof (ok_room _ _ _ _ _ H i s Hs) as Hr. pose proof (asks_bound _ _ _ _ _ i H) as Hb.
    destruct (write_ok w s s' _ Ew (ok_sub _ _ _ _ _ H i s Hs) ltac:(lia) ltac:(lia)) as (W1 & W2 & W3 & W4).
    pose proof (demand_nonneg (Write j w)). simpl in *.
    eapply write_step; [exact Hs|exact W2|exact W3| |exact W1| |exact H]; lia.
  - destruct (owned j q) as [[i s]|] eqn:Eo; [|discriminate]. apply owned_spec in Eo as [Hj Hs].
    unfold implicit_producer_thread_exited in E. destruct (writing s) eqn:Ew; try discriminate. injection E as <-. simpl. exists past.
    eapply cq_perm; [symmetry; by eapply insert_perm|].
    assert (cq_ok (streams q) (Owner (S i) :: delete j (clients q)) past D K) as H'
      by (eapply cq_perm; [by apply delete_Permutation|exact H]).
    pose proof (ok_owner _ _ _ _ _ H' i s Hs) as Ho. rewrite zsum_cons in Ho. simpl in Ho. rewrite decide_True in Ho by done.
    pose proof (owners_nonneg i (delete j (clients q))).
    eapply (owner_step _ _ _ true); [exact Hs|..|exact H']; try done.
    + intros k Hk. simpl. by rewrite decide_False by congruence.
    + rewrite zsum_cons. simpl. destruct (inactive s); lia.
Qed.

Lemma cq_run_ok (l l' : list (cq_action A)) q q' past :
  Forall asks_some (l ++ l') -> cq_ok (streams q) (clients q) past (zsum cq_demand (l ++ l')) (zsum cq_asks (l ++ l')) ->
  cq_run l q = Some q' -> exists past', cq_ok (streams q') (clients q') past' (zsum cq_demand l') (zsum cq_asks l').
Proof.
  revert q past. induction l as [|a l IH]; intros q past Ha H E; simpl in E; [injection E as <-; by exists past|].
  destruct (cq_exec a q) as [q1|] eqn:Ea; [|discriminate]. cbn [app] in Ha, H. inversion_clear Ha as [|? ? Ha0 Ha1].
  rewrite !zsum_cons in H. destruct (sums_nonneg _ Ha1) as [S1 S2]. destruct (cq_exec_ok _ _ _ _ _ _ Ha0 S1 S2 H Ea) as [past1 H1].
  by eapply IH.
Qed.

Lemma empty_cq_ok (l : list (cq_action A)) : cq_fits l -> cq_ok (A := A) [] [] [] (zsum cq_demand l) (zsum cq_asks l).
Proof.
  intros (H1 & H2 & H3). destruct (sums_nonneg l H1). split; simpl; try done; try lia; try (by constructor).
Qed.
End Steps.
