(* ===== verification/ConcurrentQueueTheorems.v ===== *)
(** * The lock-free queue keeps the contract of a bag

    What is in the queue and not yet handed out is a bag: an enqueue adds its elements, a dequeue
    hands out some of them, each once.  This is the contract [BlockingQueue] takes the inner
    queue by. *)

From S2P Require Import Prelude Circular ImplicitProducer ImplicitProducerProofs ImplicitProducerCells ImplicitProducerInvariant ImplicitProducerTheorems ConcurrentQueue ConcurrentQueueInvariant ConcurrentQueueSteps.
From stdpp Require Import base list gmap.
From Stdlib Require Import ZArith Lia.
Local Open Scope Z_scope.

Section Queue.
Context {A : Type}.
Implicit Types (s : Stream A) (l : list (Stream A)) (t : client A) (ts : list (client A)) (q : ConcurrentQueue A)
  (past : list (nat * (kind * reader_stage A))) (a : cq_action A).

(** ** The bag *)

(** The elements in slots still to be read, by the calls that were given them or by nobody yet. *)
Definition contents (ts : list (client A)) (i : nat) s : list A :=
  omap (fun x => cells (core s) !! x)
    (concat (live_of <$> readers_at i (live ts)) ++ seqZ (headIndex (core s)) (tailIndex (core s) - headIndex (core s))).

(** What a client has that its caller has not got yet, and what its caller got. *)
Definition holding t : list A :=
  match t with Returned _ _ => [] | Call _ _ k st => kept t ++ taken (k, st) | _ => kept t end.
Definition handed t : list A := match t with Returned _ got => got | _ => [] end.

Definition bag q : list A := concat (imap (contents (clients q)) (streams q)) ++ concat (holding <$> clients q).
Definition published_by q : list A := concat (visible <$> streams q).
Definition handed_out q : list A := concat (handed <$> clients q).

Lemma past_unread i past : Forall (fun c => finished c.2) past -> concat (live_of <$> readers_at i past) = [].
Proof.
  induction 1 as [|[j [k st]] past Hc _ IH]; [done|]. rewrite readers_cons. simpl in *.
  case_decide; [|done]. destruct st; done.
Qed.

Lemma contents_visible l ts past D K i s : cq_ok l ts past D K -> l !! i = Some s ->
  concat (taken <$> readers_at i (live ts ++ past)) ++ contents ts i s ≡ₚ visible s.
Proof.
  intros H Hs. rewrite <- (sub_items _ _ _ _ (ok_sub _ _ _ _ _ H i s Hs)). unfold contents.
  assert (concat (live_of <$> readers_at i (live ts ++ past)) = concat (live_of <$> readers_at i (live ts))) as ->; [|done].
  unfold readers_at at 1. rewrite filter_app, !fmap_app, concat_app. change (snd <$> filter (at_stream i) past) with (readers_at i past).
  rewrite past_unread; [by rewrite app_nil_r|]. eapply Forall_impl; [apply H|]. by intros c [Hf Hlt].
Qed.

Lemma readers_spread (cs : list (nat * (kind * reader_stage A))) (l : list (Stream A)) : Forall (fun c => (c.1 < length l)%nat) cs ->
  concat (imap (fun i _ => concat (taken <$> readers_at i cs)) l) ≡ₚ concat (taken <$> (snd <$> cs)).
Proof.
  induction 1 as [|c cs Hc _ IH].
  - simpl. rewrite concat_imap_nil. done.
  - rewrite (imap_ext _ (fun i _ => (if decide (c.1 = i) then taken c.2 else []) ++ concat (taken <$> readers_at i cs))).
    + rewrite concat_imap_app, IH, concat_imap_one by done. done.
    + intros i s _. rewrite readers_cons. by case_decide.
Qed.

Lemma held_split ts n : Forall (client_ok n) ts ->
  concat (kept <$> ts) ++ concat (taken <$> (snd <$> live ts)) ≡ₚ concat (handed <$> ts) ++ concat (holding <$> ts).
Proof.
  induction 1 as [|t ts Ht _ IH]; [done|]. rewrite live_cons, !fmap_app, concat_app, !fmap_cons, !concat_cons.
  assert (kept t ++ concat (taken <$> (snd <$> live_call t)) ≡ₚ handed t ++ holding t) as Hc.
  { destruct t as [| | | | | | | | | | | | | |p [|i] k st| |]; simpl; rewrite ?app_nil_r; try done. simpl in Ht. lia. }
  rewrite (app_interchange (kept t)), (app_interchange (handed t)). by rewrite Hc, IH.
Qed.

Lemma accounts q past D K : cq_ok (streams q) (clients q) past D K -> handed_out q ++ bag q ≡ₚ published_by q.
Proof.
  intros H. unfold published_by, bag, handed_out.
  rewrite <- (concat_imap_perm (fun i s => concat (taken <$> readers_at i (live (clients q) ++ past)) ++ contents (clients q) i s))
    by (intros; by eapply contents_visible).
  rewrite concat_imap_app. rewrite readers_spread. 
  - rewrite !fmap_app, concat_app, (ok_kept _ _ _ _ _ H). rewrite (Permutation_app_comm (concat (taken <$> _))).
    rewrite (held_split _ _ (ok_clients _ _ _ _ _ H)). rewrite <- app_assoc. f_equiv. apply Permutation_app_comm.
  - apply Forall_app. split.
    + apply Forall_forall. intros c Hc. apply elem_of_concat in Hc as (cs & Hc & Hcs).
      apply list_elem_of_fmap in Hcs as (t & -> & Ht). pose proof (proj1 (Forall_forall _ _) (ok_clients _ _ _ _ _ H) t Ht) as Hok.
      destruct t as [| | | | | | | | | | | | | |p [|i] k st| |]; simpl in Hc; try (by apply not_elem_of_nil in Hc).
      apply list_elem_of_singleton in Hc as ->. simpl in *. lia.
    + eapply Forall_impl; [apply H|]. by intros c [Hf Hlt].
Qed.

(** ** What a step adds and what it hands out *)

Lemma insert_visible l i s s' : l !! i = Some s -> concat (visible <$> <[i := s']> l) ++ visible s ≡ₚ concat (visible <$> l) ++ visible s'.
Proof.
  intros Hs. rewrite (insert_perm l i s s' Hs). rewrite (delete_Permutation l i s Hs) at 2. simpl.
  rewrite !(Permutation_app_comm (visible _)), <- !app_assoc. apply Permutation_app_head, Permutation_app_comm.
Qed.

Lemma client_step_visible t ok l t' l' : client_step t ok l = Some (t', l') -> concat (visible <$> l') ≡ₚ concat (visible <$> l) /\ handed t = [].
Proof.
  intros E. split; [|by destruct t].
  assert (forall i s s', l !! i = Some s -> visible s' = visible s -> concat (visible <$> <[i := s']> l) ≡ₚ concat (visible <$> l)) as Hi.
  { intros i s s' Hs Hv. rewrite list_fmap_insert, Hv, list_insert_id; [done|]. by rewrite list_lookup_fmap, Hs. }
  destruct t as [|[|ptr]|[|ptr]| |prev| |ptr| |[|max]|[|ptr] c|[|ptr] c tail|first|first [|ptr]|max got [|ptr]|p [|ptr] k st|k got|];
    cbn -[reader_step Nat.eqb] in E; try discriminate;
    repeat match type of E with
           | context [match l !! ?i with _ => _ end] => destruct (l !! i) as [s|] eqn:Hs
           | context [match ?st with RTail => _ | _ => _ end] => destruct st; cbn -[reader_step] in E
           | context [match reader_step ?k ?st ?p with _ => _ end] => destruct (reader_step k st p) as [[st' p']|]; [|discriminate]
           | context [if ?b then _ else _] => destruct b
           end; injection E as <- <-; try done; try (by eapply Hi).
  rewrite fmap_app, concat_app. by rewrite app_nil_r.
Qed.

Lemma write_visible w s s' : inner_enqueue w s = Some s' -> exists items, visible s' = visible s ++ items.
Proof.
  intros E. destruct w as [x|items|ok|k|i]; simpl in E; try discriminate.
  - destruct (writing s); try discriminate. injection E as <-. exists []. by rewrite app_nil_r.
  - destruct (writing s); try discriminate. injection E as <-. exists []. by rewrite app_nil_r.
  - destruct (writer_step _ _ _) as [[[w' p'] items]|]; [|discriminate]. injection E as <-. by exists items.
Qed.

Lemma insert_handed ts j t t' : ts !! j = Some t -> handed t = [] ->
  concat (handed <$> <[j := t']> ts) ≡ₚ concat (handed <$> ts) ++ handed t'.
Proof.
  intros Hj Ht. rewrite (insert_perm ts j t t' Hj). rewrite (delete_Permutation ts j t Hj) at 2. simpl.
  rewrite Ht. simpl. apply Permutation_app_comm.
Qed.

(** Only writes add elements, only steps of a client hand them out. *)
Lemma cq_exec_moves a q q' : cq_exec a q = Some q' -> exists items got,
  published_by q' ≡ₚ published_by q ++ items /\ handed_out q' ≡ₚ handed_out q ++ got /\
  match a with Advance _ _ => items = [] | Write _ _ => got = [] | _ => items = [] /\ got = [] end.
Proof.
  unfold published_by, handed_out. intros E. destruct a as [| |max|j ok|j w|j]; simpl in E.
  1-3: injection E as <-; exists [], []; simpl; by rewrite !app_nil_r.
  - destruct (clients q !! j) as [t|] eqn:Ej; [|discriminate].
    destruct (client_step t ok (streams q)) as [[t' l']|] eqn:Es; [|discriminate]. injection E as <-.
    destruct (client_step_visible _ _ _ _ _ Es) as [Hv Ht]. exists [], (handed t'). rewrite app_nil_r.
    split_and!; [exact Hv|by eapply insert_handed|done].
  - destruct (owned j q) as [[i s]|] eqn:Eo; [|discriminate]. apply owned_spec in Eo as [_ Hs].
    destruct (inner_enqueue w s) as [s'|] eqn:Ew; [|discriminate]. injection E as <-. destruct (write_visible _ _ _ Ew) as [items Hv].
    exists items, []. rewrite app_nil_r. split_and!; [|done|done]. simpl.
    pose proof (insert_visible _ _ _ s' Hs) as Hp. rewrite Hv, (Permutation_app_comm (visible s)), app_assoc in Hp.
    by apply Permutation_app_inv_r in Hp.
  - destruct (owned j q) as [[i s]|] eqn:Eo; [|discriminate]. apply owned_spec in Eo as [Hj Hs].
    unfold implicit_producer_thread_exited in E. destruct (writing s) eqn:Ew; try discriminate.
    injection E as <-. exists [], []. rewrite app_nil_r.
    split_and!; try done; simpl.
    + pose proof (insert_visible _ _ _ (set_inactive true s) Hs) as Hp. by apply Permutation_app_inv_r in Hp.
    + by rewrite (insert_handed _ _ _ Exited Hj eq_refl).
Qed.

(** Some elements of a list can be taken from it by their places. *)
Lemma dequeue_any (got b r : list A) : b ≡ₚ got ++ r -> exists ks rest, dequeue ks b = Some (got, rest) /\ rest ≡ₚ r.
Proof.
  revert b. induction got as [|x got IH]; intros b H; [by exists [], b|].
  destruct (list_elem_of_lookup_1 b x) as [k Hk]; [rewrite H; by left|].
  pose proof (delete_Permutation b k x Hk) as Hd.
  assert (delete k b ≡ₚ got ++ r) as Hd' by (apply (Permutation_cons_inv (a := x)); by rewrite <- Hd, H).
  destruct (IH (delete k b) Hd') as (ks & rest & E & Hr). exists (k :: ks), rest. simpl. by rewrite Hk, E.
Qed.

Lemma cq_state_ok (l : list (cq_action A)) q : cq_fits l -> cq_run l empty_cq = Some q ->
  exists past, cq_ok (streams q) (clients q) past 0 0.
Proof.
  intros Hl E. pose proof (empty_cq_ok l Hl) as H0. destruct Hl as [Ha _]. rewrite <- (app_nil_r l) in H0, Ha.
  destruct (cq_run_ok l [] empty_cq q [] Ha H0 E) as [past H]. by exists past.
Qed.

Lemma fits_app (l l' : list (cq_action A)) : cq_fits (l ++ l') -> cq_fits l.
Proof.
  intros (H1 & H2 & H3). apply Forall_app in H1 as [H1 H1']. rewrite !zsum_app in *.
  destruct (sums_nonneg l' H1'). split_and!; done || lia.
Qed.

Lemma cq_run_app (l l' : list (cq_action A)) q q1 : cq_run l q = Some q1 -> cq_run (l ++ l') q = cq_run l' q1.
Proof.
  revert q. induction l as [|a l IH]; intros q E; simpl in E |- *; [by injection E as ->|].
  destruct (cq_exec a q); [|discriminate]. by apply IH.
Qed.

(** C28: the lock-free queue implements the queue [BlockingQueue] uses: every step, seen as a step
    on the bag of the elements not handed out yet, adds the elements it makes visible and takes
    out those it hands out, which [dequeue] finds in the bag; only enqueues add, only dequeues
    hand out. *)
Theorem concurrent_queue_refines (l : list (cq_action A)) a q q' :
  cq_fits (l ++ [a]) -> cq_run l empty_cq = Some q -> cq_exec a q = Some q' ->
  exists items got ks rest,
    published_by q' ≡ₚ published_by q ++ items /\ handed_out q' ≡ₚ handed_out q ++ got /\
    dequeue ks (bag q ++ items) = Some (got, rest) /\ rest ≡ₚ bag q' /\
    match a with Advance _ _ => items = [] | Write _ _ => got = [] | _ => items = [] /\ got = [] end.
Proof.
  intros Hl E Ea. destruct (cq_state_ok l q (fits_app _ _ Hl) E) as [past H]. destruct (cq_state_ok (l ++ [a]) q' Hl) as [past' H'].
  { rewrite (cq_run_app l [a] _ _ E). simpl. by rewrite Ea. }
  destruct (cq_exec_moves a q q' Ea) as (items & got & Hp & Hh & Hm).
  pose proof (accounts _ _ _ _ H) as A1. pose proof (accounts _ _ _ _ H') as A2. rewrite Hp, Hh, <- A1, <- !app_assoc in A2.
  apply Permutation_app_inv_l in A2. destruct (dequeue_any got (bag q ++ items) (bag q') (symmetry A2)) as (ks & rest & Hd & Hr).
  by exists items, got, ks, rest.
Qed.

(** ** Safety *)

Definition at_rest t : bool := match t with NoProducer | Owner _ | Exited | Returned _ _ => true | _ => false end.

Lemma client_progress t l n : n = length l -> client_ok n t -> (forall p i k, t <> Call p i k RCrash) ->
  at_rest t \/ is_Some (client_step t true l).
Proof.
  intros -> Hc Hr.
  assert (forall ptr f, (1 <= ptr <= length l)%nat -> (forall i s, is_Some (f i s)) -> is_Some (deref l ptr f)) as Hd.
  { intros ptr f Hp Hf. destruct (deref_ok l ptr Hp) as (i & s & _ & _ & _ & ->). apply Hf. }
  destruct t as [|[|ptr]|ptr| |prev| |ptr| |[|max]|ptr c|ptr c tail|first|first [|ptr]|max got [|ptr]|p ptr k st|k got|];
    try (by left); try (right; by eexists); right;
    unfold client_step, recycle_or_create_producer, try_dequeue, try_dequeue_bulk, dequeue_call.
  - apply Hd; [simpl in Hc; lia|]. intros. by eexists.
  - apply Hd; [simpl in Hc; lia|]. intros i s. destruct (inactive s); by eexists.
  - destruct (_ && _); by eexists.
  - destruct (_ && _) eqn:E; [|destruct (0 <? nonEmptyCount c); by eexists]. apply andb_true_iff in E as [_ E%negb_true_iff%Nat.eqb_neq].
    apply Hd; [simpl in Hc; lia|]. intros. by eexists.
  - apply Hd; [simpl in Hc; lia|]. intros. by eexists.
  - apply Hd; [simpl in Hc; lia|]. intros. by eexists.
  - apply Hd; [apply Hc|]. intros i s. destruct (decide (finished (k, st))) as [Hf|Hf].
    + by destruct st.
    + destruct (reader_step_total k st (core s)) as [[st' p'] E]; [by intros ->; apply (Hr p ptr k)|by intros got ->; apply Hf|].
      rewrite E. destruct st; by eexists.
Qed.

Lemma no_crash l t ts past D K p i k : cq_ok l ts past D K -> t ∈ ts -> t <> Call p i k RCrash.
Proof.
  intros H Ht ->. pose proof (proj1 (Forall_forall _ _) (ok_clients _ _ _ _ _ H) _ Ht) as (Hp & _).
  destruct (deref_ok l i Hp) as (i' & s & -> & _ & Hs & _).
  apply list_elem_of_lookup_1 in Ht as [j Hj]. pose proof (delete_Permutation _ _ _ Hj) as Hd.
  pose proof (ok_sub _ _ _ _ _ (cq_perm _ _ _ _ _ _ Hd H) i' s Hs) as Hsub. rewrite call_readers in Hsub.
  pose proof (so_shape _ _ _ _ Hsub) as Hsh. by inversion_clear Hsh.
Qed.

(** C29: whatever the order of the steps of the enqueuing and dequeuing threads, threads that
    join and exit included, and fewer than 2^62 elements and requests: what was handed out and
    what is still in the bag is what was made visible, each element once; a producer in use has
    exactly one owner and an inactive one has none, so no two threads ever write to the same one;
    no null pointer is followed, no missing block or empty slot is touched, and no dequeue hands
    out more than it was asked for; and no thread ever has to wait for another. *)
Theorem concurrent_queue_correct (l : list (cq_action A)) q :
  cq_fits l -> cq_run l empty_cq = Some q ->
  handed_out q ++ bag q ≡ₚ published_by q /\
  (forall i s, streams q !! i = Some s ->
     writing s <> WCrash /\ zsum (owns i) (clients q) = if inactive s then 0 else 1) /\
  (forall j t, clients q !! j = Some t ->
     t <> Null /\ (forall p ptr k, t <> Call p ptr k RCrash) /\
     (forall k got, t = Returned k got -> Z.of_nat (length got) <= limit k) /\
     (at_rest t \/ is_Some (cq_exec (Advance j true) q))).
Proof.
  intros Hl E. destruct (cq_state_ok l q Hl E) as [past H]. split; [by eapply accounts|]. split.
  - intros i s Hs. split; [|by apply H]. intros Hw. pose proof (so_writer _ _ _ _ (ok_sub _ _ _ _ _ H i s Hs)) as Hok.
    by rewrite Hw in Hok.
  - intros j t Hj. pose proof (list_elem_of_lookup_2 _ _ _ Hj) as Ht.
    pose proof (proj1 (Forall_forall _ _) (ok_clients _ _ _ _ _ H) t Ht) as Hc.
    assert (forall p ptr k, t <> Call p ptr k RCrash) as Hcr by (intros; by eapply no_crash).
    split_and!; [by intros ->|exact Hcr|intros k got ->; exact Hc|].
    destruct (client_progress t (streams q) _ eq_refl Hc Hcr) as [|[[t' l'] Hs]]; [by left|right].
    simpl. rewrite Hj, Hs. by eexists.
Qed.

(** ** A dequeue alone *)

Fixpoint steps (n : nat) t l : option (client A * list (Stream A)) :=
  match n with
  | O => Some (t, l)
  | S n' => match client_step t true l with Some (t', l') => steps n' t' l' | None => None end
  end.

Lemma run_steps n t l ts t' l' : steps n t l = Some (t', l') ->
  cq_run (replicate n (Advance 0 true)) (mkCQ l (t :: ts)) = Some (mkCQ l' (t' :: ts)).
Proof.
  revert t l. induction n as [|n IH]; intros t l E; simpl in E |- *; [by injection E as <- <-|].
  destruct (client_step t true l) as [[t1 l1]|]; [|discriminate]. by apply IH.
Qed.

Lemma steps_app n m t l t1 l1 : steps n t l = Some (t1, l1) -> steps (n + m) t l = steps m t1 l1.
Proof.
  revert t l. induction n as [|n IH]; intros t l E; simpl in E |- *; [by injection E as <- <-|].
  destruct (client_step t true l) as [[t2 l2]|]; [|discriminate]. by apply IH.
Qed.

Definition bounds_ok l : Prop := forall i s, l !! i = Some s -> 0 <= headIndex (core s) <= tailIndex (core s) /\ tailIndex (core s) < 2 ^ 62.
Definition nonempty s : Prop := headIndex (core s) < tailIndex (core s).

(** What the scan knows is so: its best producer has elements. *)
Definition scan_true l c : Prop :=
  0 <= nonEmptyCount c /\ 0 <= bestSize c /\ (nonEmptyCount c = 0 -> bestSize c = 0) /\
  (0 < nonEmptyCount c -> exists i s, best c = S i /\ l !! i = Some s /\ nonempty s).

Lemma approx_exact s : 0 <= headIndex (core s) <= tailIndex (core s) -> tailIndex (core s) < 2 ^ 62 ->
  approx (tailIndex (core s)) (headIndex (core s)) = tailIndex (core s) - headIndex (core s).
Proof.
  intros Hh Ht. unfold approx. rewrite circular_64 by lia. destruct (_ <? _) eqn:E; zbool; [|lia].
  apply wrapU_id. unfold inU. lia.
Qed.

Lemma seen_true l c i s : bounds_ok l -> l !! i = Some s -> scan_true l c ->
  let c' := seen (S i) (approx (tailIndex (core s)) (headIndex (core s))) c in
  scan_true l c' /\ (nonEmptyCount c' = 0 -> nonEmptyCount c = 0 /\ ~ nonempty s).
Proof.
  intros Hb Hs (S1 & S2 & S3 & S4). destruct (Hb i s Hs) as [Hh Ht]. rewrite approx_exact by done. unfold seen, nonempty.
  destruct (0 <? _) eqn:E; zbool; [|split; [done|lia]]. destruct (bestSize c <? _) eqn:E'; zbool; simpl.
  - split; [|lia]. unfold scan_true. simpl. split_and!; try lia. intros _. exists i, s. unfold nonempty. split_and!; done || lia.
  - split; [|lia]. unfold scan_true. simpl. split_and!; try lia. intros _. apply S4. lia.
Qed.

(** The first loop, from the producer [ptr] on. *)
Lemma scan_alone l ptr c : (forall i s, l !! i = Some s -> next_prod s = i) -> bounds_ok l -> (ptr <= length l)%nat -> scan_true l c ->
  exists n c', (n <= 2 * ptr + 1)%nat /\ scan_true l c' /\
    steps n (SizeTail ptr c) l = Some (if 0 <? nonEmptyCount c' then Call ForBest (best c') One RTail else Returned One [], l) /\
    (nonEmptyCount c' = 0 -> nonEmptyCount c = 0 /\ forall i s, (i < ptr)%nat -> l !! i = Some s -> ~ nonempty s).
Proof.
  intros Hn Hb. revert c. induction ptr as [|i IH]; intros c Hp Hc.
  - exists 1%nat, c. split_and!; [lia|done| |intros; split; [done|lia]]. simpl. rewrite andb_false_r. by destruct (0 <? _).
  - destruct (nonEmptyCount c <? 3) eqn:E3; zbool.
    + destruct (lookup_lt_is_Some_2 l i ltac:(lia)) as [s Hs]. destruct (seen_true l c i s Hb Hs Hc) as [Hc' H0].
      destruct (IH _ ltac:(lia) Hc') as (n & c' & Hle & Ht & Hst & Hz). exists (S (S n)), c'. split_and!; [lia|done| |].
      * cbn -[approx seen]. assert (nonEmptyCount c <? 3 = true) as -> by (apply Z.ltb_lt; lia). cbn -[approx seen].
        rewrite Hs. cbn -[approx seen]. rewrite Hs, (Hn i s Hs). exact Hst.
      * intros Hz'. destruct (Hz Hz') as [Z1 Z2]. destruct (H0 Z1) as [Z3 Z4]. split; [done|]. intros j u Hj Hu.
        destruct (decide (j = i)) as [->|]; [by rewrite Hs in Hu; injection Hu as <-|by apply (Z2 j); [lia|]].
    + exists 1%nat, c. split_and!; [lia|done| |lia]. simpl.
      assert (nonEmptyCount c <? 3 = false) as -> by (apply Z.ltb_ge; lia). simpl. by destruct (0 <? _).
Qed.

(** The call of a producer. *)
Lemma call_alone n l i s p k st st' p' : l !! i = Some s -> solo n k st (core s) = Some (st', p') ->
  exists m l', (m <= n)%nat /\ steps m (Call p (S i) k st) l = Some (Call p (S i) k st', l') /\
    l' = <[i := set_core p' s]> l.
Proof.
  revert l s st. induction n as [|n IH]; intros l s st Hs E; simpl in E.
  - injection E as <- <-. exists 0%nat, l. split_and!; [lia|done|]. symmetry. apply list_insert_id. by destruct s.
  - destruct (reader_step k st (core s)) as [[st1 p1]|] eqn:E1; [|discriminate].
    destruct (IH (<[i := set_core p1 s]> l) (set_core p1 s) st1) as (m & l' & Hm & Hst & ->).
    { apply list_lookup_insert_eq. by eapply lookup_lt_Some. } { exact E. }
    exists (S m), (<[i := set_core p' s]> l). split_and!; [lia| |done].
    cbn -[reader_step]. rewrite Hs. rewrite list_insert_insert_eq in Hst. rewrite E1. destruct st; try exact Hst. discriminate.
Qed.

Lemma past_finished i l ts past D K : cq_ok l ts past D K -> live ts = [] ->
  Forall finished (readers_at i (live ts ++ past)).
Proof.
  intros H ->. simpl. apply Forall_forall. intros r Hr. apply list_elem_of_fmap in Hr as (c & -> & Hc).
  apply list_elem_of_filter in Hc as [_ Hc]. by apply (proj1 (Forall_forall _ _) (ok_past _ _ _ _ _ H) c Hc).
Qed.

Lemma bounds_hold l ts past D K : cq_ok l ts past D K -> bounds_ok l.
Proof. intros H i s Hs. split; [by eapply sub_head, H|by eapply tail_bound]. Qed.

(** The best producer gives its oldest element. *)
Lemma best_alone l i s ts past K : cq_ok l (LoadTail One :: ts) past 0 K -> live ts = [] -> l !! i = Some s -> nonempty s ->
  exists n l' x, (n <= 11)%nat /\ steps n (Call ForBest (S i) One RTail) l = Some (Returned One [x], l') /\
    visible s !! Z.to_nat (headIndex (core s)) = Some x.
Proof.
  intros H Hlive Hs Hne. pose proof (ok_sub _ _ _ _ _ H i s Hs) as Hsub. pose proof (sub_head _ _ _ _ Hsub) as Hh.
  destruct (lookup_lt_is_Some_2 (visible s) (Z.to_nat (headIndex (core s)))) as [x Hx].
  { pose proof (so_tail _ _ _ _ Hsub). unfold nonempty in Hne. lia. }
  destruct (lone_solo (core s) (writing s) (readers_at i (live (LoadTail One :: ts) ++ past)) (visible s)) as (n & p' & Hn & Hso).
  - apply start_reader; [simpl; lia|exact Hsub].
  - eapply past_finished; [exact H|done].
  - exact Hsub.
  - by eapply tail_bound.
  - pose proof (ok_asks _ _ _ _ _ H i) as Ha. rewrite !zsum_cons in *. simpl in Ha |- *. destruct (ok_future _ _ _ _ _ H) as [_ HK].
    cut (0 <= zsum (future i) ts); [lia|]. apply zsum_nonneg. intros t Ht. eapply future_nonneg.
    pose proof (ok_clients _ _ _ _ _ H) as Hc. inversion_clear Hc as [|? ? _ Hcs]. by apply (proj1 (Forall_forall _ _) Hcs).
  - rewrite Hx in Hso. destruct (call_alone n l i s ForBest One _ _ _ Hs Hso) as (m & l' & Hm & Hst & ->).
    eexists (m + 1)%nat, _, x. split_and!; [lia| |exact Hx]. rewrite (steps_app m 1 _ _ _ _ Hst). simpl.
    rewrite list_lookup_insert_eq by (by eapply lookup_lt_Some). done.
Qed.

(** A [try_dequeue] that runs while no other dequeue is inside a producer finds an element
    whenever there is one: it returns the oldest element of some producer, and comes back
    empty-handed only when every producer is empty; it takes at most two steps per producer and
    13 more. *)
Theorem lone_try_dequeue (l : list (cq_action A)) q :
  cq_fits (l ++ [TryDequeue]) -> cq_run l empty_cq = Some q -> live (clients q) = [] ->
  exists n q' got, (n <= 2 * length (streams q) + 13)%nat /\
    cq_run (TryDequeue :: replicate n (Advance 0 true)) q = Some q' /\ clients q' = Returned One got :: clients q /\
    match got with
    | [] => forall i s, streams q !! i = Some s -> headIndex (core s) = tailIndex (core s)
    | [x] => exists i s, streams q !! i = Some s /\ visible s !! Z.to_nat (headIndex (core s)) = Some x
    | _ => False
    end.
Proof.
  intros Hl E Hlive. pose proof (empty_cq_ok _ Hl) as H0. destruct (cq_run_ok l [TryDequeue] empty_cq q [] (proj1 Hl) H0 E) as [past H].
  rewrite !zsum_singleton in H. destruct q as [ss ts]. simpl in H, Hlive.
  assert (cq_ok ss (LoadTail One :: ts) past 0 0) as H1 by (by apply (begin_ok _ _ _ _ _ _ 1)).
  pose proof (bounds_hold _ _ _ _ _ H) as Hb.
  destruct (scan_alone ss (length ss) (mkScan 0 0 0) (ok_next _ _ _ _ _ H) Hb (le_n _)) as (n & c & Hn & (Hcount & _ & _ & Hbest) & Hst & Hz).
  { split_and!; simpl; done || lia. }
  destruct (0 <? nonEmptyCount c) eqn:E0; zbool.
  - destruct (Hbest E0) as (i & s & Eb & Hs & Hne). rewrite Eb in Hst.
    destruct (best_alone _ _ _ _ _ _ H1 Hlive Hs Hne) as (m & l' & x & Hm & Hst' & Hx).
    exists (S (n + m)), (mkCQ l' (Returned One [x] :: ts)), [x]. split_and!; [simpl; lia| |done|by exists i, s].
    refine (run_steps (S (n + m)) (LoadTail One) ss ts _ _ _). rewrite <- Hst'. exact (steps_app n m _ _ _ _ Hst).
  - exists (S n), (mkCQ ss (Returned One [] :: ts)), []. split_and!; [simpl; lia| |done|].
    + exact (run_steps (S n) (LoadTail One) ss ts _ _ Hst).
    + intros i s Hs. destruct (Hb i s Hs). destruct Hz as [_ Hempty]; [lia|].
      specialize (Hempty i s (lookup_lt_Some _ _ _ Hs) Hs). unfold nonempty in Hempty. lia.
Qed.
End Queue.

(** ** Examples *)

Definition advance (n j : nat) : list (cq_action Z) := replicate n (Advance j true).
Definition push (j : nat) (items : list Z) : list (cq_action Z) :=
  Write j (StartEnqueueBulk items) :: replicate (length items + 3) (Write j (WriterStep true)).

(** Two threads get a producer each, while the second's compare-and-swap fails once; they put in
    one element and two; the second exits and a third thread takes its producer over. *)
Definition filled : list (cq_action Z) :=
  [Enroll; Enroll] ++ advance 3 1 ++ advance 3 0 ++ advance 1 1 ++ advance 2 0 ++ push 1 [10] ++ push 0 [20; 30] ++
  [Exit 0; Enroll] ++ advance 3 0.

(** A dequeue of at most five elements goes through both producers; [midway] it has two of them. *)
Definition midway : list (cq_action Z) := filled ++ [TryDequeueBulk 5] ++ advance 20 0.
Definition almost : list (cq_action Z) := filled ++ [TryDequeueBulk 5] ++ advance 24 0.

Ltac cq_example := split_and!; [repeat first [constructor | done]|vm_compute; done..].

Definition state (l : list (cq_action Z)) : ConcurrentQueue Z := default empty_cq (cq_run l empty_cq).
Definition final : ConcurrentQueue Z := default empty_cq (cq_exec (Advance 0 true) (state almost)).

Lemma concurrent_queue_refines_witness :
  cq_run almost empty_cq = Some (state almost) /\ cq_exec (Advance 0 true) (state almost) = Some final /\
  bag (state almost) = [20; 30; 10] /\ handed_out final = [20; 30; 10] /\
  exists items got ks rest, handed_out final ≡ₚ handed_out (state almost) ++ got /\
    dequeue ks (bag (state almost) ++ items) = Some (got, rest) /\ rest ≡ₚ bag final.
Proof.
  assert (cq_run almost empty_cq = Some (state almost)) as E by (vm_compute; reflexivity).
  assert (cq_exec (Advance 0 true) (state almost) = Some final) as Ea by (vm_compute; reflexivity).
  split; [exact E|]. split; [exact Ea|]. split; [vm_compute; reflexivity|]. split; [vm_compute; reflexivity|].
  destruct (concurrent_queue_refines almost (Advance 0 true) _ _ ltac:(cq_example) E Ea)
    as (items & got & ks & rest & _ & Hg & Hd & Hr & _).
  exists items, got, ks, rest. split; [exact Hg|]. split; [exact Hd|exact Hr].
Defined.

Lemma concurrent_queue_correct_witness :
  cq_run midway empty_cq = Some (state midway) /\ bag (state midway) = [10; 20; 30] /\
  clients (state midway) !! 0%nat = Some (Call (ForMany 5 [20; 30]) 1 (Bulk 3) (RBlock 0 1 [])) /\
  handed_out (state midway) ++ bag (state midway) ≡ₚ published_by (state midway) /\
  is_Some (cq_exec (Advance 0 true) (state midway)).
Proof.
  assert (cq_run midway empty_cq = Some (state midway)) as E by (vm_compute; reflexivity).
  assert (clients (state midway) !! 0%nat = Some (Call (ForMany 5 [20; 30]) 1 (Bulk 3) (RBlock 0 1 []))) as Hc
    by (vm_compute; reflexivity).
  destruct (concurrent_queue_correct midway _ ltac:(cq_example) E) as (C1 & _ & C3).
  split; [exact E|]. split; [vm_compute; reflexivity|]. split; [exact Hc|]. split; [exact C1|].
  destruct (C3 0%nat _ Hc) as (_ & _ & _ & [Hr|Hs]); [destruct Hr|exact Hs].
Defined.

Lemma lone_try_dequeue_witness :
  cq_run filled empty_cq = Some (state filled) /\ length (streams (state filled)) = 2%nat /\
  exists n q' got, cq_run (TryDequeue :: replicate n (Advance 0 true)) (state filled) = Some q' /\
    clients q' = Returned One got :: clients (state filled) /\ got <> [].
Proof.
  assert (cq_run filled empty_cq = Some (state filled)) as E by (vm_compute; reflexivity).
  destruct (lone_try_dequeue filled _ ltac:(cq_example) E ltac:(vm_compute; reflexivity)) as (n & q' & got & _ & R1 & R2 & R3).
  split; [exact E|]. split; [vm_compute; reflexivity|]. exists n, q', got. split; [exact R1|]. split; [exact R2|].
  intros ->. destruct (streams (state filled) !! 0%nat) as [s|] eqn:Es; [|vm_compute in Es; discriminate].
  specialize (R3 0%nat s Es). assert ((fun s => headIndex (core s) - tailIndex (core s)) <$> streams (state filled) !! 0%nat = Some (-1)) as Hd
    by (vm_compute; reflexivity). rewrite Es in Hd. injection Hd as Hd. rewrite R3, Z.sub_diag in Hd. discriminate.
Defined.
