(* ===== verification/BlockIndex.v ===== *)
(** * The block index of a producer

    How a dequeue finds the block of an index ([ImplicitProducer] in
    [src/include/concurrentqueue.h]): a ring of entries, one per block in the order of their
    indices, the last one at [tail].  Only the enqueuing thread adds entries and grows the ring;
    readers compute the slot of a block from its distance to the block at the tail.  What reading
    an uninitialised entry or a slot that is not there gives is left undefined ([None]).  The ring
    implements a map from first indices to blocks, also for a reader whose view of it is old. *)

From S2P Require Import Prelude Circular.
From stdpp Require Import base list gmap.
From Stdlib Require Import ZArith Lia.
Local Open Scope Z_scope.

Definition INVALID_BLOCK_BASE : Z := 1.
Definition IMPLICIT_INITIAL_INDEX_SIZE : Z := 32.

Inductive slot_value := Uninit | Null | Ptr (block : Z).
Record BlockIndexEntry := mkEntry { key : Z; value : slot_value }.

(** Entries are shared by the headers: [index] holds their places in [entries]. *)
Record BlockIndexHeader := mkHeader { capacity : Z; header_tail : Z; index : list nat }.
Record BlockIndex := mkIndex {
  entries : list BlockIndexEntry;
  blockIndex : option BlockIndexHeader;
  nextBlockIndexCapacity : Z
}.

Definition slot_mask (x cap : Z) : Z := Z.land (u64 x) (cap - 1).

(** [malloc]: the allocation succeeded. *)
Definition new_block_index (malloc : bool) (s : BlockIndex) : option BlockIndex :=
  if negb malloc then None
  else
    let cap := nextBlockIndexCapacity s in
    let '(prevCapacity, entryCount, kept) :=
      match blockIndex s with
      | None => (0, cap, [])
      | Some prev =>
          (capacity prev, capacity prev,
           omap (fun i => index prev !! Z.to_nat (slot_mask (header_tail prev + 1 + i) (capacity prev))) (seqZ 0 (capacity prev)))
      end in
    Some (mkIndex (entries s ++ replicate (Z.to_nat entryCount) (mkEntry INVALID_BLOCK_BASE Uninit))
            (Some (mkHeader cap (slot_mask (prevCapacity - 1) cap) (kept ++ seq (length (entries s)) (Z.to_nat entryCount))))
            (u64 (Z.shiftl cap 1))).

(** The constructor. *)
Definition new_index (malloc : bool) : BlockIndex :=
  let s := mkIndex [] None IMPLICIT_INITIAL_INDEX_SIZE in default s (new_block_index malloc s).

Definition set_key (id : nat) (k : Z) (s : BlockIndex) : BlockIndex :=
  mkIndex (alter (fun e => mkEntry k (value e)) id (entries s)) (blockIndex s) (nextBlockIndexCapacity s).
Definition set_value (id : nat) (v : slot_value) (s : BlockIndex) : BlockIndex :=
  mkIndex (alter (fun e => mkEntry (key e) v) id (entries s)) (blockIndex s) (nextBlockIndexCapacity s).
Definition set_tail (t : Z) (s : BlockIndex) : BlockIndex :=
  mkIndex (entries s) (fmap (fun h => mkHeader (capacity h) t (index h)) (blockIndex s)) (nextBlockIndexCapacity s).

(** The slot after the tail is free: never used, or its block was returned. *)
Definition entry_free (e : BlockIndexEntry) : option bool :=
  if key e =? INVALID_BLOCK_BASE then Some true
  else match value e with Null => Some true | Ptr _ => Some false | Uninit => None end.

(** The entry of the new block, if there is room or the ring could grow. *)
Definition insert_block_index_entry (canAlloc malloc : bool) (blockStartIndex : Z) (s : BlockIndex) : option (option nat * BlockIndex) :=
  match blockIndex s with
  | None => Some (None, s)
  | Some h =>
      let newTail := slot_mask (header_tail h + 1) (capacity h) in
      id ← index h !! Z.to_nat newTail;
      e ← entries s !! id;
      free ← entry_free e;
      if (free : bool) then Some (Some id, set_tail newTail (set_key id blockStartIndex s))
      else if negb canAlloc then Some (None, s)
      else
        match new_block_index malloc s with
        | None => Some (None, s)
        | Some s' =>
            h' ← blockIndex s';
            let newTail := slot_mask (header_tail h' + 1) (capacity h') in
            id ← index h' !! Z.to_nat newTail;
            Some (Some id, set_tail newTail (set_key id blockStartIndex s'))
        end
  end.

Definition rewind_block_index_tail (s : BlockIndex) : BlockIndex :=
  match blockIndex s with None => s | Some h => set_tail (slot_mask (header_tail h - 1) (capacity h)) s end.

(** [get_block_index_index_for_index], for a reader that loaded [h] (and its tail) and now loads
    the key of the tail's entry. *)
Definition get_block_index_index_for_index (h : BlockIndexHeader) (es : list BlockIndexEntry) (i : Z) : option Z :=
  id ← index h !! Z.to_nat (header_tail h);
  e ← es !! id;
  let offset := Z.quot (i64 (u64 (block_base i - key e))) BLOCK_SIZE in
  Some (slot_mask (header_tail h + u64 offset) (capacity h)).

Definition get_block_index_entry_for_index (h : BlockIndexHeader) (es : list BlockIndexEntry) (i : Z) : option nat :=
  idx ← get_block_index_index_for_index h es i; index h !! Z.to_nat idx.

(** ** Its users *)

(** [AddBlock]: in [enqueue] and [enqueue_bulk], a new block at [start]; [None]: no block could be
    had, the entry is taken back.  [RemoveBlock]: a dequeue that emptied the block at [b].
    [RevertBlocks]: a failed [enqueue_bulk], its [n] blocks from [b] on. *)
Inductive index_action :=
| AddBlock (canAlloc malloc : bool) (start : Z) (block : option Z)
| RemoveBlock (b : Z)
| RevertBlocks (b : Z) (n : nat).

Definition remove_block (i : Z) (s : BlockIndex) : option BlockIndex :=
  h ← blockIndex s;
  id ← get_block_index_entry_for_index h (entries s) i;
  Some (set_value id Null s).

Fixpoint revert_blocks (b : Z) (n : nat) (s : BlockIndex) : option BlockIndex :=
  match n with
  | O => Some s
  | S n' => s' ← remove_block b s; revert_blocks (u64 (b + BLOCK_SIZE)) n' (rewind_block_index_tail s')
  end.

Definition add_block (canAlloc malloc : bool) (start : Z) (block : option Z) (s : BlockIndex) : option (bool * BlockIndex) :=
  r ← insert_block_index_entry canAlloc malloc start s;
  Some match r, block with
       | (None, s1), _ => (false, s1)
       | (Some id, s1), Some blk => (true, set_value id (Ptr blk) s1)
       | (Some id, s1), None => (false, set_value id Null (rewind_block_index_tail s1))
       end.

(** The flag: a block was added. *)
Definition index_step (a : index_action) (s : BlockIndex) : option (bool * BlockIndex) :=
  match a with
  | AddBlock canAlloc malloc start block => add_block canAlloc malloc start block s
  | RemoveBlock b => fmap (pair false) (remove_block b s)
  | RevertBlocks b n => fmap (pair false) (revert_blocks b n s)
  end.

(** ** What it promises *)

(** The map it implements, with the end of the blocks allocated so far.  The actions the producer
    takes: blocks are added at the end, removed while there, and reverted all those from [b] on. *)
Definition allowed (a : index_action) (m : gmap Z Z) (e : Z) : bool :=
  match a with
  | AddBlock _ _ start _ => start =? e
  | RemoveBlock b => bool_decide (is_Some (m !! b))
  | RevertBlocks b n =>
      (b + 32 * Z.of_nat n =? e) && forallb (fun j => bool_decide (is_Some (m !! (b + 32 * Z.of_nat j)))) (seq 0 n)
  end.

Definition spec_step (a : index_action) (added : bool) (m : gmap Z Z) (e : Z) : gmap Z Z * Z :=
  match a with
  | AddBlock _ _ start (Some blk) => if added then (<[start := blk]> m, e + 32) else (m, e)
  | AddBlock _ _ _ None => (m, e)
  | RemoveBlock b => (delete b m, e)
  | RevertBlocks b n => (foldr (fun j => delete (b + 32 * Z.of_nat j)) m (seq 0 n), b)
  end.

(** Both together: the ring is stuck where it would read what is not there. *)
Inductive outcome := Stuck | Refused | Ran (s : BlockIndex) (m : gmap Z Z) (e : Z).
Fixpoint index_run (l : list index_action) (s : BlockIndex) (m : gmap Z Z) (e : Z) : outcome :=
  match l with
  | [] => Ran s m e
  | a :: l' =>
      if allowed a m e
      then match index_step a s with
           | None => Stuck
           | Some (added, s') => let '(m', e') := spec_step a added m e in index_run l' s' m' e'
           end
      else Refused
  end.
