(* ===== verification/BlockIndexTheorems.v ===== *)
(** * The ring of blocks implements a map

    The ring seen from its tail: the entry at distance [j] is that of the block [j] before the
    last one.  Adding a block, growing, rewinding and reverting only shift distances. *)

From S2P Require Import Prelude Circular BlockIndex.
From stdpp Require Import base list gmap.
From Stdlib Require Import ZArith Lia.
Local Open Scope Z_scope.

(** ** The ring *)

Lemma slot_mask_mod x k : 0 <= k <= 63 -> slot_mask x (2 ^ k) = x mod 2 ^ k.
Proof.
  intros Hk. unfold slot_mask, wrapU. rewrite Z.sub_1_r, <- Z.ones_equiv, Z.land_ones by lia.
  rewrite <- Znumtheory.Zmod_div_mod; [done|lia|lia|]. exists (2 ^ (64 - k)). rewrite <- Z.pow_add_r by lia. f_equal. lia.
Qed.

Definition rid (h : BlockIndexHeader) (j : Z) : option nat := index h !! Z.to_nat ((header_tail h - j) mod capacity h).
Definition ent (s : BlockIndex) (h : BlockIndexHeader) (j : Z) : option BlockIndexEntry := id ← rid h j; entries s !! id.

Record ring_ok (s : BlockIndex) (h : BlockIndexHeader) : Prop := {
  rg_header : blockIndex s = Some h;
  rg_cap : exists k, 0 <= k <= 60 /\ capacity h = 2 ^ k;
  rg_next : nextBlockIndexCapacity s = 2 * capacity h;
  rg_len : Z.of_nat (length (index h)) = capacity h;
  rg_nodup : NoDup (index h);
  rg_ids : forall id, id ∈ index h -> (id < length (entries s))%nat;
  rg_tail : 0 <= header_tail h < capacity h
}.

Lemma ring_cap_pos s h : ring_ok s h -> 0 < capacity h.
Proof. intros H. destruct (rg_cap _ _ H) as (k & Hk & ->). lia. Qed.

Lemma ring_mask s h x : ring_ok s h -> slot_mask x (capacity h) = x mod capacity h.
Proof. intros H. destruct (rg_cap _ _ H) as (k & Hk & ->). apply slot_mask_mod. lia. Qed.

(** Every distance has its entry, the same again after [capacity]. *)
Lemma rid_some s h j : ring_ok s h -> exists id, rid h j = Some id /\ (id < length (entries s))%nat.
Proof.
  intros H. pose proof (ring_cap_pos _ _ H). pose proof (rg_len _ _ H).
  pose proof (Z.mod_pos_bound (header_tail h - j) (capacity h)).
  destruct (lookup_lt_is_Some_2 (index h) (Z.to_nat ((header_tail h - j) mod capacity h))) as [id Hid]; [lia|].
  exists id. split; [done|]. apply (rg_ids _ _ H). by eapply list_elem_of_lookup_2.
Qed.

Lemma ent_some s h j : ring_ok s h -> exists e, ent s h j = Some e.
Proof.
  intros H. destruct (rid_some s h j H) as (id & Hid & Hlt). unfold ent. rewrite Hid. simpl.
  by apply lookup_lt_is_Some_2.
Qed.

Lemma rid_inj s h i j : ring_ok s h -> rid h i = rid h j -> i mod capacity h = j mod capacity h.
Proof.
  intros H E. pose proof (ring_cap_pos _ _ H) as Hc. destruct (rid_some s h i H) as (id & Hi & _).
  pose proof Hi as Hj. rewrite E in Hj. unfold rid in Hi, Hj.
  pose proof (NoDup_lookup _ _ _ _ (rg_nodup _ _ H) Hi Hj) as Hn.
  pose proof (Z.mod_pos_bound (header_tail h - i) (capacity h) Hc). pose proof (Z.mod_pos_bound (header_tail h - j) (capacity h) Hc).
  assert ((header_tail h - i) mod capacity h = (header_tail h - j) mod capacity h) as Hm by lia.
  rewrite <- (Z.sub_0_r i), <- (Z.sub_0_r j), <- (Z.sub_diag (header_tail h)).
  replace (i - (header_tail h - header_tail h)) with (header_tail h - (header_tail h - i)) by lia.
  replace (j - (header_tail h - header_tail h)) with (header_tail h - (header_tail h - j)) by lia.
  by rewrite Zminus_mod, Hm, <- Zminus_mod.
Qed.

Lemma rid_inj_small s h i j :
  ring_ok s h -> rid h i = rid h j -> 0 <= i < capacity h -> 0 <= j < capacity h -> i = j.
Proof. intros H E Hi Hj. apply (rid_inj s h i j H) in E. by rewrite !Z.mod_small in E. Qed.

Lemma rid_periodic s h j : ring_ok s h -> rid h (j + capacity h) = rid h j.
Proof.
  intros H. pose proof (ring_cap_pos _ _ H). unfold rid. do 2 f_equal.
  replace (header_tail h - (j + capacity h)) with (header_tail h - j + (-1) * capacity h) by lia. apply Z_mod_plus_full.
Qed.

(** Moving the tail shifts the distances. *)
Definition at_tail (t : Z) (h : BlockIndexHeader) : BlockIndexHeader := mkHeader (capacity h) t (index h).

Lemma rid_shift h d j : 0 < capacity h -> rid (at_tail ((header_tail h + d) mod capacity h) h) j = rid h (j - d).
Proof.
  intros Hc. unfold rid, at_tail. simpl. do 2 f_equal. rewrite Zminus_mod_idemp_l. f_equal. lia.
Qed.

Lemma ring_at_tail s h d : ring_ok s h ->
  ring_ok (set_tail ((header_tail h + d) mod capacity h) s) (at_tail ((header_tail h + d) mod capacity h) h).
Proof.
  intros H. pose proof (ring_cap_pos _ _ H). destruct H as [H1 H2 H3 H4 H5 H6 H7]. split; simpl; try done.
  - by rewrite H1.
  - by apply Z.mod_pos_bound.
Qed.

(** Changing entries changes nothing of the ring. *)
Definition update (s : BlockIndex) (id : nat) (f : BlockIndexEntry -> BlockIndexEntry) : BlockIndex :=
  mkIndex (alter f id (entries s)) (blockIndex s) (nextBlockIndexCapacity s).

Lemma ring_update s h id f : ring_ok s h -> ring_ok (update s id f) h.
Proof. intros [H1 H2 H3 H4 H5 H6 H7]. split; simpl; try done. intros i Hi. rewrite length_alter. by apply H6. Qed.

Lemma ent_update s0 s h j j0 id f : ring_ok s0 h -> rid h j0 = Some id -> 0 <= j < capacity h -> 0 <= j0 < capacity h ->
  ent (update s id f) h j = if decide (j = j0) then f <$> ent s h j else ent s h j.
Proof.
  intros H Hid Hj Hj0. unfold ent. destruct (rid_some s0 h j H) as (id' & Hid' & _). rewrite Hid'. simpl.
  case_decide as Hd.
  - subst j0. rewrite Hid' in Hid. injection Hid as ->. apply list_lookup_alter_eq.
  - rewrite list_lookup_alter_ne; [done|]. intros ->. apply Hd. symmetry. eapply rid_inj_small; [done|by rewrite Hid|done|done].
Qed.

(** ** Growing *)

Definition kept_entries (h : BlockIndexHeader) : list nat :=
  omap (fun i => index h !! Z.to_nat (slot_mask (header_tail h + 1 + i) (capacity h))) (seqZ 0 (capacity h)).

Lemma omap_all {X Y} (f : X -> option Y) (l : list X) : (forall x, x ∈ l -> is_Some (f x)) -> forall p, omap f l !! p = l !! p ≫= f.
Proof.
  induction l as [|x l IH]; intros H p; [done|]. destruct (H x ltac:(by left)) as [y Hy]. simpl. rewrite Hy.
  destruct p as [|p]; simpl; [by rewrite Hy|]. apply IH. intros z Hz. apply H. by right.
Qed.

Lemma kept_slot s h i : ring_ok s h ->
  index h !! Z.to_nat (slot_mask (header_tail h + 1 + i) (capacity h)) = rid h (- 1 - i).
Proof. intros H. unfold rid. rewrite (ring_mask s) by done. do 3 f_equal. lia. Qed.

Lemma kept_lookup s h p : ring_ok s h -> 0 <= p < capacity h -> kept_entries h !! Z.to_nat p = rid h (capacity h - 1 - p).
Proof.
  intros H Hp. unfold kept_entries. pose proof (ring_cap_pos _ _ H).
  rewrite omap_all.
  - rewrite lookup_seqZ_lt by lia. simpl. rewrite (kept_slot s) by done. rewrite <- (rid_periodic s) by done. f_equal. lia.
  - intros i _. rewrite (kept_slot s) by done. destruct (rid_some s h (- 1 - i) H) as (id & -> & _). done.
Qed.

Lemma kept_length s h : ring_ok s h -> Z.of_nat (length (kept_entries h)) = capacity h.
Proof.
  intros H. pose proof (ring_cap_pos _ _ H). pose proof (kept_lookup s h (capacity h - 1) H ltac:(lia)) as Hl.
  destruct (rid_some s h (capacity h - 1 - (capacity h - 1)) H) as (id & Hid & _). rewrite Hid in Hl.
  apply lookup_lt_Some in Hl.
  assert (length (kept_entries h) <= length (seqZ 0 (capacity h)))%nat as Hle.
  { apply lookup_ge_None. unfold kept_entries. rewrite omap_all; [by rewrite lookup_ge_None_2|].
    intros i _. rewrite (kept_slot s) by done. destruct (rid_some s h (- 1 - i) H) as (? & -> & _). done. }
  rewrite length_seqZ in Hle. lia.
Qed.

Lemma kept_elem s h id : ring_ok s h -> id ∈ kept_entries h -> (id < length (entries s))%nat.
Proof.
  intros H [p Hp]%list_elem_of_lookup. pose proof (lookup_lt_Some _ _ _ Hp). pose proof (kept_length s h H).
  rewrite <- (Nat2Z.id p) in Hp. rewrite (kept_lookup s) in Hp by (done || lia).
  destruct (rid_some s h (capacity h - 1 - Z.of_nat p) H) as (id' & E & Hlt). rewrite E in Hp. by injection Hp as <-.
Qed.

Lemma kept_nodup s h : ring_ok s h -> NoDup (kept_entries h).
Proof.
  intros H. apply NoDup_alt. intros p q id Hp Hq. pose proof (lookup_lt_Some _ _ _ Hp). pose proof (lookup_lt_Some _ _ _ Hq).
  pose proof (kept_length s h H). rewrite <- (Nat2Z.id p) in Hp. rewrite <- (Nat2Z.id q) in Hq.
  rewrite (kept_lookup s) in Hp, Hq by (done || lia).
  pose proof (rid_inj_small s h (capacity h - 1 - Z.of_nat p) (capacity h - 1 - Z.of_nat q) H ltac:(congruence)). lia.
Qed.

(** The new ring: the old distances, and as many fresh entries behind. *)
Lemma ring_grow s h : ring_ok s h -> capacity h <= 2 ^ 59 ->
  exists s' h', new_block_index true s = Some s' /\ ring_ok s' h' /\ capacity h' = 2 * capacity h /\
    (forall id e, entries s !! id = Some e -> entries s' !! id = Some e) /\
    (forall j, 0 <= j < capacity h -> rid h' j = rid h j) /\
    (forall j, capacity h <= j < 2 * capacity h -> ent s' h' j = Some (mkEntry INVALID_BLOCK_BASE Uninit)).
Proof.
  intros H Hmax. pose proof (ring_cap_pos _ _ H) as Hc. pose proof (kept_length s h H) as Hkl.
  destruct (rg_cap _ _ H) as (k & Hk & Hck). assert (k <= 59) as Hk59 by (rewrite Hck in Hmax; apply Z.pow_le_mono_r_iff in Hmax; lia).
  unfold new_block_index. simpl. rewrite (rg_header _ _ H), (rg_next _ _ H). fold (kept_entries h).
  assert (2 * capacity h = 2 ^ (k + 1)) as Hck2 by (rewrite Hck, Z.pow_add_r by lia; lia).
  assert (slot_mask (capacity h - 1) (2 * capacity h) = capacity h - 1) as -> by
    (rewrite Hck2, slot_mask_mod, <- Hck2, Z.mod_small by lia; lia).
  assert (u64 (Z.shiftl (2 * capacity h) 1) = 2 * (2 * capacity h)) as ->.
  { rewrite Z.shiftl_mul_pow2, Z.pow_1_r, Z.mul_comm by lia. apply wrapU_id. unfold inU. rewrite Hck2.
    assert (2 ^ (k + 1) <= 2 ^ 60) by (apply Z.pow_le_mono_r; lia). lia. }
  set (h' := mkHeader (2 * capacity h) (capacity h - 1) (kept_entries h ++ seq (length (entries s)) (Z.to_nat (capacity h)))).
  eexists _, h'. split; [reflexivity|].
  assert (forall j, 0 <= j < capacity h -> rid h' j = rid h j) as Hold.
  { intros j Hj. unfold rid at 1. simpl. rewrite Z.mod_small by lia. rewrite lookup_app_l by lia.
    rewrite (kept_lookup s) by (done || lia). f_equal. lia. }
  split_and!; try done.
  - split; simpl; try done; try lia.
    + exists (k + 1). split; [lia|done].
    + rewrite length_app, length_seq. lia.
    + apply NoDup_app. split_and!; [by eapply kept_nodup| |apply NoDup_seq].
      intros id Hid%(kept_elem s h id H) Hs%elem_of_seq. lia.
    + intros id [Hid%(kept_elem s h id H)|Hid%elem_of_seq]%elem_of_app; rewrite length_app, length_replicate; lia.
  - intros id e He. simpl. rewrite lookup_app_l; [done|by eapply lookup_lt_Some].
  - intros j Hj. unfold ent, rid. simpl.
    replace ((capacity h - 1 - j) mod (2 * capacity h)) with (3 * capacity h - 1 - j).
    2: { apply Z.mod_unique with (-1); lia. }
    rewrite lookup_app_r by lia. rewrite lookup_seq_lt by lia. simpl. rewrite lookup_app_r by lia.
    apply lookup_replicate_2. lia.
Qed.

(** ** The map *)

(** [m]: the blocks in the index; [e]: the end of those allocated.  The entry of a block is as far
    behind the tail as the block is behind the last one, and up to there the keys are right. *)
Record index_ok (s : BlockIndex) (h : BlockIndexHeader) (m : gmap Z Z) (e : Z) : Prop := {
  io_ring : ring_ok s h;
  io_end : 0 <= e /\ e mod 32 = 0;
  io_live : forall b blk, m !! b = Some blk ->
    exists d, 0 <= d < capacity h /\ b = e - 32 - 32 * d /\ 0 <= b /\ ent s h d = Some (mkEntry b (Ptr blk)) /\
    forall i, 0 <= i <= d -> key <$> ent s h i = Some (e - 32 - 32 * i);
  io_ptr : forall j k blk, 0 <= j < capacity h -> ent s h j = Some (mkEntry k (Ptr blk)) -> m !! k = Some blk /\ k = e - 32 - 32 * j;
  io_uninit : forall j k, 0 <= j < capacity h -> ent s h j = Some (mkEntry k Uninit) -> k = INVALID_BLOCK_BASE
}.

Lemma block_base_mult x : 0 <= x < 2 ^ 64 -> x mod 32 = 0 -> block_base x = x.
Proof. intros Hx Hm. rewrite block_base_sub by done. lia. Qed.

(** The arithmetic of [get_block_index_index_for_index]: the slot at the distance of the block. *)
Lemma lookup_view h es id0 e0 i j k :
  capacity h = 2 ^ k -> 0 <= k <= 60 -> 0 <= header_tail h < capacity h -> rid h 0 = Some id0 -> es !! id0 = Some e0 ->
  block_base i = key e0 - 32 * j -> - 2 ^ 57 < j < 2 ^ 57 ->
  get_block_index_index_for_index h es i = Some ((header_tail h - j) mod capacity h) /\
  get_block_index_entry_for_index h es i = rid h j.
Proof.
  intros Hc Hk Ht Hid He Hb Hj.
  assert (get_block_index_index_for_index h es i = Some ((header_tail h - j) mod capacity h)) as Hix.
  { unfold rid in Hid. rewrite Z.sub_0_r, Z.mod_small in Hid by lia.
    unfold get_block_index_index_for_index. rewrite Hid. simpl. rewrite He. simpl. rewrite Hb.
    replace (key e0 - 32 * j - key e0) with (32 * (- j)) by lia.
    assert (i64 (u64 (32 * - j)) = 32 * - j) as -> by mword.
    unfold BLOCK_SIZE. rewrite (Z.mul_comm 32), Z.quot_mul by lia. f_equal.
    rewrite Hc, slot_mask_mod by lia. unfold wrapU. 
    assert (((- j) mod 2 ^ 64) mod 2 ^ k = (- j) mod 2 ^ k) as Hm.
    { rewrite <- Znumtheory.Zmod_div_mod; [done|lia|lia|]. exists (2 ^ (64 - k)). rewrite <- Z.pow_add_r by lia. f_equal. lia. }
    rewrite <- Zplus_mod_idemp_r, Hm, Zplus_mod_idemp_r. f_equal. }
  split; [done|]. unfold get_block_index_entry_for_index. by rewrite Hix.
Qed.

(** A block in the index is found. *)
Lemma index_lookup s h m e b blk :
  index_ok s h m e -> e < 2 ^ 62 -> m !! b = Some blk ->
  exists d, 0 <= d < capacity h /\ b = e - 32 - 32 * d /\ ent s h d = Some (mkEntry b (Ptr blk)) /\
    get_block_index_index_for_index h (entries s) b = Some ((header_tail h - d) mod capacity h) /\
    get_block_index_entry_for_index h (entries s) b = rid h d.
Proof.
  intros H He Hb. destruct (io_live _ _ _ _ H b blk Hb) as (d & Hd & Hbd & Hb0 & Hent & Hkeys).
  pose proof (io_ring _ _ _ _ H) as Hr. destruct (io_end _ _ _ _ H) as [He0 He32]. exists d. do 3 (split; [done|]).
  destruct (rg_cap _ _ Hr) as (k & Hk & Hc). specialize (Hkeys 0 ltac:(lia)).
  destruct (rid_some s h 0 Hr) as (id0 & Hid0 & _). unfold ent in Hkeys. rewrite Hid0 in Hkeys. simpl in Hkeys.
  destruct (entries s !! id0) as [e0|] eqn:Ee0; [|done]. simpl in Hkeys. injection Hkeys as Hk0.
  assert (b mod 32 = 0) as Hbm.
  { rewrite Hbd. replace (e - 32 - 32 * d) with (e + (- 1 - d) * 32) by lia. by rewrite Z_mod_plus_full. }
  apply (lookup_view h (entries s) id0 e0 b d k); try done; [apply (rg_tail _ _ Hr)|rewrite block_base_mult by lia; lia|lia].
Qed.

(** ** Adding a block *)

Lemma free_not_live s h m e b blk e0 d :
  index_ok s h m e -> m !! b = Some blk -> ent s h d = Some (mkEntry b (Ptr blk)) -> b <> INVALID_BLOCK_BASE ->
  ent s h (capacity h - 1) = Some e0 -> entry_free e0 = Some true -> d <> capacity h - 1.
Proof.
  intros H Hb Hd Hne He Hf ->. rewrite Hd in He. injection He as <-. unfold entry_free in Hf. simpl in Hf.
  destruct (b =? INVALID_BLOCK_BASE) eqn:E; zbool; done.
Qed.

Lemma live_base s h m e b blk : index_ok s h m e -> m !! b = Some blk -> b mod 32 = 0 /\ 0 <= b < e.
Proof.
  intros H Hb. destruct (io_live _ _ _ _ H b blk Hb) as (d & Hd & -> & Hb0 & _). destruct (io_end _ _ _ _ H) as [_ He].
  split; [|lia]. replace (e - 32 - 32 * d) with (e + (- 1 - d) * 32) by lia. by rewrite Z_mod_plus_full.
Qed.

Lemma live_not_invalid s h m e b blk : index_ok s h m e -> m !! b = Some blk -> b <> INVALID_BLOCK_BASE.
Proof. intros H Hb ->. destruct (live_base _ _ _ _ _ _ H Hb) as [Hm _]. done. Qed.

(** The slot after the tail taken for the block at [e]. *)
Definition put (s : BlockIndex) (h : BlockIndexHeader) (id : nat) (e : Z) (v : slot_value) : BlockIndex :=
  update s id (fun _ => mkEntry e v).

Lemma put_ent s h id e v j : ring_ok s h -> rid h (capacity h - 1) = Some id -> 0 <= j < capacity h ->
  ent (put s h id e v) h j = if decide (j = capacity h - 1) then Some (mkEntry e v) else ent s h j.
Proof.
  intros H Hid Hj. unfold put. rewrite (ent_update s s h j (capacity h - 1)) by (done || lia).
  case_decide; [|done]. destruct (ent_some s h j H) as [e0 ->]. done.
Qed.

Lemma put_ok s h m e id e0 blk :
  index_ok s h m e -> rid h (capacity h - 1) = Some id -> ent s h (capacity h - 1) = Some e0 -> entry_free e0 = Some true ->
  index_ok (set_tail ((header_tail h + 1) mod capacity h) (put s h id e (Ptr blk))) (at_tail ((header_tail h + 1) mod capacity h) h)
    (<[e := blk]> m) (e + 32).
Proof.
  intros H Hid He0 Hf. pose proof (io_ring _ _ _ _ H) as Hr. pose proof (ring_cap_pos _ _ Hr) as Hc.
  set (s' := set_tail _ _). set (h' := at_tail _ _). destruct (io_end _ _ _ _ H) as [E1 E2].
  assert (forall j, 0 <= j < capacity h -> ent s' h' j = if decide (j = 0) then Some (mkEntry e (Ptr blk)) else ent s h (j - 1)) as Hent.
  { intros j Hj. assert (ent s' h' j = ent (put s h id e (Ptr blk)) h (j - 1)) as -> by (unfold ent, h'; by rewrite rid_shift).
    case_decide as Hd.
    - subst j. assert (ent (put s h id e (Ptr blk)) h (0 - 1) = ent (put s h id e (Ptr blk)) h (capacity h - 1)) as ->.
      { unfold ent. rewrite <- (rid_periodic s h (0 - 1)) by done. do 2 f_equal. lia. }
      rewrite put_ent by (done || lia). by rewrite decide_True.
    - rewrite put_ent by (done || lia). rewrite decide_False by lia. done. }
  split; [apply ring_at_tail, ring_update, Hr| | | |]; change (capacity h') with (capacity h).
  - split; [lia|]. by rewrite Zplus_mod, E2.
  - intros b blk'. rewrite lookup_insert. case_decide as Hd.
    + intros [= <-]. subst b. exists 0. split_and!; [lia..|exact E1|by rewrite Hent by lia|].
      intros i Hi. assert (i = 0) as -> by lia. rewrite Hent by lia. simpl. f_equal. lia.
    + intros Hb. destruct (io_live _ _ _ _ H b blk' Hb) as (d & Hd' & Hbd & Hb0 & Hent' & Hk).
      pose proof (free_not_live _ _ _ _ _ _ _ _ H Hb Hent' (live_not_invalid _ _ _ _ _ _ H Hb) He0 Hf).
      exists (d + 1). simpl. split_and!; [lia..| |].
      * rewrite Hent, decide_False by lia. replace (d + 1 - 1) with d by lia. done.
      * intros i Hi. rewrite Hent by lia. case_decide; [subst; simpl; f_equal; lia|]. rewrite Hk by lia. f_equal. lia.
  - intros j k blk' Hj. rewrite Hent by done. case_decide; [intros [= <- <-]; rewrite lookup_insert_eq; split; [done|lia]|].
    intros Hx. destruct (io_ptr _ _ _ _ H (j - 1) _ _ ltac:(lia) Hx) as [Hm Hk].
    rewrite lookup_insert_ne by lia. split; [done|lia].
  - intros j k Hj. rewrite Hent by done. case_decide; [done|]. apply (io_uninit _ _ _ _ H). lia.
Qed.

(** It taken and given back. *)
Lemma abort_ok s h m e id e0 :
  index_ok s h m e -> rid h (capacity h - 1) = Some id -> ent s h (capacity h - 1) = Some e0 -> entry_free e0 = Some true ->
  index_ok (put s h id e Null) h m e.
Proof.
  intros H Hid He0 Hf. pose proof (io_ring _ _ _ _ H) as Hr. pose proof (ring_cap_pos _ _ Hr) as Hc.
  split; [apply ring_update, Hr|apply (io_end _ _ _ _ H)| | |].
  - intros b blk Hb. destruct (io_live _ _ _ _ H b blk Hb) as (d & Hd & Hbd & Hb0 & Hent & Hk).
    pose proof (free_not_live _ _ _ _ _ _ _ _ H Hb Hent (live_not_invalid _ _ _ _ _ _ H Hb) He0 Hf).
    exists d. split_and!; [lia..| |].
    + rewrite put_ent, decide_False by (done || lia). done.
    + intros i Hi. rewrite put_ent, decide_False by (done || lia). by apply Hk.
  - intros j k blk Hj. rewrite put_ent by done. case_decide; [done|]. by apply (io_ptr _ _ _ _ H).
  - intros j k Hj. rewrite put_ent by done. case_decide; [done|]. by apply (io_uninit _ _ _ _ H).
Qed.

Lemma grow_ok s h m e : index_ok s h m e -> capacity h <= 2 ^ 59 ->
  exists s' h', new_block_index true s = Some s' /\ index_ok s' h' m e /\
    ent s' h' (capacity h' - 1) = Some (mkEntry INVALID_BLOCK_BASE Uninit) /\
    (forall j, 0 <= j < capacity h -> rid h' j = rid h j) /\ (forall id x, entries s !! id = Some x -> entries s' !! id = Some x) /\
    capacity h' = 2 * capacity h.
Proof.
  intros H Hmax. pose proof (io_ring _ _ _ _ H) as Hr. pose proof (ring_cap_pos _ _ Hr) as Hc.
  destruct (ring_grow s h Hr Hmax) as (s' & h' & Hs' & Hr' & Hc' & Hes & Hold & Hnew). exists s', h'.
  assert (forall j, 0 <= j < capacity h -> ent s' h' j = ent s h j) as Hent.
  { intros j Hj. unfold ent. rewrite Hold by done. destruct (rid_some s h j Hr) as (id & -> & Hlt). simpl.
    destruct (lookup_lt_is_Some_2 _ _ Hlt) as [x Hx]. rewrite Hx. by apply Hes. }
  split; [done|]. split; [|split; [rewrite Hnew by lia; done|done]]. split; [done|apply (io_end _ _ _ _ H)| | |].
  - intros b blk Hb. destruct (io_live _ _ _ _ H b blk Hb) as (d & Hd & Hbd & Hb0 & He & Hk). exists d.
    split_and!; [lia..| |]; [by rewrite Hent|]. intros i Hi. rewrite Hent by lia. by apply Hk.
  - intros j k blk Hj. destruct (decide (j < capacity h)); [rewrite Hent by lia; apply (io_ptr _ _ _ _ H); lia|].
    by rewrite Hnew by lia.
  - intros j k Hj. destruct (decide (j < capacity h)); [rewrite Hent by lia; apply (io_uninit _ _ _ _ H); lia|].
    rewrite Hnew by lia. by intros [= <-].
Qed.

(** A full ring holds a block for each of its slots. *)
Lemma full_capacity s h m e b blk :
  index_ok s h m e -> ent s h (capacity h - 1) = Some (mkEntry b (Ptr blk)) -> 32 * capacity h <= e.
Proof.
  intros H Hent. pose proof (ring_cap_pos _ _ (io_ring _ _ _ _ H)).
  destruct (io_ptr _ _ _ _ H (capacity h - 1) b blk ltac:(lia) Hent) as [Hb Hk].
  destruct (live_base _ _ _ _ _ _ H Hb). lia.
Qed.

Lemma rid_after s h : ring_ok s h -> index h !! Z.to_nat (slot_mask (header_tail h + 1) (capacity h)) = rid h (capacity h - 1).
Proof.
  intros H. rewrite (ring_mask s) by done. replace (capacity h - 1) with (- 1 + capacity h) by lia.
  rewrite (rid_periodic s) by done. unfold rid. by do 3 f_equal.
Qed.

Definition set_at (s : BlockIndex) (h : BlockIndexHeader) (id : nat) (e : Z) : BlockIndex :=
  set_tail ((header_tail h + 1) mod capacity h) (set_key id e s).

(** [insert_block_index_entry] fails and changes nothing, or takes the slot after the tail, of the
    ring or of the grown one. *)
Definition room (s : BlockIndex) (h : BlockIndexHeader) (e : Z) (s1 : BlockIndex) (h1 : BlockIndexHeader) : Prop :=
  (s1 = s /\ h1 = h) \/
  (capacity h1 = 2 * capacity h /\ (forall i, 0 <= i < capacity h -> key <$> ent s h i = Some (e - 32 - 32 * i)) /\
   (forall j, 0 <= j < capacity h -> rid h1 j = rid h j) /\ (forall id x, entries s !! id = Some x -> entries s1 !! id = Some x)).

Lemma insert_cases s h m e canAlloc malloc :
  index_ok s h m e -> e < 2 ^ 62 ->
  insert_block_index_entry canAlloc malloc e s = Some (None, s) \/
  exists s1 h1 id e0, room s h e s1 h1 /\ index_ok s1 h1 m e /\ rid h1 (capacity h1 - 1) = Some id /\
    ent s1 h1 (capacity h1 - 1) = Some e0 /\ entry_free e0 = Some true /\
    insert_block_index_entry canAlloc malloc e s = Some (Some id, set_at s1 h1 id e).
Proof.
  intros H He. pose proof (io_ring _ _ _ _ H) as Hr. pose proof (ring_cap_pos _ _ Hr) as Hc.
  unfold insert_block_index_entry. rewrite (rg_header _ _ Hr). cbv zeta. rewrite (rid_after s h Hr).
  destruct (rid_some s h (capacity h - 1) Hr) as (id & Hid & Hlt). destruct (ent_some s h (capacity h - 1) Hr) as [e0 He0].
  rewrite Hid. simpl. pose proof He0 as He0'. unfold ent in He0'. rewrite Hid in He0'. simpl in He0'. rewrite He0'. simpl.
  assert (entry_free e0 = Some true \/ exists b blk, e0 = mkEntry b (Ptr blk) /\ entry_free e0 = Some false) as [Hf|(b & blk & -> & Hf)].
  { unfold entry_free. destruct e0 as [k [| |blk]]; simpl; destruct (k =? INVALID_BLOCK_BASE) eqn:Ek; try (by left).
    - apply (io_uninit _ _ _ _ H) in He0; [|lia]. subst k. done.
    - right. by exists k, blk. }
  - right. exists s, h, id, e0. rewrite Hf. simpl. unfold set_at. rewrite (ring_mask s) by done. split_and!; try done. by left.
  - rewrite Hf. simpl. destruct canAlloc; [|by left]. simpl. destruct malloc; [|by left].
    pose proof (full_capacity _ _ _ _ _ _ H He0).
    destruct (grow_ok s h m e H ltac:(lia)) as (s' & h' & Hs' & H' & Hnew & Hrid & Hes & Hcap). rewrite Hs'.
    pose proof (io_ring _ _ _ _ H') as Hr'. pose proof (ring_cap_pos _ _ Hr').
    rewrite (rg_header _ _ Hr'). simpl. rewrite (rid_after s' h' Hr').
    destruct (rid_some s' h' (capacity h' - 1) Hr') as (id' & Hid' & _). rewrite Hid'. simpl. right.
    exists s', h', id', (mkEntry INVALID_BLOCK_BASE Uninit). unfold set_at. rewrite (ring_mask s') by done.
    split_and!; try done. right. split_and!; try done. intros i Hi.
    destruct (io_ptr _ _ _ _ H (capacity h - 1) b blk ltac:(lia) He0) as [Hb Hbk].
    destruct (io_live _ _ _ _ H b blk Hb) as (d & Hd & Hbd & _ & _ & Hk). apply Hk. lia.
Qed.

(** ** Moving on *)

(** What a step does to the ring: distances shift by [d], and at most the key of the free slot
    after the tail changes, to the base of the block to come. *)
Record moved (s : BlockIndex) (h : BlockIndexHeader) (e : Z) (s' : BlockIndex) (h' : BlockIndexHeader) (d : Z) : Prop := {
  mv_cap : capacity h' = capacity h;
  mv_rid : forall j, rid h' j = rid h (j - d);
  mv_key : forall id, key <$> entries s' !! id = key <$> entries s !! id \/
    (rid h (capacity h - 1) = Some id /\ key <$> entries s' !! id = Some e /\
     exists e0, ent s h (capacity h - 1) = Some e0 /\ entry_free e0 = Some true)
}.

Lemma put_key s h id e v id' :
  key <$> entries (put s h id e v) !! id' = key <$> entries s !! id' \/ (id' = id /\ key <$> entries (put s h id e v) !! id' = Some e) \/
  (length (entries s) <= id')%nat.
Proof.
  destruct (decide (id' = id)) as [->|]; [|left; simpl; by rewrite list_lookup_alter_ne].
  destruct (decide (id < length (entries s))%nat) as [Hlt|]; [|right; right; lia]. right. left. split; [done|]. simpl.
  rewrite list_lookup_alter_eq. destruct (lookup_lt_is_Some_2 _ _ Hlt) as [x ->]. done.
Qed.

Lemma put_moved s h id e v e0 :
  ring_ok s h -> rid h (capacity h - 1) = Some id -> ent s h (capacity h - 1) = Some e0 -> entry_free e0 = Some true ->
  moved s h e (set_tail ((header_tail h + 1) mod capacity h) (put s h id e v)) (at_tail ((header_tail h + 1) mod capacity h) h) 1 /\
  moved s h e (put s h id e v) h 0.
Proof.
  intros H Hid He0 Hf. pose proof (ring_cap_pos _ _ H).
  assert (forall id', key <$> entries (put s h id e v) !! id' = key <$> entries s !! id' \/
    (rid h (capacity h - 1) = Some id' /\ key <$> entries (put s h id e v) !! id' = Some e /\
     exists e0, ent s h (capacity h - 1) = Some e0 /\ entry_free e0 = Some true)) as Hk.
  { intros id'. destruct (put_key s h id e v id') as [?|[[-> ?]|Hge]]; [by left|right; eauto|left].
    simpl. rewrite !lookup_ge_None_2; [done|lia|by rewrite length_alter]. }
  split; split; try done.
  - intros j. by apply rid_shift.
  - intros j. by rewrite Z.sub_0_r.
Qed.

Lemma alter_alter {X} (f g : X -> X) i (l : list X) : alter f i (alter g i l) = alter (fun x => f (g x)) i l.
Proof. revert i. induction l as [|x l IH]; intros [|i]; try done. cbn. f_equal. apply IH. Qed.

(** Adding a block, as the spec says, whether it works out or not. *)
Lemma add_block_ok s h m e canAlloc malloc block :
  index_ok s h m e -> e < 2 ^ 62 ->
  exists added s1 h1 s' h' d, add_block canAlloc malloc e block s = Some (added, s') /\
    let '(m', e') := spec_step (AddBlock canAlloc malloc e block) added m e in
    index_ok s' h' m' e' /\ room s h e s1 h1 /\ index_ok s1 h1 m e /\ moved s1 h1 e s' h' d /\ e' = e + 32 * d.
Proof.
  intros H He. unfold add_block.
  destruct (insert_cases s h m e canAlloc malloc H He) as [E|(s1 & h1 & id & e0 & Hroom & H1 & Hid & He0 & Hf & E)]; rewrite E; simpl.
  - exists false, s, h, s, h, 0. split; [done|]. assert (moved s h e s h 0).
    { split; [done|intros; by rewrite Z.sub_0_r|by left]. }
    destruct block; (split_and!; try done; [by left|lia]).
  - pose proof (io_ring _ _ _ _ H1) as Hr. pose proof (rg_tail _ _ Hr).
    assert (forall v, set_value id v (set_at s1 h1 id e) = set_tail ((header_tail h1 + 1) mod capacity h1) (put s1 h1 id e v)) as Hset.
    { intros v. unfold set_value, set_at, set_key, set_tail, put, update. simpl. by rewrite alter_alter. }
    destruct block as [blk|].
    + destruct (put_moved s1 h1 id e (Ptr blk) e0 Hr Hid He0 Hf) as [Hm _].
      exists true, s1, h1. do 2 eexists. exists 1. split; [by rewrite Hset|]. simpl.
      split; [by eapply put_ok|]. split_and!; done || lia.
    + destruct (put_moved s1 h1 id e Null e0 Hr Hid He0 Hf) as [_ Hm].
      exists false, s1, h1, (put s1 h1 id e Null), h1, 0. split.
      * do 2 f_equal. unfold rewind_block_index_tail, set_at at 1. simpl. rewrite (rg_header _ _ Hr). simpl.
        rewrite (ring_mask s1) by done. rewrite Zminus_mod_idemp_l, Z.add_simpl_r, Z.mod_small by done.
        unfold set_value, set_at, set_tail, set_key, put, update. simpl. rewrite (rg_header _ _ Hr). simpl.
        rewrite alter_alter. destruct h1. done.
      * simpl. split; [by eapply abort_ok|]. split_and!; done || lia.
Qed.

(** ** Removing blocks *)

Definition nulled (e : BlockIndexEntry) : BlockIndexEntry := mkEntry (key e) Null.

Lemma update_key s id f id' : (forall e, key (f e) = key e) -> key <$> entries (update s id f) !! id' = key <$> entries s !! id'.
Proof.
  intros Hf. simpl. destruct (decide (id' = id)) as [->|]; [|by rewrite list_lookup_alter_ne].
  rewrite list_lookup_alter_eq. destruct (entries s !! id) as [x|]; [|done]. simpl. by rewrite Hf.
Qed.

(** The blocks at the distances [lo] to [hi] nulled. *)
Definition nulled_between (s s' : BlockIndex) (h : BlockIndexHeader) (lo hi : Z) : Prop :=
  forall i, 0 <= i < capacity h -> ent s' h i = if decide (lo <= i < hi) then nulled <$> ent s h i else ent s h i.

Lemma remove_block_ok s h m e b blk :
  index_ok s h m e -> e < 2 ^ 62 -> m !! b = Some blk ->
  exists s', remove_block b s = Some s' /\ index_ok s' h (delete b m) e /\ moved s h e s' h 0.
Proof.
  intros H He Hb. pose proof (io_ring _ _ _ _ H) as Hr. pose proof (ring_cap_pos _ _ Hr) as Hc.
  destruct (index_lookup s h m e b blk H He Hb) as (d & Hd & Hbd & Hent & _ & Hix).
  destruct (rid_some s h d Hr) as (id & Hid & _). exists (update s id nulled).
  split; [unfold remove_block; by rewrite (rg_header _ _ Hr); simpl; rewrite Hix, Hid|].
  assert (forall j, 0 <= j < capacity h -> ent (update s id nulled) h j = if decide (j = d) then Some (mkEntry b Null) else ent s h j) as He'.
  { intros j Hj. rewrite (ent_update s s h j d) by done. case_decide; [|done]. subst j. by rewrite Hent. }
  split.
  - split; [by apply ring_update|apply (io_end _ _ _ _ H)| | |].
    + intros b' blk'. rewrite lookup_delete. case_decide as Hne; [done|]. intros Hb'.
      destruct (io_live _ _ _ _ H b' blk' Hb') as (d' & Hd' & Hbd' & Hb0 & Hent' & Hk). exists d'.
      split_and!; [lia..| |]; [rewrite He', decide_False by lia; done|]. intros i Hi. rewrite He' by lia.
      case_decide; [|by apply Hk]. simpl. f_equal. lia.
    + intros j k blk' Hj. rewrite He' by done. case_decide; [done|]. intros Hx. destruct (io_ptr _ _ _ _ H _ _ _ Hj Hx) as [Hm Hk].
      split; [|done]. rewrite lookup_delete_ne by lia. done.
    + intros j k Hj. rewrite He' by done. case_decide; [done|]. by apply (io_uninit _ _ _ _ H).
  - split; [done|intros j; by rewrite Z.sub_0_r|]. intros id'. left. by apply update_key.
Qed.

(** The loop of a failed [enqueue_bulk]: [j] blocks done, [n] in all, from distance [n - 1] down;
    the tail rewinds along, so the blocks left may lie ahead of it. *)
Lemma revert_loop s h m e n r j sj :
  index_ok s h m e -> e < 2 ^ 62 -> 0 <= j -> n = j + Z.of_nat r -> n <= capacity h -> 0 <= e - 32 * n ->
  (forall i, 0 <= i < n -> key <$> ent s h i = Some (e - 32 - 32 * i)) ->
  let t i := (header_tail h + - i) mod capacity h in
  ring_ok sj (at_tail (t j) h) -> nulled_between s sj h (n - j) n -> (forall id, key <$> entries sj !! id = key <$> entries s !! id) ->
  exists s', revert_blocks (e - 32 * n + 32 * j) r sj = Some s' /\ ring_ok s' (at_tail (t n) h) /\
    nulled_between s s' h 0 n /\ (forall id, key <$> entries s' !! id = key <$> entries s !! id).
Proof.
  intros H He Hj Hn Hnc Hb0 Hkeys t. revert j sj Hj Hn. pose proof (io_ring _ _ _ _ H) as Hr. pose proof (ring_cap_pos _ _ Hr) as Hc.
  assert (forall j i, rid (at_tail (t j) h) i = rid h (i + j)) as Hrid.
  { intros j i. unfold t. rewrite rid_shift by done. f_equal. lia. }
  induction r as [|r IH]; intros j sj Hj Hn Hring Hnul Hkey.
  - assert (j = n) as -> by lia. exists sj. replace (n - n) with 0 in Hnul by lia. done.
  - simpl. unfold remove_block at 1. rewrite (rg_header _ _ Hring). simpl.
    destruct (rid_some _ _ 0 Hring) as (id0 & Hid0 & Hlt0). destruct (lookup_lt_is_Some_2 _ _ Hlt0) as [e0 He0].
    assert (key e0 = e - 32 - 32 * j) as Hk0.
    { specialize (Hkeys j ltac:(lia)). rewrite Hrid, Z.add_0_l in Hid0. unfold ent in Hkeys. rewrite Hid0 in Hkeys. simpl in Hkeys.
      rewrite <- Hkey, He0 in Hkeys. simpl in Hkeys. by injection Hkeys. }
    destruct (rg_cap _ _ Hr) as (k & Hk & Hck). destruct (io_end _ _ _ _ H) as [E1 E2].
    assert (block_base (e - 32 * n + 32 * j) = e - 32 * n + 32 * j) as Hbb.
    { apply block_base_mult; [lia|]. replace (e - 32 * n + 32 * j) with (e + (j - n) * 32) by lia. by rewrite Z_mod_plus_full. }
    destruct (lookup_view (at_tail (t j) h) (entries sj) id0 e0 (e - 32 * n + 32 * j) (n - 1 - 2 * j) k) as [_ Hix]; try done.
    { apply (rg_tail _ _ Hring). } { rewrite Hbb, Hk0. lia. } { lia. }
    rewrite Hix, Hrid. replace (n - 1 - 2 * j + j) with (n - 1 - j) by lia.
    destruct (rid_some s h (n - 1 - j) Hr) as (id & Hid & _). rewrite Hid. simpl.
    assert (u64 (e - 32 * n + 32 * j + BLOCK_SIZE) = e - 32 * n + 32 * (j + 1)) as -> by
      (unfold BLOCK_SIZE; rewrite wrapU_id; [lia|unfold inU; lia]).
    set (sj' := rewind_block_index_tail (set_value id Null sj)).
    assert (sj' = set_tail (t (j + 1)) (update sj id nulled)) as Esj'.
    { unfold sj', rewind_block_index_tail. simpl. rewrite (rg_header _ _ Hring). rewrite (ring_mask sj) by done. simpl.
      unfold t. rewrite Zminus_mod_idemp_l. unfold set_value, update, nulled. do 2 f_equal. lia. }
    rewrite Esj'. apply IH; [lia|lia| | |].
    + pose proof (ring_at_tail _ _ (-1) (ring_update _ _ id nulled Hring)) as Hg. simpl in Hg.
      assert ((t j + -1) mod capacity h = t (j + 1)) as Et by (unfold t; rewrite Zplus_mod_idemp_l; f_equal; lia).
      rewrite Et in Hg. exact Hg.
    + intros i Hi. change (ent (set_tail (t (j + 1)) (update sj id nulled)) h i) with (ent (update sj id nulled) h i).
      rewrite (ent_update s sj h i (n - 1 - j)) by (done || lia). rewrite Hnul by done. repeat case_decide; try lia; done.
    + intros id'. rewrite <- Hkey. apply (update_key sj). done.
Qed.

Lemma foldr_delete_in (m : gmap Z Z) b n j :
  (j < n)%nat -> foldr (fun j => delete (b + 32 * Z.of_nat j)) m (seq 0 n) !! (b + 32 * Z.of_nat j) = None.
Proof.
  intros Hj. assert (j ∈ seq 0 n) as Hin by (apply elem_of_seq; lia).
  induction (seq 0 n) as [|i l IH]; [by apply not_elem_of_nil in Hin|]. simpl. rewrite lookup_delete.
  apply elem_of_cons in Hin as [->|Hin]; [by rewrite decide_True|]. case_decide; [done|by apply IH].
Qed.

Lemma foldr_delete_out (m : gmap Z Z) b n x :
  (forall j, (j < n)%nat -> x <> b + 32 * Z.of_nat j) ->
  foldr (fun j => delete (b + 32 * Z.of_nat j)) m (seq 0 n) !! x = m !! x.
Proof.
  intros H. assert (forall j, j ∈ seq 0 n -> x <> b + 32 * Z.of_nat j) as Hne.
  { intros j Hj%elem_of_seq. apply H. lia. }
  clear H. induction (seq 0 n) as [|i l IH]; [done|]. simpl. rewrite lookup_delete_ne.
  - apply IH. intros j Hj. apply Hne. by right.
  - intros E. apply (Hne i); [by left|done].
Qed.

Lemma revert_blocks_ok s h m e b n :
  index_ok s h m e -> e < 2 ^ 62 -> b = e - 32 * Z.of_nat n ->
  (forall j, (j < n)%nat -> is_Some (m !! (b + 32 * Z.of_nat j))) ->
  exists s' h', revert_blocks b n s = Some s' /\
    index_ok s' h' (foldr (fun j => delete (b + 32 * Z.of_nat j)) m (seq 0 n)) b /\ moved s h e s' h' (- Z.of_nat n).
Proof.
  intros H He Hbe Hlive. pose proof (io_ring _ _ _ _ H) as Hr. pose proof (ring_cap_pos _ _ Hr) as Hc.
  destruct (io_end _ _ _ _ H) as [E1 E2]. set (N := Z.of_nat n) in *.
  assert (N <= capacity h /\ 0 <= b /\ forall i, 0 <= i < N -> key <$> ent s h i = Some (e - 32 - 32 * i)) as (Hn & Hb0 & Hkeys).
  { destruct n as [|n']; [split_and!; lia|]. destruct (Hlive 0%nat ltac:(lia)) as [blk Hb].
    destruct (io_live _ _ _ _ H _ blk Hb) as (d & Hd & Hbd & Hb0 & _ & Hk). split_and!; [lia..|]. intros i Hi. apply Hk. lia. }
  pose proof (ring_at_tail s h 0 Hr) as Hr0.
  assert ((header_tail h + - 0) mod capacity h = header_tail h) as Et by (rewrite Z.add_0_r; apply Z.mod_small, (rg_tail _ _ Hr)).
  destruct (revert_loop s h m e N n 0 s H He ltac:(lia) ltac:(lia) Hn ltac:(lia) Hkeys) as (s' & Hs' & Hr' & Hnul & Hkey).
  { rewrite Et. by destruct h. } { intros i Hi. by rewrite decide_False by lia. } { done. }
  exists s', (at_tail ((header_tail h + - N) mod capacity h) h). split; [rewrite <- Hs'; f_equal; lia|].
  assert (forall j, rid (at_tail ((header_tail h + - N) mod capacity h) h) j = rid h (j - - N)) as Hrid by (intros; by apply rid_shift).
  split; [|split; [done|done|by left]].
  assert (forall i, 0 <= i < capacity h -> ent s' (at_tail ((header_tail h + - N) mod capacity h) h) i =
    if decide (i + N < capacity h) then ent s h (i + N) else nulled <$> ent s h (i + N - capacity h)) as Hent.
  { intros i Hi. unfold ent at 1. rewrite Hrid. replace (i - - N) with (i + N) by lia. case_decide.
    - fold (ent s' h (i + N)). by rewrite Hnul, decide_False by lia.
    - replace (i + N) with (i + N - capacity h + capacity h) at 1 by lia. rewrite (rid_periodic s) by done.
      fold (ent s' h (i + N - capacity h)). by rewrite Hnul, decide_True by lia. }
  split; [done| | | |]; simpl.
  - split; [done|]. rewrite Hbe. replace (e - 32 * N) with (e + (- N) * 32) by lia. by rewrite Z_mod_plus_full.
  - intros b' blk Hb''. assert (forall j, (j < n)%nat -> b' <> b + 32 * Z.of_nat j) as Hne.
    { intros j Hj ->. by rewrite foldr_delete_in in Hb''. }
    rewrite foldr_delete_out in Hb'' by done.
    destruct (io_live _ _ _ _ H b' blk Hb'') as (d & Hd & Hbd & Hb0' & Hent' & Hk).
    assert (N <= d) as Hnd by (destruct (decide (d < N)); [destruct (Hne (Z.to_nat (N - 1 - d))); lia|lia]).
    exists (d - N). split_and!; [lia..| |].
    + rewrite Hent, decide_True by lia. by replace (d - N + N) with d by lia.
    + intros i Hi. rewrite Hent, decide_True, Hk by lia. f_equal. lia.
  - intros j k blk Hj. rewrite Hent by done. case_decide; [|by destruct (ent s h _)].
    intros Hx. destruct (io_ptr _ _ _ _ H (j + N) _ _ ltac:(lia) Hx) as [Hm Hk]. split; [|lia].
    rewrite foldr_delete_out; [done|]. intros i Hi. lia.
  - intros j k Hj. rewrite Hent by done. case_decide; [|by destruct (ent s h _)]. apply (io_uninit _ _ _ _ H). lia.
Qed.

(** ** An old view *)

(** A reader's [id0] (the entry at the tail it loaded) and [idb] (the entry of the block at [b]),
    [dv] slots apart, are so in the ring of any later moment, and the key it relies on is right,
    even while that entry lies ahead of a tail rewound meanwhile. *)
Definition tracked (s : BlockIndex) (h : BlockIndexHeader) (e b dv : Z) (id0 idb : nat) : Prop :=
  exists d, 0 <= d < capacity h /\ b = e - 32 - 32 * d /\ rid h d = Some idb /\ 0 <= dv < capacity h /\
    rid h (d - dv) = Some id0 /\ key <$> entries s !! id0 = Some (b + 32 * dv).

Lemma tracked_room s h m e s1 h1 b dv id0 idb :
  index_ok s h m e -> room s h e s1 h1 -> tracked s h e b dv id0 idb -> tracked s1 h1 e b dv id0 idb.
Proof.
  intros H [[-> ->]|(Hcap & Hkeys & Hrid & Hes)]; [done|]. intros (d & Hd & Hbd & Hidb & Hdv & Hid0 & Hk).
  pose proof (io_ring _ _ _ _ H) as Hr. destruct (entries s !! id0) as [e0|] eqn:He0; [|done].
  assert (dv <= d) as Hle.
  { destruct (decide (dv <= d)); [done|]. exfalso. specialize (Hkeys (d - dv + capacity h) ltac:(lia)).
    unfold ent in Hkeys. rewrite (rid_periodic s), Hid0 in Hkeys by done. simpl in Hkeys. rewrite He0, Hk in Hkeys.
    injection Hkeys. lia. }
  exists d. rewrite !Hrid by lia. rewrite (Hes _ _ He0). split_and!; done || lia.
Qed.

Lemma tracked_moved s h m e s' h' m' d b blk dv id0 idb :
  index_ok s h m e -> m !! b = Some blk -> moved s h e s' h' d -> index_ok s' h' m' (e + 32 * d) -> m' !! b = Some blk ->
  tracked s h e b dv id0 idb -> tracked s' h' (e + 32 * d) b dv id0 idb.
Proof.
  intros H Hb [Hcap Hrid Hkey] H' Hb' (p & Hp & Hbp & Hidb & Hdv & Hid0 & Hk). pose proof (io_ring _ _ _ _ H) as Hr.
  destruct (io_live _ _ _ _ H' b blk Hb') as (p' & Hp' & Hbp' & _). exists p'. assert (p' = p + d) as Ep by lia.
  rewrite !Hrid, Hcap. replace (p' - d) with p by lia. replace (p' - dv - d) with (p - dv) by lia.
  split_and!; try done; try lia. destruct (Hkey id0) as [E|(Hid & Hnew & e0 & He0 & Hf)]; [by rewrite E|].
  rewrite Hnew. destruct (io_live _ _ _ _ H b blk Hb) as (q & Hq & Hbq & _ & Hent & _). assert (q = p) as -> by lia.
  pose proof (free_not_live _ _ _ _ _ _ _ _ H Hb Hent (live_not_invalid _ _ _ _ _ _ H Hb) He0 Hf) as Hne.
  rewrite <- Hid0 in Hid. apply (rid_inj s) in Hid; [|done].
  assert ((p + 1) mod capacity h = dv mod capacity h) as Hm.
  { replace (p + 1) with (p - (capacity h - 1) + 1 * capacity h) by lia. rewrite Z_mod_plus_full.
    rewrite Zminus_mod, Hid, <- Zminus_mod. f_equal. lia. }
  rewrite !Z.mod_small in Hm by lia. f_equal. lia.
Qed.

Lemma index_step_ok s h m e a :
  index_ok s h m e -> e < 2 ^ 62 -> allowed a m e = true ->
  exists added s', index_step a s = Some (added, s') /\
    let '(m', e') := spec_step a added m e in
    e' <= e + 32 /\ exists h', index_ok s' h' m' e' /\
    forall b blk dv id0 idb, m !! b = Some blk -> m' !! b = Some blk -> tracked s h e b dv id0 idb -> tracked s' h' e' b dv id0 idb.
Proof.
  intros H He Ha. destruct a as [canAlloc malloc start block|b|b n]; simpl in Ha |- *.
  - zbool. subst start.
    destruct (add_block_ok s h m e canAlloc malloc block H He) as (added & s1 & h1 & s' & h' & d & E & Hspec).
    exists added, s'. split; [done|]. destruct (spec_step _ added m e) as [m' e'] eqn:Es.
    assert (e' <= e + 32) as Hle by (simpl in Es; destruct block, added; injection Es as <- <-; lia).
    simpl in Es. rewrite Es. destruct Hspec as (H' & Hroom & H1 & Hm & ->). split; [done|]. exists h'. split; [done|].
    intros b blk dv id0 idb Hb Hb' Ht. eapply tracked_moved; [exact H1|exact Hb|exact Hm|exact H'|exact Hb'|].
    exact (tracked_room _ _ _ _ _ _ _ _ _ _ H Hroom Ht).
  - apply bool_decide_eq_true in Ha as [blk Hb]. destruct (remove_block_ok s h m e b blk H He Hb) as (s' & E & H' & Hm).
    exists false, s'. rewrite E. split; [done|]. split; [lia|]. exists h. split; [done|].
    intros b' blk' dv id0 idb Hb1 Hb2 Ht. rewrite <- (Z.add_0_r e). eapply (tracked_moved _ _ _ _ _ _ _ 0); [exact H|exact Hb1|exact Hm| |exact Hb2|exact Ht].
    rewrite Z.mul_0_r, Z.add_0_r. exact H'.
  - apply andb_true_iff in Ha as [Hbe Hall]. zbool. rewrite forallb_forall in Hall.
    destruct (revert_blocks_ok s h m e b n H He ltac:(lia)) as (s' & h' & E & H' & Hm).
    { intros j Hj. specialize (Hall j). rewrite bool_decide_eq_true in Hall. apply Hall, in_seq. lia. }
    exists false, s'. rewrite E. split; [done|]. split; [lia|]. exists h'. split; [done|].
    intros b' blk' dv id0 idb Hb1 Hb2 Ht. assert (b = e + 32 * - Z.of_nat n) as Eb by lia. rewrite Eb.
    eapply tracked_moved; [exact H|exact Hb1|exact Hm| |exact Hb2|exact Ht]. by rewrite <- Eb.
Qed.

Lemma new_index_ok : exists h, index_ok (new_index true) h ∅ 0.
Proof.
  exists (mkHeader 32 31 (seq 0 32)).
  assert (ring_ok (new_index true) (mkHeader 32 31 (seq 0 32))) as Hr.
  { split; try done.
    - exists 5. split; [lia|done].
    - apply NoDup_seq.
    - intros id Hid. apply elem_of_seq in Hid. change (length (entries (new_index true))) with 32%nat. lia. }
  assert (forall j e, ent (new_index true) (mkHeader 32 31 (seq 0 32)) j = Some e -> e = mkEntry INVALID_BLOCK_BASE Uninit) as He.
  { intros j e Hj. unfold ent in Hj. destruct (rid _ j) as [id|]; [|done].
    exact (proj1 (lookup_replicate_1 32 (mkEntry INVALID_BLOCK_BASE Uninit) e id Hj)). }
  split; [done|done|done| |]; intros j k; intros.
  - match goal with E : ent _ _ _ = _ |- _ => apply He in E; discriminate end.
  - match goal with E : ent _ _ _ = _ |- _ => apply He in E; by injection E end.
Qed.

(** ** Runs *)

(** The block [blk] at [b] stays in the index all along a run. *)
Fixpoint keeps (b blk : Z) (l : list index_action) (s : BlockIndex) (m : gmap Z Z) (e : Z) : Prop :=
  m !! b = Some blk /\
  match l with
  | [] => True
  | a :: l' =>
      match index_step a s with
      | None => True
      | Some (added, s') => let '(m', e') := spec_step a added m e in keeps b blk l' s' m' e'
      end
  end.

Lemma index_run_ok l s h m e :
  index_ok s h m e -> e + 32 * Z.of_nat (length l) < 2 ^ 62 ->
  index_run l s m e <> Stuck /\
  forall s' m' e', index_run l s m e = Ran s' m' e' -> e' <= e + 32 * Z.of_nat (length l) /\
    exists h', index_ok s' h' m' e' /\
    forall b blk dv id0 idb, keeps b blk l s m e -> tracked s h e b dv id0 idb -> m' !! b = Some blk /\ tracked s' h' e' b dv id0 idb.
Proof.
  revert s h m e. induction l as [|a l IH]; intros s h m e H He; simpl in He |- *.
  - split; [done|]. intros s' m' e' [= <- <- <-]. split; [lia|]. exists h. split; [done|]. by intros b blk dv id0 idb [Hb _] Ht.
  - destruct (allowed a m e) eqn:Ha; [|split; [done|by intros ? ? ?]].
    destruct (index_step_ok s h m e a H ltac:(lia) Ha) as (added & s1 & E & Hs). rewrite E.
    destruct (spec_step a added m e) as [m1 e1]. destruct Hs as (Hle & h1 & H1 & Ht1).
    destruct (IH s1 h1 m1 e1 H1 ltac:(lia)) as [I1 I2]. split; [done|]. intros s' m' e' E'.
    destruct (I2 s' m' e' E') as (Hle' & h' & H' & Ht'). split; [lia|]. exists h'. split; [done|].
    intros b blk dv id0 idb [Hb Hk] Ht. apply Ht'; [done|]. eapply Ht1; [exact Hb| |done]. destruct l; apply Hk.
Qed.

(** The view of a reader that loads the ring while the block at distance [p] is there. *)
Lemma view_tracked s h m e b blk p id0 :
  index_ok s h m e -> m !! b = Some blk -> b = e - 32 - 32 * p -> 0 <= p < capacity h -> rid h 0 = Some id0 ->
  exists idb, rid h p = Some idb /\ tracked s h e b p id0 idb.
Proof.
  intros H Hb Hbp Hp Hid0. pose proof (io_ring _ _ _ _ H) as Hr. destruct (rid_some s h p Hr) as (idb & Hidb & _).
  exists idb. split; [done|]. destruct (io_live _ _ _ _ H b blk Hb) as (q & Hq & Hbq & _ & _ & Hk). assert (q = p) as -> by lia.
  exists p. rewrite Z.sub_diag. split_and!; try done; try lia. specialize (Hk 0 ltac:(lia)).
  unfold ent in Hk. rewrite Hid0 in Hk. simpl in Hk. rewrite Hk. f_equal. lia.
Qed.

(** What it finds later: the slot it computes, and the entry it gets from it. *)
Lemma tracked_slot s h e h1 s2 h2 e2 m b p id0 idb i :
  ring_ok s h1 -> rid h1 0 = Some id0 -> tracked s2 h2 e2 b p id0 idb -> 0 <= p < capacity h1 ->
  index_ok s h m e -> is_Some (m !! b) -> b = e - 32 - 32 * p -> e < 2 ^ 62 -> block_base i = b ->
  get_block_index_index_for_index h1 (entries s2) i = Some ((header_tail h1 - p) mod capacity h1).
Proof.
  intros Hr Hid0 (q & _ & _ & _ & _ & _ & Hk0) Hp H [blk Hb] Hbp He Hi. destruct (entries s2 !! id0) as [x0|] eqn:Ex0; [|done].
  injection Hk0 as Hk0. destruct (live_base _ _ _ _ _ _ H Hb). destruct (rg_cap _ _ Hr) as (k & Hk & Hck).
  apply (lookup_view h1 (entries s2) id0 x0 i p k); try done; [apply (rg_tail _ _ Hr)|lia|lia].
Qed.

Lemma tracked_entry s h m e b blk p id0 idb :
  index_ok s h m e -> m !! b = Some blk -> tracked s h e b p id0 idb -> entries s !! idb = Some (mkEntry b (Ptr blk)).
Proof.
  intros H Hb (d & Hd & Hbd & Hidb & _). destruct (io_live _ _ _ _ H b blk Hb) as (q & Hq & Hbq & _ & Hent & _).
  assert (q = d) as -> by lia. unfold ent in Hent. by rewrite Hidb in Hent.
Qed.

(** C24: the block index implements a map from first indices to blocks: no run of its operations
    reads what is not there, whichever allocations fail; and a reader that loaded the ring [h1]
    at some moment finds in it, at any later moment, the entry of every block that was in the
    index then and still is, even after the ring has grown and the tail has been rewound; from
    the slot so found for a block the [j]-th slot on is that of the [j]-th block on, which is how
    [dequeue_bulk] walks the ring it loaded once. *)
Theorem block_index_refines l1 :
  32 * Z.of_nat (length l1) < 2 ^ 61 ->
  index_run l1 (new_index true) ∅ 0 <> Stuck /\
  forall s1 m1 e1 h1 b0 blk0, index_run l1 (new_index true) ∅ 0 = Ran s1 m1 e1 -> blockIndex s1 = Some h1 -> m1 !! b0 = Some blk0 ->
    exists idx,
      (forall i l2 s2 m2 e2, block_base i = b0 -> 32 * Z.of_nat (length l2) < 2 ^ 61 ->
         index_run l2 s1 m1 e1 = Ran s2 m2 e2 -> keeps b0 blk0 l2 s1 m1 e1 ->
         get_block_index_index_for_index h1 (entries s2) i = Some idx) /\
      (forall j blk l2 s2 m2 e2, 0 <= j -> 32 * Z.of_nat (length l2) < 2 ^ 61 ->
         index_run l2 s1 m1 e1 = Ran s2 m2 e2 -> keeps (b0 + 32 * j) blk l2 s1 m1 e1 ->
         exists id, index h1 !! Z.to_nat (slot_mask (idx + j) (capacity h1)) = Some id /\
           entries s2 !! id = Some (mkEntry (b0 + 32 * j) (Ptr blk))).
Proof.
  intros Hl1. destruct new_index_ok as [h0 H0]. destruct (index_run_ok l1 _ _ _ _ H0 ltac:(lia)) as [Hns Hrun].
  split; [done|]. intros s1 m1 e1 h1 b0 blk0 E1 Eh Hb0. destruct (Hrun _ _ _ E1) as (Hle & h & H1 & _).
  pose proof (io_ring _ _ _ _ H1) as Hr. rewrite (rg_header _ _ Hr) in Eh. injection Eh as ->.
  destruct (io_live _ _ _ _ H1 b0 blk0 Hb0) as (d & Hd & Hbd & Hpos & _ & _).
  destruct (rid_some s1 h1 0 Hr) as (id0 & Hid0 & _). exists ((header_tail h1 - d) mod capacity h1). split.
  - intros i l2 s2 m2 e2 Hi Hl2 E2 Hkeep. destruct (view_tracked _ _ _ _ _ _ _ _ H1 Hb0 Hbd Hd Hid0) as (idb & _ & Ht).
    destruct (index_run_ok l2 _ _ _ _ H1 ltac:(lia)) as [_ Hrun2]. destruct (Hrun2 _ _ _ E2) as (_ & h2 & H2 & Ht2).
    destruct (Ht2 _ _ _ _ _ Hkeep Ht) as [_ Ht']. eapply tracked_slot; try done. lia.
  - intros j blk l2 s2 m2 e2 Hj Hl2 E2 Hkeep. assert (m1 !! (b0 + 32 * j) = Some blk) as Hb by (destruct l2; apply Hkeep).
    destruct (io_live _ _ _ _ H1 _ blk Hb) as (q & Hq & Hbq & _).
    destruct (view_tracked s1 h1 m1 e1 (b0 + 32 * j) blk (d - j) id0 H1 Hb ltac:(lia) ltac:(lia) Hid0) as (idb & Hidb & Ht).
    destruct (index_run_ok l2 _ _ _ _ H1 ltac:(lia)) as [_ Hrun2]. destruct (Hrun2 _ _ _ E2) as (_ & h2 & H2 & Ht2).
    destruct (Ht2 _ _ _ _ _ Hkeep Ht) as [Hb2 Ht']. exists idb. split; [|by eapply tracked_entry].
    rewrite (ring_mask s1), Zplus_mod_idemp_l by done. rewrite <- Hidb. unfold rid. do 3 f_equal. lia.
Qed.

(** ** Example *)

(** A full ring; the first block is removed and its slot reused; the ring grows; a block is not
    to be had; and an enqueue takes its block back. *)
Definition full_ring : list index_action := (fun k => AddBlock true true (32 * Z.of_nat k) (Some (Z.of_nat k))) <$> seq 0 32.
Definition then_more : list index_action :=
  [RemoveBlock 0; AddBlock true true 1024 (Some 32); AddBlock true true 1056 (Some 33); AddBlock true true 1088 None; RevertBlocks 1056 1].

Lemma block_index_refines_witness :
  exists s1 m1 h1 s2 m2 idx, index_run full_ring (new_index true) ∅ 0 = Ran s1 m1 1024 /\ blockIndex s1 = Some h1 /\
    index_run then_more s1 m1 1024 = Ran s2 m2 1056 /\ capacity <$> blockIndex s2 = Some 64 /\
    get_block_index_index_for_index h1 (entries s2) 70 = Some idx /\
    exists id, index h1 !! Z.to_nat (slot_mask (idx + 29) (capacity h1)) = Some id /\ entries s2 !! id = Some (mkEntry 992 (Ptr 31)).
Proof.
  destruct (block_index_refines full_ring ltac:(vm_compute; reflexivity)) as [_ H].
  assert (match index_run full_ring (new_index true) ∅ 0 with
          | Ran s1 m1 e1 => is_Some (blockIndex s1) /\ m1 !! 64 = Some 2 /\ e1 = 1024 /\
              keeps 64 2 then_more s1 m1 1024 /\ keeps (64 + 32 * 29) 31 then_more s1 m1 1024 /\
              match index_run then_more s1 m1 1024 with
              | Ran s2 _ e2 => e2 = 1056 /\ capacity <$> blockIndex s2 = Some 64 | _ => False
              end
          | _ => False
          end) as Hrun by (vm_compute; repeat split; eexists; reflexivity).
  destruct (index_run full_ring (new_index true) ∅ 0) as [| |s1 m1 e1] eqn:E1; [destruct Hrun..|].
  destruct Hrun as ([h1 Eh] & Hb & -> & K1 & K2 & Hrun).
  destruct (index_run then_more s1 m1 1024) as [| |s2 m2 e2] eqn:E2; [destruct Hrun..|]. destruct Hrun as [-> Hcap].
  destruct (H s1 m1 1024 h1 64 2 eq_refl Eh Hb) as (idx & H1 & H2). exists s1, m1, h1, s2, m2, idx.
  do 4 (split; [first [reflexivity|assumption]|]). split.
  - exact (H1 70 then_more s2 m2 1056 eq_refl ltac:(vm_compute; reflexivity) E2 K1).
  - exact (H2 29 31 then_more s2 m2 1056 ltac:(lia) ltac:(vm_compute; reflexivity) E2 K2).
Defined.
