(* ===== verification/FreeList.v ===== *)
(** * The free list of blocks

    [FreeList] of [src/include/concurrentqueue.h]: a stack of nodes whose head is swapped by
    compare-and-exchange, with a count of references in each node against the ABA problem.  The
    count holds one for the list and one for each thread that is about to read the node's next;
    its top bit says that the node should be on the list and that whoever drops the last
    reference has to put it there.  Each atomic access of a thread is a step. *)

From S2P Require Import Prelude.
From stdpp Require Import base list.
From Stdlib Require Import ZArith Lia.
Local Open Scope Z_scope.

Definition REFS_MASK : Z := 0x7FFFFFFF.
Definition SHOULD_BE_ON_FREELIST : Z := 0x80000000.

(** Nodes are never freed while the list lives: they have their fields at all times. *)
Record FreeList := mkFreeList {
  freeListHead : option nat;
  freeListRefs : nat -> Z;
  freeListNext : nat -> option nat
}.
Implicit Types (s : FreeList) (node : nat).

Definition empty_list : FreeList := mkFreeList None (fun _ => 0) (fun _ => None).

Definition put {X} (f : nat -> X) node (x : X) : nat -> X := fun m => if decide (m = node) then x else f m.
Definition set_head h s : FreeList := mkFreeList h (freeListRefs s) (freeListNext s).
Definition set_refs node r s : FreeList := mkFreeList (freeListHead s) (put (freeListRefs s) node r) (freeListNext s).
Definition set_next node h s : FreeList := mkFreeList (freeListHead s) (freeListRefs s) (put (freeListNext s) node h).

(** What follows [add_knowing_refcount_is_zero]: the return of [add], or the loop of [try_get]
    with the head it had seen. *)
Inductive cont := Return | Retry (head : option nat).

(** A thread, before each of its accesses. *)
Inductive list_stage :=
| AddBit node                                        (* add: freeListRefs.fetch_add *)
| LoadHead node (k : cont)                           (* add_knowing: freeListHead.load *)
| StoreNext node (head : option nat) (k : cont)
| StoreRefs node (head : option nat) (k : cont)
| CasHead node (head : option nat) (k : cont)
| Retreat node (head : option nat) (k : cont)        (* freeListRefs.fetch_add *)
| GetHead                                            (* try_get: freeListHead.load *)
| LoadRefs (head : nat)
| CasRefs (head : nat) (refs : Z)
| LoadNext (head : nat)
| CasNext (head : nat) (next : option nat)
| DropTwo (head : nat)
| DropOne (prevHead : nat) (head : option nat)
| Finished (result : option nat).

(** The head of the loop of [try_get]. *)
Definition loop (head : option nat) : list_stage := match head with None => Finished None | Some h => LoadRefs h end.
Definition resume (k : cont) : list_stage := match k with Return => Finished None | Retry head => loop head end.

(** The accesses of [add_knowing_refcount_is_zero]. *)
Definition insert_step (st : list_stage) s : list_stage * FreeList :=
  match st with
  | LoadHead node k => (StoreNext node (freeListHead s) k, s)
  | StoreNext node head k => (StoreRefs node head k, set_next node head s)
  | StoreRefs node head k => (CasHead node head k, set_refs node 1 s)
  | CasHead node head k =>
      if decide (freeListHead s = head) then (resume k, set_head (Some node) s) else (Retreat node (freeListHead s) k, s)
  | Retreat node head k =>
      let refs := freeListRefs s node in
      (if refs =? 1 then StoreNext node head k else resume k, set_refs node (u32 (refs + (SHOULD_BE_ON_FREELIST - 1))) s)
  | _ => (st, s)
  end.

(** The accesses of [add] and [try_get]. *)
Definition list_step (st : list_stage) s : list_stage * FreeList :=
  match st with
  | AddBit node =>
      let refs := freeListRefs s node in
      (if refs =? 0 then LoadHead node Return else Finished None, set_refs node (u32 (refs + SHOULD_BE_ON_FREELIST)) s)
  | GetHead => (loop (freeListHead s), s)
  | LoadRefs head =>
      let refs := freeListRefs s head in
      (if Z.land refs REFS_MASK =? 0 then GetHead else CasRefs head refs, s)
  | CasRefs head refs =>
      if freeListRefs s head =? refs then (LoadNext head, set_refs head (u32 (refs + 1)) s) else (GetHead, s)
  | LoadNext head => (CasNext head (freeListNext s head), s)
  | CasNext head next =>
      if decide (freeListHead s = Some head) then (DropTwo head, set_head next s) else (DropOne head (freeListHead s), s)
  | DropTwo head => (Finished (Some head), set_refs head (u32 (freeListRefs s head - 2)) s)
  | DropOne prevHead head =>
      let refs := freeListRefs s prevHead in
      (if refs =? SHOULD_BE_ON_FREELIST + 1 then LoadHead prevHead (Retry head) else loop head,
       set_refs prevHead (u32 (refs - 1)) s)
  | LoadHead _ _ | StoreNext _ _ _ | StoreRefs _ _ _ | CasHead _ _ _ | Retreat _ _ _ => insert_step st s
  | Finished _ => (st, s)
  end.

(** ** Interleavings *)

(** The list, its threads, and the nodes in the hands of its users. *)
Record ListWorld := mkListWorld { shared : FreeList; workers : list list_stage; held : list nat }.

Inductive list_action := StartAdd (node : nat) | StartGet | ListStep (i : nat).

(** [add] is called with a node that the caller holds. *)
Definition list_exec (a : list_action) (w : ListWorld) : option ListWorld :=
  match a with
  | StartAdd node =>
      if decide (node ∈ held w)
      then Some (mkListWorld (shared w) (AddBit node :: workers w) (filter (fun m => m <> node) (held w))) else None
  | StartGet => Some (mkListWorld (shared w) (GetHead :: workers w) (held w))
  | ListStep i =>
      match workers w !! i with
      | None | Some (Finished _) => None
      | Some st =>
          let '(st', s') := list_step st (shared w) in
          Some (mkListWorld s' (<[i := st']> (workers w))
                  match st' with Finished (Some node) => node :: held w | _ => held w end)
      end
  end.

Fixpoint list_run (l : list list_action) (w : ListWorld) : option ListWorld :=
  match l with
  | [] => Some w
  | a :: l' => match list_exec a w with Some w' => list_run l' w' | None => None end
  end.

(** New blocks, none on the list. *)
Definition new_nodes (n : nat) : ListWorld := mkListWorld empty_list [] (seq 0 n).
