(* ===== verification/FreeListTheorems.v ===== *)
(** * The free list loses no node and gives none out twice

    Every node has one owner at a time: a user, a thread in the middle of [add] or of a
    successful [try_get], the list, or nobody for as long as a reference keeps it from being put
    back.  What its count must be follows from the owner and from the references. *)

From S2P Require Import Prelude FreeList.
From stdpp Require Import base list.
From Stdlib Require Import ZArith Lia.
Local Open Scope Z_scope.

(** ** Owners and references *)

(** The node a thread owns, with what its count is but for the references: nothing, the top bit,
    the list's reference, or that and the taker's. *)
Definition owned (st : list_stage) : list (nat * Z) :=
  match st with
  | AddBit n => [(n, 0)]
  | LoadHead n _ | StoreNext n _ _ | StoreRefs n _ _ => [(n, SHOULD_BE_ON_FREELIST)]
  | CasHead n _ _ | Retreat n _ _ => [(n, 1)]
  | DropTwo n => [(n, 2)]
  | _ => []
  end.

(** The references of a thread to [n]. *)
Definition pin (n : nat) (st : list_stage) : Z :=
  match st with LoadNext h | CasNext h _ | DropOne h _ => if decide (h = n) then 1 else 0 | _ => 0 end.
Definition pins (ths : list list_stage) (n : nat) : Z := zsum (pin n) ths.

Definition in_nodes (nodes : list nat) (h : option nat) : Prop := match h with Some n => n ∈ nodes | None => True end.
Definition cont_ok (nodes : list nat) (k : cont) : Prop := match k with Return => True | Retry h => in_nodes nodes h end.

(** What a thread relies on. *)
Definition stage_ok (nodes : list nat) (ths : list list_stage) (s : FreeList) (st : list_stage) : Prop :=
  match st with
  | AddBit _ | GetHead | DropTwo _ | Finished _ => True
  | LoadHead n k => pins ths n = 0 /\ cont_ok nodes k
  | StoreNext n _ k => pins ths n = 0 /\ cont_ok nodes k
  | StoreRefs n h k => pins ths n = 0 /\ freeListNext s n = h /\ cont_ok nodes k
  | CasHead n h k => freeListNext s n = h /\ cont_ok nodes k
  | Retreat n _ k => cont_ok nodes k
  | LoadRefs h => h ∈ nodes
  | CasRefs h r => h ∈ nodes /\ Z.land r REFS_MASK <> 0
  | LoadNext h => h ∈ nodes
  | CasNext h nx => h ∈ nodes /\ freeListNext s h = nx
  | DropOne h cur => h ∈ nodes /\ in_nodes nodes cur
  end.

(** The list from [h] on. *)
Fixpoint chained (next : nat -> option nat) (h : option nat) (chain : list nat) : Prop :=
  match chain with [] => h = None | n :: l => h = Some n /\ chained next (next n) l end.

(** Every owner: the users [hd], the threads, the list and nobody ([pend]). *)
Definition owners (ths : list list_stage) (hd chain pend : list nat) : list (nat * Z) :=
  ((fun n => (n, 0)) <$> hd) ++ concat (owned <$> ths) ++ ((fun n => (n, 1)) <$> chain) ++
  ((fun n => (n, SHOULD_BE_ON_FREELIST)) <$> pend).

Record list_ok (nodes : list nat) (s : FreeList) (ths : list list_stage) (hd chain pend : list nat) : Prop := {
  li_nodes : (owners ths hd chain pend).*1 ≡ₚ nodes;
  li_nodup : NoDup nodes;
  li_chain : chained (freeListNext s) (freeListHead s) chain;
  li_counts : Forall (fun r => freeListRefs s r.1 = r.2 + pins ths r.1) (owners ths hd chain pend);
  li_pend : Forall (fun n => 1 <= pins ths n) pend;
  li_stages : Forall (stage_ok nodes ths s) ths
}.

Lemma pin_range n st : 0 <= pin n st <= 1.
Proof. destruct st; simpl; try lia; case_decide; lia. Qed.
Lemma pins_range ths n : 0 <= pins ths n <= Z.of_nat (length ths).
Proof.
  unfold pins. induction ths as [|st ths IH]; [simpl; lia|]. rewrite zsum_cons. pose proof (pin_range n st). simpl length. lia.
Qed.
Lemma pins_cons st ths n : pins (st :: ths) n = pin n st + pins ths n.
Proof. apply zsum_cons. Qed.
#[export] Instance pins_perm : Proper ((≡ₚ) ==> (=) ==> (=)) pins.
Proof. intros l l' E n _ <-. unfold pins. by rewrite E. Qed.

Lemma owners_perm ths ths' hd hd' chain pend pend' :
  ths ≡ₚ ths' -> hd ≡ₚ hd' -> pend ≡ₚ pend' -> owners ths hd chain pend ≡ₚ owners ths' hd' chain pend'.
Proof. intros E1 E2 E3. unfold owners. by rewrite E1, E2, E3. Qed.

Lemma stage_ok_perm nodes ths ths' s st : ths ≡ₚ ths' -> stage_ok nodes ths s st -> stage_ok nodes ths' s st.
Proof. intros E. destruct st; simpl; rewrite <- ?E; done. Qed.

Lemma list_ok_perm nodes s ths ths' hd hd' chain pend pend' :
  ths ≡ₚ ths' -> hd ≡ₚ hd' -> pend ≡ₚ pend' -> list_ok nodes s ths hd chain pend -> list_ok nodes s ths' hd' chain pend'.
Proof.
  intros E1 E2 E3 [H1 H2 H3 H4 H5 H6]. pose proof (owners_perm _ _ _ _ chain _ _ E1 E2 E3) as Eo. split.
  - by rewrite <- Eo.
  - done.
  - done.
  - rewrite <- Eo. eapply Forall_impl; [exact H4|]. intros r Hr. by rewrite <- E1.
  - rewrite <- E3. eapply Forall_impl; [exact H5|]. intros n Hn. by rewrite <- E1.
  - apply Forall_forall. intros st Hst. rewrite <- E1 in Hst. eapply stage_ok_perm; [done|].
    exact (proj1 (Forall_forall _ _) H6 st Hst).
Qed.

(** Nobody else owns a node that has an owner. *)
Lemma owner_unique nodes s ths hd chain pend n b R :
  list_ok nodes s ths hd chain pend -> owners ths hd chain pend ≡ₚ (n, b) :: R ->
  n ∈ nodes /\ freeListRefs s n = b + pins ths n /\ Forall (fun r => r.1 <> n) R.
Proof.
  intros H E. pose proof (li_nodes _ _ _ _ _ _ H) as Hn. pose proof (li_nodup _ _ _ _ _ _ H) as Hd.
  pose proof (li_counts _ _ _ _ _ _ H) as Hc. rewrite E in Hn, Hc. simpl in Hn. inversion_clear Hc as [|? ? Hc0 _]. split_and!.
  - rewrite <- Hn. by left.
  - exact Hc0.
  - rewrite <- Hn in Hd. inversion_clear Hd as [|? ? Hni _]. apply Forall_forall. intros r Hr Hrn. apply Hni.
    rewrite <- Hrn. by apply list_elem_of_fmap_2.
Qed.

(** A node with a reference to it has a count: it is some owner's. *)
Lemma node_owner nodes s ths hd chain pend n :
  list_ok nodes s ths hd chain pend -> n ∈ nodes -> exists b R, owners ths hd chain pend ≡ₚ (n, b) :: R.
Proof.
  intros H Hn. rewrite <- (li_nodes _ _ _ _ _ _ H) in Hn. apply list_elem_of_fmap in Hn as ([m b] & -> & Hin).
  apply elem_of_Permutation in Hin as [R HR]. by exists b, R.
Qed.

(** ** What a step has to show *)

Lemma owners_cons st ths hd chain pend : owners (st :: ths) hd chain pend ≡ₚ owned st ++ owners ths hd chain pend.
Proof. unfold owners. rewrite fmap_cons, concat_cons, <- app_assoc. apply Permutation_app_swap_app. Qed.
Lemma owners_held ths n hd chain pend : owners ths (n :: hd) chain pend = (n, 0) :: owners ths hd chain pend.
Proof. done. Qed.
Lemma owners_chain ths hd n chain pend : owners ths hd (n :: chain) pend ≡ₚ (n, 1) :: owners ths hd chain pend.
Proof. unfold owners. rewrite fmap_cons. by rewrite !app_assoc, <- Permutation_middle. Qed.
Lemma owners_pend ths hd chain n pend :
  owners ths hd chain (n :: pend) ≡ₚ (n, SHOULD_BE_ON_FREELIST) :: owners ths hd chain pend.
Proof. unfold owners. rewrite fmap_cons. by rewrite !app_assoc, <- Permutation_middle. Qed.

(** The owners and the counts after a step that touches the count of [n] only. *)
Lemma counts_step nodes s s' st st' rest hd hd' chain chain' pend pend' n b b' R :
  list_ok nodes s (st :: rest) hd chain pend ->
  owners (st :: rest) hd chain pend ≡ₚ (n, b) :: R -> owners (st' :: rest) hd' chain' pend' ≡ₚ (n, b') :: R ->
  (forall m, m <> n -> freeListRefs s' m = freeListRefs s m) -> (forall m, m <> n -> pin m st' = pin m st) ->
  freeListRefs s' n = b' + pins (st' :: rest) n ->
  (owners (st' :: rest) hd' chain' pend').*1 ≡ₚ nodes /\
  Forall (fun r => freeListRefs s' r.1 = r.2 + pins (st' :: rest) r.1) (owners (st' :: rest) hd' chain' pend').
Proof.
  intros H E E' Hr Hp Hn. destruct (owner_unique _ _ _ _ _ _ _ _ _ H E) as (_ & _ & Hu).
  pose proof (li_nodes _ _ _ _ _ _ H) as Hnodes. pose proof (li_counts _ _ _ _ _ _ H) as Hc. rewrite E in Hnodes, Hc.
  rewrite E'. split; [exact Hnodes|]. constructor; [exact Hn|]. inversion_clear Hc as [|? ? _ Hc'].
  apply Forall_forall. intros r Hin. pose proof (proj1 (Forall_forall _ _) Hu r Hin) as Hne.
  rewrite Hr by done. rewrite (proj1 (Forall_forall _ _) Hc' r Hin), !pins_cons, Hp by done. done.
Qed.

(** The other threads: no new reference to a node about to be put on the list, and no next
    changed but of a node that none of them owns or refers to. *)
Lemma rest_stages nodes s s' st st' rest :
  Forall (stage_ok nodes (st :: rest) s) rest ->
  (forall st0 n, st0 ∈ rest -> (n, SHOULD_BE_ON_FREELIST) ∈ owned st0 -> pin n st = 0 -> pin n st' = 0) ->
  (forall n, freeListNext s' n = freeListNext s n \/
     (pins (st :: rest) n = 0 /\ forall st0, st0 ∈ rest -> n ∉ (owned st0).*1)) ->
  Forall (stage_ok nodes (st' :: rest) s') rest.
Proof.
  intros H Hpin Hnext. apply Forall_forall. intros st0 Hin. pose proof (proj1 (Forall_forall _ _) H st0 Hin) as H0.
  assert (forall n, (n, SHOULD_BE_ON_FREELIST) ∈ owned st0 -> pins (st :: rest) n = 0 -> pins (st' :: rest) n = 0) as Hz.
  { intros n Ho Hp. rewrite pins_cons in Hp |- *. pose proof (pin_range n st). pose proof (pins_range rest n).
    rewrite (Hpin st0 n Hin Ho); lia. }
  assert (forall n h, n ∈ (owned st0).*1 -> freeListNext s n = h -> freeListNext s' n = h) as Hx.
  { intros n h Ho <-. destruct (Hnext n) as [?|[_ Hno]]; [done|]. by destruct (Hno st0 Hin). }
  destruct st0; simpl in H0 |- *; try done.
  - destruct H0 as [? ?]. split; [apply Hz; [by left|done]|done].
  - destruct H0 as [? ?]. split; [apply Hz; [by left|done]|done].
  - destruct H0 as (? & ? & ?). split_and!; [apply Hz; [by left|done]|apply Hx; [by left|done]|done].
  - destruct H0 as [? ?]. split; [apply Hx; [by left|done]|done].
  - destruct H0 as [? Hn]. split; [done|]. destruct (Hnext head) as [->|[Hp _]]; [done|]. exfalso.
    assert (1 <= pins rest head).
    { unfold pins. etrans; [|apply (zsum_elem_le (pin head) rest _ ltac:(intros; apply pin_range) Hin)].
      simpl. by rewrite decide_True. }
    rewrite pins_cons in Hp. pose proof (pin_range head st). lia.
Qed.

(** A step that touches nothing shared and gains or loses no node and no reference. *)
Lemma quiet_step nodes s st st' rest hd chain pend :
  list_ok nodes s (st :: rest) hd chain pend -> owned st' = owned st -> (forall n, pin n st' = pin n st) ->
  stage_ok nodes (st' :: rest) s st' -> list_ok nodes s (st' :: rest) hd chain pend.
Proof.
  intros H Ho Hp Hst. assert (forall n, pins (st' :: rest) n = pins (st :: rest) n) as Hps by (intros n; by rewrite !pins_cons, Hp).
  pose proof H as [H1 H2 H3 H4 H5 H6]. inversion_clear H6 as [|? ? _ H6'].
  assert (owners (st' :: rest) hd chain pend ≡ₚ owners (st :: rest) hd chain pend) as Eo by (rewrite !owners_cons; by rewrite Ho).
  split; [by rewrite Eo|done|done| | |].
  - rewrite Eo. eapply Forall_impl; [exact H4|]. intros r Hr. by rewrite Hps.
  - eapply Forall_impl; [exact H5|]. intros n Hn. by rewrite Hps.
  - constructor; [done|]. eapply rest_stages; [exact H6'| |by left]. intros st0 n _ _ Hn. by rewrite Hp.
Qed.

Lemma owned_in_owners st0 ths r hd chain pend : st0 ∈ ths -> r ∈ owned st0 -> r ∈ owners ths hd chain pend.
Proof.
  intros Hin Hr. unfold owners. apply elem_of_app. right. apply elem_of_app. left. apply elem_of_concat.
  exists (owned st0). split; [done|by apply list_elem_of_fmap_2].
Qed.

(** A step that touches the count, the references and at most the next of one node. *)
Lemma step_ok nodes s s' st st' rest hd hd' chain chain' pend pend' n b b' R :
  list_ok nodes s (st :: rest) hd chain pend ->
  owners (st :: rest) hd chain pend ≡ₚ (n, b) :: R -> owners (st' :: rest) hd' chain' pend' ≡ₚ (n, b') :: R ->
  (forall m, m <> n -> freeListRefs s' m = freeListRefs s m) -> (forall m, m <> n -> pin m st' = pin m st) ->
  freeListRefs s' n = b' + pins (st' :: rest) n ->
  chained (freeListNext s') (freeListHead s') chain' ->
  (forall m, m ∈ pend' -> (m ∈ pend /\ m <> n) \/ (m = n /\ 1 <= pins (st' :: rest) n)) ->
  (pin n st' <= pin n st \/ forall st0, st0 ∈ rest -> (n, SHOULD_BE_ON_FREELIST) ∉ owned st0) ->
  (forall m, freeListNext s' m = freeListNext s m \/ (m = n /\ owned st = [(n, b)] /\ pins (st :: rest) n = 0)) ->
  stage_ok nodes (st' :: rest) s' st' ->
  list_ok nodes s' (st' :: rest) hd' chain' pend'.
Proof.
  intros H E E' Hr Hp Hn Hch Hpe Hpin Hnx Hst.
  destruct (counts_step _ _ _ _ _ _ _ _ _ _ _ _ _ _ _ _ H E E' Hr Hp Hn) as [C1 C2].
  pose proof (li_stages _ _ _ _ _ _ H) as Hs. inversion_clear Hs as [|? ? _ Hs'].
  split; [exact C1|apply (li_nodup _ _ _ _ _ _ H)|exact Hch|exact C2| |constructor; [exact Hst|]].
  - apply Forall_forall. intros m [[Hm Hne]|[-> ?]]%Hpe; [|done].
    pose proof (proj1 (Forall_forall _ _) (li_pend _ _ _ _ _ _ H) m Hm) as Hpm. rewrite pins_cons in *. by rewrite Hp.
  - eapply rest_stages; [exact Hs'| |].
    + intros st0 m Hin Ho Hz. destruct (decide (m = n)) as [->|Hne]; [|by rewrite Hp].
      destruct Hpin as [Hle|Hno]; [pose proof (pin_range n st'); lia|]. by destruct (Hno st0 Hin).
    + intros m. destruct (Hnx m) as [?|(-> & Ho & Hz)]; [by left|]. right. split; [done|]. intros st0 Hin Hm.
      apply list_elem_of_fmap in Hm as (r & Er & Hr0). rewrite owners_cons, Ho in E. apply Permutation_cons_inv in E.
      destruct (owner_unique _ _ _ _ _ _ n b R H) as (_ & _ & Hu); [by rewrite owners_cons, Ho, E|].
      rewrite <- E in Hu. apply (proj1 (Forall_forall _ _) Hu r); [by eapply owned_in_owners|done].
Qed.

(** What the owner of a node knows of its count; a thread that owns it besides its references. *)
Lemma own_count nodes s st rest hd chain pend n b :
  list_ok nodes s (st :: rest) hd chain pend -> owned st = [(n, b)] ->
  owners (st :: rest) hd chain pend ≡ₚ (n, b) :: owners rest hd chain pend /\ freeListRefs s n = b + pins (st :: rest) n /\
  n ∉ chain /\ n ∈ nodes.
Proof.
  intros H Ho. assert (owners (st :: rest) hd chain pend ≡ₚ (n, b) :: owners rest hd chain pend) as E by (by rewrite owners_cons, Ho).
  destruct (owner_unique _ _ _ _ _ _ _ _ _ H E) as (Hin & Hc & Hu). split_and!; try done. intros Hch.
  apply (proj1 (Forall_forall _ _) Hu (n, 1)); [|done]. unfold owners. rewrite !elem_of_app. right. right. left.
  by apply (list_elem_of_fmap_2 (fun m => (m, 1))).
Qed.

Lemma put_same {X} (f : nat -> X) n x : put f n x n = x.
Proof. unfold put. by rewrite decide_True. Qed.
Lemma put_other {X} (f : nat -> X) n x m : m <> n -> put f n x m = f m.
Proof. intros H. unfold put. by rewrite decide_False. Qed.

Lemma chained_put next n x h chain : n ∉ chain -> chained next h chain -> chained (put next n x) h chain.
Proof.
  revert h. induction chain as [|m chain IH]; intros h Hn; [done|]. simpl. intros [-> Hc]. split; [done|].
  rewrite put_other by (intros ->; apply Hn; by left). apply IH; [|done]. intros Hin. apply Hn. by right.
Qed.

Lemma chained_head nodes s ths hd chain pend : list_ok nodes s ths hd chain pend -> in_nodes nodes (freeListHead s).
Proof.
  intros H. pose proof (li_chain _ _ _ _ _ _ H) as Hc. destruct chain as [|n chain]; [by rewrite Hc|]. destruct Hc as [-> _].
  simpl. rewrite <- (li_nodes _ _ _ _ _ _ H). apply list_elem_of_fmap. exists (n, 1). split; [done|].
  unfold owners. rewrite !elem_of_app. right. right. left. by left.
Qed.

Lemma loop_parts nodes ths s h : in_nodes nodes h ->
  owned (loop h) = [] /\ (forall n, pin n (loop h) = 0) /\ stage_ok nodes ths s (loop h) /\ (forall n, loop h <> Finished (Some n)).
Proof. intros Hh. destruct h; simpl; done. Qed.
Lemma resume_parts nodes ths s k : cont_ok nodes k ->
  owned (resume k) = [] /\ (forall n, pin n (resume k) = 0) /\ stage_ok nodes ths s (resume k) /\ (forall n, resume k <> Finished (Some n)).
Proof. intros Hk. destruct k; simpl; [done|]. by apply loop_parts. Qed.

(** The bases of the counts. *)
Lemma owned_base st r : r ∈ owned st -> r.2 = 0 \/ r.2 = 1 \/ r.2 = 2 \/ r.2 = SHOULD_BE_ON_FREELIST.
Proof. destruct st; simpl; intros Hr; try (by apply not_elem_of_nil in Hr); apply list_elem_of_singleton in Hr as ->; simpl; tauto. Qed.

Lemma owner_cases ths hd chain pend r : r ∈ owners ths hd chain pend ->
  r.2 = 0 \/ r.2 = 1 \/ r.2 = 2 \/ (r.2 = SHOULD_BE_ON_FREELIST /\ (r.1 ∈ pend \/ exists st, st ∈ ths /\ r ∈ owned st)).
Proof.
  unfold owners. rewrite !elem_of_app, elem_of_concat, !list_elem_of_fmap.
  intros [(n & -> & _)|[(l & Hr & (st & -> & Hst)%list_elem_of_fmap)|[(n & -> & _)|(n & -> & Hn)]]]; simpl; [tauto| |tauto|].
  - destruct (owned_base st r Hr) as [?|[?|[?|?]]]; [tauto..|]. do 3 right. split; [done|]. right. by exists st.
  - do 3 right. split; [done|]. by left.
Qed.

Lemma pend_base nodes s ths hd chain pend n b R :
  list_ok nodes s ths hd chain pend -> owners ths hd chain pend ≡ₚ (n, b) :: R -> n ∈ pend -> b = SHOULD_BE_ON_FREELIST.
Proof.
  intros H E Hn. destruct (owner_unique _ _ _ _ _ _ _ _ _ H E) as (_ & _ & Hu).
  assert ((n, SHOULD_BE_ON_FREELIST) ∈ (n, b) :: R) as Hin.
  { rewrite <- E. unfold owners. rewrite !elem_of_app. right. right. right.
    by apply (list_elem_of_fmap_2 (fun m => (m, SHOULD_BE_ON_FREELIST))). }
  apply elem_of_cons in Hin as [[= <-]|Hin]; [done|]. by destruct (proj1 (Forall_forall _ _) Hu _ Hin).
Qed.

(** Nobody refers to a node a thread is about to put on the list. *)
Lemma about_to_add nodes s ths hd chain pend st n :
  list_ok nodes s ths hd chain pend -> st ∈ ths -> (n, SHOULD_BE_ON_FREELIST) ∈ owned st -> pins ths n = 0.
Proof.
  intros H Hin Ho. pose proof (proj1 (Forall_forall _ _) (li_stages _ _ _ _ _ _ H) st Hin) as Hst.
  destruct st; simpl in Ho; try (by apply not_elem_of_nil in Ho); apply list_elem_of_singleton in Ho; try discriminate Ho;
    injection Ho as <-; apply Hst.
Qed.

(** ** The steps *)

Section Steps.
Context (nodes : list nat) (s : FreeList) (rest : list list_stage) (hd chain pend : list nat).

(** Fewer threads than the count has room for. *)
Definition few (ths : list list_stage) : Prop := Z.of_nat (length ths) < 2 ^ 30.
Definition after (s' : FreeList) (st' : list_stage) : Prop :=
  exists chain' pend', list_ok nodes s' (st' :: rest)
    (match st' with Finished (Some n) => n :: hd | _ => hd end) chain' pend'.

Lemma after_quiet st st' :
  list_ok nodes s (st :: rest) hd chain pend -> owned st' = owned st -> (forall n, pin n st' = pin n st) ->
  stage_ok nodes (st' :: rest) s st' -> (forall n, st' <> Finished (Some n)) -> after s st'.
Proof.
  intros H Ho Hp Hst Hf. exists chain, pend. replace (match st' with Finished (Some n) => n :: hd | _ => hd end) with hd.
  - by eapply quiet_step.
  - destruct st' as [| | | | | | | | | | | | |[n|]]; try done. by destruct (Hf n).
Qed.

(** The node the thread owns goes to another owner, or keeps it with another count. *)
Lemma after_owned st st' s' n b b' chain' pend' :
  list_ok nodes s (st :: rest) hd chain pend -> owned st = [(n, b)] -> (forall m, pin m st = 0) -> (forall m, pin m st' = 0) ->
  owners (st' :: rest) (match st' with Finished (Some n) => n :: hd | _ => hd end) chain' pend' ≡ₚ (n, b') :: owners rest hd chain pend ->
  (forall m, m <> n -> freeListRefs s' m = freeListRefs s m) -> freeListRefs s' n = b' + pins rest n ->
  chained (freeListNext s') (freeListHead s') chain' ->
  (pend' = pend \/ (pend' = n :: pend /\ 1 <= pins rest n)) ->
  (forall m, freeListNext s' m = freeListNext s m \/ (m = n /\ pins rest n = 0)) ->
  stage_ok nodes (st' :: rest) s' st' -> after s' st'.
Proof.
  intros H Ho Hp Hp' E' Hr Hn Hch Hpe Hnx Hst. destruct (own_count _ _ _ _ _ _ _ _ _ H Ho) as (E & _ & Hnch & _).
  exists chain', pend'. eapply (step_ok nodes s s' st st' rest hd _ chain chain' pend pend' n b b'); [exact H|exact E|exact E'|done| |by rewrite pins_cons, Hp'|done| | | |done].
  - intros m _. by rewrite Hp, Hp'.
  - intros m Hm. assert (forall m, m ∈ pend -> m <> n) as Hne.
    { intros m0 Hm0 ->. destruct (owner_unique _ _ _ _ _ _ _ _ _ H E) as (_ & _ & Hu).
      apply (proj1 (Forall_forall _ _) Hu (n, SHOULD_BE_ON_FREELIST)); [|done].
      unfold owners. rewrite !elem_of_app. right. right. right. by apply (list_elem_of_fmap_2 (fun m => (m, SHOULD_BE_ON_FREELIST))). }
    destruct Hpe as [->|[-> ?]]; [left; split; [done|by apply Hne]|].
    apply elem_of_cons in Hm as [->|Hm]; [right; split; [done|by rewrite pins_cons, Hp']|left; split; [done|by apply Hne]].
  - left. rewrite Hp, Hp'. done.
  - intros m. destruct (Hnx m) as [?|[-> ?]]; [by left|]. right. split; [done|]. split; [done|by rewrite pins_cons, Hp].
Qed.

Lemma own_range st n b :
  list_ok nodes s (st :: rest) hd chain pend -> few (st :: rest) -> owned st = [(n, b)] -> (forall m, pin m st = 0) ->
  freeListRefs s n = b + pins rest n /\ 0 <= pins rest n < 2 ^ 30 /\ n ∉ chain /\ n ∈ nodes.
Proof.
  intros H Hf Ho Hp. destruct (own_count _ _ _ _ _ _ _ _ _ H Ho) as (_ & Hc & Hn & Hin). rewrite pins_cons, Hp in Hc.
  pose proof (pins_range rest n). unfold few in Hf. simpl in Hf. split_and!; done || lia.
Qed.

Lemma own_stage st : list_ok nodes s (st :: rest) hd chain pend -> stage_ok nodes (st :: rest) s st.
Proof. intros H. pose proof (li_stages _ _ _ _ _ _ H) as Hs. by inversion_clear Hs. Qed.

(** [node->freeListRefs.fetch_add] of [add]. *)
Lemma add_bit_ok n :
  list_ok nodes s (AddBit n :: rest) hd chain pend -> few (AddBit n :: rest) ->
  let '(st', s') := list_step (AddBit n) s in after s' st'.
Proof.
  intros H Hf. destruct (own_range (AddBit n) n 0 H Hf eq_refl (fun _ => eq_refl)) as (Hc & Hpr & Hch & Hin). simpl.
  rewrite Hc, Z.add_0_l, (wrapU_id 32) by (unfold inU, SHOULD_BE_ON_FREELIST; lia).
  destruct (pins rest n =? 0) eqn:E; zbool;
    [apply (after_owned (AddBit n) _ _ n 0 SHOULD_BE_ON_FREELIST chain pend)
    |apply (after_owned (AddBit n) _ _ n 0 SHOULD_BE_ON_FREELIST chain (n :: pend))];
    simpl; rewrite ?put_same; try done; try (intros m Hm; by rewrite put_other); try lia;
    try apply (li_chain _ _ _ _ _ _ H); try (by left).
  - by rewrite owners_cons.
  - rewrite owners_cons. apply owners_pend.
  - right. split; [done|lia].
Qed.

(** [add_knowing_refcount_is_zero]: nobody refers to the node until its count is stored. *)
Lemma store_next_ok n h k :
  list_ok nodes s (StoreNext n h k :: rest) hd chain pend -> few (StoreNext n h k :: rest) ->
  let '(st', s') := list_step (StoreNext n h k) s in after s' st'.
Proof.
  intros H Hf. destruct (own_range (StoreNext n h k) n _ H Hf eq_refl (fun _ => eq_refl)) as (Hc & Hpr & Hch & Hin).
  pose proof (own_stage _ H) as [Hz Hk]. rewrite pins_cons in Hz. simpl in Hz |- *.
  apply (after_owned (StoreNext n h k) _ _ n SHOULD_BE_ON_FREELIST SHOULD_BE_ON_FREELIST chain pend); simpl; try done.
  - by rewrite owners_cons.
  - apply chained_put; [done|apply (li_chain _ _ _ _ _ _ H)].
  - by left.
  - intros m. destruct (decide (m = n)) as [->|]; [right; split; [done|lia]|left; by apply put_other].
  - split_and!; [exact Hz|apply put_same|done].
Qed.

Lemma store_refs_ok n h k :
  list_ok nodes s (StoreRefs n h k :: rest) hd chain pend -> few (StoreRefs n h k :: rest) ->
  let '(st', s') := list_step (StoreRefs n h k) s in after s' st'.
Proof.
  intros H Hf. destruct (own_range (StoreRefs n h k) n _ H Hf eq_refl (fun _ => eq_refl)) as (Hc & Hpr & Hch & Hin).
  pose proof (own_stage _ H) as (Hz & Hn & Hk). rewrite pins_cons in Hz. simpl in Hz |- *.
  apply (after_owned (StoreRefs n h k) _ _ n SHOULD_BE_ON_FREELIST 1 chain pend); simpl; try done.
  - by rewrite owners_cons.
  - intros m Hm. by rewrite put_other.
  - rewrite put_same. lia.
  - apply (li_chain _ _ _ _ _ _ H).
  - by left.
  - by left.
Qed.

Lemma cas_head_ok n h k :
  list_ok nodes s (CasHead n h k :: rest) hd chain pend -> few (CasHead n h k :: rest) ->
  let '(st', s') := list_step (CasHead n h k) s in after s' st'.
Proof.
  intros H Hf. destruct (own_range (CasHead n h k) n _ H Hf eq_refl (fun _ => eq_refl)) as (Hc & Hpr & Hch & Hin).
  pose proof (own_stage _ H) as (Hn & Hk). simpl. destruct (decide (freeListHead s = h)) as [Eh|Eh].
  - destruct (resume_parts nodes (resume k :: rest) (set_head (Some n) s) k Hk) as (R1 & R2 & R3 & R4).
    assert (match resume k with Finished (Some n) => n :: hd | _ => hd end = hd) as Ehd
      by (destruct (resume k) as [| | | | | | | | | | | | |[m|]]; try done; by destruct (R4 m)).
    apply (after_owned (CasHead n h k) _ _ n 1 1 (n :: chain) pend); rewrite ?Ehd; try done.
    + rewrite owners_cons, R1. apply owners_chain.
    + simpl. split; [done|]. rewrite Hn, <- Eh. apply (li_chain _ _ _ _ _ _ H).
    + by left.
    + by left.
  - by apply (after_quiet (CasHead n h k)).
Qed.

Lemma retreat_ok n h k :
  list_ok nodes s (Retreat n h k :: rest) hd chain pend -> few (Retreat n h k :: rest) ->
  let '(st', s') := list_step (Retreat n h k) s in after s' st'.
Proof.
  intros H Hf. destruct (own_range (Retreat n h k) n _ H Hf eq_refl (fun _ => eq_refl)) as (Hc & Hpr & Hch & Hin).
  pose proof (own_stage _ H) as Hk. simpl. rewrite Hc.
  assert (u32 (1 + pins rest n + (SHOULD_BE_ON_FREELIST - 1)) = SHOULD_BE_ON_FREELIST + pins rest n) as ->
    by (rewrite wrapU_id; [lia|unfold inU, SHOULD_BE_ON_FREELIST; lia]).
  destruct (1 + pins rest n =? 1) eqn:E; zbool.
  - apply (after_owned (Retreat n h k) _ _ n 1 SHOULD_BE_ON_FREELIST chain pend); simpl; try done.
    + by rewrite owners_cons.
    + intros m Hm. by rewrite put_other.
    + by rewrite put_same.
    + apply (li_chain _ _ _ _ _ _ H).
    + by left.
    + by left.
    + split; [lia|done].
  - destruct (resume_parts nodes (resume k :: rest) (set_refs n (SHOULD_BE_ON_FREELIST + pins rest n) s) k Hk) as (R1 & R2 & R3 & R4).
    assert (match resume k with Finished (Some n) => n :: hd | _ => hd end = hd) as Ehd
      by (destruct (resume k) as [| | | | | | | | | | | | |[m|]]; try done; by destruct (R4 m)).
    apply (after_owned (Retreat n h k) _ _ n 1 SHOULD_BE_ON_FREELIST chain (n :: pend)); rewrite ?Ehd; try done.
    + rewrite owners_cons, R1. apply owners_pend.
    + intros m Hm. simpl. by rewrite put_other.
    + simpl. by rewrite put_same.
    + apply (li_chain _ _ _ _ _ _ H).
    + right. split; [done|lia].
    + by left.
Qed.

(** [try_get] took the node off: the list's reference and its own go. *)
Lemma drop_two_ok n :
  list_ok nodes s (DropTwo n :: rest) hd chain pend -> few (DropTwo n :: rest) ->
  let '(st', s') := list_step (DropTwo n) s in after s' st'.
Proof.
  intros H Hf. destruct (own_range (DropTwo n) n _ H Hf eq_refl (fun _ => eq_refl)) as (Hc & Hpr & Hch & Hin). simpl.
  rewrite Hc. rewrite (wrapU_id 32) by (unfold inU; lia).
  apply (after_owned (DropTwo n) _ _ n 2 0 chain pend); simpl; try done.
  - intros m Hm. by rewrite put_other.
  - rewrite put_same. lia.
  - apply (li_chain _ _ _ _ _ _ H).
  - by left.
  - by left.
Qed.

(** A reference taken to a node whose count is not zero: it is not about to be put on the list. *)
Lemma cas_refs_ok h r :
  list_ok nodes s (CasRefs h r :: rest) hd chain pend -> few (CasRefs h r :: rest) ->
  let '(st', s') := list_step (CasRefs h r) s in after s' st'.
Proof.
  intros H Hf. pose proof (own_stage _ H) as [Hh Hr]. simpl. destruct (freeListRefs s h =? r) eqn:E; zbool.
  2: { apply (after_quiet (CasRefs h r)); done. }
  destruct (node_owner _ _ _ _ _ _ _ H Hh) as (b & R & HR). destruct (owner_unique _ _ _ _ _ _ _ _ _ H HR) as (_ & Hc & _).
  assert (forall st0, st0 ∈ rest -> (h, SHOULD_BE_ON_FREELIST) ∉ owned st0) as Hno.
  { intros st0 Hin Ho. pose proof (about_to_add _ _ _ _ _ _ st0 h H ltac:(by right) Ho) as Hz.
    pose proof (owned_in_owners st0 (CasRefs h r :: rest) _ hd chain pend ltac:(by right) Ho) as Hio.
    pose proof (proj1 (Forall_forall _ _) (li_counts _ _ _ _ _ _ H) _ Hio) as Hs. cbn [fst snd] in Hs.
    rewrite Hz in Hs. apply Hr. rewrite <- E, Hs. done. }
  pose proof (owner_cases (CasRefs h r :: rest) hd chain pend (h, b) ltac:(rewrite HR; by left)) as Hb. simpl in Hb.
  assert (0 <= b <= SHOULD_BE_ON_FREELIST) as Hbr by (unfold SHOULD_BE_ON_FREELIST in *; lia).
  pose proof (pins_range rest h) as Hpr. rewrite pins_cons in Hc. simpl in Hc.
  exists chain, pend. apply (step_ok nodes s _ _ _ rest hd hd chain chain pend pend h b b R H HR).
  - rewrite owners_cons in HR |- *. exact HR.
  - intros m Hm. simpl. by rewrite put_other.
  - intros m Hm. simpl. by rewrite decide_False.
  - rewrite pins_cons. simpl. rewrite put_same, decide_True by done. unfold few in Hf. simpl in Hf.
    rewrite wrapU_id; [lia|unfold inU, SHOULD_BE_ON_FREELIST in *; lia].
  - apply (li_chain _ _ _ _ _ _ H).
  - intros m Hm. destruct (decide (m = h)) as [->|]; [right|by left]. split; [done|].
    rewrite pins_cons. simpl. rewrite decide_True by done. lia.
  - by right.
  - by left.
  - done.
Qed.

(** The swap of the head: the node is still the first, and its next has not changed since. *)
Lemma cas_next_ok h nx :
  list_ok nodes s (CasNext h nx :: rest) hd chain pend -> few (CasNext h nx :: rest) ->
  let '(st', s') := list_step (CasNext h nx) s in after s' st'.
Proof.
  intros H Hf. pose proof (own_stage _ H) as [Hh Hn]. simpl. destruct (decide (freeListHead s = Some h)) as [E|E].
  2: { apply (after_quiet (CasNext h nx)); try done. split; [done|by eapply chained_head]. }
  pose proof (li_chain _ _ _ _ _ _ H) as Hc. destruct chain as [|n chain']; [simpl in Hc; congruence|].
  simpl in Hc. destruct Hc as [Eh Hc]. assert (n = h) as -> by congruence.
  assert (owners (CasNext h nx :: rest) hd (h :: chain') pend ≡ₚ (h, 1) :: owners rest hd chain' pend) as HR
    by (rewrite owners_cons; apply owners_chain).
  destruct (owner_unique _ _ _ _ _ _ _ _ _ H HR) as (_ & Hcn & Hu). rewrite pins_cons in Hcn. simpl in Hcn.
  rewrite decide_True in Hcn by done.
  exists chain', pend. apply (step_ok nodes s _ _ _ rest hd hd (h :: chain') chain' pend pend h 1 2 _ H HR).
  - by rewrite owners_cons.
  - done.
  - intros m Hm. simpl. by rewrite decide_False.
  - rewrite pins_cons. simpl. lia.
  - simpl. by rewrite <- Hn.
  - intros m Hm. left. split; [done|]. intros ->.
    apply (proj1 (Forall_forall _ _) Hu (h, SHOULD_BE_ON_FREELIST)); [|done].
    unfold owners. rewrite !elem_of_app. right. right. right. by apply (list_elem_of_fmap_2 (fun m => (m, SHOULD_BE_ON_FREELIST))).
  - left. simpl. case_decide; lia.
  - by left.
  - done.
Qed.

(** A reference dropped after the head had moved; the last one of a node that nobody put back
    makes it this thread's to put back. *)
Lemma drop_one_ok h cur :
  list_ok nodes s (DropOne h cur :: rest) hd chain pend -> few (DropOne h cur :: rest) ->
  let '(st', s') := list_step (DropOne h cur) s in after s' st'.
Proof.
  intros H Hf. pose proof (own_stage _ H) as [Hh Hcur]. simpl. pose proof (pins_range rest h) as Hpr. unfold few in Hf. simpl in Hf.
  destruct (node_owner _ _ _ _ _ _ _ H Hh) as (b & R & HR). destruct (owner_unique _ _ _ _ _ _ _ _ _ H HR) as (_ & Hc & Hu).
  pose proof (owner_cases (DropOne h cur :: rest) hd chain pend (h, b) ltac:(rewrite HR; by left)) as Hb. cbn [fst snd] in Hb.
  rewrite pins_cons in Hc. simpl in Hc. rewrite decide_True in Hc by done.
  assert (u32 (freeListRefs s h - 1) = b + pins rest h) as -> by (rewrite wrapU_id; unfold inU, SHOULD_BE_ON_FREELIST in *; lia).
  assert (b = SHOULD_BE_ON_FREELIST -> h ∈ pend) as Hpd.
  { intros Eb. destruct Hb as [Hb|[Hb|[Hb|[_ [Hp|(st & Hin & Ho)]]]]]; try (unfold SHOULD_BE_ON_FREELIST in *; lia); [done|].
    rewrite Eb in Ho. pose proof (about_to_add _ _ _ _ _ _ _ _ H Hin Ho) as Hz. rewrite pins_cons in Hz. simpl in Hz.
    rewrite decide_True in Hz by done. lia. }
  destruct (loop_parts nodes (loop cur :: rest) (set_refs h (b + pins rest h) s) cur Hcur) as (L1 & L2 & L3 & L4).
  destruct (freeListRefs s h =? SHOULD_BE_ON_FREELIST + 1) eqn:E; zbool.
  - assert (b = SHOULD_BE_ON_FREELIST /\ pins rest h = 0) as [-> Hz] by (unfold SHOULD_BE_ON_FREELIST in *; lia).
    apply elem_of_Permutation in Hpd as [pend' Hpend]; [|done].
    assert (owners (DropOne h cur :: rest) hd chain pend ≡ₚ (h, SHOULD_BE_ON_FREELIST) :: owners rest hd chain pend') as HR'.
    { rewrite (owners_perm _ _ _ _ chain _ _ (reflexivity _) (reflexivity _) Hpend). rewrite owners_cons. apply owners_pend. }
    exists chain, pend'. apply (step_ok nodes s _ _ _ rest hd hd chain chain pend pend' h _ SHOULD_BE_ON_FREELIST _ H HR').
    + by rewrite owners_cons.
    + intros m Hm. simpl. by rewrite put_other.
    + intros m Hm. simpl. by rewrite decide_False.
    + rewrite pins_cons. simpl. by rewrite put_same.
    + apply (li_chain _ _ _ _ _ _ H).
    + intros m Hm. left. split; [rewrite Hpend; by right|]. intros ->. destruct (owner_unique _ _ _ _ _ _ _ _ _ H HR') as (_ & _ & Hu').
      apply (proj1 (Forall_forall _ _) Hu' (h, SHOULD_BE_ON_FREELIST)); [|done].
      unfold owners. rewrite !elem_of_app. right. right. right. by apply (list_elem_of_fmap_2 (fun m => (m, SHOULD_BE_ON_FREELIST))).
    + left. simpl. case_decide; lia.
    + by left.
    + split; [exact Hz|done].
  - exists chain, pend. replace (match loop cur with Finished (Some n) => n :: hd | _ => hd end) with hd
      by (destruct (loop cur) as [| | | | | | | | | | | | |[m|]]; try done; by destruct (L4 m)).
    apply (step_ok nodes s _ _ _ rest hd hd chain chain pend pend h b b R H HR).
    + rewrite owners_cons in HR |- *. by rewrite L1.
    + intros m Hm. simpl. by rewrite put_other.
    + intros m Hm. rewrite L2. simpl. by rewrite decide_False.
    + rewrite pins_cons, L2. simpl. by rewrite put_same.
    + apply (li_chain _ _ _ _ _ _ H).
    + intros m Hm. destruct (decide (m = h)) as [->|]; [right|by left]. split; [done|]. rewrite pins_cons, L2.
      destruct (decide (pins rest h = 0)); [|lia]. exfalso.
      pose proof (pend_base _ _ _ _ _ _ _ _ _ H HR Hm). lia.
    + left. rewrite L2. apply pin_range.
    + by left.
    + exact L3.
Qed.
End Steps.

Definition is_finished (st : list_stage) : bool := match st with Finished _ => true | _ => false end.

Lemma list_step_ok nodes s st rest hd chain pend :
  list_ok nodes s (st :: rest) hd chain pend -> few (st :: rest) -> is_finished st = false ->
  let '(st', s') := list_step st s in after nodes rest hd s' st'.
Proof.
  intros H Hf Hn. pose proof (own_stage _ _ _ _ _ _ _ H) as Hst. destruct st; try done.
  - by eapply add_bit_ok.
  - simpl. eapply (after_quiet nodes s rest hd chain pend (LoadHead node k)); try done.
  - by eapply store_next_ok.
  - by eapply store_refs_ok.
  - by eapply cas_head_ok.
  - by eapply retreat_ok.
  - simpl. destruct (loop_parts nodes (loop (freeListHead s) :: rest) s _ (chained_head _ _ _ _ _ _ H)) as (L1 & L2 & L3 & L4).
    by eapply (after_quiet nodes s rest hd chain pend GetHead).
  - simpl. destruct (_ =? 0) eqn:E; zbool; by eapply (after_quiet nodes s rest hd chain pend (LoadRefs head)).
  - by eapply cas_refs_ok.
  - simpl. by eapply (after_quiet nodes s rest hd chain pend (LoadNext head)).
  - by eapply cas_next_ok.
  - by eapply drop_two_ok.
  - by eapply drop_one_ok.
Qed.

(** ** Runs *)

Definition world_ok (nodes : list nat) (w : ListWorld) : Prop :=
  exists chain pend, list_ok nodes (shared w) (workers w) (held w) chain pend.

Lemma start_ok nodes s st ths hd hd' chain pend :
  list_ok nodes s ths hd chain pend -> owners (st :: ths) hd' chain pend ≡ₚ owners ths hd chain pend ->
  (forall n, pin n st = 0) -> stage_ok nodes (st :: ths) s st -> list_ok nodes s (st :: ths) hd' chain pend.
Proof.
  intros [H1 H2 H3 H4 H5 H6] Eo Hp Hst. assert (forall n, pins (st :: ths) n = pins ths n) as Hps by (intros; by rewrite pins_cons, Hp).
  split; [by rewrite Eo|done|done| | |].
  - rewrite Eo. eapply Forall_impl; [exact H4|]. intros r Hr. by rewrite Hps.
  - eapply Forall_impl; [exact H5|]. intros n Hn. by rewrite Hps.
  - constructor; [done|]. eapply Forall_impl; [exact H6|]. intros st0. unfold stage_ok. destruct st0; by rewrite ?Hps.
Qed.

Lemma fst_base (b : Z) (l : list nat) : ((fun n => (n, b)) <$> l).*1 = l.
Proof. induction l as [|n l IH]; [done|]. simpl. by f_equal. Qed.

Lemma filter_out (l : list nat) n : NoDup l -> n ∈ l -> l ≡ₚ n :: filter (fun m => m <> n) l.
Proof.
  induction l as [|m l IH]; intros Hd Hin; [by apply not_elem_of_nil in Hin|]. inversion_clear Hd as [|? ? Hm Hd'].
  destruct (decide (m = n)) as [->|Hne].
  - rewrite filter_cons_False by tauto. f_equiv. clear IH Hin Hd'. induction l as [|x l IH]; [done|].
    rewrite filter_cons_True by (intros ->; apply Hm; by left). f_equiv. apply IH. intros Hin. apply Hm. by right.
  - rewrite filter_cons_True by done. apply elem_of_cons in Hin as [->|Hin]; [done|]. rewrite (IH Hd' Hin) at 1. apply perm_swap.
Qed.

Lemma list_exec_ok nodes w a w' :
  world_ok nodes w -> Z.of_nat (length (workers w)) < 2 ^ 30 -> list_exec a w = Some w' ->
  world_ok nodes w' /\ Z.of_nat (length (workers w')) <= Z.of_nat (length (workers w)) + match a with ListStep _ => 0 | _ => 1 end.
Proof.
  intros (chain & pend & H) Hf E. destruct a as [n| |i]; simpl in E.
  - destruct (decide (n ∈ held w)) as [Hn|]; [|discriminate]. injection E as <-. split; [|simpl; lia]. exists chain, pend. simpl.
    assert (NoDup (held w)) as Hd.
    { pose proof (li_nodup _ _ _ _ _ _ H) as Hd. rewrite <- (li_nodes _ _ _ _ _ _ H) in Hd. unfold owners in Hd.
      rewrite fmap_app in Hd. apply NoDup_app in Hd as [Hd _].
      by rewrite fst_base in Hd. }
    eapply start_ok; [exact H| |done|done]. rewrite owners_cons. simpl.
    rewrite (owners_perm (workers w) (workers w) (held w) _ chain pend pend (reflexivity _) (filter_out _ _ Hd Hn) (reflexivity _)).
    by rewrite owners_held.
  - injection E as <-. split; [|simpl; lia]. exists chain, pend. simpl. eapply start_ok; [exact H| |done|done]. by rewrite owners_cons.
  - destruct (workers w !! i) as [st|] eqn:Ei; [|discriminate].
    assert (is_finished st = false) as Hfin by (by destruct st).
    assert ((let '(st', s') := list_step st (shared w) in
      Some (mkListWorld s' (<[i := st']> (workers w)) match st' with Finished (Some node) => node :: held w | _ => held w end)) = Some w') as E'
      by (destruct st; done). clear E.
    pose proof (delete_Permutation _ _ _ Ei) as Hp. pose proof (list_ok_perm _ _ _ _ _ _ _ _ _ Hp (reflexivity _) (reflexivity _) H) as H'.
    assert (few (st :: delete i (workers w))) as Hfew by (unfold few; by rewrite <- Hp).
    pose proof (list_step_ok _ _ _ _ _ _ _ H' Hfew Hfin) as Hs. destruct (list_step st (shared w)) as [st' s']. injection E' as <-.
    destruct Hs as (chain' & pend' & Hs). split; [|simpl; rewrite length_insert; lia]. exists chain', pend'. simpl.
    eapply list_ok_perm; [| | |exact Hs]; [|done|done]. symmetry. eapply insert_perm. exact Ei.
Qed.

Definition starts (a : list_action) : Z := match a with ListStep _ => 0 | _ => 1 end.

Lemma list_run_ok nodes l w w' :
  world_ok nodes w -> Z.of_nat (length (workers w)) + zsum starts l < 2 ^ 30 -> list_run l w = Some w' ->
  world_ok nodes w' /\ Z.of_nat (length (workers w')) < 2 ^ 30.
Proof.
  revert w. induction l as [|a l IH]; intros w H Hf E; simpl in E; [injection E as <-; split; [done|simpl in Hf; lia]|].
  destruct (list_exec a w) as [w1|] eqn:Ea; [|discriminate]. rewrite zsum_cons in Hf.
  assert (0 <= zsum starts l) by (apply zsum_nonneg; intros [] _; simpl; lia). assert (0 <= starts a) by (destruct a; simpl; lia).
  destruct (list_exec_ok nodes w a w1 H ltac:(lia) Ea) as [Hw1 Hlen]. apply (IH w1 Hw1); [|done].
  fold (starts a) in Hlen. lia.
Qed.

Lemma new_nodes_ok n : world_ok (seq 0 n) (new_nodes n).
Proof.
  exists [], []. split; simpl; try done.
  - unfold owners. simpl. rewrite app_nil_r. by rewrite fst_base.
  - apply NoDup_seq.
  - unfold owners. simpl. rewrite app_nil_r. apply Forall_forall. intros r (m & -> & _)%list_elem_of_fmap. done.
Qed.

(** The node a thread owns. *)
Definition in_hand (st : list_stage) : list nat := (owned st).*1.

Lemma owners_nodes ths hd chain pend : (owners ths hd chain pend).*1 = hd ++ concat (in_hand <$> ths) ++ chain ++ pend.
Proof.
  assert ((concat (owned <$> ths)).*1 = concat (in_hand <$> ths)) as E.
  { induction ths as [|st ths IH]; [done|]. simpl. rewrite fmap_app. by f_equal. }
  unfold owners. by rewrite !fmap_app, !fst_base, E.
Qed.

Lemma finished_idle ths : Forall is_finished ths -> concat (in_hand <$> ths) = [] /\ forall n, pins ths n = 0.
Proof.
  induction 1 as [|st ths Hst _ [I1 I2]]; [done|]. by destruct st.
Qed.

(** A [try_get] alone. *)
Lemma lone_get nodes s ths hd chain :
  list_ok nodes s ths hd chain [] -> Forall is_finished ths ->
  exists k w', list_run (replicate k (ListStep 0)) (mkListWorld s (GetHead :: ths) hd) = Some w' /\
    head (workers w') = Some (Finished (head chain)).
Proof.
  intros H Hf. destruct (finished_idle ths Hf) as [_ Hz]. pose proof (li_chain _ _ _ _ _ _ H) as Hc.
  destruct chain as [|n chain]; simpl in Hc.
  - exists 1%nat. eexists. simpl. rewrite Hc. split; reflexivity.
  - destruct Hc as [Hh _].
    destruct (owner_unique _ _ _ _ _ _ _ _ _ H (owners_chain ths hd n chain [])) as (_ & Hr & _). rewrite Hz in Hr.
    exists 6%nat. simpl. rewrite Hh. simpl. rewrite Hr. simpl. rewrite Hr. simpl. rewrite Hh, decide_True by done. simpl.
    eexists. split; reflexivity.
Qed.

(** C25: the free list under every interleaving of fewer than 2^30 calls of [add] (by whoever
    holds the node) and [try_get]: every node is in exactly one place, with a user, in the hand
    of one thread, on the list, or in limbo while some thread that refers to it is bound to put
    it back; so none is given out twice (no ABA) and none is lost.  When all calls have returned,
    every node is with a user or on the list, and a [try_get] then takes the first one.  The
    assertion of [try_get], that the node taken does not have its top bit set, holds. *)
Theorem free_list_correct l n w :
  zsum starts l < 2 ^ 30 -> list_run l (new_nodes n) = Some w ->
  exists chain limbo, chained (freeListNext (shared w)) (freeListHead (shared w)) chain /\
    held w ++ concat (in_hand <$> workers w) ++ chain ++ limbo ≡ₚ seq 0 n /\
    (forall m, m ∈ limbo -> exists st, st ∈ workers w /\ pin m st = 1) /\
    (forall h, DropTwo h ∈ workers w -> Z.land (freeListRefs (shared w) h) SHOULD_BE_ON_FREELIST = 0) /\
    (Forall is_finished (workers w) ->
       held w ++ chain ≡ₚ seq 0 n /\
       exists k w', list_run (StartGet :: replicate k (ListStep 0)) w = Some w' /\ head (workers w') = Some (Finished (head chain))).
Proof.
  intros Hl E. destruct (list_run_ok (seq 0 n) l _ w (new_nodes_ok n) ltac:(simpl; lia) E) as [(chain & limbo & H) Hlen].
  exists chain, limbo. pose proof (li_nodes _ _ _ _ _ _ H) as Hn. rewrite owners_nodes in Hn. split_and!.
  - apply (li_chain _ _ _ _ _ _ H).
  - exact Hn.
  - intros m Hm. assert (1 <= pins (workers w) m) as Hp by exact (proj1 (Forall_forall _ _) (li_pend _ _ _ _ _ _ H) m Hm).
    destruct (decide (Exists (fun st => pin m st = 1) (workers w))) as [Hex|Hno]; [by apply Exists_exists in Hex|].
    exfalso. unfold pins in Hp. rewrite (zsum_zero (pin m)) in Hp; [lia|]. intros st Hst. pose proof (pin_range m st).
    destruct (decide (pin m st = 1)); [|lia]. exfalso. apply Hno, Exists_exists. by exists st.
  - intros h Hh. pose proof (owned_in_owners (DropTwo h) (workers w) (h, 2) (held w) chain limbo Hh ltac:(by left)) as Ho.
    assert (freeListRefs (shared w) h = 2 + pins (workers w) h) as -> by exact (proj1 (Forall_forall _ _) (li_counts _ _ _ _ _ _ H) _ Ho).
    pose proof (pins_range (workers w) h). change SHOULD_BE_ON_FREELIST with (2 ^ 31). apply Z.bits_inj'. intros i Hi.
    rewrite Z.land_spec, Z.bits_0, Z.pow2_bits_eqb by lia. destruct (31 =? i) eqn:Ei; [|apply andb_false_r]. zbool. subst i.
    rewrite Z.bits_above_log2; [done|lia|apply Z.log2_lt_pow2; lia].
  - intros Hf. destruct (finished_idle _ Hf) as [Hi Hz]. assert (limbo = []) as ->.
    { destruct limbo as [|m limbo]; [done|]. pose proof (li_pend _ _ _ _ _ _ H) as Hp. inversion_clear Hp as [|? ? Hm _].
      rewrite Hz in Hm. lia. }
    split; [by rewrite Hi, app_nil_r in Hn|]. destruct (lone_get _ _ _ _ _ H Hf) as (k & w' & R & Hd). exists k, w'. split; [|done].
    exact R.
Qed.

(** A [try_get] refers to node 1 and is held up; another takes 1 and 0, and 1 is added back; the
    first finds that the head changed, and puts node 1 back itself. *)
Definition aba_run : list list_action :=
  [StartAdd 0] ++ replicate 5 (ListStep 0) ++ [StartAdd 1] ++ replicate 5 (ListStep 0) ++
  [StartGet] ++ replicate 4 (ListStep 0) ++ [StartGet] ++ replicate 6 (ListStep 0) ++ [StartGet] ++ replicate 6 (ListStep 0) ++
  [StartAdd 1; ListStep 0] ++ replicate 6 (ListStep 3).

Lemma free_list_correct_witness :
  exists w, list_run aba_run (new_nodes 3) = Some w /\ held w = [0%nat; 2%nat] /\
    exists chain, held w ++ chain ≡ₚ seq 0 3 /\
      exists k w', list_run (StartGet :: replicate k (ListStep 0)) w = Some w' /\ head (workers w') = Some (Finished (head chain)).
Proof.
  assert (match list_run aba_run (new_nodes 3) with
          | Some w => held w = [0%nat; 2%nat] /\ Forall is_finished (workers w) | None => False end) as Hw
    by (vm_compute; repeat constructor).
  destruct (list_run aba_run (new_nodes 3)) as [w|] eqn:E; [|destruct Hw]. destruct Hw as [Hh Hf].
  destruct (free_list_correct aba_run 3 w ltac:(vm_compute; reflexivity) E) as (chain & limbo & _ & _ & _ & _ & Hq).
  exists w. split; [reflexivity|]. split; [exact Hh|]. exists chain. exact (Hq Hf).
Defined.
