(* ===== verification/BlockPool.v ===== *)
(** * Where the blocks of the lock-free queue come from

    [requisition_block], [add_block_to_free_list] and the initial pool of
    [src/include/concurrentqueue.h]: a producer that needs a block takes the next one of the
    array made with the queue, else one of the free list, else a new one.  A block that was
    emptied goes back: to the free list if it is of the array, to the heap if not
    ([RECYCLE_ALLOCATED_BLOCKS] is false).

    A block is a number: those of the array are counted from 0, the others have the numbers that
    the allocator gives them, which it may give again after the block was destroyed.  The free
    list is the one of FreeList.v, so that each atomic access is a step. *)

From S2P Require Import Prelude Circular FreeList.
From stdpp Require Import base list.
From Stdlib Require Import ZArith Lia.
Local Open Scope Z_scope.

Definition RECYCLE_ALLOCATED_BLOCKS : bool := false.

Record BlockPool := mkBlockPool {
  initialBlockPoolSize : nat;
  initialBlockPoolIndex : Z;
  freeList : FreeList
}.
Implicit Types (s : BlockPool) (block : nat).

Definition set_index i s : BlockPool := mkBlockPool (initialBlockPoolSize s) i (freeList s).
Definition set_list fl s : BlockPool := mkBlockPool (initialBlockPoolSize s) (initialBlockPoolIndex s) fl.

(** The constructor's number of blocks for a capacity. *)
Definition blocks_for (capacity : Z) : Z :=
  capacity / BLOCK_SIZE + (if Z.land capacity (BLOCK_SIZE - 1) =? 0 then 0 else 1).

(** [memory]: the array could be allocated. *)
Definition populate_initial_block_list (blockCount : nat) (memory : bool) : BlockPool :=
  mkBlockPool (if memory then blockCount else 0) 0 empty_list.

Definition dynamicallyAllocated s block : bool := (initialBlockPoolSize s <=? block)%nat.

(** A call, before each of its accesses. *)
Inductive block_stage :=
| LoadIndex (canAlloc : bool)                              (* initialBlockPoolIndex.load *)
| DrawIndex (canAlloc : bool)                              (* fetch_add *)
| TryGet (canAlloc : bool) (st : list_stage)               (* freeList.try_get *)
| Create
| Requisitioned (canAlloc : bool) (block : option nat)     (* returned *)
| GiveBack block (rest : list nat)                         (* add_block_to_free_list *)
| Adding (st : list_stage) (rest : list nat)               (* freeList.add *)
| GivenBack.                                               (* returned *)

(** [add_blocks_to_free_list]: the blocks that are linked by [next]. *)
Definition give_back (blocks : list nat) : block_stage :=
  match blocks with [] => GivenBack | block :: rest => GiveBack block rest end.

Definition try_get_block_from_initial_pool (canAlloc : bool) s : block_stage * BlockPool :=
  let index := initialBlockPoolIndex s in
  (if index <? Z.of_nat (initialBlockPoolSize s) then Requisitioned canAlloc (Some (Z.to_nat index)) else TryGet canAlloc GetHead,
   set_index (u64 (index + 1)) s).

(** What follows an access of [try_get] in [requisition_block]. *)
Definition got_from_list (canAlloc : bool) (st : list_stage) : block_stage :=
  match st with
  | Finished (Some block) => Requisitioned canAlloc (Some block)
  | Finished None => if canAlloc then Create else Requisitioned canAlloc None
  | _ => TryGet canAlloc st
  end.
Definition given_to_list (st : list_stage) (rest : list nat) : block_stage :=
  match st with Finished _ => give_back rest | _ => Adding st rest end.

(** The state, and the blocks outside the array that live. *)
Definition block_step (st : block_stage) (malloc : option nat) s (heap : list nat) : option (block_stage * BlockPool * list nat) :=
  match st with
  | LoadIndex canAlloc =>
      Some (if Z.of_nat (initialBlockPoolSize s) <=? initialBlockPoolIndex s then TryGet canAlloc GetHead else DrawIndex canAlloc, s, heap)
  | DrawIndex canAlloc => Some (try_get_block_from_initial_pool canAlloc s, heap)
  | TryGet canAlloc lst => let '(lst', fl) := list_step lst (freeList s) in Some (got_from_list canAlloc lst', set_list fl s, heap)
  | Create =>
      match malloc with
      | Some block =>
          if dynamicallyAllocated s block && bool_decide (block ∉ heap)
          then Some (Requisitioned true (Some block), s, block :: heap) else None
      | None => Some (Requisitioned true None, s, heap)
      end
  | GiveBack block rest =>
      if negb RECYCLE_ALLOCATED_BLOCKS && dynamicallyAllocated s block
      then Some (give_back rest, s, filter (fun b => b <> block) heap)
      else Some (Adding (AddBit block) rest, s, heap)
  | Adding lst rest => let '(lst', fl) := list_step lst (freeList s) in Some (given_to_list lst' rest, set_list fl s, heap)
  | Requisitioned _ _ | GivenBack => None
  end.

(** ** Interleavings *)

(** The pool, the calls, the blocks outside the array, and those in the hands of the producers. *)
Record BlockWorld := mkBlockWorld { pool : BlockPool; calls : list block_stage; heap : list nat; taken : list nat }.
Implicit Types (w : BlockWorld).

Inductive block_action :=
| Requisition (canAlloc : bool)
| ReturnBlocks (blocks : list nat)                       (* add_block(s)_to_free_list *)
| BlockStep (i : nat) (malloc : option nat).

Definition block_exec (a : block_action) w : option BlockWorld :=
  match a with
  | Requisition canAlloc => Some (mkBlockWorld (pool w) (LoadIndex canAlloc :: calls w) (heap w) (taken w))
  | ReturnBlocks blocks =>
      if bool_decide (NoDup blocks) && forallb (fun b => bool_decide (b ∈ taken w)) blocks
      then Some (mkBlockWorld (pool w) (give_back blocks :: calls w) (heap w) (filter (fun b => b ∉ blocks) (taken w))) else None
  | BlockStep i malloc =>
      match calls w !! i with
      | None => None
      | Some st =>
          match block_step st malloc (pool w) (heap w) with
          | None => None
          | Some (st', s', heap') =>
              Some (mkBlockWorld s' (<[i := st']> (calls w)) heap'
                (match st' with Requisitioned _ (Some block) => block :: taken w | _ => taken w end))
          end
      end
  end.

Fixpoint block_run (l : list block_action) w : option BlockWorld :=
  match l with
  | [] => Some w
  | a :: l' => match block_exec a w with Some w' => block_run l' w' | None => None end
  end.

(** A new queue. *)
Definition new_pool (blockCount : nat) (memory : bool) : BlockWorld :=
  mkBlockWorld (populate_initial_block_list blockCount memory) [] [] [].

(** An array of one block: it is taken, then a new one; both are given back; then the first. *)
Example block_pool_example :
  match block_run ([Requisition true] ++ replicate 2 (BlockStep 0 None) ++ [Requisition true] ++ replicate 2 (BlockStep 0 None) ++
                   [BlockStep 0 (Some 7%nat); ReturnBlocks [7; 0]%nat] ++ replicate 7 (BlockStep 0 None) ++
                   [Requisition true] ++ replicate 7 (BlockStep 0 None)) (new_pool 1 true)
  with Some w => (head (calls w), heap w, taken w) | None => (None, [], []) end
  = (Some (Requisitioned true (Some 0%nat)), [], [0%nat]).
Proof. vm_compute. reflexivity. Qed.
