(* ===== verification/BlockPoolTheorems.v ===== *)
(** * Every block of the lock-free queue is in one place

    What FreeListTheorems.v shows of the free list, for the list as [requisition_block] and
    [add_block_to_free_list] use it: its nodes are the blocks of the array; those that were not
    drawn yet and those in the hands of the producers are with its users; the others are with
    its threads, the calls that are in the middle of [try_get] or [add]. *)

From S2P Require Import Prelude FreeList FreeListTheorems Circular BlockPool.
From stdpp Require Import base list.
From Stdlib Require Import ZArith Lia.
Local Open Scope Z_scope.

(** ** The invariant *)

Definition on_list (st : block_stage) : option list_stage :=
  match st with TryGet _ lst | Adding lst _ => Some lst | _ => None end.

(** The blocks a call still has to give back. *)
Definition carried (st : block_stage) : list nat :=
  match st with GiveBack block rest => block :: rest | Adding _ rest => rest | _ => [] end.

Definition may_draw (st : block_stage) : Z := match st with LoadIndex _ | DrawIndex _ => 1 | _ => 0 end.

(** The accesses of [add], which gets nothing. *)
Definition adding (lst : list_stage) : Prop :=
  match lst with
  | AddBit _ | LoadHead _ Return | StoreNext _ _ Return | StoreRefs _ _ Return | CasHead _ _ Return | Retreat _ _ Return => True
  | _ => False
  end.
Definition call_ok (st : block_stage) : Prop :=
  match st with TryGet _ lst => is_finished lst = false | Adding lst _ => adding lst | _ => True end.

(** The blocks of the array that were not drawn yet. *)
Definition unused (s : BlockPool) : list nat :=
  seq (Z.to_nat (initialBlockPoolIndex s)) (initialBlockPoolSize s - Z.to_nat (initialBlockPoolIndex s)).

(** The blocks of the producers and of the calls that give them back; those of the array, and the others. *)
Definition users (cs : list block_stage) (tk : list nat) : list nat := tk ++ concat (carried <$> cs).
Definition inside (n : nat) (l : list nat) : list nat := filter (fun b => b < n)%nat l.
Definition beyond (n : nat) (l : list nat) : list nat := filter (fun b => n <= b)%nat l.

Record pool_ok (s : BlockPool) (cs : list block_stage) (hp tk : list nat) : Prop := {
  po_list : exists chain pend, list_ok (seq 0 (initialBlockPoolSize s)) (freeList s) (omap on_list cs)
    (unused s ++ inside (initialBlockPoolSize s) (users cs tk)) chain pend;
  po_heap : hp ≡ₚ beyond (initialBlockPoolSize s) (users cs tk);
  po_nodup : NoDup hp;
  po_index : 0 <= initialBlockPoolIndex s /\ initialBlockPoolIndex s + zsum may_draw cs <= Z.of_nat (length cs);
  po_calls : Forall call_ok cs
}.

#[export] Instance users_perm : Proper ((≡ₚ) ==> (≡ₚ) ==> (≡ₚ)) users.
Proof. intros cs cs' E tk tk' E'. unfold users. by rewrite E, E'. Qed.
#[export] Instance inside_perm n : Proper ((≡ₚ) ==> (≡ₚ)) (inside n).
Proof. intros l l' E. unfold inside. by rewrite E. Qed.
#[export] Instance beyond_perm n : Proper ((≡ₚ) ==> (≡ₚ)) (beyond n).
Proof. intros l l' E. unfold beyond. by rewrite E. Qed.

Lemma omap_perm {X Y} (f : X -> option Y) l l' : l ≡ₚ l' -> omap f l ≡ₚ omap f l'.
Proof.
  induction 1 as [|x l l' _ IH|x y l|l1 l2 l3 _ IH1 _ IH2]; simpl; [done| | |by rewrite IH1].
  - destruct (f x); [by f_equiv|done].
  - destruct (f x), (f y); try done. apply perm_swap.
Qed.

Lemma pool_ok_perm s cs cs' hp hp' tk tk' : cs ≡ₚ cs' -> hp ≡ₚ hp' -> tk ≡ₚ tk' -> pool_ok s cs hp tk -> pool_ok s cs' hp' tk'.
Proof.
  intros E1 E2 E3 [(chain & pend & H1) H2 H3 H4 H5]. split.
  - exists chain, pend. eapply list_ok_perm; [by apply omap_perm| |done|exact H1]. by rewrite E1, E3.
  - by rewrite <- E2, <- E1, <- E3.
  - by rewrite <- E2.
  - by rewrite <- E1.
  - by rewrite <- E1.
Qed.

Lemma users_cons st cs tk : users (st :: cs) tk ≡ₚ carried st ++ users cs tk.
Proof. unfold users. rewrite fmap_cons, concat_cons. apply Permutation_app_swap_app. Qed.
Lemma users_taken cs b tk : users cs (b :: tk) = b :: users cs tk.
Proof. done. Qed.
Lemma carried_give_back blocks : carried (give_back blocks) = blocks.
Proof. by destruct blocks. Qed.
Lemma on_list_give_back blocks : on_list (give_back blocks) = None.
Proof. by destruct blocks. Qed.
Lemma call_ok_give_back blocks : call_ok (give_back blocks).
Proof. by destruct blocks. Qed.
Lemma may_draw_give_back blocks : may_draw (give_back blocks) = 0.
Proof. by destruct blocks. Qed.

Lemma inside_cons_in n b l : (b < n)%nat -> inside n (b :: l) = b :: inside n l.
Proof. intros H. unfold inside. by rewrite filter_cons_True. Qed.
Lemma inside_cons_out n b l : (n <= b)%nat -> inside n (b :: l) = inside n l.
Proof. intros H. unfold inside. rewrite filter_cons_False; [done|lia]. Qed.
Lemma beyond_cons_in n b l : (n <= b)%nat -> beyond n (b :: l) = b :: beyond n l.
Proof. intros H. unfold beyond. by rewrite filter_cons_True. Qed.
Lemma beyond_cons_out n b l : (b < n)%nat -> beyond n (b :: l) = beyond n l.
Proof. intros H. unfold beyond. rewrite filter_cons_False; [done|lia]. Qed.
Lemma inside_beyond n l : inside n l ++ beyond n l ≡ₚ l.
Proof.
  induction l as [|b l IH]; [done|]. destruct (decide (b < n)%nat).
  - rewrite inside_cons_in, beyond_cons_out by done. simpl. by rewrite IH.
  - rewrite inside_cons_out, beyond_cons_in by lia. by rewrite <- Permutation_middle, IH.
Qed.

(** A call that has returned is no thread of the list any more. *)
Lemma drop_finished nodes s r ths hd chain pend :
  list_ok nodes s (Finished r :: ths) hd chain pend -> list_ok nodes s ths hd chain pend.
Proof.
  intros [H1 H2 H3 H4 H5 H6]. assert (forall n, pins (Finished r :: ths) n = pins ths n) as Hp by (intros; by rewrite pins_cons).
  pose proof (owners_cons (Finished r) ths hd chain pend) as Eo. simpl in Eo. inversion_clear H6 as [|? ? _ H6'].
  split; [by rewrite <- Eo|done|done| | |].
  - rewrite <- Eo. eapply Forall_impl; [exact H4|]. intros o Ho. by rewrite <- Hp.
  - eapply Forall_impl; [exact H5|]. intros n Hn. by rewrite <- Hp.
  - eapply Forall_impl; [exact H6'|]. intros st. destruct st; simpl; by rewrite ?Hp.
Qed.

Lemma adding_step lst fl : adding lst -> let '(lst', _) := list_step lst fl in lst' = Finished None \/ adding lst'.
Proof.
  destruct lst; simpl; try done; repeat (match goal with k : cont |- _ => destruct k end; try done); intros _.
  - destruct (_ =? 0); simpl; tauto.
  - tauto.
  - tauto.
  - tauto.
  - destruct (decide _); simpl; tauto.
  - destruct (_ =? 1); simpl; tauto.
Qed.
Lemma adding_busy lst : adding lst -> is_finished lst = false.
Proof. by destruct lst. Qed.

Lemma unused_draw s : 0 <= initialBlockPoolIndex s < Z.of_nat (initialBlockPoolSize s) ->
  unused s = Z.to_nat (initialBlockPoolIndex s) :: unused (set_index (initialBlockPoolIndex s + 1) s).
Proof.
  intros H. unfold unused. simpl. replace (initialBlockPoolSize s - Z.to_nat (initialBlockPoolIndex s))%nat with
    (S (initialBlockPoolSize s - Z.to_nat (initialBlockPoolIndex s + 1))) by lia. simpl. do 2 f_equal. lia.
Qed.
Lemma unused_none s : Z.of_nat (initialBlockPoolSize s) <= initialBlockPoolIndex s -> unused s = [].
Proof. intros H. unfold unused. by replace (initialBlockPoolSize s - Z.to_nat (initialBlockPoolIndex s))%nat with 0%nat by lia. Qed.

(** ** The steps *)

Definition listed (st : block_stage) : list list_stage := match on_list st with Some lst => [lst] | None => [] end.
Lemma omap_listed st cs : omap on_list (st :: cs) = listed st ++ omap on_list cs.
Proof. unfold listed. simpl. by destruct (on_list st). Qed.

Lemma omap_le {X Y} (f : X -> option Y) l : (length (omap f l) <= length l)%nat.
Proof. induction l as [|x l IH]; simpl; [done|]. destruct (f x); simpl; unfold omap in IH; lia. Qed.

Lemma held_lt n fl ths b hd chain pend : list_ok (seq 0 n) fl ths (b :: hd) chain pend -> (b < n)%nat.
Proof.
  intros H. assert (b ∈ seq 0 n) as [_ ?]%elem_of_seq; [|done]. rewrite <- (li_nodes _ _ _ _ _ _ H), owners_held. simpl. by left.
Qed.

Section Steps.
Context (s : BlockPool) (st : block_stage) (R : list block_stage) (hp tk : list nat).
Hypothesis Hok : pool_ok s (st :: R) hp tk.

Local Notation nodes := (seq 0 (initialBlockPoolSize s)).
Local Notation ins := (inside (initialBlockPoolSize s)).
Local Notation bey := (beyond (initialBlockPoolSize s)).

Lemma own_list : exists chain pend,
  list_ok nodes (freeList s) (listed st ++ omap on_list R) (unused s ++ ins (carried st ++ users R tk)) chain pend.
Proof.
  destruct (po_list _ _ _ _ Hok) as (chain & pend & H). exists chain, pend. rewrite omap_listed in H.
  eapply list_ok_perm; [reflexivity| |reflexivity|exact H]. by rewrite users_cons.
Qed.
Lemma own_heap : hp ≡ₚ bey (carried st ++ users R tk).
Proof. rewrite <- users_cons. apply (po_heap _ _ _ _ Hok). Qed.

(** What a step has to show. *)
Lemma pool_step s' st' hp' tk' :
  initialBlockPoolSize s' = initialBlockPoolSize s ->
  (exists chain pend, list_ok nodes (freeList s') (listed st' ++ omap on_list R) (unused s' ++ ins (carried st' ++ users R tk')) chain pend) ->
  hp' ≡ₚ bey (carried st' ++ users R tk') -> NoDup hp' ->
  0 <= initialBlockPoolIndex s' -> initialBlockPoolIndex s' + may_draw st' <= initialBlockPoolIndex s + may_draw st ->
  call_ok st' -> pool_ok s' (st' :: R) hp' tk'.
Proof.
  intros Hs (chain & pend & H) Hh Hn Hi Hd Hc. destruct (po_index _ _ _ _ Hok) as [_ Hsum]. rewrite zsum_cons in Hsum.
  pose proof (po_calls _ _ _ _ Hok) as Hcs. inversion_clear Hcs. split; rewrite ?Hs.
  - exists chain, pend. rewrite omap_listed. eapply list_ok_perm; [reflexivity| |reflexivity|exact H]. by rewrite users_cons.
  - by rewrite users_cons.
  - done.
  - split; [done|]. rewrite zsum_cons. simpl length in *. lia.
  - by constructor.
Qed.

(** A step of the call alone. *)
Lemma quiet_call st' : listed st' = listed st -> carried st' = carried st -> may_draw st' <= may_draw st -> call_ok st' -> pool_ok s (st' :: R) hp tk.
Proof.
  intros E1 E2 Hd Hc. apply pool_step; rewrite ?E1, ?E2; try done.
  - exact own_list.
  - exact own_heap.
  - apply (po_nodup _ _ _ _ Hok).
  - apply (po_index _ _ _ _ Hok).
  - lia.
Qed.

(** The call comes to the list. *)
Lemma enter_list st' lst tk' : listed st = [] -> listed st' = [lst] -> may_draw st' <= may_draw st -> call_ok st' ->
  carried st ++ users R tk ≡ₚ (owned lst).*1 ++ carried st' ++ users R tk' ->
  (owned lst = [] \/ exists b, owned lst = [(b, 0)] /\ (b < initialBlockPoolSize s)%nat) ->
  (forall n, pin n lst = 0) -> (forall ths fl, stage_ok nodes ths fl lst) -> pool_ok s (st' :: R) hp tk'.
Proof.
  intros E1 E2 Hd Hc Hu Ho Hp Hst. pose proof own_heap as Hh. destruct own_list as (chain & pend & H). rewrite Hu in Hh.
  apply pool_step; try done; [| |apply (po_nodup _ _ _ _ Hok)|apply (po_index _ _ _ _ Hok)|lia].
  - exists chain, pend. rewrite E2. rewrite E1 in H. simpl in *. apply (start_ok _ _ _ _ (unused s ++ ins (carried st ++ users R tk))); [done| |done|done].
    rewrite owners_cons. destruct Ho as [Ho|(b & Ho & Hb)].
    + rewrite Ho in *. simpl in *. apply owners_perm; [done| |done]. by rewrite Hu.
    + rewrite Ho in *. simpl in *. rewrite <- owners_held. apply owners_perm; [done| |done].
      rewrite Hu, inside_cons_in by done. by rewrite <- Permutation_middle.
  - destruct Ho as [Ho|(b & Ho & Hb)]; rewrite Ho in Hh; simpl in Hh; [done|]. by rewrite beyond_cons_out in Hh.
Qed.

(** The call leaves the list, with a block or not. *)
Lemma list_call (Hfew : Z.of_nat (length (st :: R)) < 2 ^ 30) lst lst' fl st' tk' :
  listed st = [lst] -> carried st = carried st' -> is_finished lst = false -> list_step lst (freeList s) = (lst', fl) ->
  (is_finished lst' = false /\ listed st' = [lst'] /\ tk' = tk \/
   exists r, lst' = Finished r /\ listed st' = [] /\ tk' = match r with Some b => b :: tk | None => tk end) ->
  may_draw st' <= may_draw st -> call_ok st' -> pool_ok (set_list fl s) (st' :: R) hp tk'.
Proof.
  intros E1 E2 Hb El Hcase Hd Hc. destruct own_list as (chain & pend & H). rewrite E1 in H. simpl in H.
  assert (few (lst :: omap on_list R)) as Hf.
  { unfold few. simpl in *. pose proof (omap_le on_list R). lia. }
  pose proof (list_step_ok _ _ _ _ _ _ _ H Hf Hb) as Ha. rewrite El in Ha. destruct Ha as (chain' & pend' & Ha).
  apply pool_step; try done; [| |apply (po_nodup _ _ _ _ Hok)|apply (po_index _ _ _ _ Hok)|simpl; lia]; rewrite <- E2.
  - exists chain', pend'. simpl. destruct Hcase as [(Hf' & -> & ->)|(r & -> & -> & ->)].
    + by destruct lst' as [| | | | | | | | | | | | |[]].
    + apply drop_finished in Ha. destruct r as [b|]; [|done].
      pose proof (held_lt _ _ _ _ _ _ _ Ha) as Hlt.
      eapply list_ok_perm; [reflexivity| |reflexivity|exact Ha]. rewrite users_taken. rewrite <- Permutation_middle, inside_cons_in by done.
      by rewrite <- Permutation_middle.
  - rewrite own_heap. destruct Hcase as [(Hf' & _ & ->)|(r & -> & _ & ->)]; [done|]. destruct r as [b|]; [|done].
    pose proof (held_lt _ _ _ _ _ _ _ Ha) as Hlt. by rewrite users_taken, <- Permutation_middle, beyond_cons_out.
Qed.
End Steps.

Definition taken_by (st : block_stage) (tk : list nat) : list nat :=
  match st with Requisitioned _ (Some block) => block :: tk | _ => tk end.

Lemma draw_ok s canAlloc R hp tk :
  pool_ok s (DrawIndex canAlloc :: R) hp tk -> Z.of_nat (length (DrawIndex canAlloc :: R)) < 2 ^ 30 ->
  let '(st', s') := try_get_block_from_initial_pool canAlloc s in pool_ok s' (st' :: R) hp (taken_by st' tk).
Proof.
  intros H Hf. destruct (po_index _ _ _ _ H) as [Hi Hsum]. rewrite zsum_cons in Hsum. simpl in Hsum, Hf.
  assert (0 <= zsum may_draw R) by (apply zsum_nonneg; intros [] _; simpl; lia).
  pose proof (own_heap _ _ _ _ _ H) as Hh. destruct (own_list _ _ _ _ _ H) as (chain & pend & Hl). simpl in Hh, Hl.
  unfold try_get_block_from_initial_pool. rewrite wrapU_id by (unfold inU; lia).
  set (s1 := set_index (initialBlockPoolIndex s + 1) s).
  destruct (initialBlockPoolIndex s <? Z.of_nat (initialBlockPoolSize s)) eqn:E; zbool.
  - eapply (pool_step s _ R hp tk H s1); try done; simpl; [| |apply (po_nodup _ _ _ _ H)|lia..].
    + exists chain, pend. eapply list_ok_perm; [reflexivity| |reflexivity|exact Hl].
      rewrite (unused_draw s), users_taken, inside_cons_in by lia. simpl. by rewrite Permutation_middle.
    + by rewrite Hh, users_taken, beyond_cons_out by lia.
  - assert (unused s1 = unused s) as Eu by (unfold s1; rewrite !unused_none; simpl; try done; lia).
    eapply (pool_step s _ R hp tk H s1); try done; simpl; [|apply (po_nodup _ _ _ _ H)|lia..].
    exists chain, pend. rewrite Eu. eapply start_ok; [exact Hl| |done|done]. by rewrite owners_cons.
Qed.

Lemma give_ok s block rest R hp tk m st' s' hp' :
  pool_ok s (GiveBack block rest :: R) hp tk -> block_step (GiveBack block rest) m s hp = Some (st', s', hp') ->
  pool_ok s' (st' :: R) hp' (taken_by st' tk).
Proof.
  intros H E. simpl in E. pose proof (own_heap _ _ _ _ _ H) as Hh. destruct (own_list _ _ _ _ _ H) as (chain & pend & Hl). simpl in Hh, Hl.
  unfold dynamicallyAllocated in E. destruct (initialBlockPoolSize s <=? block)%nat eqn:Ed; injection E as <- <- <-; zbool.
  - apply Nat.leb_le in Ed. rewrite beyond_cons_in in Hh by done. rewrite inside_cons_out in Hl by done.
    pose proof (po_nodup _ _ _ _ H) as Hn. assert (taken_by (give_back rest) tk = tk) as -> by (by destruct rest).
    eapply (pool_step s _ R hp tk H s); try done; rewrite ?may_draw_give_back, ?carried_give_back.
    + exists chain, pend. unfold listed. by rewrite on_list_give_back.
    + assert (block ∈ hp) as Hin by (rewrite Hh; by left). rewrite (filter_out hp block Hn Hin) in Hh. by apply Permutation_cons_inv in Hh.
    + by apply NoDup_filter.
    + apply (po_index _ _ _ _ H).
    + simpl. lia.
    + apply call_ok_give_back.
  - apply Nat.leb_gt in Ed. eapply (enter_list s _ R hp tk H (Adding (AddBit block) rest) (AddBit block)); try done.
    right. by exists block.
Qed.

Lemma create_ok s R hp tk m st' s' hp' :
  pool_ok s (Create :: R) hp tk -> block_step Create m s hp = Some (st', s', hp') -> pool_ok s' (st' :: R) hp' (taken_by st' tk).
Proof.
  intros H E. simpl in E. destruct m as [b|]; [|injection E as <- <- <-; by apply (quiet_call s Create)].
  destruct (dynamicallyAllocated s b && bool_decide (b ∉ hp)) eqn:Eb; [|done]. injection E as <- <- <-.
  zbool. match goal with Hd : bool_decide _ = true |- _ => apply bool_decide_eq_true in Hd; rename Hd into Hb end.
  match goal with Hd : dynamicallyAllocated s b = true |- _ => apply Nat.leb_le in Hd; rename Hd into Hd0 end.
  pose proof (own_heap _ _ _ _ _ H) as Hh. destruct (own_list _ _ _ _ _ H) as (chain & pend & Hl). simpl in Hh, Hl.
  eapply (pool_step s _ R hp tk H s); try done; simpl; rewrite ?users_taken, ?inside_cons_out, ?beyond_cons_in by done.
  - by exists chain, pend.
  - by rewrite Hh.
  - constructor; [done|]. apply (po_nodup _ _ _ _ H).
  - apply (po_index _ _ _ _ H).
Qed.

Lemma block_step_ok s st R hp tk m st' s' hp' :
  pool_ok s (st :: R) hp tk -> Z.of_nat (length (st :: R)) < 2 ^ 30 -> block_step st m s hp = Some (st', s', hp') ->
  pool_ok s' (st' :: R) hp' (taken_by st' tk).
Proof.
  intros H Hf E. destruct st as [c|c|c lst| |c b|b rest|lst rest|]; try done.
  - simpl in E. destruct (_ <=? _); injection E as <- <- <-; [|by apply (quiet_call s (LoadIndex c))].
    eapply (enter_list s (LoadIndex c) R hp tk H (TryGet c GetHead) GetHead); try done. by left.
  - pose proof (draw_ok s c R hp tk H Hf) as Hd. simpl in E. destruct (try_get_block_from_initial_pool c s) as [st1 s1].
    by injection E as <- <- <-.
  - simpl in E. destruct (list_step lst (freeList s)) as [lst' fl] eqn:El. injection E as <- <- <-.
    pose proof (po_calls _ _ _ _ H) as Hc. inversion_clear Hc as [|? ? Hb _]. simpl in Hb.
    assert (carried (got_from_list c lst') = [] /\ may_draw (got_from_list c lst') = 0 /\ call_ok (got_from_list c lst')) as (E1 & E2 & E3)
      by (destruct lst' as [| | | | | | | | | | | | |[|]]; simpl; try done; by destruct c).
    eapply (list_call s (TryGet c lst) R hp tk H Hf lst lst' fl); try done; [|by rewrite E2].
    destruct lst' as [| | | | | | | | | | | | |r]; try (by left). right. exists r. destruct r; simpl; [done|]. by destruct c.
  - by eapply create_ok.
  - by eapply give_ok.
  - simpl in E. destruct (list_step lst (freeList s)) as [lst' fl] eqn:El. injection E as <- <- <-.
    pose proof (po_calls _ _ _ _ H) as Hc. inversion_clear Hc as [|? ? Hb _]. simpl in Hb.
    pose proof (adding_step lst (freeList s) Hb) as Ha. rewrite El in Ha.
    assert (taken_by (given_to_list lst' rest) tk = tk) as -> by (destruct lst'; try done; by destruct rest).
    eapply (list_call s (Adding lst rest) R hp tk H Hf lst lst' fl _ tk); try done; [|by apply adding_busy| | |].
    + destruct lst'; try done. simpl. by rewrite carried_give_back.
    + destruct Ha as [->|Ha]; [right; exists None; simpl; unfold listed; by rewrite on_list_give_back|]. left. by destruct lst'.
    + destruct lst'; try done. simpl. by rewrite may_draw_give_back.
    + destruct Ha as [->|Ha]; [simpl; apply call_ok_give_back|]. by destruct lst'.
Qed.

(** ** Runs *)

Definition world_pool_ok (w : BlockWorld) : Prop := pool_ok (pool w) (calls w) (heap w) (taken w).

Lemma start_call_ok s st cs hp tk tk' :
  pool_ok s cs hp tk -> on_list st = None -> call_ok st -> may_draw st <= 1 -> users cs tk ≡ₚ carried st ++ users cs tk' ->
  pool_ok s (st :: cs) hp tk'.
Proof.
  intros [(chain & pend & H1) H2 H3 H4 H5] Ho Hc Hd Hu. split; try done.
  - exists chain, pend. rewrite omap_listed. unfold listed. rewrite Ho. simpl.
    eapply list_ok_perm; [reflexivity| |reflexivity|exact H1]. by rewrite users_cons, Hu.
  - by rewrite users_cons, <- Hu.
  - rewrite zsum_cons. simpl length. lia.
  - by constructor.
Qed.

Lemma take_out (tk blocks : list nat) : NoDup tk -> NoDup blocks -> Forall (fun b => b ∈ tk) blocks ->
  tk ≡ₚ blocks ++ filter (fun b => b ∉ blocks) tk.
Proof.
  intros Hn Hb Hin. rewrite Forall_forall in Hin. apply NoDup_Permutation; [done| |].
  - apply NoDup_app. split; [done|]. split; [|by apply NoDup_filter]. intros b H1 [H2 _]%list_elem_of_filter. done.
  - intros b. rewrite elem_of_app, list_elem_of_filter. destruct (decide (b ∈ blocks)); naive_solver.
Qed.

(** Nobody but its owner has a block. *)
Lemma pool_nodup s cs hp tk : pool_ok s cs hp tk -> NoDup (seq 0 (initialBlockPoolSize s) ++ hp).
Proof.
  intros [_ H2 H3 _ _]. apply NoDup_app. split; [apply NoDup_seq|]. split; [|done]. intros b [_ Hb]%elem_of_seq Hin.
  rewrite H2 in Hin. apply list_elem_of_filter in Hin as [? _]. lia.
Qed.

Lemma pool_places s cs hp tk chain pend :
  list_ok (seq 0 (initialBlockPoolSize s)) (freeList s) (omap on_list cs) (unused s ++ inside (initialBlockPoolSize s) (users cs tk)) chain pend ->
  hp ≡ₚ beyond (initialBlockPoolSize s) (users cs tk) ->
  unused s ++ users cs tk ++ concat (in_hand <$> omap on_list cs) ++ chain ++ pend ≡ₚ seq 0 (initialBlockPoolSize s) ++ hp.
Proof.
  intros H1 H2. rewrite <- (li_nodes _ _ _ _ _ _ H1), owners_nodes, H2.
  rewrite <- (inside_beyond (initialBlockPoolSize s) (users cs tk)) at 1. rewrite <- !app_assoc. f_equiv. f_equiv.
  rewrite Permutation_app_comm, <- !app_assoc. done.
Qed.

Lemma taken_nodup s cs hp tk : pool_ok s cs hp tk -> NoDup tk.
Proof.
  intros H. pose proof (pool_nodup _ _ _ _ H) as Hn. pose proof H as [(chain & pend & H1) H2 _ _ _].
  rewrite <- (pool_places _ _ _ _ _ _ H1 H2) in Hn. unfold users in Hn.
  apply NoDup_app in Hn as (_ & _ & Hn). rewrite <- app_assoc in Hn. by apply NoDup_app in Hn as (Hn & _).
Qed.

Lemma block_exec_ok a w w' : world_pool_ok w -> Z.of_nat (length (calls w)) < 2 ^ 30 -> block_exec a w = Some w' ->
  world_pool_ok w' /\ Z.of_nat (length (calls w')) <= Z.of_nat (length (calls w)) + 1 /\
  initialBlockPoolSize (pool w') = initialBlockPoolSize (pool w).
Proof.
  intros H Hf E. destruct a as [c|blocks|i m]; simpl in E.
  - injection E as <-. split; [|simpl; lia]. by apply (start_call_ok _ _ _ _ (taken w)).
  - destruct (bool_decide (NoDup blocks) && _) eqn:Eb; [|done]. injection E as <-. split; [|simpl; lia].
    apply andb_true_iff in Eb as [Hb Hall]. apply bool_decide_eq_true in Hb.
    apply (start_call_ok _ _ _ _ (taken w)); [done|apply on_list_give_back|apply call_ok_give_back|by rewrite may_draw_give_back|].
    rewrite carried_give_back. unfold users. rewrite app_assoc. f_equiv. apply take_out; [by eapply taken_nodup|done|].
    apply Forall_forall. intros b Hin. rewrite forallb_forall in Hall. apply list_elem_of_In, Hall in Hin. by apply bool_decide_eq_true in Hin.
  - destruct (calls w !! i) as [st|] eqn:Ei; [|done]. destruct (block_step st m (pool w) (heap w)) as [[[st' s'] hp']|] eqn:Es; [|done].
    injection E as <-. pose proof (delete_Permutation _ _ _ Ei) as Hp.
    pose proof (pool_ok_perm _ _ _ _ _ _ _ Hp (reflexivity _) (reflexivity _) H) as H'.
    assert (Z.of_nat (length (st :: delete i (calls w))) < 2 ^ 30) as Hf' by (by rewrite <- Hp).
    pose proof (block_step_ok _ _ _ _ _ _ _ _ _ H' Hf' Es) as Hs. split; [|split].
    + eapply pool_ok_perm; [|reflexivity|reflexivity|exact Hs]. symmetry. eapply insert_perm. exact Ei.
    + simpl. rewrite length_insert. lia.
    + simpl. clear - Es. destruct st; simpl in Es; unfold try_get_block_from_initial_pool in Es;
        repeat first [case_match|injection Es as <- <- <-]; done.
Qed.

Lemma block_run_ok l w w' : world_pool_ok w -> Z.of_nat (length (calls w) + length l) < 2 ^ 30 -> block_run l w = Some w' ->
  world_pool_ok w' /\ initialBlockPoolSize (pool w') = initialBlockPoolSize (pool w).
Proof.
  revert w. induction l as [|a l IH]; intros w H Hf E; simpl in E; [by injection E as <-|].
  destruct (block_exec a w) as [w1|] eqn:Ea; [|done]. simpl in Hf.
  destruct (block_exec_ok a w w1 H ltac:(lia) Ea) as (H1 & Hl & Es). destruct (IH w1 H1 ltac:(lia) E) as [H2 E2]. split; [done|].
  by rewrite E2.
Qed.

Lemma new_pool_ok n memory : world_pool_ok (new_pool n memory).
Proof.
  unfold world_pool_ok, new_pool, populate_initial_block_list. simpl. split; simpl; try done.
  - exists [], []. pose proof (new_nodes_ok (if memory then n else 0%nat)) as (chain & pend & H). simpl in H.
    unfold unused. simpl. rewrite Nat.sub_0_r, app_nil_r.
    assert (chain = []) as -> by (destruct chain as [|m chain]; [done|]; by destruct (li_chain _ _ _ _ _ _ H)).
    assert (pend = []) as ->; [|done].
    destruct pend as [|m pend]; [done|]. pose proof (li_pend _ _ _ _ _ _ H) as Hp. inversion_clear Hp as [|? ? Hm _]. unfold pins in Hm. simpl in Hm. lia.
  - constructor.
Qed.

(** The array has room for the capacity asked for, and for less than a block more. *)
Lemma blocks_for_spec capacity : 0 <= capacity -> BLOCK_SIZE * blocks_for capacity - BLOCK_SIZE < capacity <= BLOCK_SIZE * blocks_for capacity \/
  capacity = 0 /\ blocks_for capacity = 0.
Proof.
  intros H. unfold blocks_for. change (BLOCK_SIZE - 1) with (Z.ones 5). rewrite Z.land_ones by lia. change BLOCK_SIZE with 32. change (2 ^ 5) with 32.
  pose proof (Z.div_mod capacity 32 ltac:(lia)) as Hd. pose proof (Z.mod_pos_bound capacity 32 ltac:(lia)).
  destruct (_ =? 0) eqn:E; zbool; lia.
Qed.

(** ** A call alone *)

Definition returned (st : block_stage) : bool := match st with Requisitioned _ _ | GivenBack => true | _ => false end.

Lemma returned_idle cs : Forall returned cs -> omap on_list cs = [] /\ concat (carried <$> cs) = [].
Proof. induction 1 as [|st cs Hst _ [I1 I2]]; [done|]. by destruct st. Qed.

(** What a requisition that runs alone gets. *)
Definition next_block (canAlloc : bool) (malloc : option nat) (s : BlockPool) (chain : list nat) : option nat :=
  match unused s ++ chain with block :: _ => Some block | [] => if canAlloc then malloc else None end.

Definition fresh_block (malloc : option nat) (s : BlockPool) (hp : list nat) : Prop :=
  match malloc with Some block => (initialBlockPoolSize s <= block)%nat /\ block ∉ hp | None => True end.

Lemma lone_requisition canAlloc malloc s cs hp tk chain :
  pool_ok s cs hp tk -> Forall returned cs ->
  list_ok (seq 0 (initialBlockPoolSize s)) (freeList s) [] (unused s ++ inside (initialBlockPoolSize s) tk) chain [] ->
  fresh_block malloc s hp ->
  exists k w', block_run (Requisition canAlloc :: replicate k (BlockStep 0 malloc)) (mkBlockWorld s cs hp tk) = Some w' /\
    head (calls w') = Some (Requisitioned canAlloc (next_block canAlloc malloc s chain)).
Proof.
  intros H Hr Hl Hm. destruct (po_index _ _ _ _ H) as [Hi _]. unfold next_block.
  destruct (Z.of_nat (initialBlockPoolSize s) <=? initialBlockPoolIndex s) eqn:E0; pose proof E0 as E;
    [apply Z.leb_le in E|apply Z.leb_gt in E].
  - rewrite unused_none by done. simpl app. pose proof (li_chain _ _ _ _ _ _ Hl) as Hc. destruct chain as [|n chain]; simpl in Hc.
    + destruct canAlloc; [exists 3%nat|exists 2%nat]; simpl; rewrite E0; simpl; rewrite Hc; simpl; [|eexists; split; reflexivity].
      destruct malloc as [b|]; [|eexists; split; reflexivity]. destruct Hm as [Hb Hin].
      change (dynamicallyAllocated (set_list (freeList s) s) b) with (initialBlockPoolSize s <=? b)%nat.
      rewrite (proj2 (Nat.leb_le _ _) Hb), bool_decide_true by done. simpl. eexists. split; reflexivity.
    + destruct Hc as [Hh _]. destruct (owner_unique _ _ _ _ _ _ _ _ _ Hl (owners_chain [] _ n chain [])) as (_ & Hrf & _).
      unfold pins in Hrf. simpl in Hrf. exists 7%nat. simpl. rewrite E0. simpl. rewrite Hh. simpl. rewrite Hrf. simpl. rewrite Hrf. simpl.
      rewrite Hh, decide_True by done. simpl. eexists. split; reflexivity.
  - rewrite (unused_draw s) by lia. exists 2%nat. simpl. rewrite E0. simpl. unfold try_get_block_from_initial_pool.
    rewrite (proj2 (Z.ltb_lt _ _) E). simpl. eexists. split; reflexivity.
Qed.

(** The blocks whose fields the next access reads or writes. *)
Definition touched (lst : list_stage) : list nat :=
  match lst with
  | AddBit n | LoadHead n _ | StoreNext n _ _ | StoreRefs n _ _ | CasHead n _ _ | Retreat n _ _ => [n]
  | LoadRefs h | CasRefs h _ | LoadNext h | CasNext h _ | DropTwo h | DropOne h _ => [h]
  | GetHead | Finished _ => []
  end.

Lemma touched_node nodes s ths hd chain pend lst n :
  list_ok nodes s ths hd chain pend -> lst ∈ ths -> n ∈ touched lst -> n ∈ nodes.
Proof.
  intros H Hin Ht. pose proof (proj1 (Forall_forall _ _) (li_stages _ _ _ _ _ _ H) lst Hin) as Hst.
  assert (n ∈ (owned lst).*1 -> n ∈ nodes) as Hown.
  { intros (r & -> & Hr)%list_elem_of_fmap. rewrite <- (li_nodes _ _ _ _ _ _ H). apply list_elem_of_fmap_2.
    by eapply owned_in_owners. }
  destruct lst; simpl in Ht, Hst, Hown; try (by apply not_elem_of_nil in Ht); try (by apply Hown);
    apply list_elem_of_singleton in Ht as ->; tauto.
Qed.

(** ** The theorem *)

(** C26: under every interleaving of fewer than 2^30 requisitions and returns of blocks, every
    block, of the array made with the queue or of the heap, is in exactly one place: not yet
    drawn, with a producer, with a call that gives it back, in the hand of a thread that is in
    the free list, on the free list, or in limbo there; so no block is handed out twice, and none
    is lost.  The free list never touches a block outside the array, which may have been
    destroyed.  When all calls have returned, every block is with a producer, undrawn or on the
    list, and a requisition returns, in this order, an undrawn block, one of the list, or what
    the allocator gives. *)
Theorem block_pool_correct n memory l w :
  block_run l (new_pool n memory) = Some w -> Z.of_nat (length l) < 2 ^ 30 ->
  let size := if memory then n else 0%nat in
  NoDup (seq 0 size ++ heap w) /\
  exists chain limbo, chained (freeListNext (freeList (pool w))) (freeListHead (freeList (pool w))) chain /\
    unused (pool w) ++ (taken w ++ concat (carried <$> calls w)) ++ concat (in_hand <$> omap on_list (calls w)) ++ chain ++ limbo
      ≡ₚ seq 0 size ++ heap w /\
    (forall st b, st ∈ omap on_list (calls w) -> b ∈ touched st -> (b < size)%nat) /\
    (Forall returned (calls w) ->
       unused (pool w) ++ taken w ++ chain ≡ₚ seq 0 size ++ heap w /\
       forall canAlloc malloc, fresh_block malloc (pool w) (heap w) ->
         exists k w', block_run (Requisition canAlloc :: replicate k (BlockStep 0 malloc)) w = Some w' /\
           head (calls w') = Some (Requisitioned canAlloc (next_block canAlloc malloc (pool w) chain))).
Proof.
  intros E Hl size. destruct (block_run_ok l _ w (new_pool_ok n memory) ltac:(simpl; lia) E) as [H Es].
  assert (initialBlockPoolSize (pool w) = size) as Hs by exact Es. split; [rewrite <- Hs; by eapply pool_nodup|].
  pose proof H as [(chain & limbo & H1) H2 _ _ _]. exists chain, limbo. pose proof (pool_places _ _ _ _ _ _ H1 H2) as Hp. rewrite Hs in Hp.
  split; [apply (li_chain _ _ _ _ _ _ H1)|]. split; [exact Hp|]. split.
  - intros st b Hst Hb. pose proof (touched_node _ _ _ _ _ _ _ _ H1 Hst Hb) as [_ ?]%elem_of_seq. lia.
  - intros Hr. destruct (returned_idle _ Hr) as [Ho Hc]. assert (limbo = []) as ->.
    { destruct limbo as [|m limbo]; [done|]. pose proof (li_pend _ _ _ _ _ _ H1) as Hpd. inversion_clear Hpd as [|? ? Hm _].
      rewrite Ho in Hm. unfold pins in Hm. simpl in Hm. lia. }
    unfold users in *. rewrite Ho, Hc, !app_nil_r in *. split; [exact Hp|]. intros canAlloc malloc Hm. destruct w as [s cs hp tk].
    by apply (lone_requisition canAlloc malloc s cs hp tk chain).
Qed.

(** Two producers take the two blocks of the array and a new one; two are given back, one to the
    heap; another requisition is under way on the list when the one of the array is given back. *)
Definition pool_sample : list block_action :=
  [Requisition true; Requisition true] ++ replicate 2 (BlockStep 0 None) ++ replicate 2 (BlockStep 1 None) ++
  [Requisition true] ++ replicate 2 (BlockStep 0 None) ++ [BlockStep 0 (Some 9%nat)] ++ [ReturnBlocks [9; 1]%nat] ++
  replicate 3 (BlockStep 0 None) ++ [Requisition false; BlockStep 0 None; BlockStep 0 None] ++ replicate 4 (BlockStep 1 None).

Lemma block_pool_correct_witness :
  exists w, block_run pool_sample (new_pool 2 true) = Some w /\ taken w = [0%nat] /\ heap w = [] /\
    exists chain, unused (pool w) ++ taken w ++ chain ≡ₚ [0; 1]%nat ++ heap w /\
      exists k w', block_run (Requisition true :: replicate k (BlockStep 0 (Some 5%nat))) w = Some w' /\
        head (calls w') = Some (Requisitioned true (next_block true (Some 5%nat) (pool w) chain)).
Proof.
  assert (match block_run pool_sample (new_pool 2 true) with
          | Some w => taken w = [0%nat] /\ heap w = [] /\ Forall returned (calls w) /\ initialBlockPoolSize (pool w) = 2%nat
          | None => False end) as Hw by (vm_compute; repeat constructor).
  destruct (block_run pool_sample (new_pool 2 true)) as [w|] eqn:E; [|destruct Hw]. destruct Hw as (Ht & Hh & Hr & Hs).
  destruct (block_pool_correct 2 true pool_sample w E ltac:(vm_compute; reflexivity)) as (_ & chain & limbo & _ & _ & _ & Hq).
  destruct (Hq Hr) as [Hp Hlone]. exists w. split; [reflexivity|]. split; [exact Ht|]. split; [exact Hh|]. exists chain. split; [exact Hp|].
  apply Hlone. simpl. rewrite Hs, Hh. split; [lia|apply not_elem_of_nil].
Defined.
