(* ===== verification/Destructors.v ===== *)
(** * The end of the lock-free queue

    The destructors of [ImplicitProducer] and of [ConcurrentQueue] in
    [src/include/concurrentqueue.h].  They run alone, when every enqueue and dequeue has
    returned: a producer destroys the elements left in it and gives its blocks back; the queue
    destroys its producers, its hash tables but the one inside it, the blocks of the free list
    that are not of the array, and the array. *)

From S2P Require Import Prelude Circular ImplicitProducer ProducerHash ConcurrentQueue FreeList BlockPool.
From stdpp Require Import base list gmap.
From Stdlib Require Import ZArith Lia.
Local Open Scope Z_scope.

(** ** A producer *)

Section Producer.
Context {A : Type}.
Implicit Types (p : Producer A).

(** [tailBlock]: the block of the last element, once there was one. *)
Definition tailBlock p : option Z := if tailIndex p =? 0 then None else Some (block_base (u64 (tailIndex p - 1))).

(** The loop over the elements: those destroyed and the blocks given back, in order.  [None]: a
    block that is not in the index, or a slot without an element. *)
Fixpoint destroy_loop (fuel : nat) p (index : Z) (block : option Z) : option (list A * list Z) :=
  if index =? tailIndex p then Some ([], [])
  else
    match fuel with
    | O => None
    | S fuel' =>
        let fresh := (block_slot index =? 0) || bool_decide (block = None) in
        let block' :=
          if fresh then match blocks p !! block_base index with Some _ => Some (block_base index) | None => None end
          else block in
        match cells p !! index with
        | Some x =>
            if bool_decide (block' = Some (block_base index)) then
              match destroy_loop fuel' p (u64 (index + 1)) block' with
              | Some (xs, bs) => Some (x :: xs, (if fresh then option_list block else []) ++ bs)
              | None => None
              end
            else None
        | None => None
        end
    end.

(** [~ImplicitProducer]: the elements destroyed and the blocks given back.  (It also frees the
    memory of the block index, and takes its listener off the list of its thread, if that still
    runs.) *)
Definition ImplicitProducer_delete p : option (list A * list Z) :=
  let forceFreeLastBlock := negb (headIndex p =? tailIndex p) in
  match destroy_loop (Z.to_nat (u64 (tailIndex p - headIndex p))) p (headIndex p) None with
  | None => None
  | Some (xs, bs) =>
      Some (xs, bs ++ match tailBlock p with
                      | Some b => if forceFreeLastBlock || negb (block_slot (tailIndex p) =? 0) then [b] else []
                      | None => []
                      end)
  end.

(** ** The queue *)

(** The list of producers, from its tail on. *)
Fixpoint destroy_producers (fuel : nat) (ptr : nat) (l : list (Stream A)) : option (list (list A * list Z)) :=
  match ptr with
  | O => Some []
  | S i =>
      match fuel, l !! i with
      | S fuel', Some s =>
          match ImplicitProducer_delete (core s), destroy_producers fuel' (next_prod s) l with
          | Some d, Some ds => Some (d :: ds)
          | _, _ => None
          end
      | _, _ => None
      end
  end.
End Producer.

(** The hash tables, from the current one on: those freed. *)
Fixpoint destroy_hashes (fuel : nat) (hash : nat) (l : list ImplicitProducerHash) : option (list nat) :=
  match hash with
  | O => Some []
  | S i =>
      match fuel, l !! i with
      | S fuel', Some t =>
          match destroy_hashes fuel' (prev t) l with
          | Some freed => Some ((if (prev t =? 0)%nat then [] else [hash]) ++ freed)
          | None => None
          end
      | _, _ => None
      end
  end.

(** The free list: the blocks visited, and those destroyed. *)
Fixpoint destroy_free_list (fuel : nat) (block : option nat) (s : BlockPool) : option (list nat * list nat) :=
  match block with
  | None => Some ([], [])
  | Some b =>
      match fuel with
      | O => None
      | S fuel' =>
          match destroy_free_list fuel' (freeListNext (freeList s) b) s with
          | Some (visited, destroyed) =>
              Some (b :: visited, if dynamicallyAllocated s b then b :: destroyed else destroyed)
          | None => None
          end
      end
  end.
