(* ===== verification/DestructorTheorems.v ===== *)
(** * The destructors of the lock-free queue leave nothing behind

    Once every call has returned, the destructor of a producer touches only blocks in its index
    and slots with an element, destroys the elements that nobody dequeued, in order, and gives
    back each block that dequeues had not given back, once; that of the queue does so for every
    producer, frees every hash table that was allocated, and its walk over the free list ends and
    stays within the array. *)

From S2P Require Import Prelude Circular FreeList FreeListTheorems BlockPool BlockPoolTheorems.
From S2P Require Import ProducerHash ProducerHashInvariant ProducerHashTheorems ProducerHashReturns.
From S2P Require Import ImplicitProducer ImplicitProducerProofs ImplicitProducerCells ImplicitProducerInvariant ImplicitProducerTheorems.
From S2P Require Import ConcurrentQueue ConcurrentQueueInvariant ConcurrentQueueSteps ConcurrentQueueTheorems Destructors.
From stdpp Require Import base list gmap.
From Stdlib Require Import ZArith Lia.
Local Open Scope Z_scope.

(** ** The blocks from one index to another *)

(** The first indices of the blocks that hold an index from [i] to [t], and of the block of [t]
    if [i] is [t] and in the middle of it. *)
Definition cover (i t : Z) : list Z := bases (32 * (i / 32)) (Z.to_nat ((t + 31) / 32 - i / 32)).

Lemma cover_same i t : (i + 1) mod 32 <> 0 -> cover (i + 1) t = cover i t.
Proof. intros H. unfold cover. assert ((i + 1) / 32 = i / 32) as -> by (Z.to_euclidean_division_equations; lia). done. Qed.

Lemma cover_next i t : (i + 1) mod 32 = 0 -> i + 1 <= t -> cover i t = 32 * (i / 32) :: cover (i + 1) t.
Proof.
  intros H Ht. unfold cover. assert ((i + 1) / 32 = i / 32 + 1) as -> by (Z.to_euclidean_division_equations; lia).
  assert (Z.to_nat ((t + 31) / 32 - i / 32) = S (Z.to_nat ((t + 31) / 32 - (i / 32 + 1)))) as ->.
  { assert (i / 32 + 1 <= (t + 31) / 32) by (Z.to_euclidean_division_equations; lia). lia. }
  rewrite bases_cons. do 2 f_equal. lia.
Qed.

Lemma cover_one i : cover i (i + 1) = [32 * (i / 32)].
Proof.
  unfold cover. assert (Z.to_nat ((i + 1 + 31) / 32 - i / 32) = 1%nat) as ->.
  { assert ((i + 1 + 31) / 32 = i / 32 + 1) by (Z.to_euclidean_division_equations; lia). lia. }
  unfold bases. simpl. f_equal. lia.
Qed.

Lemma elem_of_cover b i t : 0 <= i <= t -> b ∈ cover i t <-> b mod 32 = 0 /\ i < b + 32 /\ b < round_up t.
Proof.
  intros Hi. assert (round_up t = 32 * ((t + 31) / 32)) as -> by (unfold round_up; Z.to_euclidean_division_equations; lia).
  unfold cover, bases. rewrite list_elem_of_fmap. split.
  - intros (j & -> & Hj%elem_of_seq). split; [Z.to_euclidean_division_equations; lia|]. Z.to_euclidean_division_equations; lia.
  - intros (H1 & H2 & H3). exists (Z.to_nat (b / 32 - i / 32)).
    assert (b = 32 * (b / 32)) as Hb by (Z.to_euclidean_division_equations; lia).
    assert (i / 32 <= b / 32) by (Z.to_euclidean_division_equations; lia).
    split; [lia|]. apply elem_of_seq. lia.
Qed.

Lemma cover_nodup i t : NoDup (cover i t).
Proof.
  unfold cover, bases. apply NoDup_fmap_2_strong; [|apply NoDup_seq]. intros j k _ _ E. lia.
Qed.

Lemma block_base_div i : 0 <= i < 2 ^ 64 -> block_base i = 32 * (i / 32).
Proof. intros Hi. rewrite block_base_sub by done. pose proof (Z.div_mod i 32). lia. Qed.

(** ** A producer *)

Section Producer.
Context {A : Type}.
Implicit Types (p : Producer A).

Definition fresh (index : Z) (block : option Z) : bool := (block_slot index =? 0) || bool_decide (block = None).

Lemma destroy_loop_next p n index block x c :
  index <> tailIndex p -> cells p !! index = Some x -> blocks p !! block_base index = Some c ->
  (block_slot index <> 0 -> forall b, block = Some b -> b = block_base index) ->
  destroy_loop (S n) p index block =
    match destroy_loop n p (u64 (index + 1)) (Some (block_base index)) with
    | Some (xs, bs) => Some (x :: xs, (if fresh index block then option_list block else []) ++ bs)
    | None => None
    end.
Proof.
  intros Hne Hx Hc Hb. simpl. rewrite (proj2 (Z.eqb_neq _ _)), Hx, Hc by done.
  fold (fresh index block). assert ((if fresh index block then Some (block_base index) else block) = Some (block_base index)) as ->.
  { unfold fresh. destruct (Z.eqb_spec (block_slot index) 0) as [|Hs]; [done|]. destruct block as [b|]; [|done].
    simpl. by rewrite (Hb Hs b eq_refl). }
  by rewrite bool_decide_true.
Qed.

(** The loop from [index] on, when the rest of the elements and their blocks are there. *)
Lemma destroy_loop_spec p n index block :
  index + Z.of_nat (S n) = tailIndex p -> 0 <= index -> tailIndex p < 2 ^ 62 ->
  (forall i, index <= i < tailIndex p -> is_Some (cells p !! i) /\ is_Some (blocks p !! block_base i)) ->
  (block_slot index <> 0 -> forall b, block = Some b -> b = block_base index) ->
  exists bs, destroy_loop (S n) p index block = Some (omap (fun i => cells p !! i) (seqZ index (Z.of_nat (S n))), bs) /\
    bs ++ [block_base (tailIndex p - 1)] =
      (if fresh index block then option_list block else []) ++ cover index (tailIndex p).
Proof.
  revert index block. induction n as [|n IH]; intros index block Hn Hi Ht Hall Hblock;
    destruct (Hall index ltac:(lia)) as [[x Hx] [c Hc]];
    rewrite (destroy_loop_next p _ index block x c) by (done || lia).
  - assert (u64 (index + 1) = tailIndex p) as E1 by mword.
    cbn [destroy_loop]. rewrite E1, Z.eqb_refl. eexists. split.
    + unfold seqZ. simpl. rewrite Z.add_0_l, Hx. reflexivity.
    + rewrite app_nil_r. f_equal. replace (tailIndex p) with (index + 1) by lia. rewrite cover_one.
      replace (index + 1 - 1) with index by lia. by rewrite block_base_div by lia.
  - assert (u64 (index + 1) = index + 1) as E1 by mword.
    destruct (IH (index + 1) (Some (block_base index))) as (bs & E & Hbs); [lia|lia|lia|intros; apply Hall; lia| |].
    { rewrite block_slot_mod. intros Hs b [= <-]. rewrite !block_base_div by lia.
      f_equal. Z.to_euclidean_division_equations; lia. }
    rewrite E1, E. eexists. split.
    + rewrite (seqZ_cons index) by lia. cbn [omap list_omap]. rewrite Hx.
      replace (Z.succ index) with (index + 1) by lia. replace (Z.pred (Z.of_nat (S (S n)))) with (Z.of_nat (S n)) by lia. done.
    + rewrite <- app_assoc, Hbs. f_equal. unfold fresh. rewrite block_slot_mod, bool_decide_false, orb_false_r by done.
      destruct (Z.eqb_spec ((index + 1) mod 32) 0) as [Hz|Hz]; simpl.
      * rewrite (cover_next index) by lia. by rewrite block_base_div by lia.
      * by rewrite cover_same.
Qed.

Lemma tailBlock_base p : 0 < tailIndex p < 2 ^ 62 -> tailBlock p = Some (block_base (tailIndex p - 1)).
Proof.
  intros Ht. unfold tailBlock. rewrite (proj2 (Z.eqb_neq _ _)) by lia. do 2 f_equal. mword.
Qed.

(** The whole destructor, when the elements left and their blocks are there. *)
Lemma delete_spec p :
  0 <= headIndex p <= tailIndex p -> tailIndex p < 2 ^ 62 ->
  (forall i, headIndex p <= i < tailIndex p -> is_Some (cells p !! i) /\ is_Some (blocks p !! block_base i)) ->
  ImplicitProducer_delete p =
    Some (omap (fun i => cells p !! i) (seqZ (headIndex p) (tailIndex p - headIndex p)), cover (headIndex p) (tailIndex p)).
Proof.
  intros Hh Ht Hall. unfold ImplicitProducer_delete.
  assert (u64 (tailIndex p - headIndex p) = tailIndex p - headIndex p) as -> by mword.
  destruct (Z.eqb_spec (headIndex p) (tailIndex p)) as [E|E].
  - rewrite E, Z.sub_diag. change (Z.to_nat 0) with 0%nat. cbn [destroy_loop]. rewrite Z.eqb_refl. do 2 f_equal. simpl.
    rewrite block_slot_mod. set (t := tailIndex p) in *. destruct (Z.eqb_spec (t mod 32) 0) as [Hz|Hz]; simpl.
    + assert (cover t t = []) as ->; [|by destruct (tailBlock p)].
      unfold cover. assert ((t + 31) / 32 - t / 32 = 0) as -> by (Z.to_euclidean_division_equations; lia). done.
    + assert (t <> 0) as Ht0 by (intros ->; done). rewrite tailBlock_base by lia. fold t.
      assert (cover t t = cover (t - 1) t) as ->.
      { rewrite <- (cover_same (t - 1) t); [by replace (t - 1 + 1) with t by lia|by replace (t - 1 + 1) with t by lia]. }
      replace (cover (t - 1) t) with (cover (t - 1) (t - 1 + 1)) by (f_equal; lia). rewrite cover_one, block_base_div by lia. done.
  - destruct (Z.to_nat (tailIndex p - headIndex p)) as [|n] eqn:En; [lia|].
    destruct (destroy_loop_spec p n (headIndex p) None) as (bs & -> & Hbs); [lia|lia|lia|done|done|].
    rewrite tailBlock_base by lia. simpl. rewrite Hbs. f_equal. f_equal; [do 2 f_equal; lia|]. by destruct (fresh _ _).
Qed.

Lemma finished_live (rs : list (kind * reader_stage A)) : Forall finished rs -> concat (live_of <$> rs) = [].
Proof. induction 1 as [|[k st] rs Hr _ IH]; [done|]. destruct st; done. Qed.

(** What is left in a producer whose calls have all returned is where it should be. *)
Lemma idle_there p rs pub :
  sub_ok p WIdle rs pub -> Forall finished rs -> tailIndex p < 2 ^ 62 ->
  forall i, headIndex p <= i < tailIndex p -> is_Some (cells p !! i) /\ is_Some (blocks p !! block_base i).
Proof.
  intros H Hf Ht i Hi. pose proof (so_cells _ _ _ _ H) as Hc. rewrite finished_live in Hc by done.
  pose proof (sub_head _ _ _ _ H) as Hh. split.
  - rewrite (ce_cell _ _ _ _ Hc i) by (apply elem_of_seqZ; lia). apply lookup_lt_is_Some_2.
    pose proof (so_tail _ _ _ _ H). lia.
  - destruct (block_there p WIdle _ _ i (so_blocks _ _ _ _ H)) as [c Hc']; [|lia|by left; lia|eauto].
    simpl. pose proof (round_up_spec (tailIndex p)). lia.
Qed.

(** In a producer whose calls have all returned. *)
Lemma delete_idle p rs pub :
  sub_ok p WIdle rs pub -> Forall finished rs -> tailIndex p < 2 ^ 62 ->
  exists xs bs, ImplicitProducer_delete p = Some (xs, bs) /\
    xs = omap (fun i => cells p !! i) (seqZ (headIndex p) (tailIndex p - headIndex p)) /\
    concat (taken <$> rs) ++ xs ≡ₚ pub /\ NoDup bs /\ (forall b, b ∈ bs <-> is_Some (blocks p !! b)).
Proof.
  intros H Hf Ht. pose proof (sub_head _ _ _ _ H) as Hh. destruct (finished_parts _ Hf) as (_ & _ & _ & Hfree & Hz).
  pose proof (finished_live rs Hf) as Hlive.
  pose proof (so_blocks _ _ _ _ H) as Hb. rewrite Hfree in Hb.
  do 2 eexists. split; [apply delete_spec; [done|done|by eapply idle_there]|]. split; [done|].
  pose proof (sub_items _ _ _ _ H) as Hi. rewrite Hlive in Hi. split; [exact Hi|]. split; [apply cover_nodup|].
  intros b. rewrite elem_of_cover by lia. split.
  - intros (H1 & H2 & H3). apply (blocks_there _ _ _ _ _ _ _ Hb); [done| |].
    + simpl. split; [|done]. Z.to_euclidean_division_equations; lia.
    + unfold owed. rewrite Hz. unfold overlap. lia.
  - intros [c Hbc]. destruct (bo_count _ _ _ _ _ _ Hb b c Hbc) as (H1 & H2 & H3 & H4). unfold owed in H4. rewrite Hz in H4.
    split; [done|]. split; [|apply H2]. assert (c <> 32) as Hne.
    { intros ->. apply (bo_freeing _ _ _ _ _ _ Hb) in Hbc. by apply not_elem_of_nil in Hbc. }
    unfold overlap in H4. lia.
Qed.
End Producer.

(** ** The queue *)

Section Queue.
Context {A : Type}.

Lemma destroy_producers_all (l : list (Stream A)) (d : Stream A -> list A * list Z) fuel n :
  (forall i s, l !! i = Some s -> next_prod s = i /\ ImplicitProducer_delete (core s) = Some (d s)) ->
  (n <= length l)%nat -> (n <= fuel)%nat -> destroy_producers fuel n l = Some (reverse (d <$> take n l)).
Proof.
  intros Hl. revert fuel. induction n as [|n IH]; intros fuel Hn Hf; [by destruct fuel|].
  destruct fuel as [|fuel]; [lia|]. cbn [destroy_producers].
  destruct (lookup_lt_is_Some_2 l n ltac:(lia)) as [s Hs]. rewrite Hs. destruct (Hl n s Hs) as [-> ->].
  rewrite IH by lia. rewrite (take_S_r _ _ _ Hs), fmap_app, reverse_app. done.
Qed.

(** C18: the destructor of the queue, when every enqueue and dequeue has returned: it follows no
    null pointer, touches only blocks in the index of their producer and slots with an element,
    and destroys each element that was enqueued and not handed out, once; every producer gives
    back exactly the blocks its dequeues had not given back, each once. *)
Theorem queue_destroyed (l : list (cq_action A)) q
  (Hl : cq_fits l) (E : cq_run l empty_cq = Some q)
  (Hrest : Forall at_rest (clients q)) (Hidle : Forall (fun s => writing s = WIdle) (streams q)) :
  exists ds, destroy_producers (length (streams q)) (producerListTail (streams q)) (streams q) = Some ds /\
    handed_out q ++ concat (fst <$> ds) ≡ₚ published_by q /\
    Forall2 (fun s d => NoDup d.2 /\ forall b, b ∈ d.2 <-> is_Some (blocks (core s) !! b)) (reverse (streams q)) ds.
Proof.
  destruct (cq_state_ok l q Hl E) as [past H].
  assert (live (clients q) = []) as Hlive.
  { unfold live. clear H. induction Hrest as [|t ts Ht _ IH]; [done|]. rewrite fmap_cons, concat_cons, IH. by destruct t. }
  assert (concat (holding <$> clients q) = []) as Hhold.
  { clear H Hlive. induction Hrest as [|t ts Ht _ IH]; [done|]. rewrite fmap_cons, concat_cons, IH. by destruct t. }
  set (d (s : Stream A) := (omap (fun i => cells (core s) !! i) (seqZ (headIndex (core s)) (tailIndex (core s) - headIndex (core s))),
               cover (headIndex (core s)) (tailIndex (core s)))).
  assert (forall i s, streams q !! i = Some s -> ImplicitProducer_delete (core s) = Some (d s) /\
            NoDup (d s).2 /\ forall b, b ∈ (d s).2 <-> is_Some (blocks (core s) !! b)) as Hall.
  { intros i s Hs. pose proof (ok_sub _ _ _ _ _ H i s Hs) as Hsub. rewrite Hlive in Hsub.
    rewrite (proj1 (Forall_forall _ _) Hidle s (list_elem_of_lookup_2 _ _ _ Hs)) in Hsub.
    pose proof (ok_room _ _ _ _ _ H i s Hs) as Hroom.
    assert (Forall finished (readers_at i past)) as Hfin.
    { apply Forall_forall. intros r Hr. unfold readers_at in Hr. apply list_elem_of_fmap in Hr as (c & -> & [_ Hc]%list_elem_of_filter).
      by apply (proj1 (Forall_forall _ _) (ok_past _ _ _ _ _ H)). }
    assert (0 <= pending (writing s)) by (destruct (writing s); simpl; lia).
    destruct (delete_idle _ _ _ Hsub Hfin ltac:(lia)) as (xs & bs & Hd & -> & _ & Hn & Hb).
    pose proof (sub_head _ _ _ _ Hsub) as Hh.
    assert (bs = cover (headIndex (core s)) (tailIndex (core s))) as ->; [|done].
    rewrite (delete_spec (core s)) in Hd; [by injection Hd|done|lia|].
    eapply idle_there; [exact Hsub|done|lia]. }
  exists (reverse (d <$> streams q)). split; [|split].
  - unfold producerListTail. rewrite (destroy_producers_all (streams q) d);
      [by rewrite firstn_all| |lia|lia]. intros i s Hs. split; [by eapply ok_next|by eapply Hall].
  - rewrite <- (accounts q past 0 0 H). f_equiv. unfold bag. rewrite Hhold, app_nil_r, reverse_Permutation, <- list_fmap_compose.
    assert (imap (contents (clients q)) (streams q) = (fst ∘ d) <$> streams q) as ->; [|done].
    apply list_eq. intros i. rewrite list_lookup_imap, list_lookup_fmap. destruct (streams q !! i) as [s|]; [|done]. simpl.
    unfold contents. by rewrite Hlive.
  - apply Forall2_reverse, Forall2_fmap_r, Forall_Forall2_diag, Forall_forall. intros s (i & Hs)%list_elem_of_lookup_1.
    by eapply Hall.
Qed.
End Queue.

(** An enqueue of 40 elements, of which a dequeue takes two; the rest is destroyed, and both
    blocks are given back. *)
Definition leftover : list (cq_action Z) :=
  [Enroll] ++ advance 4 0 ++ push 0 (Z.of_nat <$> seq 0 40) ++ [Write 0 (WriterStep true)] ++
  [TryDequeueBulk 2] ++ advance 13 0.

Lemma queue_destroyed_witness :
  exists ds, destroy_producers (length (streams (state leftover))) (producerListTail (streams (state leftover))) (streams (state leftover))
      = Some ds /\
    handed_out (state leftover) = [0; 1] /\ (snd <$> ds) = [[0; 32]] /\
    handed_out (state leftover) ++ concat (fst <$> ds) ≡ₚ published_by (state leftover).
Proof.
  assert (cq_run leftover empty_cq = Some (state leftover)) as E by (vm_compute; reflexivity).
  destruct (queue_destroyed leftover (state leftover) ltac:(cq_example) E) as (ds & Ed & Hp & _).
  - apply (bool_decide_unpack _). vm_compute. exact I.
  - apply Forall_forall. intros s Hs. vm_compute in Hs. apply list_elem_of_singleton in Hs as ->. reflexivity.
  - exists ds. split; [exact Ed|]. split; [vm_compute; reflexivity|]. split; [|exact Hp].
    assert (option_map (fun ds : list (list Z * list Z) => ds.*2) (Some ds) = Some [[0; 32]]) as H by (rewrite <- Ed; vm_compute; reflexivity).
    by injection H.
Defined.

(** ** The hash tables *)

Lemma destroy_hashes_all hs fuel n :
  (forall i t, hs !! i = Some t -> prev t = i) -> (n <= length hs)%nat -> (n <= fuel)%nat ->
  destroy_hashes fuel n hs = Some (reverse (seq 2 (n - 1))).
Proof.
  intros Hl. revert fuel. induction n as [|n IH]; intros fuel Hn Hf; [by destruct fuel|].
  destruct fuel as [|fuel]; [lia|]. cbn [destroy_hashes].
  destruct (lookup_lt_is_Some_2 hs n ltac:(lia)) as [t Ht]. rewrite Ht, (Hl n t Ht), IH by lia.
  destruct n as [|n]; [done|]. simpl. replace (n - 0)%nat with n by lia.
  rewrite <- (reverse_snoc (seq 2 n)). f_equal. f_equal. rewrite <- seq_S. done.
Qed.

(** The destructor frees every table that was allocated, once, and not the one inside the queue. *)
Theorem hashes_destroyed l w (E : hash_run l empty_world = Some w) (Hl : Z.of_nat (length l) < 2 ^ 62) :
  exists freed, destroy_hashes (length (hashes (shared w))) (implicitProducerHash (shared w)) (hashes (shared w)) = Some freed /\
    NoDup freed /\ forall i, (i < length (hashes (shared w)))%nat -> (S i ∈ freed <-> i <> 0%nat).
Proof.
  destruct (run_facts l w E Hl) as [[[Ht Hm Hs] _ _ _ _ _ _] _]. rewrite Hm.
  eexists. split; [apply destroy_hashes_all; [by intros i t [? _]%Ht|done|done]|]. split.
  - rewrite reverse_Permutation. apply NoDup_seq.
  - intros i Hi. rewrite elem_of_reverse, elem_of_seq. lia.
Qed.

(** ** The free list and the array *)

Lemma destroy_free_list_chain s b chain fuel :
  chained (freeListNext (freeList s)) b chain -> (length chain <= fuel)%nat ->
  destroy_free_list fuel b s = Some (chain, filter (fun b => dynamicallyAllocated s b) chain).
Proof.
  revert b fuel. induction chain as [|c chain IH]; intros b fuel; simpl; [by intros ->; destruct fuel|].
  intros [-> Hc] Hf. destruct fuel as [|fuel]; [lia|]. simpl. rewrite (IH _ fuel Hc), filter_cons by lia.
  destruct (dynamicallyAllocated s c); done.
Qed.

(** When every call has returned and the producers have given back their blocks, no block outside
    the array is left, and the walk over the free list ends, visits each block once, and neither
    leaves the array, which is destroyed after it, nor destroys any of its blocks itself. *)
Theorem free_list_destroyed n memory l w
  (E : block_run l (new_pool n memory) = Some w) (Hl : Z.of_nat (length l) < 2 ^ 30)
  (Hr : Forall returned (calls w)) (Ht : BlockPool.taken w = []) :
  heap w = [] /\
  exists visited, destroy_free_list (if memory then n else 0) (freeListHead (freeList (pool w))) (pool w) = Some (visited, []) /\
    NoDup visited /\ forall b, b ∈ visited -> (b < if memory then n else 0)%nat.
Proof.
  destruct (block_run_ok l _ w (new_pool_ok n memory) ltac:(simpl; lia) E) as [[(chain & pend & H1) H2 _ _ _] Es].
  simpl in Es. destruct (returned_idle _ Hr) as [Ho Hc]. rewrite Ht in *. unfold users in *. rewrite Hc in *. simpl in H2.
  split; [by apply Permutation_nil_r|].
  pose proof (li_nodes _ _ _ _ _ _ H1) as Hn. rewrite owners_nodes, Ho in Hn. simpl in Hn.
  assert (forall b, b ∈ chain -> (b < if memory then n else 0)%nat) as Hin.
  { intros b Hb. assert (b ∈ seq 0 (initialBlockPoolSize (pool w))) as [_ ?]%elem_of_seq; [|rewrite Es in *; simpl in *; lia].
    rewrite <- Hn, !elem_of_app. tauto. }
  assert (NoDup chain) as Hnd.
  { pose proof (NoDup_seq 0 (initialBlockPoolSize (pool w))) as Hs. rewrite <- Hn in Hs.
    apply NoDup_app in Hs as (_ & _ & Hs). by apply NoDup_app in Hs as (Hs & _). }
  exists chain. split; [|done].
  assert (length chain <= if memory then n else 0)%nat as Hlen.
  { apply Permutation_length in Hn. rewrite !length_app, length_seq, Es in Hn. simpl in Hn. lia. }
  rewrite (destroy_free_list_chain _ _ chain _ (li_chain _ _ _ _ _ _ H1) Hlen), filter_none; [done|].
  intros b Hb Hd. specialize (Hin b Hb). unfold dynamicallyAllocated in Hd. rewrite Es in Hd. simpl in Hd.
  apply Is_true_true, Nat.leb_le in Hd. lia.
Qed.
