(* ===== verification/BlockingQueue.v ===== *)
(** * The blocking queue under every worker

    [src/include/lightweightsemaphore.h] and [src/include/blockingconcurrentqueue.h]: the queue
    of the thread pool, of the WAL, of the order books, of the settlement and of the publisher.
    A counter [m_count], which goes below zero while consumers wait, a kernel semaphore they
    sleep on, and an inner lock-free queue, which is taken by its contract: an enqueue adds the
    items or, when memory runs out, fails and adds nothing; a dequeue returns any of them once
    and may come back empty-handed.

    Every atomic access is one step of one operation in flight; [bq_exec] interleaves them. *)

From S2P Require Import Prelude.
From stdpp Require Import base list.
From Stdlib Require Import ZArith Lia.
Local Open Scope Z_scope.

(** ** The operations *)

(** A wait on the semaphore: [tryWait] and [wait] take one permit, [tryWaitMany] and [waitMany]
    up to [c_max]; [c_timeout] is the timeout in microseconds, negative for ever, [None] for the
    [try] forms; [c_retry] marks [wait_dequeue], which loops on a failed wait. *)
Record call := mkCall { c_many : bool; c_max : Z; c_timeout : option Z; c_retry : bool }.

Definition try_dequeue : call := mkCall false 1 None false.
Definition try_dequeue_bulk (max : Z) : call := mkCall true max None false.
Definition wait_dequeue : call := mkCall false 1 (Some (-1)) true.
Definition wait_dequeue_timed (timeout_usecs : Z) : call := mkCall false 1 (Some timeout_usecs) false.
Definition wait_dequeue_bulk_timed (max timeout_usecs : Z) : call := mkCall true max (Some timeout_usecs) false.
Definition wait_dequeue_bulk (max : Z) : call := wait_dequeue_bulk_timed max (-1).

(** Where a wait stands: before the load and before the compare-and-swap of [tryWaitMany] (with
    the permits already held and the value loaded), the same of the spinning loop (with the spins
    left), before the [fetch_sub], in the kernel wait, and in the loop that takes the decrement
    back after a timeout. *)
Inductive stage :=
| Load (held : Z) | Cas (held old : Z)
| Spin (k : nat) | SpinCas (k : nat) (old : Z)
| Sub | Kernel
| Adjust | AdjustCas (old : Z).

Inductive progress := More (c : call) (st : stage) | Acquired (n : Z).

(** The shared words: [m_count] and the value of the kernel semaphore. *)
Record LightweightSemaphore := mkSema { m_count : Z; m_sema : Z }.

Definition new_count (c : call) (old : Z) : Z :=
  if c_many c then (if c_max c <? old then old - c_max c else 0) else old - 1.

(** One permit after the [fetch_sub]: [return 1 + tryWaitMany(max - 1)] when more are wanted. *)
Definition one_held (c : call) : progress :=
  if c_many c && (1 <? c_max c) then More (mkCall true (c_max c - 1) None false) (Load 1) else Acquired 1.

(** After [tryWaitMany] returned [held]: the callers that may block go on when it is 0. *)
Definition wait_more (maxSpins : nat) (c : call) (held : Z) : progress :=
  match c_timeout c with
  | Some _ => if (held =? 0) && (0 <? c_max c) then More c (Spin maxSpins) else Acquired held
  | None => Acquired held
  end.

(** The loop of [tryWait] and [tryWaitMany]: [ok] when the weak compare-and-swap does not fail
    spuriously. *)
Definition try_step (maxSpins : nat) (c : call) (held old : Z) (ok : bool) (s : LightweightSemaphore)
    : progress * LightweightSemaphore :=
  if 0 <? old then
    if ok && (m_count s =? old)
    then (Acquired (held + (old - new_count c old)), mkSema (new_count c old) (m_sema s))
    else (More c (Cas held (m_count s)), s)
  else (wait_more maxSpins c held, s).

(** One atomic step of a wait; the stages from [Spin] on are [waitManyWithPartialSpinning].  [ok]
    in [Kernel]: the wait was not timed out.  [None]: the thread sleeps. *)
Definition wait_step (maxSpins : nat) (c : call) (st : stage) (ok : bool) (s : LightweightSemaphore)
    : option (progress * LightweightSemaphore) :=
  let m := m_count s in
  match st with
  | Load held => Some (More c (Cas held m), s)
  | Cas held old => Some (try_step maxSpins c held old ok s)
  | Spin O => Some (More c Sub, s)
  | Spin (S k) => Some (More c (SpinCas k m), s)
  | SpinCas k old =>
      if (0 <? old) && (m =? old)
      then Some (Acquired (old - new_count c old), mkSema (new_count c old) (m_sema s))
      else Some (More c (Spin k), s)
  | Sub =>
      let s' := mkSema (i64 (m - 1)) (m_sema s) in
      if 0 <? m then Some (one_held c, s')
      else if default 0 (c_timeout c) =? 0 then Some (More c Adjust, s') else Some (More c Kernel, s')
  | Kernel =>
      if ok then (if 0 <? m_sema s then Some (one_held c, mkSema m (m_sema s - 1)) else None)
      else Some (More c Adjust, s)
  | Adjust => Some (More c (AdjustCas m), s)
  | AdjustCas old =>
      if 0 <=? old then
        if 0 <? m_sema s then Some (one_held c, mkSema m (m_sema s - 1)) else Some (More c Adjust, s)
      else if m =? old then Some (Acquired 0, mkSema (old + 1) (m_sema s)) else Some (More c Adjust, s)
  end.

(** [signal(count)]: the counter, and how many sleepers to wake. *)
Definition signal_add (count : Z) (s : LightweightSemaphore) : Z * LightweightSemaphore :=
  let oldCount := m_count s in
  let toRelease := if - oldCount <? count then - oldCount else count in
  (if 0 <? toRelease then i32 toRelease else 0, mkSema (i64 (oldCount + count)) (m_sema s)).

Definition signal_post (s : LightweightSemaphore) : LightweightSemaphore := mkSema (m_count s) (m_sema s + 1).

(** ** The queue *)

Section Queue.
Context {A : Type}.

(** An operation in flight, or finished. *)
Inductive thread :=
| Waiting (c : call) (st : stage)
| Taking (n : Z) (got : list A)           (* holds n permits and has dequeued got *)
| Taken (got : list A)
| Putting (items : list A)                (* before inner.enqueue_bulk *)
| Signalling (items : list A)             (* before the fetch_add of signal *)
| Posting (items : list A) (r : Z)        (* r kernel posts to go *)
| Put (items : list A)                    (* returned true *)
| Rejected (items : list A).              (* returned false *)

Inductive operation := Enqueue (items : list A) | Dequeue (c : call).

Record BlockingConcurrentQueue := mkBQ { inner : list A; sema : LightweightSemaphore; threads : list thread }.
Implicit Types (q : BlockingConcurrentQueue).

Definition empty_queue : BlockingConcurrentQueue := mkBQ [] (mkSema 0 0) [].

(** What a wait that acquired [n] permits goes on with. *)
Definition after_wait (c : call) (n : Z) : thread :=
  if (n =? 0) && c_retry c then Waiting c (Load 0) else Taking n [].

(** A step of a thread: [ok] as in [wait_step], and for an enqueue, whether [inner.enqueue]
    succeeds: only then is there a [signal].  [ks] are the elements the inner queue hands out
    to [try_dequeue_bulk(max - count)], none when it comes back empty-handed. *)
Definition thread_step (maxSpins : nat) (t : thread) (ok : bool) (ks : list nat) (l : list A) (s : LightweightSemaphore)
    : option (thread * list A * LightweightSemaphore) :=
  match t with
  | Waiting c st =>
      match wait_step maxSpins c st ok s with
      | None => None
      | Some (More c' st', s') => Some (Waiting c' st', l, s')
      | Some (Acquired n, s') => Some (after_wait c n, l, s')
      end
  | Taking n got =>
      if Z.of_nat (length got) =? n then Some (Taken got, l, s)
      else if Z.of_nat (length got + length ks) <=? n then
        match dequeue ks l with
        | None => None
        | Some (batch, rest) => Some (Taking n (got ++ batch), rest, s)
        end
      else None
  | Taken _ | Put _ | Rejected _ => None
  | Putting items => if ok then Some (Signalling items, l ++ items, s) else Some (Rejected items, l, s)
  | Signalling items =>
      let '(r, s') := signal_add (Z.of_nat (length items)) s in Some (Posting items r, l, s')
  | Posting items r => if 0 <? r then Some (Posting items (r - 1), l, signal_post s) else Some (Put items, l, s)
  end.

Inductive queue_action := Begin (o : operation) | Step (i : nat) (ok : bool) (ks : list nat).

Definition enqueue (item : A) : operation := Enqueue [item].
Definition enqueue_bulk (items : list A) : operation := Enqueue items.

Definition begin_thread (o : operation) : thread :=
  match o with Enqueue items => Putting items | Dequeue c => Waiting c (Load 0) end.

Definition bq_exec (maxSpins : nat) (a : queue_action) q : option BlockingConcurrentQueue :=
  match a with
  | Begin o => Some (mkBQ (inner q) (sema q) (begin_thread o :: threads q))
  | Step i ok ks =>
      match threads q !! i with
      | None => None
      | Some t =>
          match thread_step maxSpins t ok ks (inner q) (sema q) with
          | None => None
          | Some (t', l', s') => Some (mkBQ l' s' (<[i := t']> (threads q)))
          end
      end
  end.

Fixpoint bq_run (maxSpins : nat) (l : list queue_action) q : option BlockingConcurrentQueue :=
  match l with
  | [] => Some q
  | a :: l' => match bq_exec maxSpins a q with Some q' => bq_run maxSpins l' q' | None => None end
  end.
End Queue.
Arguments thread : clear implicits.
Arguments BlockingConcurrentQueue : clear implicits.
Arguments queue_action : clear implicits.
Arguments operation : clear implicits.

(** ** The accounts of the queue *)

Section Accounts.
Context {A : Type} (maxSpins : nat).
Implicit Types (q : BlockingConcurrentQueue A) (t : thread A).

(** Waiting in the kernel, or about to: the decrements of [m_count] not yet paid for. *)
Definition waits t : Z :=
  match t with Waiting _ (Kernel | Adjust | AdjustCas _) => 1 | _ => 0 end.
(** Permits held for elements not yet taken. *)
Definition claims t : Z :=
  match t with
  | Waiting _ (Load held | Cas held _) => held
  | Taking n got => n - Z.of_nat (length got)
  | _ => 0
  end.
(** Elements in the inner queue that the counter does not show yet, and kernel posts to come. *)
Definition unsignalled t : Z := match t with Signalling items => Z.of_nat (length items) | _ => 0 end.
Definition owed t : Z := match t with Posting _ r => r | _ => 0 end.
Definition dequeued t : list A := match t with Taking _ got | Taken got => got | _ => [] end.
Definition enqueued t : list A := match t with Signalling items | Posting items _ | Put items => items | _ => [] end.
Definition weight t : Z :=
  match t with Putting items | Signalling items | Posting items _ | Put items | Rejected items =>
      1 + Z.of_nat (length items) | _ => 1 end.

Definition call_ok (c : call) : Prop := 0 <= c_max c /\ (c_many c = false -> c_max c = 1).

Definition thread_ok t : Prop :=
  match t with
  | Waiting c (Load held | Cas held _) => call_ok c /\ 0 <= held
  | Waiting c _ => call_ok c
  | Taking n got => Z.of_nat (length got) <= n
  | Posting _ r => 0 <= r
  | _ => True
  end.

(** What one step of a thread leaves unchanged, whatever the others do. *)
Record step_ok t (l : list A) (s : LightweightSemaphore) t' l' s' : Prop := {
  so_thread : thread_ok t';
  so_sema : 0 <= m_sema s';
  so_count : Z.of_nat (length l') - unsignalled t' - claims t' - waits t' - m_count s' =
             Z.of_nat (length l) - unsignalled t - claims t - waits t - m_count s;
  so_kernel : m_sema s' + owed t' + Z.max 0 (- m_count s') - waits t' =
              m_sema s + owed t + Z.max 0 (- m_count s) - waits t;
  so_items : (l' ++ dequeued t') ++ enqueued t ≡ₚ (l ++ dequeued t) ++ enqueued t'
}.

Lemma new_count_range c old : call_ok c -> 0 < old -> 0 <= new_count c old <= old.
Proof. unfold call_ok, new_count. intros [H1 H2] Ho. destruct (c_many c); [|lia]. destruct (_ <? old) eqn:E; zbool; lia. Qed.

(** What a thread does after a step of its wait. *)
Definition follow (r : progress) : thread A :=
  match r with More c' st' => Waiting c' st' | Acquired n => Taking n [] end.

Lemma one_held_ok c : call_ok c ->
  let t := follow (one_held c) in
  thread_ok t /\ claims t = 1 /\ waits t = 0 /\ unsignalled t = 0 /\ owed t = 0 /\
  dequeued t = [] /\ enqueued t = [].
Proof.
  intros [H1 H2]. unfold one_held. destruct (c_many c && (1 <? c_max c)) eqn:Em; simpl; split_and!; try done; try lia.
  zbool. unfold call_ok. simpl. split; [lia|done].
Qed.

Lemma wait_step_ok c st ok s r s' l :
  thread_ok (Waiting c st) -> 0 <= m_sema s -> - 2 ^ 31 < m_count s < 2 ^ 31 ->
  wait_step maxSpins c st ok s = Some (r, s') -> step_ok (Waiting c st) l s (follow r) l s'.
Proof.
  intros Ht Hk Hm E.
  assert (call_ok c) as Hc by (destruct st; simpl in Ht; tauto).
  pose proof (one_held_ok c Hc) as (O1 & O2 & O3 & O4 & O5 & O6 & O7).
  assert (i64 (m_count s - 1) = m_count s - 1) as Hw by (apply wrapS_id; [lia|mword]).
  destruct st as [held|held old|[|k]|k old| | | |old]; simpl in E.
  - injection E as <- <-. by split.
  - injection E as E. unfold try_step, wait_more in E. destruct Ht as [_ Hh]. destruct (0 <? old) eqn:Eo; zbool.
    + pose proof (new_count_range c old Hc Eo). destruct (ok && (m_count s =? old)) eqn:Ec; injection E as <- <-; [|by split].
      zbool. split; simpl; try done; lia.
    + assert (step_ok (Waiting c (Cas held old)) l s (Taking held []) l s) as Hr by (split; simpl; try done; lia).
      destruct (c_timeout c); [|by injection E as <- <-].
      destruct ((held =? 0) && (0 <? c_max c)) eqn:Eh; injection E as <- <-; [|done]. zbool.
      split; simpl; try done; lia.
  - injection E as <- <-. by split.
  - injection E as <- <-. by split.
  - destruct ((0 <? old) && (m_count s =? old)) eqn:Eo; injection E as <- <-; [|by split].
    zbool. pose proof (new_count_range c old Hc ltac:(lia)). split; simpl; try done; lia.
  - rewrite Hw in E. destruct (0 <? m_count s) eqn:E0; zbool.
    + injection E as <- <-. split; rewrite ?O2, ?O3, ?O4, ?O5, ?O6, ?O7; simpl; try done; lia.
    + destruct (_ =? 0); injection E as <- <-; (split; simpl; try done; lia).
  - destruct ok; [|injection E as <- <-; by split].
    destruct (0 <? m_sema s) eqn:E0; [|done]. zbool. injection E as <- <-.
    split; rewrite ?O2, ?O3, ?O4, ?O5, ?O6, ?O7; simpl; try done; lia.
  - injection E as <- <-. by split.
  - destruct (0 <=? old) eqn:Eo; zbool.
    + destruct (0 <? m_sema s) eqn:E0; injection E as <- <-; [|by split]. zbool.
      split; rewrite ?O2, ?O3, ?O4, ?O5, ?O6, ?O7; simpl; try done; lia.
    + destruct (m_count s =? old) eqn:Ec; injection E as <- <-; [|by split]. zbool.
      split; simpl; try done; lia.
Qed.

Lemma thread_step_ok t ok ks l s t' l' s' :
  thread_ok t -> 0 <= m_sema s -> - 2 ^ 31 < m_count s < 2 ^ 31 -> weight t < 2 ^ 31 ->
  thread_step maxSpins t ok ks l s = Some (t', l', s') -> step_ok t l s t' l' s'.
Proof.
  intros Ht Hk Hm Hwt E. destruct t as [c st|n got|got|items|items|items r|items|items]; simpl in E; try done.
  - destruct (wait_step maxSpins c st ok s) as [[r s1]|] eqn:Ew; [|done].
    pose proof (wait_step_ok c st ok s r s1 l Ht Hk Hm Ew) as Hs.
    destruct r as [c' st'|n]; injection E as <- <- <-; [done|].
    unfold after_wait. destruct ((n =? 0) && c_retry c) eqn:En; [|done]. zbool. subst n.
    assert (call_ok c) as Hc by (destruct st; simpl in Ht; tauto).
    destruct Hs. split; simpl in *; try done; lia.
  - destruct (Z.of_nat (length got) =? n) eqn:En; zbool.
    + injection E as <- <- <-. split; simpl; try done; lia.
    + destruct (Z.of_nat (length got + length ks) <=? n) eqn:El; [|done]. zbool.
      destruct (dequeue ks l) as [[batch rest]|] eqn:Ed; [|done]. injection E as <- <- <-.
      apply dequeue_length in Ed as Hlen. apply dequeue_perm in Ed.
      pose proof (Permutation_length Ed) as Hl. rewrite length_app in Hl.
      split; simpl; rewrite ?length_app; try done; try lia.
      rewrite Ed. rewrite !app_nil_r. rewrite (Permutation_app_comm got batch), app_assoc.
      by rewrite (Permutation_app_comm rest batch).
  - destruct ok; injection E as <- <- <-; split; simpl; rewrite ?length_app; try done; try lia. by rewrite !app_nil_r.
  - unfold signal_add in E. simpl in Hwt. injection E as <- <- <-.
    assert (i64 (m_count s + Z.of_nat (length items)) = m_count s + Z.of_nat (length items)) as Hi
      by (apply wrapS_id; [lia|mword]).
    set (rel := if - m_count s <? Z.of_nat (length items) then - m_count s else Z.of_nat (length items)) in *.
    assert (rel = Z.min (- m_count s) (Z.of_nat (length items))) as Hrel
      by (subst rel; destruct (_ <? _) eqn:E; zbool; lia).
    assert (0 < rel -> i32 rel = rel) as Hr by (intros; apply wrapS_id; [lia|mword]).
    destruct (0 <? rel) eqn:E0; zbool; (split; simpl; rewrite ?Hi, ?Hr by done; try done; lia).
  - destruct (0 <? r) eqn:Er; zbool; injection E as <- <- <-; simpl in *; (split; simpl; try done; lia).
Qed.
(** The accounts of the whole queue: the counter is the elements not claimed by anyone, less the
    waiters; the waiters below zero are exactly those the kernel semaphore will wake. *)
Record queue_ok q : Prop := {
  qo_threads : Forall thread_ok (threads q);
  qo_sema : 0 <= m_sema (sema q);
  qo_count : Z.of_nat (length (inner q)) =
             zsum unsignalled (threads q) + zsum claims (threads q) + zsum waits (threads q) + m_count (sema q);
  qo_kernel : m_sema (sema q) + zsum owed (threads q) + Z.max 0 (- m_count (sema q)) = zsum waits (threads q);
  qo_items : inner q ++ concat (dequeued <$> threads q) ≡ₚ concat (enqueued <$> threads q)
}.

Definition size q : Z := zsum weight (threads q).

Lemma thread_bounds t : thread_ok t ->
  0 <= unsignalled t /\ 0 <= claims t /\ 0 <= waits t <= weight t /\ 0 <= owed t /\ 1 <= weight t /\
  Z.of_nat (length (enqueued t)) <= weight t.
Proof.
  destruct t as [c st|n got|got|items|items|items r|items|items]; simpl; intros H; try (split_and!; simpl; lia).
  destruct st; simpl in *; split_and!; lia.
Qed.

Lemma enqueued_size (l : list (thread A)) : Forall thread_ok l -> Z.of_nat (length (concat (enqueued <$> l))) <= zsum weight l.
Proof.
  induction 1 as [|t l Ht _ IH]; [done|]. rewrite fmap_cons, zsum_cons. simpl. rewrite length_app.
  pose proof (thread_bounds t Ht). lia.
Qed.

Lemma queue_ok_count q : queue_ok q -> size q < 2 ^ 31 -> - 2 ^ 31 < m_count (sema q) < 2 ^ 31.
Proof.
  intros [Ht Hs Hc Hk Hi] Hz. unfold size in Hz.
  apply Permutation_length in Hi. rewrite length_app in Hi. pose proof (enqueued_size _ Ht).
  assert (forall f : thread A -> Z, (forall t, thread_ok t -> 0 <= f t) -> 0 <= zsum f (threads q)) as Hn.
  { intros f Hf. apply zsum_nonneg. intros t Hin. apply Hf. by eapply Forall_forall in Ht. }
  assert (zsum waits (threads q) <= zsum weight (threads q)).
  { clear -Ht. induction Ht as [|t l H _ IH]; [done|]. rewrite !zsum_cons. pose proof (thread_bounds t H). lia. }
  pose proof (Hn unsignalled ltac:(intros; by apply thread_bounds)).
  pose proof (Hn claims ltac:(intros; by apply thread_bounds)).
  pose proof (Hn waits ltac:(intros; by apply thread_bounds)).
  pose proof (Hn owed ltac:(intros; by apply thread_bounds)). lia.
Qed.

(** An operation as the library's assertions require it. *)
Definition action_ok (a : queue_action A) : Prop :=
  match a with Begin (Dequeue c) => call_ok c | _ => True end.

Lemma thread_step_weight t ok ks l s t' l' s' :
  thread_step maxSpins t ok ks l s = Some (t', l', s') -> weight t' = weight t.
Proof.
  destruct t as [c st|n got|got|items|items|items r|items|items]; simpl; try done.
  - destruct (wait_step maxSpins c st ok s) as [[[c' st'|n] s1]|]; [| |done]; intros [= <- _ _]; [done|].
    unfold after_wait. by destruct (_ && _).
  - destruct (_ =? n); [by intros [= <- _ _]|]. destruct (_ <=? n); [|done].
    destruct (dequeue ks l) as [[b r]|]; [|done]. by intros [= <- _ _].
  - destruct ok; by intros [= <- _ _].
  - by intros [= <- _ _].
  - destruct (0 <? r); by intros [= <- _ _].
Qed.

Lemma bq_exec_size a q q' : bq_exec maxSpins a q = Some q' -> size q <= size q'.
Proof.
  unfold size. destruct a as [o|i ok ks]; simpl.
  - intros [= <-]. simpl. destruct o; simpl; lia.
  - destruct (threads q !! i) as [t|] eqn:Ei; [|done].
    destruct (thread_step maxSpins t ok ks (inner q) (sema q)) as [[[t' l'] s']|] eqn:Et; [|done].
    intros [= <-]. simpl. apply thread_step_weight in Et.
    rewrite (insert_perm _ _ _ _ Ei), zsum_cons, (zsum_delete weight _ _ _ Ei). lia.
Qed.

Lemma bq_exec_ok a q q' :
  queue_ok q -> action_ok a -> size q < 2 ^ 31 -> bq_exec maxSpins a q = Some q' -> queue_ok q'.
Proof.
  intros Hq Ha Hz. pose proof (queue_ok_count q Hq Hz) as Hm. destruct Hq as [Ht Hs Hc Hk Hi].
  destruct a as [o|i ok ks]; simpl.
  - intros [= <-]. assert (thread_ok (begin_thread o)) as Ho by (destruct o; simpl in *; [done|split; [done|lia]]).
    split; simpl; [by constructor|done|..]; destruct o; simpl; done || lia.
  - destruct (threads q !! i) as [t|] eqn:Ei; [|done].
    destruct (thread_step maxSpins t ok ks (inner q) (sema q)) as [[[t' l'] s']|] eqn:Et; [|done].
    intros [= <-].
    assert (thread_ok t) as Htt by (by eapply Forall_lookup in Ht).
    assert (weight t <= size q) as Hw.
    { apply zsum_elem_le; [|by eapply list_elem_of_lookup_2]. intros y Hy.
      eapply Forall_forall in Hy; [|done]. pose proof (thread_bounds y Hy). lia. }
    apply thread_step_ok in Et as [S1 S2 S3 S4 S5]; [|done|done|done|lia].
    pose proof (delete_Permutation _ _ _ Ei) as Hd. rewrite Hd in Ht, Hc, Hk, Hi.
    pose proof (insert_perm _ _ _ t' Ei) as Hins.
    set (rest := delete i (threads q)) in *. rewrite !zsum_cons in Hc. rewrite !zsum_cons in Hk.
    inversion_clear Ht as [|? ? _ Hrest].
    split; simpl; rewrite ?Hins, ?zsum_cons; [by constructor|done|lia|lia|].
    simpl in Hi |- *. apply (Permutation_app_inv_l (enqueued t)).
    transitivity (((l' ++ dequeued t') ++ enqueued t) ++ concat (dequeued <$> rest)).
    { rewrite (Permutation_app_comm (enqueued t)), <- !app_assoc. do 2 f_equiv. apply Permutation_app_comm. }
    rewrite S5. transitivity ((inner q ++ dequeued t ++ concat (dequeued <$> rest)) ++ enqueued t').
    { rewrite <- !app_assoc. do 2 f_equiv. apply Permutation_app_comm. }
    rewrite Hi, <- app_assoc. f_equiv. apply Permutation_app_comm.
Qed.

Lemma bq_run_ok l q q' :
  queue_ok q -> Forall action_ok l -> bq_run maxSpins l q = Some q' -> size q' < 2 ^ 31 -> queue_ok q'.
Proof.
  intros Hq Hl. revert q Hq. induction Hl as [|a l Ha Hl IH]; intros q Hq; simpl; [by intros [= <-]|].
  destruct (bq_exec maxSpins a q) as [q1|] eqn:E; [|done]. intros Er Hz. apply (IH q1); [|done|done].
  eapply bq_exec_ok; [done|done| |done]. apply bq_exec_size in E.
  assert (size q1 <= size q'); [|lia]. clear -Er. revert q1 Er. induction l as [|b l IH]; intros q1; simpl; [intros [= <-]; lia|].
  destruct (bq_exec maxSpins b q1) as [q2|] eqn:E; [|done]. intros H%IH. apply bq_exec_size in E. lia.
Qed.

(** An operation that has returned. *)
Definition returned t : Prop := match t with Taken _ | Put _ | Rejected _ => True | _ => False end.

Lemma returned_sums (l : list (thread A)) :
  Forall returned l -> zsum unsignalled l = 0 /\ zsum claims l = 0 /\ zsum waits l = 0 /\ zsum owed l = 0.
Proof.
  induction 1 as [|t l Ht _ IH]; [done|]. rewrite !zsum_cons. destruct IH as (-> & -> & -> & ->). by destruct t.
Qed.

(** A producer between its enqueue and the end of its [signal]. *)
Definition signalling t : Prop := 0 < unsignalled t \/ 0 < owed t.

Lemma quiet_sums (l : list (thread A)) :
  Forall thread_ok l -> Forall (fun t => ~ signalling t) l -> zsum unsignalled l = 0 /\ zsum owed l = 0.
Proof.
  induction 1 as [|t l Ht _ IH]; [done|]. inversion_clear 1 as [|? ? Hn Hl]. destruct (IH Hl).
  rewrite !zsum_cons. pose proof (thread_bounds t Ht). unfold signalling in Hn. lia.
Qed.

Lemma claims_available q i n got :
  queue_ok q -> size q < 2 ^ 31 -> threads q !! i = Some (Taking n got) ->
  n - Z.of_nat (length got) <= Z.of_nat (length (inner q)).
Proof.
  intros Hq Hz Hi. destruct Hq as [Ht Hs Hc Hk _].
  assert (forall f : thread A -> Z, (forall t, thread_ok t -> 0 <= f t) -> forall t, t ∈ threads q -> 0 <= f t) as Hn.
  { intros f Hf t Hin. apply Hf. by eapply Forall_forall in Ht. }
  pose proof (zsum_nonneg owed (threads q) (Hn owed ltac:(intros; by apply thread_bounds))).
  pose proof (zsum_nonneg unsignalled (threads q) (Hn unsignalled ltac:(intros; by apply thread_bounds))).
  pose proof (zsum_elem_le claims (threads q) (Taking n got) (Hn claims ltac:(intros; by apply thread_bounds))
                ltac:(by eapply list_elem_of_lookup_2)) as H1.
  simpl in H1. lia.
Qed.

(** C22: the queue between the threads of the server, under every interleaving of its atomic
    accesses, with timeouts, spurious failures and failing enqueues.  No element is lost or
    handed out twice: what is in the queue or was handed out are exactly the elements of the
    enqueues that succeeded; when no call is in progress the counter is exactly the number of
    elements, and the kernel semaphore is at zero; a
    consumer that left the semaphore always finds the elements it was promised, so the loops that
    retry the inner queue end; and no wake-up is lost: when a consumer sleeps with nothing to wake
    it and no producer is inside [signal], every element of the queue is promised to others. *)
Theorem blocking_queue_correct (l : list (queue_action A)) q :
  Forall action_ok l -> bq_run maxSpins l empty_queue = Some q -> size q < 2 ^ 31 ->
  inner q ++ concat (dequeued <$> threads q) ≡ₚ concat (enqueued <$> threads q) /\
  (Forall returned (threads q) -> m_count (sema q) = Z.of_nat (length (inner q)) /\ m_sema (sema q) = 0) /\
  (forall i n got, threads q !! i = Some (Taking n got) ->
     exists ks q', (Z.of_nat (length got + length ks) = n) /\ bq_exec maxSpins (Step i true ks) q = Some q') /\
  (forall i c, threads q !! i = Some (Waiting c Kernel) -> bq_exec maxSpins (Step i true []) q = None ->
     Forall (fun t => ~ signalling t) (threads q) -> Z.of_nat (length (inner q)) = zsum claims (threads q)).
Proof.
  intros Hl E Hz. assert (queue_ok q) as Hq.
  { eapply bq_run_ok; [|done..]. split; simpl; done || constructor. }
  split; [apply Hq|split; [|split]].
  - intros Hret. destruct (returned_sums _ Hret) as (H1 & H2 & H3 & H4). destruct Hq as [_ Hs Hc Hk _]. lia.
  - intros i n got Hi. pose proof (claims_available q i n got Hq Hz Hi) as Hav.
    destruct Hq as [Ht _ _ _ _]. pose proof (Forall_lookup_1 _ _ _ _ Ht Hi) as Hn. simpl in Hn.
    exists (replicate (Z.to_nat (n - Z.of_nat (length got))) 0%nat). simpl. rewrite Hi. simpl.
    rewrite length_replicate. destruct (Z.of_nat (length got) =? n) eqn:Eg; zbool.
    + eexists. split; [lia|done].
    + destruct (_ <=? n) eqn:El; zbool; [|lia].
      rewrite dequeue_front by lia. eexists. split; [lia|done].
  - intros i c Hi Hst Hquiet. destruct Hq as [Ht Hs Hc Hk _]. simpl in Hst. rewrite Hi in Hst. simpl in Hst.
    destruct (0 <? m_sema (sema q)) eqn:E0; zbool; [unfold after_wait in Hst|].
    { destruct (one_held c); done. }
    destruct (quiet_sums _ Ht Hquiet) as [H1 H2].
    pose proof (zsum_elem_le waits (threads q) (Waiting c Kernel)) as Hw.
    assert (1 <= zsum waits (threads q)); [apply Hw|lia].
    + intros t Hin. eapply Forall_forall in Ht; [|done]. by apply thread_bounds.
    + by eapply list_elem_of_lookup_2.
Qed.
End Accounts.

(** Two consumers fall asleep, a batch of three wakes both; one takes two elements; another enqueue
    finds no memory. *)
Module SampleQueue.
Definition acts : list (queue_action Z) :=
  [Begin (Dequeue wait_dequeue); Begin (Dequeue (wait_dequeue_bulk_timed 2 (-1)))] ++
  replicate 6 (Step 0 true []) ++ replicate 6 (Step 1 true []) ++
  [Begin (Enqueue [10; 20; 30])] ++ replicate 4 (Step 0 true []) ++ replicate 3 (Step 1 true []) ++
  [Begin (Enqueue [40]); Step 0 false []].
Definition q : BlockingConcurrentQueue Z := default empty_queue (bq_run 1 acts empty_queue).
End SampleQueue.

Lemma blocking_queue_correct_witness :
  bq_run 1 SampleQueue.acts empty_queue = Some SampleQueue.q /\ threads SampleQueue.q !! 2%nat = Some (Taking 2 [])
  /\ inner SampleQueue.q = [10; 20; 30] /\
  exists ks q', Z.of_nat (length (@nil Z) + length ks) = 2 /\ bq_exec 1 (Step 2 true ks) SampleQueue.q = Some q'.
Proof.
  split; [vm_compute; reflexivity|]. split; [vm_compute; reflexivity|]. split; [vm_compute; reflexivity|].
  destruct (blocking_queue_correct 1 SampleQueue.acts SampleQueue.q) as (_ & _ & H & _).
  - repeat constructor; simpl; try lia; intros; done.
  - vm_compute. reflexivity.
  - vm_compute. reflexivity.
  - apply (H 2%nat 2 []). vm_compute. reflexivity.
Defined.
