(* ===== verification/World.v ===== *)
(** * The state of the server and its atomic actions

    The server's threads share the account store, the database, the order store and the
    queues between them: handlers -> WAL worker -> one worker per ticker -> settlement
    worker and market data publisher.  [World] collects that state.  An [action] is one
    atomic piece of work of one thread, between two points at which another thread can be
    observed; [exec] performs it.  The handlers of Handlers.v and the worker loops of
    Engine.v, WALManager.v and SettlementProcessor.v are sequences of these actions. *)

From S2P Require Import Prelude Bytes Common OrderIdGenerator OrderBook OrderBookProofs TickerManager Accounts Repositories.
From S2P Require Import Engine WALManager SettlementProcessor.
From stdpp Require Import base list gmap.
From Stdlib Require Import ZArith Lia.
Local Open Scope Z_scope.

(** ** The world *)

Record World (S D : Type) := mkWorld {
  w_heap : heap;                      (* the orders *)
  w_ticks : nat;                      (* readings of system_clock so far *)
  w_seq : Z;                          (* OrderIdGenerator::sequence_ *)
  w_tickers : TickerManager;
  w_users : S;                        (* UserManager *)
  w_db : D;
  w_flight : list oref;               (* funds frozen, not yet appended by its handler *)
  w_wal : WALManager;
  w_engine : MatchingEngine;
  w_dropped : list oref;              (* orders the engine refused: no book for the ticker *)
  w_settle : SettlementQueues;
  w_half : option MatchRecord;        (* the record between commitBuy and commitSell *)
  w_market : list MatchRecord         (* MarketDataPublisher::queue_ *)
}.
Arguments mkWorld {S D}.
Arguments w_heap {S D}. Arguments w_ticks {S D}. Arguments w_seq {S D}. Arguments w_tickers {S D}.
Arguments w_users {S D}. Arguments w_db {S D}. Arguments w_flight {S D}. Arguments w_wal {S D}.
Arguments w_engine {S D}. Arguments w_dropped {S D}. Arguments w_settle {S D}. Arguments w_half {S D}.
Arguments w_market {S D}.

Section World.
Context {S D : Type} `{AS : AccountStore S} `{UR : IUserRepository D} `{SR : IStockRepository D}.
Context (clock : nat -> Z).
Implicit Types (w : World S D) (uid ticker : Z).

Definition set_users (u : S) w : World S D :=
  mkWorld (w_heap w) (w_ticks w) (w_seq w) (w_tickers w) u (w_db w) (w_flight w) (w_wal w)
    (w_engine w) (w_dropped w) (w_settle w) (w_half w) (w_market w).
Definition set_db (d : D) w : World S D :=
  mkWorld (w_heap w) (w_ticks w) (w_seq w) (w_tickers w) (w_users w) d (w_flight w) (w_wal w)
    (w_engine w) (w_dropped w) (w_settle w) (w_half w) (w_market w).
Definition set_flight (l : list oref) w : World S D :=
  mkWorld (w_heap w) (w_ticks w) (w_seq w) (w_tickers w) (w_users w) (w_db w) l (w_wal w)
    (w_engine w) (w_dropped w) (w_settle w) (w_half w) (w_market w).
Definition set_wal (x : WALManager) w : World S D :=
  mkWorld (w_heap w) (w_ticks w) (w_seq w) (w_tickers w) (w_users w) (w_db w) (w_flight w) x
    (w_engine w) (w_dropped w) (w_settle w) (w_half w) (w_market w).
Definition set_engine (e : MatchingEngine) w : World S D :=
  mkWorld (w_heap w) (w_ticks w) (w_seq w) (w_tickers w) (w_users w) (w_db w) (w_flight w) (w_wal w)
    e (w_dropped w) (w_settle w) (w_half w) (w_market w).
Definition set_dropped (l : list oref) w : World S D :=
  mkWorld (w_heap w) (w_ticks w) (w_seq w) (w_tickers w) (w_users w) (w_db w) (w_flight w) (w_wal w)
    (w_engine w) l (w_settle w) (w_half w) (w_market w).
Definition set_settle (q : SettlementQueues) w : World S D :=
  mkWorld (w_heap w) (w_ticks w) (w_seq w) (w_tickers w) (w_users w) (w_db w) (w_flight w) (w_wal w)
    (w_engine w) (w_dropped w) q (w_half w) (w_market w).
Definition set_half (m : option MatchRecord) w : World S D :=
  mkWorld (w_heap w) (w_ticks w) (w_seq w) (w_tickers w) (w_users w) (w_db w) (w_flight w) (w_wal w)
    (w_engine w) (w_dropped w) (w_settle w) m (w_market w).
Definition set_market (l : list MatchRecord) w : World S D :=
  mkWorld (w_heap w) (w_ticks w) (w_seq w) (w_tickers w) (w_users w) (w_db w) (w_flight w) (w_wal w)
    (w_engine w) (w_dropped w) (w_settle w) (w_half w) l.
Definition set_heap (h : heap) (ticks : nat) w : World S D :=
  mkWorld h ticks (w_seq w) (w_tickers w) (w_users w) (w_db w) (w_flight w) (w_wal w)
    (w_engine w) (w_dropped w) (w_settle w) (w_half w) (w_market w).
Definition set_sequence (s : Z) (ticks : nat) w : World S D :=
  mkWorld (w_heap w) ticks s (w_tickers w) (w_users w) (w_db w) (w_flight w) (w_wal w)
    (w_engine w) (w_dropped w) (w_settle w) (w_half w) (w_market w).

(** ** The two halves of [TradeHandler::handle] *)

(** [duration_cast<milliseconds>] of a reading in nanoseconds. *)
Definition now_ms (now : Z) : Z := Z.quot now 1000000.

(** The order built for a request: the id and the timestamp read the clock. *)
Definition make_order w uid ticker (sd : OrderSide) (pr amount : Z) : Order * World S D :=
  let '(id, seq) := generate (now_ms (clock (w_ticks w))) (w_seq w) in
  (mkOrder id ticker uid sd pr amount (u64 (clock (1 + w_ticks w))), set_sequence seq (2 + w_ticks w) w).

(** The funds or the shares the order needs. *)
Definition freeze_for (u : S) (o : Order) : S * bool :=
  match side o with
  | BUY => tryFreezeBalance u (user_id o) (i64 (u64 (price o * quantity o)))
  | SELL => tryFreezeStock u (user_id o) (ticker_id o) (i32 (quantity o))
  end.

(** Build the order and try to freeze; on success the order is in flight. *)
Definition trade_freeze w uid ticker sd pr amount : option oref * World S D :=
  let '(o, w1) := make_order w uid ticker sd pr amount in
  let '(u, ok) := freeze_for (w_users w1) o in
  let w2 := set_users u w1 in
  if ok then
    let '(r, h) := make_shared (w_heap w2) o in
    (Some r, set_flight (r :: w_flight w2) (set_heap h (w_ticks w2) w2))
  else (None, w2).

(** [wal_->appendOrder(order)]. *)
Definition trade_append w (r : oref) : World S D :=
  set_flight (filter (fun x => x <> r) (w_flight w)) (set_wal (appendOrder (w_wal w) r) w).

(** ** Actions *)

Inductive action :=
| AFreeze (uid ticker : Z) (sd : OrderSide) (pr amount : Z)   (* TradeHandler *)
| AAppend (r : oref)
| ACancel (ticker oid uid : Z)                                 (* CancelOrderHandler *)
| ACreate (uid : Z) (name : bytes)                             (* Login and Register *)
| ACredit (uid amount : Z)                                     (* DepositHandler *)
| ADatabase (d : D)                                            (* a handler's database call *)
| ATick                                                        (* a handler's clock reading *)
| ALog (ks : list nat)                                         (* WAL worker *)
| AForward
| ATake (ticker : Z) (ks : list nat)                           (* order book worker *)
| AEvent (ticker : Z)
| AFlush (ticker : Z)
| ASettleBuy (i : nat)                                         (* settlement worker *)
| ASettleSell
| ASettleCancel (i : nat).

(** Push what the order book worker produced for one event. *)
Definition push_cancels (cs : list CancelRecord) (q : SettlementQueues) : SettlementQueues :=
  fold_left (fun q c => pushCancelRecord c q) cs q.

Definition forward_event w (ev : EngineEvent) : World S D :=
  let w1 := set_engine (forward (w_engine w) (w_heap w) ev) w in
  match ev_type ev, ev_order ev with
  | NEW_ORDER, Some r =>
      if fst (engine_processOrder (w_engine w) (w_heap w) r) then w1 else set_dropped (r :: w_dropped w1) w1
  | _, _ => w1
  end.

Definition exec_log w (ks : list nat) : option (World S D) :=
  match wal_buffer (w_wal w), dequeue ks (wal_queue (w_wal w)) with
  | [], Some (batch, rest) =>
      let '(wal, t) := wal_log clock (w_wal w) (w_heap w) (w_ticks w) batch rest in
      Some (set_heap (w_heap w) t (set_wal wal w))
  | _, _ => None
  end.

Definition exec_forward w : option (World S D) :=
  match wal_buffer (w_wal w) with
  | ev :: evs => Some (forward_event (set_wal (mkWM (wal_queue (w_wal w)) evs (wal_file_ (w_wal w))) w) ev)
  | [] => None
  end.

Definition exec_take w ticker (ks : list nat) : option (World S D) :=
  match w_engine w !! ticker with
  | Some (mkProc t b q [] []) =>
      match dequeue ks q with
      | Some (batch, rest) => Some (set_engine (<[ticker := mkProc t b rest batch []]> (w_engine w)) w)
      | None => None
      end
  | _ => None
  end.

Definition exec_event w ticker : option (World S D) :=
  match w_engine w !! ticker with
  | Some (mkProc t b q (ev :: evs) res) =>
      let '(p, h, cs, ticks) := process_event clock (mkProc t b q evs res) (w_heap w) (w_ticks w) ev in
      Some (set_settle (push_cancels cs (w_settle w))
             (set_heap h ticks (set_engine (<[ticker := p]> (w_engine w)) w)))
  | _ => None
  end.

(** [MarketDataPublisher::pushRecords], then [SettlementProcessor::pushRecords]. *)
Definition exec_flush w ticker : option (World S D) :=
  match w_engine w !! ticker with
  | Some (mkProc t b q [] res) =>
      Some (set_market (w_market w ++ res)
             (set_settle (pushRecords res (w_settle w))
               (set_engine (<[ticker := mkProc t b q [] []]> (w_engine w)) w)))
  | _ => None
  end.

Definition exec_settle_buy w (i : nat) : option (World S D) :=
  match w_half w, sq_matches (w_settle w) !! i with
  | None, Some rec =>
      let d := settle_db (w_tickers w) (w_users w) rec (w_db w) in
      Some (set_half (Some rec)
             (set_settle (mkSQ (delete i (sq_matches (w_settle w))) (sq_cancels (w_settle w)))
               (set_users (settle_buy (w_users w) rec) (set_db d w))))
  | _, _ => None
  end.

Definition exec_settle_sell w : option (World S D) :=
  match w_half w with
  | Some rec => Some (set_half None (set_users (settle_sell (w_users w) rec) w))
  | None => None
  end.

Definition exec_settle_cancel w (i : nat) : option (World S D) :=
  match w_half w, sq_cancels (w_settle w) !! i with
  | None, Some rec =>
      Some (set_settle (mkSQ (sq_matches (w_settle w)) (delete i (sq_cancels (w_settle w))))
             (set_users (settle_cancel (w_users w) rec) w))
  | _, _ => None
  end.

(** One atomic action; [None] when it is not enabled. *)
Definition exec (a : action) w : option (World S D) :=
  match a with
  | AFreeze uid ticker sd pr amount => Some (snd (trade_freeze w uid ticker sd pr amount))
  | AAppend r => if decide (r ∈ w_flight w) then Some (trade_append w r) else None
  | ACancel ticker oid uid => Some (set_wal (appendCancel (w_wal w) ticker oid uid) w)
  | ACreate uid name => Some (set_users (createUserAccount (w_users w) uid name) w)
  | ACredit uid amount => Some (set_users (addBalance (w_users w) uid amount) w)
  | ADatabase d => Some (set_db d w)
  | ATick => Some (set_sequence (w_seq w) (1 + w_ticks w) w)
  | ALog ks => exec_log w ks
  | AForward => exec_forward w
  | ATake ticker ks => exec_take w ticker ks
  | AEvent ticker => exec_event w ticker
  | AFlush ticker => exec_flush w ticker
  | ASettleBuy i => exec_settle_buy w i
  | ASettleSell => exec_settle_sell w
  | ASettleCancel i => exec_settle_cancel w i
  end.

Fixpoint run (l : list action) w : option (World S D) :=
  match l with
  | [] => Some w
  | a :: l' => match exec a w with Some w' => run l' w' | None => None end
  end.

(** ** The orders that are somewhere in the system *)

Definition event_refs (evs : list EngineEvent) : list oref :=
  omap (fun ev => match ev_type ev with NEW_ORDER => ev_order ev | CANCEL_ORDER => None end) evs.

(** The references of a map of processors, under [f]. *)
Definition procs {A} (f : OrderBookProcessor -> list A) (e : MatchingEngine) : list A :=
  concat ((fun kp => f (snd kp)) <$> map_to_list e).
Definition proc_refs (p : OrderBookProcessor) : list oref :=
  book_refs (p_book p) ++ event_refs (p_buffer p) ++ event_refs (p_queue p).

Definition all_refs w : list oref :=
  w_flight w ++ event_refs (wal_queue (w_wal w)) ++ event_refs (wal_buffer (w_wal w)) ++
  procs proc_refs (w_engine w) ++ w_dropped w.
(** The match records no one has settled yet. *)
Definition pending w : list MatchRecord := sq_matches (w_settle w) ++ procs p_results (w_engine w).

(** ** Runs of the system

    Order ids must be unique for the books to work; the generator guarantees it as long as
    fewer than 4096 ids are drawn per millisecond (OrderIdGenerator.v), so a run is one in
    which no new order gets an id that is still in use. *)

Definition admissible (a : action) w : Prop :=
  match a with
  | AFreeze uid ticker sd pr amount =>
      inU 64 pr /\ inU 32 amount /\
      order_id (fst (make_order w uid ticker sd pr amount)) ∉ (fun r => order_id (deref (w_heap w) r)) <$> all_refs w
  | _ => True
  end.

Inductive reachable (w0 : World S D) : World S D -> Prop :=
| reach_init : reachable w0 w0
| reach_step w a w' : reachable w0 w -> admissible a w -> exec a w = Some w' -> reachable w0 w'.

#[export] Instance admissible_dec a w : Decision (admissible a w).
Proof. destruct a; simpl; apply _. Defined.

(** A run whose actions are all admissible. *)
Fixpoint run_checked (l : list action) w : option (World S D) :=
  match l with
  | [] => Some w
  | a :: l' =>
      if decide (admissible a w) then match exec a w with Some w' => run_checked l' w' | None => None end
      else None
  end.

Lemma run_checked_reachable l w0 w w' : reachable w0 w -> run_checked l w = Some w' -> reachable w0 w'.
Proof.
  revert w. induction l as [|a l IH]; intros w Hw; simpl; [by intros [= <-]|].
  destruct (decide _) as [Ha|]; [|done]. destruct (exec a w) as [w1|] eqn:E; [|done].
  apply IH. by eapply reach_step.
Qed.
End World.
Arguments action : clear implicits.

(** The server right after startup: empty queues, the accounts loaded, an empty book per
    ticker. *)
Definition start_world {S D} (tickers : TickerManager) (u : S) (d : D) (e : MatchingEngine) (file : option FILE)
    : World S D :=
  mkWorld ∅ 0 0 tickers u d [] (mkWM [] [] file) e [] (mkSQ [] []) None [].
