(* ===== verification/ExposureProofs.v ===== *)
(** * Every action preserves the structure and accounts for the exposure

    No action loses an order: one that is no longer in the system was filled in full or
    cancelled ([refs_step]). *)

From S2P Require Import Prelude Bytes Common OrderIdGenerator OrderedMap OrderBook OrderBookSpec OrderBookLoops.
From S2P Require Import OrderBookProofs OrderBookCancel OrderBookBalance TickerManager Accounts Repositories.
From S2P Require Import Engine WALManager SettlementProcessor World Exposure.
From stdpp Require Import base list gmap.
From Stdlib Require Import ZArith Lia.
Local Open Scope Z_scope.

(** Solve a permutation of appended lists after normalising the associations. *)
Ltac perm := repeat rewrite <- ?app_assoc; simpl; solve_Permutation.

Section Proofs.
Context {S D : Type} `{AS : AccountStore S} `{UR : IUserRepository D} `{SR : IStockRepository D}.
Context (clock : nat -> Z) (wb : Z -> Z -> Z -> Z) (ws : Z -> Z -> Z).
Implicit Types (w : World S D).

(** The event the worker of ticker [k] handles next. *)
Definition next_event w (k : Z) : option EngineEvent := p ← w_engine w !! k; head (p_buffer p).

(** Why order [r] is not in the system any more after [a]: matching a new order filled it in
    full, or a cancellation that names its id and its owner took it out of its book, and the
    settlement worker has the record. *)
Inductive leaves w (a : action D) w' (r : oref) : Prop :=
| leaves_filled k ev :
    a = AEvent k -> next_event w k = Some ev -> ev_type ev = NEW_ORDER ->
    quantity (deref (w_heap w') r) = 0 -> leaves w a w' r
| leaves_cancelled k ev :
    a = AEvent k -> next_event w k = Some ev -> ev_type ev = CANCEL_ORDER ->
    order_id (deref (w_heap w) r) = u32 (cancel_order_id ev) -> user_id (deref (w_heap w) r) = cancel_user_id ev ->
    cancel_record (deref (w_heap w) r) (clock (w_ticks w)) ∈ sq_cancels (w_settle w') -> leaves w a w' r.

(** The order [r] appears only by being made and frozen by [a]. *)
Definition made_by w (a : action D) w' (r : oref) : Prop :=
  (exists uid ticker sd pr amount, a = AFreeze uid ticker sd pr amount) /\ w_heap w !! r = None /\ r ∈ w_flight w'.

Record refs_step w (a : action D) w' : Prop := {
  rs_stay r : r ∈ all_refs w -> r ∈ all_refs w' \/ leaves w a w' r;
  rs_new r : r ∈ all_refs w' -> r ∈ all_refs w \/ made_by w a w' r;
  (* an order changes only in its quantity, and only while its ticker's worker handles an event *)
  rs_orders r : r ∈ all_refs w ->
    w_heap w' !! r = w_heap w !! r \/
    (exists k p, a = AEvent k /\ w_engine w !! k = Some p /\ r ∈ proc_refs p) /\
    set_quantity (deref (w_heap w') r) 0 = set_quantity (deref (w_heap w) r) 0
}.

Definition action_ok w (a : action D) w' : Prop :=
  wf w' /\ exposure wb ws w' = exposure wb ws w + exposure_delta clock wb ws w a /\ refs_step w a w'.

Lemma refs_step_same w a w' : w_heap w' = w_heap w -> all_refs w' ≡ₚ all_refs w -> refs_step w a w'.
Proof.
  intros Hh Hp. split; intros r Hr; left; [by rewrite Hp|by rewrite <- Hp|by rewrite Hh].
Qed.

(** ** Engines *)

Lemma engine_ok_insert h e k p :
  engine_ok h e -> book_ok h (p_book p) -> book_ticker_id (p_book p) = k ->
  (forall r, r ∈ proc_refs p -> ticker_id (deref h r) = k) ->
  (forall m, m ∈ p_results p -> mr_ticker_id m = k) -> engine_ok h (<[k := p]> e).
Proof.
  intros He H1 H2 H3 H4. split.
  - intros k' p' [[<- <-]|[_ Hp]]%lookup_insert_Some; [done|]. by apply (en_book _ _ He).
  - intros k' p' r [[<- <-]|[_ Hp]]%lookup_insert_Some Hr; [by apply H3|]. by eapply (en_ticker _ _ He).
  - intros k' p' m [[<- <-]|[_ Hp]]%lookup_insert_Some Hm; [by apply H4|]. by eapply (en_results _ _ He).
Qed.

(** A processor that keeps its book and results, with no new references. *)
Lemma engine_ok_update h e k p p' :
  engine_ok h e -> e !! k = Some p -> p_book p' = p_book p ->
  (forall r, r ∈ proc_refs p' -> r ∈ proc_refs p \/ ticker_id (deref h r) = k) ->
  (forall m, m ∈ p_results p' -> m ∈ p_results p) -> engine_ok h (<[k := p']> e).
Proof.
  intros He Hp Hb Hr Hm. destruct (en_book _ _ He k p Hp) as [H1 H2].
  apply engine_ok_insert; [done|by rewrite Hb..| |].
  - intros r [H|H]%Hr; [|done]. by eapply (en_ticker _ _ He).
  - intros m H%Hm. by eapply (en_results _ _ He).
Qed.

Lemma engine_ok_frame h h' e :
  (forall r, r ∈ procs proc_refs e -> h' !! r = h !! r) -> engine_ok h e -> engine_ok h' e.
Proof.
  intros Hf He. assert (forall k p r, e !! k = Some p -> r ∈ proc_refs p -> h' !! r = h !! r) as Hf'.
  { intros k p r Hp Hr. apply Hf. apply elem_of_procs. eauto. }
  split.
  - intros k p Hp. destruct (en_book _ _ He k p Hp) as [H1 H2]. split; [|done].
    eapply book_ok_frame; [|exact H1]. intros r Hr. eapply Hf'; [done|]. unfold proc_refs. inlist.
  - intros k p r Hp Hr. unfold deref. rewrite (Hf' _ _ _ Hp Hr). by eapply (en_ticker _ _ He).
  - apply He.
Qed.

(** ** Steps that move references without touching the orders *)

Lemma refs_value_perm h l k : l ≡ₚ k -> refs_value wb ws h l = refs_value wb ws h k.
Proof. intros E. unfold refs_value. by rewrite E. Qed.

Lemma quiet_ok w a w' :
  wf w -> w_heap w' = w_heap w -> all_refs w' ≡ₚ all_refs w -> engine_ok (w_heap w) (w_engine w') ->
  zsum (mv wb ws) (pending w') + half_value ws (w_half w') + zsum (cv wb ws) (sq_cancels (w_settle w')) =
    zsum (mv wb ws) (pending w) + half_value ws (w_half w) + zsum (cv wb ws) (sq_cancels (w_settle w)) +
    exposure_delta clock wb ws w a ->
  action_ok w a w'.
Proof.
  intros [Hr He] Hh Hp He' Hv. split; [|split].
  - split; rewrite Hh; [by rewrite Hp|done].
  - unfold exposure. rewrite Hh, (refs_value_perm _ _ _ Hp). lia.
  - by apply refs_step_same.
Qed.

Lemma filter_remove (l : list oref) r : NoDup l -> r ∈ l -> l ≡ₚ r :: filter (fun x => x <> r) l.
Proof.
  intros Hn (l1 & l2 & ->)%list_elem_of_split. apply NoDup_app in Hn as (_ & H1 & [H2 _]%NoDup_cons).
  rewrite filter_app, filter_cons_False by tauto.
  rewrite !filter_all; [by rewrite Permutation_middle|..]; intros x Hx ->; [done|]. apply (H1 r); [done|inlist].
Qed.

Lemma append_ok w r : wf w -> r ∈ w_flight w -> action_ok w (AAppend r) (trade_append w r).
Proof.
  intros Hw Hr. apply quiet_ok; [done|done| |apply Hw|unfold pending; simpl; lia].
  unfold all_refs. simpl. rewrite event_refs_app. change (event_refs [new_order_event r]) with [r].
  assert (NoDup (w_flight w)) as Hn.
  { destruct Hw as [[Hn _ _] _]. unfold all_refs in Hn. by apply NoDup_app in Hn as [? _]. }
  rewrite (filter_remove (w_flight w) r Hn Hr) at 2. perm.
Qed.

Lemma cancel_request_ok w ticker oid uid :
  wf w -> action_ok w (ACancel ticker oid uid) (set_wal (appendCancel (w_wal w) ticker oid uid) w).
Proof.
  intros Hw. apply quiet_ok; [done|done| |apply Hw|unfold pending; simpl; lia].
  unfold all_refs. simpl. rewrite event_refs_app. by rewrite app_nil_r.
Qed.

Lemma log_ok w ks w' : wf w -> exec_log clock w ks = Some w' -> action_ok w (ALog ks) w'.
Proof.
  intros Hw. unfold exec_log. destruct (wal_buffer (w_wal w)) eqn:Eb; [|done].
  destruct (dequeue ks _) as [[batch rest]|] eqn:Ed; [|done]. apply dequeue_perm in Ed.
  unfold wal_log. destruct (wal_records _ _ _ _) as [recs t] eqn:Er. intros [= <-].
  apply quiet_ok; [done|done| |apply Hw|unfold pending; simpl; lia].
  unfold all_refs. simpl. rewrite Eb, Ed, event_refs_app. simpl. perm.
Qed.

Lemma take_ok w k ks w' : wf w -> exec_take w k ks = Some w' -> action_ok w (ATake k ks) w'.
Proof.
  intros Hw. unfold exec_take. destruct (w_engine w !! k) as [[t b q [|] [|]]|] eqn:Ek; try done.
  destruct (dequeue ks q) as [[batch rest]|] eqn:Ed; [|done]. apply dequeue_perm in Ed. intros [= <-].
  assert (proc_refs (mkProc t b rest batch []) ≡ₚ proc_refs (mkProc t b q [] [])) as Hp.
  { unfold proc_refs. simpl. by rewrite Ed, event_refs_app. }
  apply quiet_ok; [done|done| | |].
  - unfold all_refs. simpl. by rewrite (procs_same proc_refs _ _ _ _ Ek Hp).
  - eapply engine_ok_update; [apply Hw|exact Ek|done| |done]. intros r. rewrite Hp. auto.
  - unfold pending. simpl. rewrite !zsum_app, (procs_same p_results _ _ _ _ Ek) by done. lia.
Qed.

Lemma flush_ok w k w' : wf w -> exec_flush w k = Some w' -> action_ok w (AFlush k) w'.
Proof.
  intros Hw. unfold exec_flush. destruct (w_engine w !! k) as [[t b q [|] res]|] eqn:Ek; try done.
  intros [= <-]. apply quiet_ok; [done|done| | |].
  - unfold all_refs. simpl. by rewrite (procs_same proc_refs _ _ _ _ Ek).
  - eapply engine_ok_update; [apply Hw|exact Ek|done| |]; [by left|]. intros m Hm. by apply not_elem_of_nil in Hm.
  - unfold pending. simpl. rewrite !zsum_app, procs_insert, (procs_lookup p_results _ _ _ Ek).
    rewrite !zsum_app. simpl. destruct res; simpl; rewrite ?zsum_app; simpl; lia.
Qed.

Lemma forward_ok w w' : wf w -> exec_forward w = Some w' -> action_ok w AForward w'.
Proof.
  intros Hw. unfold exec_forward. destruct (wal_buffer (w_wal w)) as [|ev evs] eqn:Eb; [done|]. intros [= <-].
  pose proof Hw as [_ He]. unfold forward_event, forward, engine_processOrder, CancelOrder. simpl.
  destruct (ev_type ev) eqn:Et; [destruct (ev_order ev) as [r|] eqn:Er|].
  - assert (event_refs (ev :: evs) = r :: event_refs evs) as Hev by (unfold event_refs; simpl; by rewrite Et, Er).
    destruct (w_engine w !! ticker_id (deref (w_heap w) r)) as [p|] eqn:Ek; simpl.
    + assert (proc_refs (enqueue (new_order_event r) p) ≡ₚ r :: proc_refs p) as Hp.
      { unfold proc_refs. simpl. rewrite event_refs_app. change (event_refs [new_order_event r]) with [r]. perm. }
      apply quiet_ok; [done|done| | |].
      * unfold all_refs. simpl. rewrite Eb, Hev, procs_insert, Hp, (procs_lookup proc_refs _ _ _ Ek). perm.
      * eapply engine_ok_update; [exact He|exact Ek|done| |done]. intros x. rewrite Hp, elem_of_cons.
        intros [->|]; auto.
      * unfold pending. simpl. rewrite !zsum_app, (procs_same p_results _ _ _ _ Ek) by done. lia.
    + apply quiet_ok; [done|done| |exact He|unfold pending; simpl; lia].
      unfold all_refs. simpl. rewrite Eb, Hev. perm.
  - apply quiet_ok; [done|done| |exact He|unfold pending; simpl; lia].
    unfold all_refs. simpl. rewrite Eb. unfold event_refs at 4. simpl. by rewrite Et, Er.
  - assert (event_refs (ev :: evs) = event_refs evs) as Hev by (unfold event_refs; simpl; by rewrite Et).
    destruct (w_engine w !! ev_ticker_id ev) as [p|] eqn:Ek.
    + set (p' := enqueue _ p). assert (proc_refs p' ≡ₚ proc_refs p) as Hp.
      { unfold proc_refs, p'. simpl. by rewrite event_refs_app, app_nil_r. }
      apply quiet_ok; [done|done| | |].
      * unfold all_refs. simpl. by rewrite Eb, Hev, (procs_same proc_refs _ _ _ _ Ek Hp).
      * eapply engine_ok_update; [exact He|exact Ek|done| |done]. intros x. rewrite Hp. auto.
      * unfold pending. simpl. rewrite !zsum_app, (procs_same p_results _ _ _ _ Ek) by done. lia.
    + apply quiet_ok; [done|done| |exact He|unfold pending; simpl; lia].
      unfold all_refs. simpl. by rewrite Eb, Hev.
Qed.

(** ** Settling *)

Lemma settle_buy_step_ok w i w' : wf w -> exec_settle_buy w i = Some w' -> action_ok w (ASettleBuy i) w'.
Proof.
  intros Hw. unfold exec_settle_buy. destruct (w_half w) eqn:Eh; [done|].
  destruct (sq_matches (w_settle w) !! i) as [m|] eqn:Em; [|done]. intros [= <-].
  apply quiet_ok; [done|done|done|apply Hw|]. simpl. rewrite Em, Eh. unfold pending. simpl.
  rewrite !zsum_app, (zsum_delete _ (sq_matches _) _ _ Em), mv_split. lia.
Qed.

Lemma settle_sell_step_ok w w' : wf w -> exec_settle_sell w = Some w' -> action_ok w ASettleSell w'.
Proof.
  intros Hw. unfold exec_settle_sell. destruct (w_half w) as [m|] eqn:Eh; [|done]. intros [= <-].
  apply quiet_ok; [done|done|done|apply Hw|]. simpl. rewrite Eh. unfold pending. simpl. lia.
Qed.

Lemma settle_cancel_step_ok w i w' : wf w -> exec_settle_cancel w i = Some w' -> action_ok w (ASettleCancel i) w'.
Proof.
  intros Hw. unfold exec_settle_cancel. destruct (w_half w) eqn:Eh; [done|].
  destruct (sq_cancels (w_settle w) !! i) as [c|] eqn:Ec; [|done]. intros [= <-].
  apply quiet_ok; [done|done|done|apply Hw|]. simpl. rewrite Ec, Eh. unfold pending. simpl.
  rewrite (zsum_delete _ (sq_cancels _) _ _ Ec). lia.
Qed.

(** ** A new order *)

Lemma freeze_ok w uid ticker sd pr amount :
  wf w -> admissible clock (AFreeze uid ticker sd pr amount) w ->
  action_ok w (AFreeze uid ticker sd pr amount) (snd (trade_freeze clock w uid ticker sd pr amount)).
Proof.
  intros Hw (Hpr & Ham & Hid). unfold trade_freeze.
  assert (exists s, (make_order clock w uid ticker sd pr amount).2 = set_sequence s (2 + w_ticks w) w) as [s Hs].
  { unfold make_order. destruct (generate _ _) as [id s]. by exists s. }
  assert (quantity (make_order clock w uid ticker sd pr amount).1 = amount) as Hq.
  { unfold make_order. by destruct (generate _ _). }
  unfold action_ok, exposure_delta.
  destruct (make_order clock w uid ticker sd pr amount) as [o w1]. simpl in Hs, Hid, Hq. subst w1.
  destruct (freeze_for _ o) as [u ok] eqn:Ef. cbn -[make_shared] in *. destruct ok; cbn -[make_shared].
  2:{ split; [exact Hw|]. split; [unfold exposure, all_refs, pending; simpl; lia|by apply refs_step_same]. }
  destruct (make_shared (w_heap w) o) as [r h] eqn:Em. simpl.
  pose proof (make_shared_fresh _ _ _ _ Em) as Hfresh. pose proof (make_shared_deref _ _ _ _ Em) as Hd.
  destruct Hw as [Hr He].
  assert (forall r', r' ∈ all_refs w -> h !! r' = w_heap w !! r') as Hf.
  { intros r' Hin. eapply make_shared_frame; [done|]. by apply (ro_live _ _ Hr). }
  set (w2 := set_flight _ _). assert (all_refs w2 = r :: all_refs w) as Hrefs by done.
  split; [split|split].
  - rewrite Hrefs. change (w_heap w2) with h. split.
    + apply NoDup_cons. split; [|apply Hr]. intros Hin%(ro_live _ _ Hr). destruct Hin as [[x Hx] _]. congruence.
    + rewrite fmap_cons, Hd. rewrite (list_fmap_ext _ (fun r => order_id (deref (w_heap w) r))) at 1.
      * apply NoDup_cons. split; [exact Hid|apply Hr].
      * intros i x Hx%list_elem_of_lookup_2. unfold deref. by rewrite Hf.
    + intros r' [->|Hin]%elem_of_cons.
      * rewrite Hd, Hq. split; [|unfold inU in *; lia]. unfold make_shared in Em. injection Em as <- <-.
        rewrite lookup_insert_eq. by eexists.
      * unfold deref. rewrite Hf by done. by apply (ro_live _ _ Hr).
  - change (w_heap w2) with h. change (w_engine w2) with (w_engine w).
    eapply engine_ok_frame; [|exact He]. intros r' Hin. apply Hf. unfold all_refs. inlist.
  - unfold exposure. rewrite Hrefs. change (w_heap w2) with h. unfold refs_value at 1. rewrite zsum_cons, Hd.
    change (zsum (fun r0 => ov wb ws (deref h r0)) (all_refs w)) with (refs_value wb ws h (all_refs w)).
    rewrite (refs_value_frame _ _ (w_heap w) h) by done. change (pending w2) with (pending w). simpl. lia.
  - split; intros x Hx; [left; rewrite Hrefs; inlist| |left; by apply Hf].
    rewrite Hrefs in Hx. apply elem_of_cons in Hx as [->|Hx]; [right|by left].
    split; [by eexists _, _, _, _, _|]. split; [done|apply list_elem_of_here].
Qed.

(** An accepted order is a new one, and it is in flight. *)
Lemma trade_freeze_new w uid ticker sd pr amount r w' :
  trade_freeze clock w uid ticker sd pr amount = (Some r, w') ->
  w_heap w !! r = None /\ all_refs w' = r :: all_refs w /\ w_flight w' = r :: w_flight w.
Proof.
  unfold trade_freeze, make_order. destruct (generate _ _) as [id s]. destruct (freeze_for _ _) as [u []]; [|done].
  destruct (make_shared _ _) as [r' h] eqn:Em. intros [= -> <-]. simpl in Em.
  split_and!; [by eapply make_shared_fresh|done|done].
Qed.

(** ** An event in a book *)

(** The references outside the processor of [k]. *)
Definition others w (k : Z) : list oref :=
  w_flight w ++ event_refs (wal_queue (w_wal w)) ++ event_refs (wal_buffer (w_wal w)) ++
  procs proc_refs (delete k (w_engine w)) ++ w_dropped w.

Lemma all_refs_split w k p : w_engine w !! k = Some p -> all_refs w ≡ₚ proc_refs p ++ others w k.
Proof. intros Hk. unfold all_refs, others. rewrite (procs_lookup proc_refs _ _ _ Hk). perm. Qed.

Lemma pending_split w k p :
  w_engine w !! k = Some p ->
  zsum (mv wb ws) (pending w) =
    zsum (mv wb ws) (sq_matches (w_settle w)) + zsum (mv wb ws) (p_results p) +
    zsum (mv wb ws) (procs p_results (delete k (w_engine w))).
Proof. intros Hk. unfold pending. rewrite zsum_app, (procs_lookup p_results _ _ _ Hk), zsum_app. lia. Qed.

(** The engine when only the orders of one book change. *)
Lemma engine_ok_replace h h' e k p p' :
  engine_ok h e -> e !! k = Some p -> static_eq h h' ->
  (forall r, r ∈ procs proc_refs (delete k e) -> h' !! r = h !! r) ->
  book_ok h' (p_book p') -> book_ticker_id (p_book p') = book_ticker_id (p_book p) ->
  (forall r, r ∈ proc_refs p' -> ticker_id (deref h r) = k) ->
  (forall m, m ∈ p_results p' -> mr_ticker_id m = k) ->
  engine_ok h' (<[k := p']> e).
Proof.
  intros He Hk Hst Hf Hb Ht Hr Hm. rewrite <- insert_delete_eq.
  assert (engine_ok h (delete k e)) as Hd.
  { split; intros k' p0; [intros Hp|intros r Hp|intros m Hp]; apply lookup_delete_Some in Hp as [_ Hp];
      [by apply (en_book _ _ He)|by eapply (en_ticker _ _ He)|by eapply (en_results _ _ He)]. }
  apply engine_ok_insert; [by eapply engine_ok_frame|done| |intros r Hin|done].
  - rewrite Ht. by apply (en_book _ _ He).
  - destruct (static_fields _ _ r Hst) as (_ & _ & _ & _ & ->). by apply Hr.
Qed.

Lemma spec_records_ticker ticker sd tk f t m :
  m ∈ spec_records clock ticker sd tk f t -> mr_ticker_id m = ticker.
Proof.
  revert t. induction f as [|[m' q] f IH]; intros t; simpl; [by intros ?%not_elem_of_nil|].
  intros [->|Hin]%elem_of_cons; [|by eapply IH]. unfold match_record. by destruct sd.
Qed.

Section NewOrder.
Context (w : World S D) (k t : Z) (b : OrderBook) (q evs : list EngineEvent) (res : list MatchRecord) (r : oref).
Context (Hw : wf w).
Context (ev0 : EngineEvent) (Ht0 : ev_type ev0 = NEW_ORDER) (Hr0 : ev_order ev0 = Some r).
Let p := mkProc t b q (ev0 :: evs) res.
Context (Hk : w_engine w !! k = Some p).
Let rest := event_refs evs ++ event_refs q ++ others w k.

Lemma buffer_refs : proc_refs p ≡ₚ r :: book_refs b ++ event_refs evs ++ event_refs q.
Proof.
  unfold proc_refs. cbn [p p_book p_buffer p_queue].
  assert (event_refs (ev0 :: evs) = r :: event_refs evs) as -> by (unfold event_refs; simpl; by rewrite Ht0, Hr0).
  perm.
Qed.

Lemma new_order_refs : all_refs w ≡ₚ r :: book_refs b ++ rest.
Proof.
  rewrite (all_refs_split w k p Hk), buffer_refs. unfold rest. perm.
Qed.

Lemma new_order_facts b' h' res' t' :
  processOrder clock b r (w_heap w) res (w_ticks w) = (b', h', res', t') ->
  exists f, process_post clock b r (w_heap w) res (w_ticks w) b' h' res' t' f /\ book_ok (w_heap w) b /\ new_ok (w_heap w) b r /\
    (forall x, x ∈ rest -> h' !! x = w_heap w !! x) /\
    (forall x, x ∈ r :: book_refs b -> ticker_id (deref (w_heap w) x) = k).
Proof.
  intros E. destruct Hw as [Hr He]. destruct (en_book _ _ He k p Hk) as [Hb Hbt].
  assert (new_ok (w_heap w) b r) as Hn.
  { eapply refs_ok_new; [exact Hr|apply new_order_refs|]. apply submseteq_inserts_r. done. }
  destruct (processOrder_post _ _ _ _ _ _ _ _ _ _ Hb Hn E) as [f P]. exists f.
  split_and!; [done|done|done| |].
  - intros x Hx. apply (pp_frame _ _ _ _ _ _ _ _ _ _ _ P). intros Hin.
    pose proof (ro_nodup _ _ Hr) as Hnd. rewrite new_order_refs in Hnd.
    change (r :: book_refs b ++ rest) with ((r :: book_refs b) ++ rest) in Hnd.
    apply NoDup_app in Hnd as (_ & Hnd & _). by apply (Hnd x).
  - intros x Hx. apply (en_ticker _ _ He k p x Hk). rewrite buffer_refs. apply elem_of_cons in Hx as [->|]; inlist.
Qed.

(** The orders of the book after the match and those elsewhere are still distinct and alive. *)
Lemma matched_refs_ok b' h' :
  refs_ok (w_heap w) (all_refs w) -> book_refs b' ++ rest ⊆+ all_refs w -> static_eq (w_heap w) h' -> book_ok h' b' ->
  (forall x, x ∈ rest -> h' !! x = w_heap w !! x) -> refs_ok h' (book_refs b' ++ rest).
Proof.
  intros Hr Hsub' Hst Hb' Hf. pose proof (refs_ok_sub _ _ _ Hsub' Hr) as [H1 H2 H3]. split.
  - done.
  - rewrite (list_fmap_ext _ (fun r => order_id (deref (w_heap w) r))) at 1; [done|].
    intros i x _. by destruct (static_fields _ _ x Hst) as (-> & _).
  - intros x [Hx|Hx]%elem_of_app.
    + assert (exists sd, x ∈ level_refs (side_levels sd b')) as [sd Hsd].
      { unfold book_refs in Hx. apply elem_of_app in Hx as [Hx|Hx]; [by exists BUY|by exists SELL]. }
      destruct (levels_ok_order _ _ _ _ (bo_levels _ _ Hb' sd) Hsd) as (? & _ & ?). split; [done|].
      unfold inU. lia.
    + unfold deref. rewrite Hf by done. apply H3. inlist.
Qed.

(** The orders that leave are filled; the others keep everything but their quantity. *)
Lemma new_order_step b' h' res' t' f w' :
  process_post clock b r (w_heap w) res (w_ticks w) b' h' res' t' f -> all_refs w' ≡ₚ book_refs b' ++ rest ->
  w_heap w' = h' -> (forall x, x ∈ rest -> h' !! x = w_heap w !! x) -> refs_step w (AEvent k) w'.
Proof.
  intros P Hrefs Hh Hf. split.
  - intros x. rewrite new_order_refs, Hrefs. change (r :: book_refs b ++ rest) with ((r :: book_refs b) ++ rest).
    intros [Hx|Hx]%elem_of_app; [|left; inlist].
    destruct (pp_filled _ _ _ _ _ _ _ _ _ _ _ P x Hx) as [?|H0]; [left; inlist|right].
    apply (leaves_filled _ _ _ _ k ev0); [done| |done|by rewrite Hh]. unfold next_event. by rewrite Hk.
  - intros x. rewrite new_order_refs, Hrefs. intros [Hx|Hx]%elem_of_app; left; [|inlist].
    change (r :: book_refs b ++ rest) with ((r :: book_refs b) ++ rest). apply elem_of_app. left.
    eapply elem_of_submseteq; [exact Hx|apply P].
  - intros x. rewrite new_order_refs, Hh. change (r :: book_refs b ++ rest) with ((r :: book_refs b) ++ rest).
    intros [Hx|Hx]%elem_of_app; [right|left; by apply Hf]. split.
    + exists k, p. split; [done|]. split; [done|]. rewrite buffer_refs. inlist.
    + apply (pp_static _ _ _ _ _ _ _ _ _ _ _ P).
Qed.

Lemma new_order_ok b' h' res' t' w' :
  processOrder clock b r (w_heap w) res (w_ticks w) = (b', h', res', t') ->
  w' = set_settle (w_settle w) (set_heap h' t' (set_engine (<[k := mkProc t b' q evs res']> (w_engine w)) w)) ->
  action_ok w (AEvent k) w'.
Proof.
  intros E ->. destruct (new_order_facts b' h' res' t' E) as (f & P & Hb & Hn & Hf & Htk).
  set (w' := set_settle _ _). set (p' := mkProc t b' q evs res').
  assert (w_engine w' !! k = Some p') as Hk' by apply lookup_insert_eq.
  assert (all_refs w' ≡ₚ book_refs b' ++ rest) as Hrefs.
  { rewrite (all_refs_split w' k p' Hk'). unfold others. simpl. rewrite delete_insert_eq.
    unfold proc_refs, rest, others, p'. simpl. perm. }
  pose proof (pp_refs _ _ _ _ _ _ _ _ _ _ _ P) as Hsub. pose proof (pp_static _ _ _ _ _ _ _ _ _ _ _ P) as Hst.
  pose proof (pp_ok _ _ _ _ _ _ _ _ _ _ _ P) as Hb'.
  assert (book_refs b' ++ rest ⊆+ all_refs w) as Hsub'.
  { rewrite new_order_refs. change (r :: book_refs b ++ rest) with ((r :: book_refs b) ++ rest). by apply submseteq_skips_r. }
  assert (forall x, x ∈ book_refs b' -> x ∈ r :: book_refs b) as Hin by (intros; by eapply elem_of_submseteq).
  pose proof (new_order_step b' h' res' t' f _ P Hrefs eq_refl Hf) as Hstep. destruct Hw as [Hr He].
  assert (forall m, m ∈ res' -> mr_ticker_id m = k) as Hres.
  { intros m Hm. rewrite (pp_results _ _ _ _ _ _ _ _ _ _ _ P) in Hm. apply elem_of_app in Hm as [Hm|Hm].
    - by apply (en_results _ _ He k p m Hk).
    - apply spec_records_ticker in Hm as ->. by apply (en_book _ _ He k p Hk). }
  split; [split|split; [|exact Hstep]].
  - rewrite Hrefs. by apply matched_refs_ok.
  - change (w_heap w') with h'. change (w_engine w') with (<[k := p']> (w_engine w)).
    eapply engine_ok_replace; [exact He|exact Hk|exact Hst| |exact Hb'|apply P| |exact Hres].
    + intros x Hx. apply Hf. unfold rest, others. inlist.
    + intros x Hx. unfold proc_refs, p' in Hx. simpl in Hx. apply elem_of_app in Hx as [Hx|Hx]; [by apply Htk, Hin|].
      apply (en_ticker _ _ He k p x Hk). rewrite buffer_refs. inlist.
  - unfold exposure. rewrite (refs_value_perm (w_heap w') _ _ Hrefs), (refs_value_perm (w_heap w) _ _ new_order_refs).
    change (w_heap w') with h'. rewrite (pending_split w' k p' Hk'), (pending_split w k p Hk).
    change (w_engine w') with (<[k := p']> (w_engine w)). rewrite delete_insert_eq.
    change (w_settle w') with (w_settle w). change (w_half w') with (w_half w). cbn [p_results p p' exposure_delta].
    change (r :: book_refs b ++ rest) with ([r] ++ book_refs b ++ rest). unfold refs_value. rewrite !zsum_app. cbn [zsum foldr].
    pose proof (processOrder_value (wb k) (ws k) _ _ _ _ _ _ _ _ _ _ _ Hb Hn P) as HV.
    rewrite !match_value_sum in HV; [|by intros m Hm; apply (en_results _ _ He k p m Hk)|exact Hres].
    rewrite (book_value_refs wb ws h' b' k) in HV.
    2:{ intros x Hx. destruct (static_fields _ _ x Hst) as (_ & _ & _ & _ & ->). by apply Htk, Hin. }
    rewrite (book_value_refs wb ws (w_heap w) b k) in HV by (intros; apply Htk; inlist).
    assert (order_value (wb k) (ws k) (deref (w_heap w) r) = ov wb ws (deref (w_heap w) r)) as Eo.
    { unfold ov. by rewrite (Htk r) by inlist. }
    rewrite Eo in HV. pose proof (refs_value_frame wb ws (w_heap w) h' rest Hf) as Hrest.
    unfold refs_value in *. change (fold_right) with (@foldr). lia.
Qed.
End NewOrder.

(** An event that leaves the orders alone: a cancellation, found or not. *)
Lemma event_cancel_ok w k t b q ev evs res w' :
  wf w -> w_engine w !! k = Some (mkProc t b q (ev :: evs) res) -> ev_type ev = CANCEL_ORDER ->
  exec_event clock w k = Some w' -> action_ok w (AEvent k) w'.
Proof.
  intros Hw Hk Et. unfold exec_event. rewrite Hk. unfold process_event. rewrite Et. cbn [p_book].
  pose proof Hw as [Hr He]. destruct (en_book _ _ He k _ Hk) as [Hb Hbt]. cbn [p_book] in Hb, Hbt.
  assert (event_refs (ev :: evs) = event_refs evs) as Hev by (unfold event_refs; simpl; by rewrite Et).
  destruct (cancelOrder_cases (w_heap w) b (cancel_order_id ev) (cancel_user_id ev) Hb)
    as [(r & Hrb & Hu & Ho & ->)|[_ ->]]; intros [= <-].
  - (* the order leaves the book, and its record is pushed *)
    set (b' := cancelled (w_heap w) b r). set (p' := mkProc t b' q evs res).
    pose proof (cancel_perm _ _ Hb r Hrb) as Hperm. fold b' in Hperm.
    set (w' := set_settle _ _). assert (w_engine w' !! k = Some p') as Hk' by apply lookup_insert_eq.
    assert (all_refs w ≡ₚ r :: all_refs w') as Hrefs.
    { rewrite (all_refs_split w k _ Hk), (all_refs_split w' k p' Hk'). unfold others. simpl.
      rewrite delete_insert_eq. unfold proc_refs. cbn [p_book p_buffer p_queue p']. rewrite Hperm, Hev. perm. }
    assert (forall x, x ∈ book_refs b -> ticker_id (deref (w_heap w) x) = k) as Htk.
    { intros x Hx. apply (en_ticker _ _ He k _ x Hk). unfold proc_refs. cbn [p_book]. inlist. }
    split; [split|split].
    + eapply (refs_ok_sub (w_heap w) (all_refs w)); [|exact Hr]. rewrite Hrefs. by apply submseteq_cons.
    + change (w_heap w') with (w_heap w). change (w_engine w') with (<[k := p']> (w_engine w)).
      apply engine_ok_insert; [exact He|by apply cancel_ok| | |].
      * cbn [p_book p']. unfold b', cancelled. destruct (side _); exact Hbt.
      * intros x Hx. apply (en_ticker _ _ He k _ x Hk). unfold proc_refs in *. cbn [p_book p_buffer p_queue p'] in *.
        rewrite Hev. apply elem_of_app in Hx as [Hx|Hx]; [|inlist].
        assert (x ∈ book_refs b) by (rewrite Hperm; inlist). inlist.
      * intros m Hm. by apply (en_results _ _ He k _ m Hk).
    + unfold exposure. rewrite (refs_value_perm (w_heap w) _ _ Hrefs).
      change (w_heap w') with (w_heap w). rewrite (pending_split w' k p' Hk'), (pending_split w k _ Hk).
      change (w_engine w') with (<[k := p']> (w_engine w)). rewrite delete_insert_eq.
      change (w_half w') with (w_half w). unfold refs_value. rewrite (zsum_cons _ r).
      cbn [p_results p' exposure_delta w' set_settle w_settle push_cancels fold_left pushCancelRecord sq_matches sq_cancels].
      rewrite zsum_app, zsum_singleton.
      assert (cv wb ws (cancel_record (deref (w_heap w) r) (clock (w_ticks w))) = ov wb ws (deref (w_heap w) r)) as ->.
      { unfold cv, cancel_record, ov, order_value, unit_value. simpl. by destruct (side _). }
      lia.
    + split; intros x; rewrite Hrefs; [|intros Hx; left; inlist|by left].
      intros [->|Hx]%elem_of_cons; [right|by left].
      apply (leaves_cancelled _ _ _ _ k ev); [done|unfold next_event; by rewrite Hk|done..|].
      simpl. unfold pushCancelRecord. simpl. inlist.
  - assert (proc_refs (mkProc t b q evs res) ≡ₚ proc_refs (mkProc t b q (ev :: evs) res)) as Hp.
    { unfold proc_refs. cbn [p_book p_buffer p_queue]. by rewrite Hev. }
    apply quiet_ok; [done|done| | |].
    + unfold all_refs. simpl. by rewrite (procs_same proc_refs _ _ _ _ Hk Hp).
    + eapply engine_ok_update; [exact He|exact Hk|done| |done]. intros x. rewrite Hp. auto.
    + unfold pending. simpl. rewrite !zsum_app, (procs_same p_results _ _ _ _ Hk) by done. lia.
Qed.

Lemma event_ok w k w' : wf w -> exec_event clock w k = Some w' -> action_ok w (AEvent k) w'.
Proof.
  intros Hw E. pose proof E as E0. revert E. unfold exec_event.
  destruct (w_engine w !! k) as [[t b q [|ev evs] res]|] eqn:Hk; try done.
  destruct (ev_type ev) eqn:Et; [|intros _; by eapply event_cancel_ok].
  unfold process_event. rewrite Et. destruct (ev_order ev) as [r|] eqn:Er.
  - cbn [p_book p_results p_ticker_id p_queue p_buffer].
    destruct (processOrder clock b r (w_heap w) res (w_ticks w)) as [[[b' h'] res'] t'] eqn:E. intros [= <-].
    eapply (new_order_ok w k t b q evs res r Hw ev Et Er Hk); [exact E|]. done.
  - intros [= <-]. assert (event_refs (ev :: evs) = event_refs evs) as Hev by (unfold event_refs; simpl; by rewrite Et, Er).
    assert (proc_refs (mkProc t b q evs res) ≡ₚ proc_refs (mkProc t b q (ev :: evs) res)) as Hp.
    { unfold proc_refs. cbn [p_book p_buffer p_queue]. by rewrite Hev. }
    pose proof Hw as [_ He]. apply quiet_ok; [done|done| | |].
    + unfold all_refs. simpl. by rewrite (procs_same proc_refs _ _ _ _ Hk Hp).
    + eapply engine_ok_update; [exact He|exact Hk|done| |done]. intros x. rewrite Hp. auto.
    + unfold pending. simpl. rewrite !zsum_app, (procs_same p_results _ _ _ _ Hk) by done. lia.
Qed.

(** ** All actions *)

Lemma exec_ok w a w' : wf w -> admissible clock a w -> exec clock a w = Some w' -> action_ok w a w'.
Proof.
  intros Hw Ha. destruct a; simpl.
  - intros [= <-]. by apply freeze_ok.
  - destruct (decide _); [|done]. intros [= <-]. by apply append_ok.
  - intros [= <-]. by apply cancel_request_ok.
  - intros [= <-]. apply quiet_ok; [done..|apply Hw|unfold pending; simpl; lia].
  - intros [= <-]. apply quiet_ok; [done..|apply Hw|unfold pending; simpl; lia].
  - intros [= <-]. apply quiet_ok; [done..|apply Hw|unfold pending; simpl; lia].
  - intros [= <-]. apply quiet_ok; [done..|apply Hw|unfold pending; simpl; lia].
  - by apply log_ok.
  - by apply forward_ok.
  - by apply take_ok.
  - by apply event_ok.
  - by apply flush_ok.
  - by apply settle_buy_step_ok.
  - by apply settle_sell_step_ok.
  - by apply settle_cancel_step_ok.
Qed.
End Proofs.

(** ** Reachable worlds *)

Section Reachable.
Context {S D : Type} `{AS : AccountStore S} `{UR : IUserRepository D} `{SR : IStockRepository D}.
Context (clock : nat -> Z).
Implicit Types (w : World S D).

Lemma exec_wf w a w' : wf w -> admissible clock a w -> exec clock a w = Some w' -> wf w'.
Proof. intros Hw Ha E. by apply (exec_ok clock (fun _ _ _ => 0) (fun _ _ => 0) w a w'). Qed.

Lemma reachable_wf w0 w : wf w0 -> reachable clock w0 w -> wf w.
Proof. intros H0. induction 1; [done|]. by eapply exec_wf. Qed.

Lemma exec_refs w a w' : wf w -> admissible clock a w -> exec clock a w = Some w' -> refs_step clock w a w'.
Proof. intros Hw Ha E. by apply (exec_ok clock (fun _ _ _ => 0) (fun _ _ => 0) w a w'). Qed.

(** The orders the engine dropped stay dropped. *)
Lemma exec_dropped w a w' r : exec clock a w = Some w' -> r ∈ w_dropped w -> r ∈ w_dropped w'.
Proof.
  intros E Hr. revert E. destruct a; simpl; try (by intros [= <-]).
  - intros [= <-]. unfold trade_freeze, make_order. by destruct (generate _ _), (freeze_for _ _) as [? []].
  - destruct (decide _); [|done]. by intros [= <-].
  - unfold exec_log. destruct (wal_buffer _); [|done]. destruct (dequeue _ _) as [[]|]; [|done].
    destruct (wal_log _ _ _ _ _). by intros [= <-].
  - unfold exec_forward. destruct (wal_buffer _) as [|ev ?]; [done|]. intros [= <-]. unfold forward_event.
    destruct (ev_type ev), (ev_order ev); try done. destruct (fst _); [done|]. simpl. inlist.
  - unfold exec_take. destruct (w_engine w !! _) as [[t b q [|] [|]]|]; try done.
    destruct (dequeue _ _) as [[]|]; [|done]. by intros [= <-].
  - unfold exec_event. destruct (w_engine w !! _) as [[t b q [|] res]|]; try done.
    destruct (process_event _ _ _ _ _) as [[[]]]. by intros [= <-].
  - unfold exec_flush. destruct (w_engine w !! _) as [[t b q [|] res]|]; try done. by intros [= <-].
  - unfold exec_settle_buy. destruct (w_half w); [done|]. destruct (_ !! _); [|done]. by intros [= <-].
  - unfold exec_settle_sell. destruct (w_half w); [|done]. by intros [= <-].
  - unfold exec_settle_cancel. destruct (w_half w); [done|]. destruct (_ !! _); [|done]. by intros [= <-].
Qed.

(** The engine after [init] of every ticker. *)
Definition init_all (ids : list Z) : MatchingEngine := fold_left init ids ∅.

Definition fresh_engine (e : MatchingEngine) : Prop := forall k p, e !! k = Some p -> p = new_processor k.

Lemma init_all_fresh ids : fresh_engine (init_all ids).
Proof.
  unfold init_all. assert (forall e, fresh_engine e -> fresh_engine (fold_left init ids e)) as Hi.
  { induction ids as [|k ids IH]; intros e He; simpl; [done|]. apply IH. unfold init.
    destruct (e !! k) eqn:E; [done|]. intros k' p [[<- <-]|[_ Hp]]%lookup_insert_Some; [done|by apply He]. }
  apply Hi. intros k p Hp. by rewrite lookup_empty in Hp.
Qed.

Lemma fresh_engine_refs e : fresh_engine e -> procs proc_refs e = [] /\ procs p_results e = [].
Proof.
  intros He. split; apply elem_of_nil_inv; intros x; rewrite elem_of_procs; intros (k & p & Hp & Hx);
    apply He in Hp as ->; by apply not_elem_of_nil in Hx.
Qed.

Lemma start_wf tickers (u : S) (d : D) e file : fresh_engine e -> wf (start_world tickers u d e file).
Proof.
  intros He. destruct (fresh_engine_refs e He) as [H1 H2]. split.
  - unfold all_refs. simpl. rewrite H1. split; [constructor|constructor|]. intros r Hr. by apply not_elem_of_nil in Hr.
  - simpl. split; intros k p; [intros ->%He|intros r ->%He Hr|intros m ->%He Hm].
    + split; [apply book_ok_empty|done].
    + by apply not_elem_of_nil in Hr.
    + by apply not_elem_of_nil in Hm.
Qed.

Lemma start_exposure wb ws tickers (u : S) (d : D) e file :
  fresh_engine e -> exposure wb ws (start_world tickers u d e file) = 0.
Proof.
  intros He. destruct (fresh_engine_refs e He) as [H1 H2].
  unfold exposure, all_refs, pending. simpl. by rewrite H1, H2.
Qed.
End Reachable.
