(* ===== verification/Accounting.v ===== *)
(** * The accounts match the exposure

    A [measure] is a wrapped integer of an account (its frozen balance, its frozen shares of
    one ticker) together with the valuation of orders, matches and cancellations it is meant
    to track.  In every reachable world the measure of every account is the exposure under
    that valuation, modulo the width of the integer ([reachable_measure]). *)

From S2P Require Import Prelude Bytes Common OrderIdGenerator OrderedMap OrderBook OrderBookSpec OrderBookLoops.
From S2P Require Import OrderBookProofs OrderBookCancel OrderBookBalance TickerManager Accounts Repositories.
From S2P Require Import Engine WALManager SettlementProcessor World Exposure ExposureProofs.
From stdpp Require Import base list gmap.
From Stdlib Require Import ZArith Lia.
Local Open Scope Z_scope.

(** ** Wrapped sums *)

Lemma wrapS_add n a b : wrapS n (wrapS n a + b) = wrapS n (a + b).
Proof.
  unfold wrapS. f_equal. set (M := 2 ^ n). set (h := 2 ^ (n - 1)).
  replace ((a + h) mod M - h + b + h) with ((a + h) mod M + b) by lia.
  rewrite Zplus_mod_idemp_l. f_equal. lia.
Qed.

Lemma wrapS_add_r n a b : wrapS n (b + wrapS n a) = wrapS n (b + a).
Proof. by rewrite Z.add_comm, wrapS_add, Z.add_comm. Qed.

Lemma wrapS_wrapU n a : wrapS n (wrapU n a) = wrapS n a.
Proof. unfold wrapS, wrapU. by rewrite Zplus_mod_idemp_l. Qed.

Lemma wrapS_opp n a b : wrapS n (b - wrapS n a) = wrapS n (b - a).
Proof.
  unfold wrapS. f_equal. set (M := 2 ^ n). set (h := 2 ^ (n - 1)).
  replace (b - ((a + h) mod M - h) + h) with ((b + 2 * h) - (a + h) mod M) by lia.
  rewrite Zminus_mod_idemp_r. f_equal. lia.
Qed.

Lemma wrapS_addU n a b : wrapS n (wrapU n a + b) = wrapS n (a + b).
Proof. by rewrite <- wrapS_add, wrapS_wrapU, wrapS_add. Qed.

Lemma wrapU_mul n a b : wrapU n (wrapU n a * b) = wrapU n (a * b).
Proof. unfold wrapU. by rewrite Zmult_mod_idemp_l. Qed.

(** ** Records carry nonnegative quantities *)

Section Records.
Context {S D : Type} `{AS : AccountStore S} `{UR : IUserRepository D} `{SR : IStockRepository D}.
Context (clock : nat -> Z).
Implicit Types (w : World S D).

Record records_ok w : Prop := {
  rc_matches m : m ∈ sq_matches (w_settle w) -> 0 <= match_quantity m;
  rc_results k p m : w_engine w !! k = Some p -> m ∈ p_results p -> 0 <= match_quantity m;
  rc_half m : w_half w = Some m -> 0 <= match_quantity m;
  rc_cancels c : c ∈ sq_cancels (w_settle w) -> 0 <= cr_quantity c
}.

Lemma records_ok_pending w m : records_ok w -> m ∈ pending w -> 0 <= match_quantity m.
Proof.
  intros Hw [Hm|(k & p & Hp & Hm)%elem_of_procs]%elem_of_app; [by apply (rc_matches w Hw)|by apply (rc_results w Hw k p m)].
Qed.

(** Nothing new, up to the processor at [k], whose results are [l]. *)
Lemma records_ok_engine w w' k p :
  records_ok w -> w_engine w' = <[k := p]> (w_engine w) ->
  (forall m, m ∈ p_results p -> 0 <= match_quantity m) ->
  w_half w' = w_half w ->
  (forall m, m ∈ sq_matches (w_settle w') -> 0 <= match_quantity m) ->
  (forall c, c ∈ sq_cancels (w_settle w') -> 0 <= cr_quantity c) -> records_ok w'.
Proof.
  intros Hw He Hp Hh Hm Hc. split; [done| | |done].
  - intros k' p' m. rewrite He. intros [[<- <-]|[_ H]]%lookup_insert_Some; [apply Hp|by apply (rc_results w Hw k')].
  - rewrite Hh. apply Hw.
Qed.

Lemma spec_records_positive ticker sd tk f t m :
  (forall x q, (x, q) ∈ f -> 0 <= q) -> m ∈ spec_records clock ticker sd tk f t -> 0 <= match_quantity m.
Proof.
  revert t. induction f as [|[x q] f IH]; intros t Hf; simpl; [by intros ?%not_elem_of_nil|].
  intros [->|Hin]%elem_of_cons; [|eapply IH; [|exact Hin]; intros x' q' ?; apply (Hf x' q'); inlist].
  unfold match_record. specialize (Hf x q ltac:(inlist)). by destruct sd.
Qed.

Lemma processOrder_positive b r h res t b' h' res' t' m :
  book_ok h b -> new_ok h b r -> processOrder clock b r h res t = (b', h', res', t') ->
  m ∈ res' -> m ∈ res \/ 0 <= match_quantity m.
Proof.
  intros Hb Hn E Hm. destruct (processOrder_post _ _ _ _ _ _ _ _ _ _ Hb Hn E) as [f P].
  rewrite (pp_results _ _ _ _ _ _ _ _ _ _ _ P) in Hm. apply elem_of_app in Hm as [Hm|Hm]; [by left|right].
  eapply spec_records_positive; [|exact Hm]. intros x q Hf.
  pose proof (pp_spec _ _ _ _ _ _ _ _ _ _ _ P) as Hs. unfold spec_process in Hs.
  destruct (spec_match _ _ _) as [[f1 o1] opp] eqn:M. injection Hs as -> _ _.
  destruct (no_qty _ _ _ Hn) as [Hq _].
  eapply (spec_match_fills _ _ _ _ _ _ Hq) in M as [_ M]; [specialize (M x q Hf); lia|].
  intros o Ho. rewrite abs_sides in Ho. apply list_elem_of_fmap in Ho as (r' & -> & Hr).
  by destruct (levels_ok_order _ _ _ _ (bo_levels _ _ Hb _) Hr) as (_ & _ & ? & _).
Qed.

Lemma exec_event_records w k w' :
  wf w -> records_ok w -> exec_event clock w k = Some w' -> records_ok w'.
Proof.
  intros Hwf Hw. pose proof Hwf as [Hr He]. unfold exec_event.
  destruct (w_engine w !! k) as [[t b q [|ev evs] res]|] eqn:Hk; try done.
  assert (forall m, m ∈ res -> 0 <= match_quantity m) as Hres by (intros m Hm; by apply (rc_results w Hw k _ m Hk)).
  unfold process_event. cbn [p_book p_results p_ticker_id p_queue p_buffer].
  destruct (ev_type ev) eqn:Et; [destruct (ev_order ev) as [r|] eqn:Er|].
  - destruct (processOrder clock b r (w_heap w) res (w_ticks w)) as [[[b' h'] res'] t'] eqn:E. intros [= <-].
    destruct (new_order_facts clock w k t b q evs res r Hwf ev Et Er Hk b' h' res' t' E) as (f & _ & Hb & Hn & _).
    eapply (records_ok_engine w _ k); [done|done| |done|apply Hw|apply Hw]. intros m Hm.
    destruct (processOrder_positive _ _ _ _ _ _ _ _ _ m Hb Hn E Hm); [by apply Hres|done].
  - intros [= <-]. eapply (records_ok_engine w _ k); [done|done|exact Hres|done|apply Hw|apply Hw].
  - destruct (en_book _ _ He k _ Hk) as [Hb _]. cbn [p_book] in Hb.
    destruct (cancelOrder_cases (w_heap w) b (cancel_order_id ev) (cancel_user_id ev) Hb)
      as [(r & Hrb & _ & _ & ->)|[_ ->]]; intros [= <-];
      (eapply (records_ok_engine w _ k); [done|done|exact Hres|done|apply Hw|]); [|apply Hw].
    simpl. intros c [Hc|Hc]%elem_of_app; [by apply (rc_cancels w Hw)|]. apply list_elem_of_singleton in Hc as ->. simpl.
    unfold inU in *. apply (ro_live _ _ Hr). rewrite (all_refs_split w k _ Hk). unfold proc_refs. cbn [p_book]. inlist.
Qed.

Lemma elem_of_delete {A} i (l : list A) x : x ∈ delete i l -> x ∈ l.
Proof. intros (j & Hj)%list_elem_of_lookup. destruct (decide (j < i)%nat).
  - rewrite list_lookup_delete_lt in Hj by done. by eapply list_elem_of_lookup_2.
  - rewrite list_lookup_delete_ge in Hj by lia. by eapply list_elem_of_lookup_2.
Qed.

(** Forwarding an event leaves every record where it was. *)
Lemma forward_records w w' : records_ok w -> exec_forward w = Some w' -> records_ok w'.
Proof.
  intros Hw. unfold exec_forward. destruct (wal_buffer _) as [|ev evs]; [done|]. intros [= <-].
  assert (forall e', (forall k p, e' !! k = Some p -> exists p0, w_engine w !! k = Some p0 /\ p_results p = p_results p0) ->
    forall w', w_engine w' = e' -> w_half w' = w_half w -> w_settle w' = w_settle w -> records_ok w') as Hsame.
  { intros e' He w' E1 E2 E3. split; rewrite ?E1, ?E2, ?E3; try apply Hw.
    intros k p m Hp Hm. destruct (He k p Hp) as (p0 & Hp0 & E). rewrite E in Hm. by apply (rc_results w Hw k p0). }
  eapply (Hsame (forward (w_engine w) (w_heap w) ev)).
  - intros k p. unfold forward, engine_processOrder, CancelOrder.
    destruct (ev_type ev); [destruct (ev_order ev) as [r|]; [|eauto]; destruct (w_engine w !! ticker_id _) as [p0|] eqn:E
      |destruct (w_engine w !! ev_ticker_id ev) as [p0|] eqn:E]; simpl; eauto;
      (intros [[<- <-]|[_ Hp]]%lookup_insert_Some; eauto).
  - unfold forward_event. destruct (ev_type ev), (ev_order ev); try done. simpl. by destruct (fst _).
  - unfold forward_event. destruct (ev_type ev), (ev_order ev); try done. simpl. by destruct (fst _).
  - unfold forward_event. destruct (ev_type ev), (ev_order ev); try done. simpl. by destruct (fst _).
Qed.

Lemma exec_records w a w' :
  wf w -> records_ok w -> exec clock a w = Some w' -> records_ok w'.
Proof.
  intros Hwf Hw. destruct a; simpl.
  - intros [= <-]. unfold trade_freeze, make_order. destruct (generate _ _). destruct (freeze_for _ _) as [u []];
      [destruct (make_shared _ _)|]; split; apply Hw.
  - destruct (decide _); [|done]. intros [= <-]. split; apply Hw.
  - intros [= <-]. split; apply Hw.
  - intros [= <-]. split; apply Hw.
  - intros [= <-]. split; apply Hw.
  - intros [= <-]. split; apply Hw.
  - intros [= <-]. split; apply Hw.
  - unfold exec_log, wal_log. destruct (wal_buffer _); [|done]. destruct (dequeue _ _) as [[]|]; [|done].
    destruct (wal_records _ _ _ _). intros [= <-]. split; apply Hw.
  - by apply forward_records.
  - unfold exec_take. destruct (w_engine w !! _) as [[t b q [|] [|]]|] eqn:Ek; try done.
    destruct (dequeue _ _) as [[batch rest]|]; [|done]. intros [= <-].
    eapply (records_ok_engine w); [done|done| |done|apply Hw|apply Hw]. intros m Hm. by apply not_elem_of_nil in Hm.
  - by apply exec_event_records.
  - unfold exec_flush. destruct (w_engine w !! _) as [[t b q [|] res]|] eqn:Ek; try done. intros [= <-].
    eapply (records_ok_engine w); [done|done| |done| |].
    + intros m Hm. by apply not_elem_of_nil in Hm.
    + intros m Hm. assert (m ∈ sq_matches (w_settle w) ++ res) as [H'|H']%elem_of_app
        by (simpl in Hm; destruct res; [by rewrite app_nil_r|done]); [by apply (rc_matches w Hw)|].
      by apply (rc_results w Hw _ _ m Ek).
    + intros c Hc. apply (rc_cancels w Hw). simpl in Hc. by destruct res.
  - unfold exec_settle_buy. destruct (w_half w) eqn:Eh; [done|]. destruct (_ !! _) as [m|] eqn:Em; [|done].
    intros [= <-]. split; [|apply Hw| |apply Hw].
    + intros m' Hm'. simpl in Hm'. apply (rc_matches w Hw). by eapply elem_of_delete.
    + intros m' [= <-]. apply (rc_matches w Hw). by eapply list_elem_of_lookup_2.
  - unfold exec_settle_sell. destruct (w_half w) eqn:Eh; [|done]. intros [= <-]. split; try apply Hw. done.
  - unfold exec_settle_cancel. destruct (w_half w) eqn:Eh; [done|]. destruct (_ !! _) as [m|] eqn:Em; [|done].
    intros [= <-]. split; try apply Hw. intros c Hc. simpl in Hc. apply (rc_cancels w Hw). by eapply elem_of_delete.
Qed.
End Records.

(** ** Measures *)

Definition freeze_acc (o : Order) : UserAccount -> UserAccount * bool :=
  match side o with
  | BUY => freeze_balance (i64 (u64 (price o * quantity o)))
  | SELL => freeze_stock (ticker_id o) (i32 (quantity o))
  end.

Definition settle_buy_acc (m : MatchRecord) : UserAccount -> UserAccount :=
  commit_buy (mr_ticker_id m) (sell_money m) (i32 (match_quantity m)) (refund_money m).
Definition settle_sell_acc (m : MatchRecord) : UserAccount -> UserAccount :=
  commit_sell (mr_ticker_id m) (sell_money m) (i32 (match_quantity m)).

(** [g] is an [n]-bit integer of the account of [uid] that the valuation [wb], [ws] of that
    user's orders explains: each operation adds to it what it adds to the exposure. *)
Record measure (n uid : Z) (g : UserAccount -> Z) (wb : Z -> Z -> Z -> Z) (ws : Z -> Z -> Z) : Prop := {
  ms_width : 0 < n;
  ms_other_b t u p : u <> uid -> wb t u p = 0;
  ms_other_s t u : u <> uid -> ws t u = 0;
  ms_new name : g (new_account uid name) = 0;
  ms_freeze o a :
    inS n (g a) -> user_id o = uid ->
    g (freeze_acc o a).1 = wrapS n (g a + (if (freeze_acc o a).2 then ov wb ws o else 0));
  ms_buy m a : inS n (g a) -> buyer_user_id m = uid -> g (settle_buy_acc m a) = wrapS n (g a - buy_value wb m);
  ms_sell m a : inS n (g a) -> sell_user_id m = uid -> g (settle_sell_acc m a) = wrapS n (g a - sell_value ws m);
  ms_cancel c a : inS n (g a) -> cr_user_id c = uid -> g (cancel_effect c a) = wrapS n (g a - cv wb ws c);
  ms_credit amount a : g (add_balance amount a) = g a
}.

(** The valuation that counts the shares in the orders and records of [uid]. *)
Definition count_b (uid : Z) (t u p : Z) : Z := if u =? uid then 1 else 0.
Definition count_s (uid : Z) (t u : Z) : Z := if u =? uid then 1 else 0.

Section Measure.
Context {S D : Type} `{AL : AccountStoreLaws S} `{UR : IUserRepository D} `{SR : IStockRepository D}.
Context (clock : nat -> Z).
Implicit Types (w : World S D).

Lemma freeze_for_acc (u : S) o : freeze_for u o = on_account u (user_id o) false (freeze_acc o).
Proof. unfold freeze_for, freeze_acc. by destruct (side o). Qed.

Lemma freeze_acc_identity o : keeps_identity (fun a => fst (freeze_acc o a)).
Proof. unfold freeze_acc. destruct (side o); eauto with exch. Qed.

Definition g_of (g : UserAccount -> Z) (u : S) (uid : Z) : Z := match acct u uid with Some a => g a | None => 0 end.

(** *** A user without an account has nothing in the system *)

Definition no_exposure w : Prop :=
  forall uid, acct (w_users w) uid = None -> exposure (count_b uid) (count_s uid) w = 0.

(** *** Valuations that are never negative *)

Section NonNegative.
Context (w : World S D) (wb : Z -> Z -> Z -> Z) (ws : Z -> Z -> Z) (Hwf : wf w) (Hrec : records_ok w).
Context (Hb : forall t u p, 0 <= wb t u p) (Hs : forall t u, 0 <= ws t u).

Lemma ov_nonneg o : 0 <= quantity o -> 0 <= ov wb ws o.
Proof.
  intros Hq. unfold ov, order_value, unit_value. pose proof (Hb (ticker_id o) (user_id o) (price o)).
  pose proof (Hs (ticker_id o) (user_id o)). destruct (side o); nia.
Qed.
Lemma buy_nonneg m : 0 <= match_quantity m -> 0 <= buy_value wb m.
Proof. intros Hq. unfold buy_value. pose proof (Hb (mr_ticker_id m) (buyer_user_id m) (buyer_expected_price m)). nia. Qed.
Lemma sell_nonneg m : 0 <= match_quantity m -> 0 <= sell_value ws m.
Proof. intros Hq. unfold sell_value. pose proof (Hs (mr_ticker_id m) (sell_user_id m)). nia. Qed.
Lemma mv_nonneg m : 0 <= match_quantity m -> 0 <= mv wb ws m.
Proof. intros. rewrite mv_split. pose proof (buy_nonneg m). pose proof (sell_nonneg m). lia. Qed.
Lemma cv_nonneg c : 0 <= cr_quantity c -> 0 <= cv wb ws c.
Proof.
  intros Hq. unfold cv. pose proof (Hb (cr_ticker_id c) (cr_user_id c) (cr_price c)).
  pose proof (Hs (cr_ticker_id c) (cr_user_id c)). destruct (cr_side c); nia.
Qed.

Lemma live_nonneg r : r ∈ all_refs w -> 0 <= ov wb ws (deref (w_heap w) r).
Proof. intros Hr. apply ov_nonneg. destruct Hwf as [Hr' _]. by apply (ro_live _ _ Hr'). Qed.
Lemma refs_nonneg : 0 <= refs_value wb ws (w_heap w) (all_refs w).
Proof. apply zsum_nonneg. intros r. apply live_nonneg. Qed.
Lemma half_nonneg : 0 <= half_value ws (w_half w).
Proof. destruct (w_half w) as [m|] eqn:E; [|done]. simpl. by apply sell_nonneg, (rc_half w Hrec). Qed.
Lemma pending_nonneg : 0 <= zsum (mv wb ws) (pending w).
Proof. apply zsum_nonneg. intros m Hm. by apply mv_nonneg, (records_ok_pending w m Hrec). Qed.
Lemma cancels_nonneg : 0 <= zsum (cv wb ws) (sq_cancels (w_settle w)).
Proof. apply zsum_nonneg. intros c Hc. by apply cv_nonneg, (rc_cancels w Hrec). Qed.

Lemma exposure_nonneg : 0 <= exposure wb ws w.
Proof.
  pose proof refs_nonneg. pose proof half_nonneg. pose proof pending_nonneg. pose proof cancels_nonneg.
  unfold exposure. lia.
Qed.

(** Every part of the exposure is at most the whole. *)
Lemma exposure_order r : r ∈ all_refs w -> ov wb ws (deref (w_heap w) r) <= exposure wb ws w.
Proof.
  intros Hr. pose proof half_nonneg. pose proof pending_nonneg. pose proof cancels_nonneg.
  assert (ov wb ws (deref (w_heap w) r) <= refs_value wb ws (w_heap w) (all_refs w)) as Hle; [|unfold exposure; lia].
  apply (zsum_elem_le (fun r => ov wb ws (deref (w_heap w) r))); [|done]. apply live_nonneg.
Qed.

Lemma exposure_pending m : m ∈ pending w -> mv wb ws m <= exposure wb ws w.
Proof.
  intros Hm. pose proof half_nonneg. pose proof refs_nonneg. pose proof cancels_nonneg.
  assert (mv wb ws m <= zsum (mv wb ws) (pending w)) as Hle; [|unfold exposure; lia].
  apply zsum_elem_le; [|done]. intros y Hy. by apply mv_nonneg, (records_ok_pending w y Hrec).
Qed.

Lemma exposure_cancel c : c ∈ sq_cancels (w_settle w) -> cv wb ws c <= exposure wb ws w.
Proof.
  intros Hc. pose proof half_nonneg. pose proof refs_nonneg. pose proof pending_nonneg.
  assert (cv wb ws c <= zsum (cv wb ws) (sq_cancels (w_settle w))) as Hle; [|unfold exposure; lia].
  apply zsum_elem_le; [|done]. intros y Hy. by apply cv_nonneg, (rc_cancels w Hrec).
Qed.

Lemma exposure_half : half_value ws (w_half w) <= exposure wb ws w.
Proof. pose proof refs_nonneg. pose proof pending_nonneg. pose proof cancels_nonneg. unfold exposure. lia. Qed.

(** Only a freeze adds to it. *)
Lemma delta_nonpos (a : action D) :
  match a with AFreeze _ _ _ _ _ => True | _ => exposure_delta clock wb ws w a <= 0 end.
Proof.
  destruct a; simpl; try lia.
  - destruct (_ !! i) as [m|] eqn:Em; [|lia].
    pose proof (buy_nonneg m (rc_matches w Hrec m ltac:(by eapply list_elem_of_lookup_2))). lia.
  - pose proof half_nonneg. lia.
  - destruct (_ !! i) as [c|] eqn:Ec; [|lia].
    pose proof (cv_nonneg c (rc_cancels w Hrec c ltac:(by eapply list_elem_of_lookup_2))). lia.
Qed.
End NonNegative.

Lemma count_b_nonneg uid t u p : 0 <= count_b uid t u p.
Proof. unfold count_b. destruct (u =? uid); lia. Qed.
Lemma count_s_nonneg uid t u : 0 <= count_s uid t u.
Proof. unfold count_s. destruct (u =? uid); lia. Qed.

Section Count.
Context (w : World S D) (uid : Z) (Hwf : wf w) (Hrec : records_ok w).
Context (H0 : exposure (count_b uid) (count_s uid) w = 0).
Let nb := count_b_nonneg uid.
Let ns := count_s_nonneg uid.

Lemma no_pending m wb ws :
  m ∈ pending w ->
  (buyer_user_id m = uid -> buy_value wb m = 0) /\ (sell_user_id m = uid -> sell_value ws m = 0).
Proof.
  intros Hm. pose proof (exposure_pending w _ _ Hwf Hrec nb ns m Hm) as Hle. rewrite H0, mv_split in Hle.
  pose proof (records_ok_pending w m Hrec Hm) as Hq.
  pose proof (buy_nonneg _ nb m Hq). pose proof (sell_nonneg _ ns m Hq).
  split; intros E; (assert (match_quantity m = 0) as E0;
    [|unfold buy_value, sell_value; rewrite E0; lia]); unfold buy_value, sell_value, count_b, count_s in *;
    rewrite E, Z.eqb_refl in *; lia.
Qed.

Lemma no_half m ws : w_half w = Some m -> sell_user_id m = uid -> sell_value ws m = 0.
Proof.
  intros Hm E. pose proof (exposure_half w _ _ Hwf Hrec nb ns) as Hle. rewrite H0, Hm in Hle.
  pose proof (rc_half w Hrec m Hm). simpl in Hle. unfold sell_value, count_s in *. rewrite E, Z.eqb_refl in *.
  assert (match_quantity m = 0) as -> by lia. lia.
Qed.

Lemma no_cancel c wb ws : c ∈ sq_cancels (w_settle w) -> cr_user_id c = uid -> cv wb ws c = 0.
Proof.
  intros Hc E. pose proof (exposure_cancel w _ _ Hwf Hrec nb ns c Hc) as Hle. rewrite H0 in Hle.
  pose proof (rc_cancels w Hrec c Hc) as Hq.
  assert (cr_quantity c = 0) as E0; [|unfold cv; rewrite E0; lia].
  assert (cv (count_b uid) (count_s uid) c = cr_quantity c) as Ec; [|lia].
  unfold cv, count_b, count_s. rewrite E, Z.eqb_refl. destruct (cr_side c); lia.
Qed.
End Count.

(** *** What an action does to the accounts *)

(** The users after the action: one account updated, one created, or no change. *)
Inductive users_step w (a : action D) : S -> Prop :=
| us_freeze uid ticker sd pr amount :
    a = AFreeze uid ticker sd pr amount ->
    users_step w a (fst (on_account (w_users w) uid false (freeze_acc (make_order clock w uid ticker sd pr amount).1)))
| us_create uid name : a = ACreate uid name -> users_step w a (createUserAccount (w_users w) uid name)
| us_credit uid amount : a = ACredit uid amount -> users_step w a (update_account (w_users w) uid (add_balance amount))
| us_buy i m :
    a = ASettleBuy i -> sq_matches (w_settle w) !! i = Some m ->
    users_step w a (update_account (w_users w) (buyer_user_id m) (settle_buy_acc m))
| us_sell m :
    a = ASettleSell -> w_half w = Some m ->
    users_step w a (update_account (w_users w) (sell_user_id m) (settle_sell_acc m))
| us_cancel i c :
    a = ASettleCancel i -> sq_cancels (w_settle w) !! i = Some c ->
    users_step w a (update_account (w_users w) (cr_user_id c) (cancel_effect c))
| us_same : (forall wb ws, exposure_delta clock wb ws w a = 0) -> users_step w a (w_users w).

Lemma make_order_facts w uid ticker sd pr amount :
  user_id (make_order clock w uid ticker sd pr amount).1 = uid /\
  w_users (make_order clock w uid ticker sd pr amount).2 = w_users w.
Proof. unfold make_order. by destruct (generate _ _). Qed.

Ltac same_users :=
  match goal with |- users_step ?w ?a ?u => change u with (w_users w); by apply us_same end.

Lemma exec_users w a w' : exec clock a w = Some w' -> users_step w a (w_users w').
Proof.
  destruct a; simpl.
  - intros [= <-]. pose proof (make_order_facts w uid ticker sd pr amount) as [Hu Hs].
    unfold trade_freeze. pose proof (us_freeze w _ uid ticker sd pr amount eq_refl) as H'.
    destruct (make_order clock w uid ticker sd pr amount) as [o w1]. simpl in *.
    rewrite freeze_for_acc, Hs, Hu. destruct (on_account _ _ _ _) as [u []]; exact H'.
  - destruct (decide _); [|done]. intros [= <-]. same_users.
  - intros [= <-]. same_users.
  - intros [= <-]. exact (us_create w _ uid name eq_refl).
  - intros [= <-]. exact (us_credit w _ uid amount eq_refl).
  - intros [= <-]. same_users.
  - intros [= <-]. same_users.
  - unfold exec_log. destruct (wal_buffer _); [|done]. destruct (dequeue _ _) as [[]|]; [|done].
    destruct (wal_log _ _ _ _ _). intros [= <-]. same_users.
  - unfold exec_forward. destruct (wal_buffer _) as [|ev ?]; [done|]. intros [= <-].
    unfold forward_event. destruct (ev_type ev), (ev_order ev); try (same_users).
    destruct (fst _); same_users.
  - unfold exec_take. destruct (w_engine w !! _) as [[t b q [|] [|]]|]; try done.
    destruct (dequeue _ _) as [[]|]; [|done]. intros [= <-]. same_users.
  - unfold exec_event. destruct (w_engine w !! _) as [[t b q [|] res]|]; try done.
    destruct (process_event _ _ _ _ _) as [[[]]]. intros [= <-]. same_users.
  - unfold exec_flush. destruct (w_engine w !! _) as [[t b q [|] res]|]; try done. intros [= <-]. same_users.
  - unfold exec_settle_buy. destruct (w_half w); [done|]. destruct (_ !! i) as [m|] eqn:E; [|done].
    intros [= <-]. exact (us_buy w _ i m eq_refl E).
  - unfold exec_settle_sell. destruct (w_half w) as [m|] eqn:E; [|done]. intros [= <-]. exact (us_sell w _ m eq_refl E).
  - unfold exec_settle_cancel. destruct (w_half w); [done|]. destruct (_ !! i) as [c|] eqn:E; [|done].
    intros [= <-]. simpl. rewrite settle_cancel_effect. by eapply us_cancel.
Qed.

Lemma settle_identities m :
  keeps_identity (settle_buy_acc m) /\ keeps_identity (settle_sell_acc m).
Proof. split; unfold settle_buy_acc, settle_sell_acc; eauto with exch. Qed.

(** Accounts stay, and the store stays well-formed. *)
Lemma users_step_store w a u' :
  users_step w a u' -> store_ok (w_users w) ->
  store_ok u' /\ forall uid, acct u' uid = None -> acct (w_users w) uid = None.
Proof.
  intros Hs Hok.
  assert (forall uid f, keeps_identity f -> store_ok (update_account (w_users w) uid f) /\
    forall uid', acct (update_account (w_users w) uid f) uid' = None -> acct (w_users w) uid' = None) as Hu.
  { intros uid f Hf. split; [by apply update_account_ok|]. intros uid'. rewrite acct_update by done.
    destruct (decide _) as [->|]; [|done]. by destruct (acct (w_users w) uid). }
  destruct Hs.
  - destruct (on_account_spec (w_users w) uid false (freeze_acc (make_order clock w uid ticker sd pr amount).1) Hok
      (freeze_acc_identity _)) as (H1 & H2 & _). split; [done|]. intros uid'. rewrite H2.
    destruct (decide _) as [->|]; [|done]. by destruct (acct (w_users w) uid).
  - split; [by apply create_ok|]. intros uid'. rewrite acct_create by done. by destruct (decide _).
  - apply Hu. eauto with exch.
  - apply Hu, settle_identities.
  - apply Hu, settle_identities.
  - apply Hu. eauto with exch.
  - done.
Qed.

(** The exposure added by a successful freeze is that of an existing account. *)
Lemma freeze_delta wb ws w uid ticker sd pr amount :
  store_ok (w_users w) ->
  let o := (make_order clock w uid ticker sd pr amount).1 in
  exposure_delta clock wb ws w (AFreeze uid ticker sd pr amount) =
    match acct (w_users w) uid with Some a => if (freeze_acc o a).2 then ov wb ws o else 0 | None => 0 end.
Proof.
  intros Hok. unfold exposure_delta. pose proof (make_order_facts w uid ticker sd pr amount) as [Hu Hs].
  destruct (make_order clock w uid ticker sd pr amount) as [o w1]. simpl in *.
  rewrite freeze_for_acc, Hs, Hu.
  destruct (on_account_spec (w_users w) uid false (freeze_acc o) Hok (freeze_acc_identity o)) as (_ & _ & ->).
  by destruct (acct (w_users w) uid).
Qed.

(** *** The invariant *)

Record accounted w : Prop := {
  ac_wf : wf w;
  ac_records : records_ok w;
  ac_store : store_ok (w_users w);
  ac_none : no_exposure w
}.

Lemma exec_no_exposure w a w' :
  accounted w -> admissible clock a w -> exec clock a w = Some w' -> no_exposure w'.
Proof.
  intros Hw Ha E uid Hn. pose proof (exec_users w a w' E) as Hs.
  destruct (users_step_store w a _ Hs (ac_store w Hw)) as [_ Hmono]. specialize (Hmono uid Hn).
  pose proof (ac_none w Hw uid Hmono) as H0.
  destruct (exec_ok clock (count_b uid) (count_s uid) w a w' (ac_wf w Hw) Ha E) as (Hwf' & He & _).
  pose proof (exec_records clock w a w' (ac_wf w Hw) (ac_records w Hw) E) as Hr'.
  pose proof (exposure_nonneg w' _ _ Hwf' Hr' (count_b_nonneg uid) (count_s_nonneg uid)) as Hge.
  assert (exposure_delta clock (count_b uid) (count_s uid) w a <= 0) as Hle; [|lia].
  pose proof (delta_nonpos w _ _ (ac_records w Hw) (count_b_nonneg uid) (count_s_nonneg uid) a) as Hd.
  destruct a; try exact Hd. clear Hd.
  pose proof (freeze_delta (count_b uid) (count_s uid) w uid0 ticker sd pr amount (ac_store w Hw)) as Hd.
  cbv zeta in Hd. rewrite Hd. destruct (acct (w_users w) uid0) as [x|] eqn:Ex; [|lia].
  destruct (freeze_acc _ _).2; [|lia]. unfold ov, order_value, unit_value, count_b, count_s.
  destruct (make_order_facts w uid0 ticker sd pr amount) as [-> _].
  destruct (Z.eqb_spec uid0 uid) as [->|]; [congruence|]. destruct (side _); lia.
Qed.

Lemma exec_accounted w a w' : accounted w -> admissible clock a w -> exec clock a w = Some w' -> accounted w'.
Proof.
  intros Hw Ha E. split.
  - by eapply exec_wf; [apply Hw| |].
  - eapply exec_records; [apply Hw|apply Hw|done].
  - by eapply users_step_store; [apply exec_users|apply Hw].
  - by eapply exec_no_exposure.
Qed.

Section OneMeasure.
Context (n uid : Z) (g : UserAccount -> Z) (wb : Z -> Z -> Z -> Z) (ws : Z -> Z -> Z).
Context (M : measure n uid g wb ws).

Definition tracks w : Prop := g_of g (w_users w) uid = wrapS n (exposure wb ws w).

Lemma g_update w uid' f :
  store_ok (w_users w) -> keeps_identity f ->
  g_of g (update_account (w_users w) uid' f) uid =
    if decide (uid = uid') then match acct (w_users w) uid with Some a => g (f a) | None => 0 end
    else g_of g (w_users w) uid.
Proof.
  intros Hok Hf. unfold g_of. rewrite acct_update by done. destruct (decide _) as [->|]; [|done].
  by destruct (acct (w_users w) uid').
Qed.

(** One account update that takes [v] out of the exposure. *)
Lemma track_update w f uid' v :
  accounted w -> tracks w -> keeps_identity f ->
  (uid' = uid -> forall a, inS n (g a) -> g (f a) = wrapS n (g a - v)) ->
  (uid' <> uid -> v = 0) -> (uid' = uid -> acct (w_users w) uid = None -> v = 0) ->
  g_of g (update_account (w_users w) uid' f) uid = wrapS n (exposure wb ws w - v).
Proof.
  intros Hw Ht Hf Hg Hne Hnone. rewrite g_update by (done || apply Hw). unfold tracks in Ht.
  destruct (decide (uid = uid')) as [<-|Hd].
  - unfold g_of in Ht. destruct (acct (w_users w) uid) as [a|] eqn:E.
    + rewrite Hg; [|done|rewrite Ht; apply wrapS_range, M].
      rewrite Ht. unfold Z.sub. by rewrite wrapS_add.
    + rewrite (Hnone eq_refl eq_refl). by rewrite Z.sub_0_r.
  - rewrite Hne by congruence. by rewrite Z.sub_0_r.
Qed.

(** Freezing for an order adds its value to the account and to the exposure. *)
Lemma freeze_tracks w uid' ticker sd pr amount :
  store_ok (w_users w) -> tracks w ->
  g_of g (on_account (w_users w) uid' false (freeze_acc (make_order clock w uid' ticker sd pr amount).1)).1 uid =
  wrapS n (exposure wb ws w + exposure_delta clock wb ws w (AFreeze uid' ticker sd pr amount)).
Proof.
  intros Hok Ht. pose proof (freeze_delta wb ws w uid' ticker sd pr amount Hok) as Hd. cbv zeta in Hd.
  change (exposure_delta _ _ _ _ _) with (exposure_delta clock wb ws w (AFreeze uid' ticker sd pr amount)).
  rewrite Hd. destruct (make_order_facts w uid' ticker sd pr amount) as [Hu _].
  set (o := (make_order clock w uid' ticker sd pr amount).1) in *.
  destruct (on_account_spec (w_users w) uid' false (freeze_acc o) Hok (freeze_acc_identity o)) as (_ & H2 & _).
  unfold g_of. rewrite H2. destruct (decide (uid = uid')) as [<-|Hne].
  - unfold tracks, g_of in Ht. destruct (acct (w_users w) uid) as [x|] eqn:Ex; simpl.
    + rewrite (ms_freeze _ _ _ _ _ M) by (done || (rewrite Ht; apply wrapS_range, M)). by rewrite Ht, wrapS_add.
    + by rewrite Z.add_0_r.
  - assert (ov wb ws o = 0) as Eo.
    { unfold ov, order_value, unit_value. rewrite Hu, (ms_other_b _ _ _ _ _ M), (ms_other_s _ _ _ _ _ M) by congruence.
      by destruct (side o). }
    replace (match acct (w_users w) uid' with Some a => if (freeze_acc o a).2 then ov wb ws o else 0 | None => 0 end)
      with 0 by (destruct (acct (w_users w) uid'); [destruct (freeze_acc o _).2|]; lia).
    rewrite Z.add_0_r. exact Ht.
Qed.

Lemma exec_tracks w a w' :
  accounted w -> admissible clock a w -> exec clock a w = Some w' -> tracks w -> tracks w'.
Proof.
  intros Hw Ha E Ht. destruct (exec_ok clock wb ws w a w' (ac_wf w Hw) Ha E) as (_ & He & _).
  unfold tracks. rewrite He. pose proof (exec_users w a w' E) as Hs.
  assert (acct (w_users w) uid = None -> exposure (count_b uid) (count_s uid) w = 0) as Hnone by apply (ac_none w Hw).
  pose proof (ac_wf w Hw) as Hwf. pose proof (ac_records w Hw) as Hr. pose proof (ac_store w Hw) as Hok.
  destruct Hs as [uid' ticker sd pr amount ->|uid' name ->|uid' amount ->|i m -> Hm|m -> Hm|i c -> Hc|Hd].
  - by apply freeze_tracks.
  - simpl. rewrite Z.add_0_r. unfold tracks, g_of in *. rewrite acct_create by done.
    destruct (decide (uid = uid')) as [<-|]; [|done]. rewrite <- Ht.
    destruct (acct (w_users w) uid); simpl; [done|]. apply M.
  - simpl. rewrite Z.add_0_r. rewrite <- (Z.sub_0_r (exposure wb ws w)).
    apply (track_update w _ _ 0); [done|done|eauto with exch| |done|done].
    intros _ x Hx. rewrite Z.sub_0_r, wrapS_id by (done || apply M). apply M.
  - simpl. rewrite Hm. replace (exposure wb ws w + - buy_value wb m) with (exposure wb ws w - buy_value wb m) by lia.
    assert (m ∈ pending w) as Hin by (apply elem_of_app; left; by eapply list_elem_of_lookup_2).
    apply track_update; [done|done|apply settle_identities| | |].
    + intros Hu x Hx. by apply M.
    + intros Hne. unfold buy_value. by rewrite (ms_other_b _ _ _ _ _ M).
    + intros Hu Hn. by apply (no_pending w uid Hwf Hr (Hnone Hn) m wb ws Hin).
  - simpl. rewrite Hm. simpl. replace (exposure wb ws w + - sell_value ws m) with (exposure wb ws w - sell_value ws m) by lia.
    apply track_update; [done|done|apply settle_identities| | |].
    + intros Hu x Hx. by apply M.
    + intros Hne. unfold sell_value. by rewrite (ms_other_s _ _ _ _ _ M).
    + intros Hu Hn. by apply (no_half w uid Hwf Hr (Hnone Hn) m ws Hm).
  - simpl. rewrite Hc. replace (exposure wb ws w + - cv wb ws c) with (exposure wb ws w - cv wb ws c) by lia.
    assert (c ∈ sq_cancels (w_settle w)) as Hin by (by eapply list_elem_of_lookup_2).
    apply track_update; [done|done|eauto with exch| | |].
    + intros Hu x Hx. by apply M.
    + intros Hne. unfold cv. rewrite (ms_other_b _ _ _ _ _ M), (ms_other_s _ _ _ _ _ M) by done. by destruct (cr_side c).
    + intros Hu Hn. by apply (no_cancel w uid Hwf Hr (Hnone Hn) c wb ws Hin).
  - rewrite Hd, Z.add_0_r. exact Ht.
Qed.

Lemma reachable_measure w0 w :
  accounted w0 -> tracks w0 -> reachable clock w0 w -> accounted w /\ tracks w.
Proof.
  intros H0 Ht0. induction 1 as [|w a w' _ [IH1 IH2] Ha E]; [done|]. split.
  - by eapply exec_accounted.
  - by eapply exec_tracks.
Qed.
End OneMeasure.

Lemma start_accounted tickers (u : S) (d : D) e file :
  store_ok u -> fresh_engine e -> accounted (start_world tickers u d e file).
Proof.
  intros Hu He. destruct (fresh_engine_refs e He) as [_ Hp]. split; [by apply start_wf| |done|].
  - split; simpl; try (intros ? H'; by apply not_elem_of_nil in H'); [|done].
    intros k p m Hk Hm. apply He in Hk as ->. by apply not_elem_of_nil in Hm.
  - intros uid _. by apply start_exposure.
Qed.
End Measure.
