(* ===== verification/SystemTheorems.v ===== *)
(** * What holds in every reachable world

    The theorems about the server as a whole, for any interleaving of the handlers, the WAL
    worker, the order book workers and the settlement worker: every order is in exactly one
    place and every book is well-formed; frozen funds and frozen shares are exactly what the
    open orders, the unsettled trades and the unsettled cancellations need. *)

From S2P Require Import Prelude Bytes Common OrderIdGenerator OrderedMap OrderBook OrderBookSpec OrderBookLoops.
From S2P Require Import OrderBookProofs OrderBookCancel OrderBookBalance TickerManager Accounts UserManager Repositories.
From S2P Require Import Engine WALManager SettlementProcessor World Exposure ExposureProofs Accounting.
From stdpp Require Import base strings list gmap.
From Stdlib Require Import ZArith Lia.
Local Open Scope Z_scope.

(** ** The two measures *)

Definition money_b (uid : Z) (t u p : Z) : Z := if u =? uid then p else 0.
Definition money_s (t u : Z) : Z := 0.
Definition shares_b (t u p : Z) : Z := 0.
Definition shares_s (uid tick : Z) (t u : Z) : Z := if (u =? uid) && (t =? tick) then 1 else 0.

Lemma settle_cost m :
  wrapS 64 (sell_money m + refund_money m) = wrapS 64 (buyer_expected_price m * match_quantity m).
Proof.
  unfold sell_money, refund_money. rewrite wrapS_add, wrapS_addU, wrapU_mul, Z.add_comm, wrapS_add, wrapS_addU.
  f_equal. ring.
Qed.

Lemma money_measure uid : measure 64 uid frozen_balance (money_b uid) money_s.
Proof.
  split; try done.
  - intros t u p Hne. unfold money_b. by destruct (Z.eqb_spec u uid).
  - intros o a Ha Hu. unfold freeze_acc, ov, order_value, unit_value, money_b, money_s.
    rewrite Hu, Z.eqb_refl. destruct (side o).
    + unfold freeze_balance. destruct (_ <=? _); simpl.
      * by rewrite wrapS_add_r, (Z.add_comm (frozen_balance a)), wrapS_addU, Z.add_comm.
      * by rewrite Z.add_0_r, wrapS_id.
    + unfold freeze_stock. rewrite Z.mul_0_l.
      destruct (_ <=? _); simpl; rewrite Z.add_0_r, wrapS_id by (done || lia); done.
  - intros m a Ha Hu. unfold settle_buy_acc, commit_buy, buy_value, money_b. simpl.
    rewrite Hu, Z.eqb_refl, wrapS_opp. rewrite <- (wrapS_opp 64 (sell_money m + _)), settle_cost. by rewrite wrapS_opp.
  - intros m a Ha Hu. unfold settle_sell_acc, commit_sell, sell_value, money_s. simpl.
    by rewrite Z.sub_0_r, wrapS_id.
  - intros c a Ha Hu. unfold cancel_effect, cv, money_b, money_s. rewrite Hu, Z.eqb_refl. destruct (cr_side c); simpl.
    + by rewrite wrapS_opp, <- wrapS_opp, wrapS_wrapU, wrapS_opp.
    + by rewrite Z.sub_0_r, wrapS_id.
Qed.

Lemma shares_measure uid tick :
  measure 32 uid (fun a => stock (frozen_stock a) tick) shares_b (shares_s uid tick).
Proof.
  split; try done.
  - intros t u Hne. unfold shares_s. by destruct (Z.eqb_spec u uid).
  - intros o a Ha Hu. unfold freeze_acc, ov, order_value, unit_value, shares_b, shares_s.
    rewrite Hu, Z.eqb_refl. cbn [andb]. destruct (side o).
    + unfold freeze_balance. rewrite Z.mul_0_l.
      destruct (_ <=? _); simpl; rewrite Z.add_0_r, wrapS_id by (done || lia); done.
    + unfold freeze_stock. destruct (_ <=? _); simpl; [|by rewrite Z.add_0_r, wrapS_id].
      rewrite stock_add_spec. destruct (decide (tick = ticker_id o)) as [->|Hne].
      * rewrite Z.eqb_refl, wrapS_add_r. f_equal. lia.
      * destruct (Z.eqb_spec (ticker_id o) tick); [congruence|]. by rewrite Z.mul_0_l, Z.add_0_r, wrapS_id.
  - intros m a Ha Hu. unfold settle_buy_acc, commit_buy, buy_value, shares_b. simpl. by rewrite Z.sub_0_r, wrapS_id.
  - intros m a Ha Hu. unfold settle_sell_acc, commit_sell, sell_value, shares_s. simpl.
    rewrite stock_add_spec, Hu, Z.eqb_refl. cbn [andb]. destruct (decide (tick = mr_ticker_id m)) as [->|Hne].
    + rewrite Z.eqb_refl, Z.mul_1_l. apply wrapS_opp.
    + destruct (Z.eqb_spec (mr_ticker_id m) tick); [congruence|]. by rewrite Z.mul_0_l, Z.sub_0_r, wrapS_id.
  - intros c a Ha Hu. unfold cancel_effect, cv, shares_b, shares_s. rewrite Hu, Z.eqb_refl. cbn [andb].
    destruct (cr_side c); simpl; [by rewrite Z.mul_0_l, Z.sub_0_r, wrapS_id|].
    rewrite stock_add_spec. destruct (decide (tick = cr_ticker_id c)) as [->|Hne].
    + rewrite Z.eqb_refl, Z.mul_1_l. apply wrapS_opp.
    + destruct (Z.eqb_spec (cr_ticker_id c) tick); [congruence|]. by rewrite Z.mul_0_l, Z.sub_0_r, wrapS_id.
Qed.

(** ** A sample run, for the witnesses *)

Module SampleRun.
Import TableDB.
Definition clk (n : nat) : Z := (EPOCH + 5000 + Z.of_nat n) * 1000000.
(* ann (1) has cash, bob (2) has 10 shares of ticker 7 *)
Definition log : option FILE := Some (fopen [] (fun _ => 46%nat)).
Definition users : UserManager :=
  set_holding (addBalance (createUserAccount (createUserAccount empty_manager 1 (str "ann")) 2 (str "bob")) 1 1000) 2 7 10.
Definition tickers : TickerManager := add_ticker (str "AAPL") 7 empty_tickers.
Definition w0 : World UserManager DB := start_world tickers users empty_db (init_all [7]) log.
(* a sell of 4 at 100 rests, a buy of 6 at 120 takes it and rests with 2 *)
Definition submit (r : oref) : list (action DB) :=
  [AAppend r; ALog [0]; AForward; ATake 7 [0]; AEvent 7]%nat.
Definition acts : list (action DB) :=
  AFreeze 2 7 SELL 100 4 :: submit 0 ++ [AFlush 7] ++ AFreeze 1 7 BUY 120 6 :: submit 1 ++ [AFlush 7].
Definition traded : World UserManager DB := default w0 (run_checked clk acts w0).
Definition settled : World UserManager DB := default w0 (run_checked clk [ASettleBuy 0; ASettleSell] traded).

Lemma traded_run : run_checked clk acts w0 = Some traded.
Proof. vm_compute. reflexivity. Qed.
Lemma settled_run : run_checked clk [ASettleBuy 0; ASettleSell] traded = Some settled.
Proof. vm_compute. reflexivity. Qed.

Lemma traded_reachable : reachable clk w0 traded.
Proof. exact (run_checked_reachable clk acts w0 w0 traded (reach_init _ _) traded_run). Qed.
Lemma settled_reachable : reachable clk w0 settled.
Proof. exact (run_checked_reachable clk _ w0 traded settled traded_reachable settled_run). Qed.

Lemma run_users_ok : store_ok users.
Proof.
  unfold users, set_holding. apply update_account_ok; [|by intros []].
  unfold addBalance. apply update_account_ok; [|eauto with exch].
  apply create_ok, create_ok. exact um_ok_empty.
Qed.
End SampleRun.

(** ** Reachable worlds *)

Section Theorems.
Context {S D : Type} `{AL : AccountStoreLaws S} `{UR : IUserRepository D} `{SR : IStockRepository D}.
Context (clock : nat -> Z) (tickers : TickerManager) (u0 : S) (d0 : D) (ids : list Z) (file : option FILE).
Implicit Types (w : World S D).

(** The server after startup, with accounts that have nothing frozen. *)
Definition w_start : World S D := start_world tickers u0 d0 (init_all ids) file.


(** The money the system holds back for [uid]: its open buy orders at their limit price, its
    unsettled purchases at the price it was prepared to pay, its unsettled cancellations. *)
Definition committed_money (uid : Z) w : Z :=
  zsum (fun r => let o := deref (w_heap w) r in
          match side o with BUY => if user_id o =? uid then price o * quantity o else 0 | SELL => 0 end) (all_refs w) +
  zsum (fun m => if buyer_user_id m =? uid then buyer_expected_price m * match_quantity m else 0) (pending w) +
  zsum (fun c => match cr_side c with
                 | BUY => if cr_user_id c =? uid then cr_price c * cr_quantity c else 0 | SELL => 0 end)
       (sq_cancels (w_settle w)).

(** The shares of ticker [tick] the system holds back for [uid]. *)
Definition committed_shares (uid tick : Z) w : Z :=
  zsum (fun r => let o := deref (w_heap w) r in
          match side o with
          | SELL => if (user_id o =? uid) && (ticker_id o =? tick) then quantity o else 0 | BUY => 0 end) (all_refs w) +
  zsum (fun m => if (sell_user_id m =? uid) && (mr_ticker_id m =? tick) then match_quantity m else 0)
       (pending w ++ match w_half w with Some m => [m] | None => [] end) +
  zsum (fun c => match cr_side c with
                 | SELL => if (cr_user_id c =? uid) && (cr_ticker_id c =? tick) then cr_quantity c else 0 | BUY => 0 end)
       (sq_cancels (w_settle w)).

Lemma committed_money_exposure uid w : committed_money uid w = exposure (money_b uid) money_s w.
Proof.
  unfold committed_money, exposure. assert (half_value money_s (w_half w) = 0) as -> by (by destruct (w_half w)).
  rewrite Z.add_0_r. f_equal; [f_equal|]; apply zsum_ext; intros x _.
  - unfold ov, order_value, unit_value, money_b, money_s.
    destruct (side _); [destruct (_ =? _)|]; lia.
  - rewrite mv_split. unfold buy_value, sell_value, money_b, money_s. destruct (_ =? _); lia.
  - unfold cv, money_b, money_s. destruct (cr_side _); [destruct (_ =? _)|]; lia.
Qed.

Lemma committed_shares_exposure uid tick w :
  committed_shares uid tick w = exposure shares_b (shares_s uid tick) w.
Proof.
  unfold committed_shares, exposure. rewrite zsum_app.
  assert (zsum (fun m => if (sell_user_id m =? uid) && (mr_ticker_id m =? tick) then match_quantity m else 0)
    (match w_half w with Some m => [m] | None => [] end) = half_value (shares_s uid tick) (w_half w)) as ->.
  { destruct (w_half w) as [m|]; [|done]. simpl. unfold sell_value, shares_s. destruct (_ && _); lia. }
  rewrite Z.add_assoc. f_equal; [f_equal; f_equal|]; apply zsum_ext; intros x _.
  - unfold ov, order_value, unit_value, shares_b, shares_s. destruct (side _); [|destruct (_ && _)]; lia.
  - rewrite mv_split. unfold buy_value, sell_value, shares_b, shares_s. destruct (_ && _); lia.
  - unfold cv, shares_b, shares_s. destruct (cr_side _); [|destruct (_ && _)]; lia.
Qed.

Context (Hok : store_ok u0).
Context (Hfrozen : forall uid a, acct u0 uid = Some a -> frozen_balance a = 0 /\ frozen_stock a = ∅).

Lemma start_tracks n uid g wb ws :
  measure n uid g wb ws -> (forall a, frozen_balance a = 0 /\ frozen_stock a = ∅ -> g a = 0) ->
  tracks n uid g wb ws w_start.
Proof.
  intros M Hg. unfold tracks, w_start. rewrite start_exposure by apply init_all_fresh. unfold g_of. simpl.
  assert (wrapS n 0 = 0) as ->.
  { apply wrapS_id; [apply M|]. pose proof (ms_width _ _ _ _ _ M). unfold inS. pose proof (Z.pow_pos_nonneg 2 (n - 1)). lia. }
  destruct (acct u0 uid) as [a|] eqn:E; [|done]. apply Hg. by eapply Hfrozen.
Qed.

Lemma money_tracked w uid a :
  reachable clock w_start w -> acct (w_users w) uid = Some a -> frozen_balance a = i64 (committed_money uid w).
Proof.
  intros Hr Ha. assert (accounted w_start) as H0 by (apply start_accounted; [done|apply init_all_fresh]).
  assert (tracks 64 uid frozen_balance (money_b uid) money_s w_start) as Ht0
    by (apply start_tracks; [apply money_measure|tauto]).
  destruct (reachable_measure clock _ _ _ _ _ (money_measure uid) _ _ H0 Ht0 Hr) as [_ Ht].
  unfold tracks, g_of in Ht. by rewrite Ha, <- committed_money_exposure in Ht.
Qed.

Lemma shares_tracked w uid tick a :
  reachable clock w_start w -> acct (w_users w) uid = Some a ->
  stock (frozen_stock a) tick = i32 (committed_shares uid tick w).
Proof.
  intros Hr Ha. assert (accounted w_start) as H0 by (apply start_accounted; [done|apply init_all_fresh]).
  assert (tracks 32 uid (fun a => stock (frozen_stock a) tick) shares_b (shares_s uid tick) w_start) as Ht0
    by (apply start_tracks; [apply shares_measure|intros ? [_ ->]; done]).
  destruct (reachable_measure clock _ _ _ _ _ (shares_measure uid tick) _ _ H0 Ht0 Hr) as [_ Ht].
  unfold tracks, g_of in Ht. by rewrite Ha, <- committed_shares_exposure in Ht.
Qed.

(** C3: in every reachable world, the frozen balance of every account is exactly the money
    committed to its open buy orders, its unsettled purchases and its unsettled
    cancellations (as a 64-bit integer: exactly that sum whenever it fits). *)
Theorem frozen_balance_exact w uid a :
  reachable clock w_start w -> acct (w_users w) uid = Some a ->
  frozen_balance a = i64 (committed_money uid w) /\
  (inS 64 (committed_money uid w) -> frozen_balance a = committed_money uid w).
Proof.
  intros Hr Ha. rewrite (money_tracked w uid a Hr Ha). split; [done|]. intros Hin. by rewrite wrapS_id.
Qed.

(** C4: likewise, the frozen shares of every account and ticker are exactly those committed
    to its open sell orders, unsettled sales and unsettled cancellations. *)
Theorem frozen_stock_exact w uid tick a :
  reachable clock w_start w -> acct (w_users w) uid = Some a ->
  stock (frozen_stock a) tick = i32 (committed_shares uid tick w) /\
  (inS 32 (committed_shares uid tick w) -> stock (frozen_stock a) tick = committed_shares uid tick w).
Proof.
  intros Hr Ha. rewrite (shares_tracked w uid tick a Hr Ha). split; [done|]. intros Hin. by rewrite wrapS_id.
Qed.

Lemma reachable_trans w w' : reachable clock w_start w -> reachable clock w w' -> reachable clock w_start w'.
Proof. intros Hr. induction 1 as [|? ? ? ? IH]; [done|]. by eapply reach_step. Qed.

(** ** The parts of what is held back *)

Lemma reachable_accounted w : reachable clock w_start w -> accounted w.
Proof.
  induction 1 as [|w a w' _ IH Ha E]; [apply start_accounted; [done|apply init_all_fresh]|by eapply exec_accounted].
Qed.

(** A valuation that would see a negative price: none enters the system. *)
Definition negative_b (t u p : Z) : Z := if p <? 0 then 1 else 0.

Lemma negative_b_nonneg t u p : 0 <= negative_b t u p.
Proof. unfold negative_b. destruct (p <? 0); lia. Qed.
Lemma money_s_nonneg t u : 0 <= money_s t u.
Proof. done. Qed.

Lemma no_negative_price w : reachable clock w_start w -> exposure negative_b money_s w = 0.
Proof.
  induction 1 as [|w a w' Hr IH Ha E]; [apply start_exposure, init_all_fresh|].
  pose proof (reachable_accounted w Hr) as Hw. pose proof (exec_accounted clock w a w' Hw Ha E) as Hw'.
  destruct (exec_ok clock negative_b money_s w a w' (ac_wf w Hw) Ha E) as (_ & He & _).
  pose proof (exposure_nonneg w' _ _ (ac_wf w' Hw') (ac_records w' Hw') negative_b_nonneg money_s_nonneg) as Hge.
  pose proof (delta_nonpos clock w _ _ (ac_records w Hw) negative_b_nonneg money_s_nonneg a) as Hd.
  destruct a; try lia. clear Hd. destruct Ha as (Hp & _).
  assert (exposure_delta clock negative_b money_s w (AFreeze uid ticker sd pr amount) = 0); [|lia].
  unfold exposure_delta, make_order. destruct (generate _ _). destruct (freeze_for _ _).2; [|done].
  unfold ov, order_value, unit_value, negative_b, money_s. simpl. unfold inU in Hp.
  destruct sd; [|done]. by replace (pr <? 0) with false by lia.
Qed.

Lemma positive_part uid t u p q :
  0 <= q -> negative_b t u p * q <= 0 -> money_b uid t u p * q = Z.max 0 (money_b uid t u p) * q.
Proof.
  intros Hq Hn. destruct (Z.le_gt_cases 0 (money_b uid t u p)) as [Hp|Hp]; [by rewrite Z.max_r|].
  assert (q = 0) as ->; [|lia]. unfold money_b, negative_b in *. destruct (u =? uid); [|lia].
  destruct (Z.ltb_spec p 0); lia.
Qed.

(** The money of one live buy order is part of what its owner has committed. *)
Lemma committed_money_order w r :
  reachable clock w_start w -> r ∈ all_refs w -> side (deref (w_heap w) r) = BUY ->
  price (deref (w_heap w) r) * quantity (deref (w_heap w) r) <= committed_money (user_id (deref (w_heap w) r)) w.
Proof.
  intros Hr Hin Hs. set (uid := user_id _). pose proof (reachable_accounted w Hr) as Hw.
  pose proof (ac_wf w Hw) as Hwf. pose proof (ac_records w Hw) as Hrec. pose proof (no_negative_price w Hr) as H0.
  rewrite committed_money_exposure. set (pos_b := fun t u p => Z.max 0 (money_b uid t u p)).
  assert (forall t u p, 0 <= pos_b t u p) as Hpos by (intros; unfold pos_b; lia).
  assert (exposure (money_b uid) money_s w = exposure pos_b money_s w) as ->.
  { unfold exposure. f_equal; [f_equal; f_equal|]; apply zsum_ext.
    - intros x Hx. pose proof (exposure_order w _ _ Hwf Hrec negative_b_nonneg money_s_nonneg x Hx) as Hle.
      destruct Hwf as [Hrefs _]. destruct (ro_live _ _ Hrefs x Hx) as [_ [Hq _]].
      rewrite H0 in Hle. unfold ov, order_value, unit_value, pos_b in *.
      destruct (side (deref (w_heap w) x)); [|done].
      by apply positive_part.
    - intros m Hm. pose proof (exposure_pending w _ _ Hwf Hrec negative_b_nonneg money_s_nonneg m Hm) as Hle.
      pose proof (records_ok_pending w m Hrec Hm) as Hq. rewrite H0, mv_split in Hle. rewrite !mv_split.
      unfold buy_value, sell_value, money_s, pos_b in *. f_equal. apply positive_part; [done|lia].
    - intros c Hc. pose proof (exposure_cancel w _ _ Hwf Hrec negative_b_nonneg money_s_nonneg c Hc) as Hle.
      pose proof (rc_cancels w Hrec c Hc) as Hq. rewrite H0 in Hle. unfold cv, pos_b in *.
      destruct (cr_side c); [|done]. by apply positive_part. }
  pose proof (exposure_order w _ _ Hwf Hrec Hpos money_s_nonneg r Hin) as Hle.
  revert Hle. unfold ov, order_value, unit_value, pos_b, money_b, uid. rewrite Hs, Z.eqb_refl.
  destruct Hwf as [Hrefs _]. destruct (ro_live _ _ Hrefs r Hin) as [_ [Hq _]]. nia.
Qed.

(** The shares of one live sell order are part of what its owner has committed. *)
Lemma committed_shares_order w r :
  reachable clock w_start w -> r ∈ all_refs w -> side (deref (w_heap w) r) = SELL ->
  quantity (deref (w_heap w) r) <=
    committed_shares (user_id (deref (w_heap w) r)) (ticker_id (deref (w_heap w) r)) w.
Proof.
  intros Hr Hin Hs. set (uid := user_id _). set (tick := ticker_id _). pose proof (reachable_accounted w Hr) as Hw.
  rewrite committed_shares_exposure.
  pose proof (exposure_order w shares_b (shares_s uid tick) (ac_wf w Hw) (ac_records w Hw) ltac:(done)
    ltac:(intros; unfold shares_s; destruct (_ && _); lia) r Hin) as Hle.
  revert Hle. unfold ov, order_value, unit_value, shares_s, uid, tick. rewrite Hs, !Z.eqb_refl. simpl. lia.
Qed.

(** ** Orders the engine dropped *)

Lemma dropped_step w a w' r :
  wf w -> admissible clock a w -> exec clock a w = Some w' -> r ∈ w_dropped w ->
  r ∈ w_dropped w' /\ deref (w_heap w') r = deref (w_heap w) r.
Proof.
  intros Hwf Ha E Hd. split; [by eapply exec_dropped|].
  destruct (exec_refs clock w a w' Hwf Ha E) as [_ _ Ho].
  destruct (Ho r) as [Hl|[(k & p & _ & Hk & Hp) _]]; [unfold all_refs; inlist|by unfold deref; rewrite Hl|].
  exfalso. destruct Hwf as [[Hnd _ _] _]. rewrite (all_refs_split w k p Hk) in Hnd.
  apply NoDup_app in Hnd as (_ & Hn & _). apply (Hn r Hp). unfold others. inlist.
Qed.

Lemma reachable_dropped w w' r :
  wf w -> reachable clock w w' -> r ∈ w_dropped w -> r ∈ w_dropped w' /\ deref (w_heap w') r = deref (w_heap w) r.
Proof.
  intros Hwf Hr Hd. induction Hr as [|w1 a w2 Hr1 IH Ha E]; [done|]. destruct IH as [IH1 IH2].
  destruct (dropped_step w1 a w2 r (reachable_wf clock w w1 Hwf Hr1) Ha E IH1) as [H1 H2]. by rewrite H2.
Qed.

(** C40: an accepted order for a ticker without a book is frozen for ever.  Once the WAL worker
    has forwarded it, then in every world reached from there, whatever else happens: the order
    is unchanged, in no book, queue or buffer; and what it costs is still held back: a buyer's
    frozen balance is at least its price times its quantity, a seller's frozen shares at least
    its quantity (as long as all that is held back for the user fits the integer type). *)
Theorem dropped_order_frozen_forever w r evs w1 w' :
  reachable clock w_start w ->
  wal_buffer (w_wal w) = new_order_event r :: evs -> w_engine w !! ticker_id (deref (w_heap w) r) = None ->
  exec_forward w = Some w1 -> reachable clock w1 w' ->
  let o := deref (w_heap w) r in
  deref (w_heap w') r = o /\ r ∈ w_dropped w' /\
  r ∉ w_flight w' ++ event_refs (wal_queue (w_wal w')) ++ event_refs (wal_buffer (w_wal w')) ++ procs proc_refs (w_engine w') /\
  forall a, acct (w_users w') (user_id o) = Some a ->
    match side o with
    | BUY => inS 64 (committed_money (user_id o) w') -> price o * quantity o <= frozen_balance a
    | SELL => inS 32 (committed_shares (user_id o) (ticker_id o) w') -> quantity o <= stock (frozen_stock a) (ticker_id o)
    end.
Proof.
  intros Hr Hb Hk E Hr' o. pose proof E as E0. unfold exec_forward in E0. rewrite Hb in E0. injection E0 as E0.
  assert (r ∈ w_dropped w1 /\ w_heap w1 = w_heap w) as [Hd Hh].
  { rewrite <- E0. unfold forward_event, engine_processOrder. simpl. rewrite Hk. simpl. split; [inlist|done]. }
  assert (reachable clock w_start w1) as Hr1 by (by apply (reach_step _ _ w AForward)).
  assert (wf w1) as Hwf by (by apply ac_wf, reachable_accounted).
  destruct (reachable_dropped w1 w' r Hwf Hr' Hd) as [Hd' Ho]. rewrite Hh in Ho. fold o in Ho.
  pose proof (reachable_trans w1 w' Hr1 Hr') as Hrw'. assert (r ∈ all_refs w') as Hin by (unfold all_refs; inlist).
  split_and!; [done|done| |].
  - pose proof (ac_wf w' (reachable_accounted w' Hrw')) as [[Hnd _ _] _]. unfold all_refs in Hnd.
    rewrite !app_assoc in Hnd. apply NoDup_app in Hnd as (_ & Hn & _). intros Hx. apply (Hn r); [|done]. by rewrite <- !app_assoc.
  - rewrite <- Ho. intros a Ha. destruct (side _) eqn:Hs; intros Hfit.
    + rewrite (money_tracked w' _ a Hrw' Ha), wrapS_id by done. by apply committed_money_order.
    + rewrite (shares_tracked w' _ _ a Hrw' Ha), wrapS_id by done. by apply committed_shares_order.
Qed.
End Theorems.

Lemma sample_unfrozen uid a :
  acct SampleRun.users uid = Some a -> frozen_balance a = 0 /\ frozen_stock a = ∅.
Proof.
  unfold SampleRun.users, set_holding, addBalance.
  assert (store_ok (createUserAccount (createUserAccount empty_manager 1 (str "ann")) 2 (str "bob"))) as Hu
    by exact (create_ok _ _ _ (create_ok _ _ _ um_ok_empty)).
  assert (forall uid a, acct (createUserAccount (createUserAccount empty_manager 1 (str "ann")) 2 (str "bob")) uid = Some a ->
    frozen_balance a = 0 /\ frozen_stock a = ∅) as H0.
  { intros k x. rewrite !acct_create by (exact um_ok_empty || exact (create_ok _ _ _ um_ok_empty)).
    repeat (destruct (decide _)); try (by intros [= <-]).
    by rewrite acct_empty. }
  assert (forall (u : UserManager) k f, store_ok u -> keeps_identity f ->
    (forall uid a, acct u uid = Some a -> frozen_balance a = 0 /\ frozen_stock a = ∅) ->
    (forall a, frozen_balance (f a) = frozen_balance a /\ frozen_stock (f a) = frozen_stock a) ->
    forall uid a, acct (update_account u k f) uid = Some a -> frozen_balance a = 0 /\ frozen_stock a = ∅) as Hup.
  { intros u k f Hok Hf Hall Hff x y. rewrite acct_update by done. destruct (decide _); [|apply Hall].
    destruct (acct u k) as [z|] eqn:Ez; [|done]. intros [= <-]. destruct (Hff z) as [-> ->]. by eapply Hall. }
  apply Hup; [apply update_account_ok; [exact Hu|eauto with exch]|by intros []| |done].
  apply Hup; [exact Hu|eauto with exch|exact H0|done].
Qed.

(** An order for a ticker that has no book: forwarded, then the rest of a trade of others. *)
Module DroppedRun.
Import TableDB.
Definition acts : list (action DB) := [AFreeze 1 9 BUY 10 5; AAppend 0; ALog [0]]%nat.
Definition logged : World UserManager DB := default SampleRun.w0 (run_checked SampleRun.clk acts SampleRun.w0).
Lemma logged_reachable : reachable SampleRun.clk SampleRun.w0 logged.
Proof.
  refine (run_checked_reachable SampleRun.clk acts SampleRun.w0 SampleRun.w0 logged (reach_init _ _) _).
  vm_compute. reflexivity.
Qed.
Definition lost : World UserManager DB := default SampleRun.w0 (exec_forward logged).
Definition later : list (action DB) :=
  AFreeze 2 7 SELL 100 4 :: SampleRun.submit 1 ++ AFreeze 1 7 BUY 100 4 :: SampleRun.submit 2 ++ [AFlush 7; ASettleBuy 0; ASettleSell].
Definition after : World UserManager DB := default SampleRun.w0 (run_checked SampleRun.clk later lost).
Lemma after_reachable : reachable SampleRun.clk lost after.
Proof. refine (run_checked_reachable SampleRun.clk later lost lost after (reach_init _ _) _). vm_compute. reflexivity. Qed.
End DroppedRun.


Lemma frozen_balance_exact_witness :
  exists a, acct (w_users SampleRun.traded) 1 = Some a /\ frozen_balance a = committed_money 1 SampleRun.traded /\
    committed_money 1 SampleRun.traded = 720 /\ pending SampleRun.traded <> [].
Proof.
  destruct (acct (w_users SampleRun.traded) 1) as [a|] eqn:E; [|vm_compute in E; discriminate E].
  exists a. split; [reflexivity|]. split; [|split; [vm_compute; reflexivity|vm_compute; discriminate]].
  refine (proj2 (frozen_balance_exact SampleRun.clk SampleRun.tickers SampleRun.users TableDB.empty_db [7] SampleRun.log
    SampleRun.run_users_ok sample_unfrozen SampleRun.traded 1 a SampleRun.traded_reachable E) _).
  vm_compute. split; [discriminate|reflexivity].
Defined.

Lemma frozen_stock_exact_witness :
  exists a, acct (w_users SampleRun.traded) 2 = Some a /\
    stock (frozen_stock a) 7 = committed_shares 2 7 SampleRun.traded /\ committed_shares 2 7 SampleRun.traded = 4.
Proof.
  destruct (acct (w_users SampleRun.traded) 2) as [a|] eqn:E; [|vm_compute in E; discriminate E].
  exists a. split; [reflexivity|]. split; [|vm_compute; reflexivity].
  refine (proj2 (frozen_stock_exact SampleRun.clk SampleRun.tickers SampleRun.users TableDB.empty_db [7] SampleRun.log
    SampleRun.run_users_ok sample_unfrozen SampleRun.traded 2 7 a SampleRun.traded_reachable E) _).
  vm_compute. split; [discriminate|reflexivity].
Defined.

Lemma dropped_order_frozen_forever_witness :
  exists a, acct (w_users DroppedRun.after) 1 = Some a /\ all_refs DroppedRun.after = [0%nat] /\
    pending DroppedRun.after = [] /\ 10 * 5 <= frozen_balance a.
Proof.
  destruct (acct (w_users DroppedRun.after) 1) as [a|] eqn:E; [|vm_compute in E; discriminate E].
  exists a. split; [reflexivity|]. split; [vm_compute; reflexivity|]. split; [vm_compute; reflexivity|].
  refine (proj2 (proj2 (proj2 (dropped_order_frozen_forever SampleRun.clk SampleRun.tickers SampleRun.users TableDB.empty_db
    [7] SampleRun.log SampleRun.run_users_ok sample_unfrozen DroppedRun.logged 0%nat [] DroppedRun.lost DroppedRun.after
    DroppedRun.logged_reachable _ _ _ DroppedRun.after_reachable))) a E _);
    [vm_compute; reflexivity..|vm_compute; split; [discriminate|reflexivity]].
Defined.
