(* ===== verification/Pipeline.v ===== *)
(** * Everything that was queued is worked off

    The worker threads of World.v (the WAL worker, the order book workers, the settlement
    worker) as a transition system of their own: [worker_step] is one action of one of them
    that does something.  [work] bounds how many such steps can follow, [quiescent] says
    that no queue, batch or half-settled record is left.  However the workers are scheduled,
    they come to rest after at most [work] steps, they rest only in a quiescent world, and
    what is frozen there belongs to orders that rest in a book, that no handler has appended
    yet, or that the engine dropped. *)

From S2P Require Import Prelude Bytes Common OrderIdGenerator OrderedMap OrderBook OrderBookSpec OrderBookLoops.
From S2P Require Import OrderBookProofs OrderBookCancel OrderBookTheorems TickerManager Accounts UserManager Repositories.
From S2P Require Import Engine WALManager SettlementProcessor World Exposure ExposureProofs Accounting SystemTheorems.
From stdpp Require Import base strings list gmap relations.
From Stdlib Require Import ZArith Lia.
Local Open Scope Z_scope.

(** ** Matching does not make the work grow *)

(** A fill consumes a resting order or ends the match, so the fills and the orders that rest
    afterwards are at most one more than the orders before: the new one. *)
Lemma spec_match_length sd tk opp f tk' opp' :
  0 <= quantity tk -> (forall o, o ∈ opp -> 0 < quantity o) -> spec_match sd tk opp = (f, tk', opp') ->
  Z.of_nat (length f + length opp') + (if 0 <? quantity tk' then 1 else 0) <= Z.of_nat (length opp) + 1.
Proof.
  intros Ht Ho E. pose proof (spec_match_prefix _ _ _ _ _ _ Ht Ho E) as [Hp Hrest].
  apply (f_equal length) in Hp. rewrite length_fmap, length_take in Hp.
  destruct Hrest as [[-> _]|(-> & f0 & m & q & _ & _ & _ & ->)]; cbn [length]; rewrite length_drop.
  - destruct (0 <? quantity tk'); lia.
  - simpl. lia.
Qed.

Definition a_size (a : ABook) : nat := length (a_bids a) + length (a_asks a).

Lemma length_spec_rest sd o l : length (spec_rest sd o l) = S (length l).
Proof. induction l as [|x l IH]; simpl; [done|]. destruct (better_eq _ _ _); simpl; by rewrite ?IH. Qed.

Lemma spec_process_size a o f o' a' :
  0 <= quantity o -> (forall x, x ∈ a_side (opposite (side o)) a -> 0 < quantity x) ->
  spec_process a o = (f, o', a') -> (length f + a_size a' <= a_size a + 1)%nat.
Proof.
  intros Hq Hpos. unfold spec_process. destruct (spec_match _ _ _) as [[f1 o1] opp] eqn:M. intros [= <- <- <-].
  pose proof (spec_match_length _ _ _ _ _ _ Hq Hpos M) as H. unfold a_size. revert H.
  destruct (side o); simpl; destruct (0 <? quantity o1); rewrite ?length_spec_rest; lia.
Qed.

Lemma a_size_abs h b : a_size (abs h b) = length (book_refs b).
Proof. unfold a_size, abs, book_refs, view. simpl. by rewrite !length_fmap, length_app. Qed.

(** Resting orders and match records after an order is processed. *)
Lemma processOrder_size clock b r h res t b' h' res' t' :
  book_ok h b -> new_ok h b r -> processOrder clock b r h res t = (b', h', res', t') ->
  (length res' + length (book_refs b') <= length res + length (book_refs b) + 1)%nat.
Proof.
  intros Hb Hn E. destruct (processOrder_post _ _ _ _ _ _ _ _ _ _ Hb Hn E) as [f P].
  destruct (no_qty _ _ _ Hn) as [Hq _].
  pose proof (spec_process_size _ _ _ _ _ Hq ltac:(intros; by eapply opposite_positive) (pp_spec _ _ _ _ _ _ _ _ _ _ _ P)) as H.
  rewrite !a_size_abs in H.
  rewrite (pp_results _ _ _ _ _ _ _ _ _ _ _ P), length_app, length_spec_records. lia.
Qed.

(** ** The workers *)

Section Pipeline.
Context {S D : Type} `{AS : AccountStore S} `{UR : IUserRepository D} `{SR : IStockRepository D}.
Context (clock : nat -> Z).
Implicit Types (w : World S D).

(** The actions of the worker threads that do something: a loop that dequeues nothing, or
    flushes nothing, leaves the world as it is. *)
Definition useful w (a : action D) : bool :=
  match a with
  | ALog ks | ATake _ ks => bool_decide (ks <> [])
  | AForward | AEvent _ | ASettleBuy _ | ASettleSell | ASettleCancel _ => true
  | AFlush k => match w_engine w !! k with Some p => bool_decide (p_results p <> []) | None => false end
  | AFreeze _ _ _ _ _ | AAppend _ | ACancel _ _ _ | ACreate _ _ | ACredit _ _ | ADatabase _ | ATick => false
  end.

Definition worker_step w w' : Prop := exists a, useful w a = true /\ exec clock a w = Some w'.

(** Nothing is left for the workers. *)
Record quiescent w : Prop := {
  qu_wal : wal_queue (w_wal w) = [] /\ wal_buffer (w_wal w) = [];
  qu_procs k p : w_engine w !! k = Some p -> p_queue p = [] /\ p_buffer p = [] /\ p_results p = [];
  qu_settle : sq_matches (w_settle w) = [] /\ sq_cancels (w_settle w) = [] /\ w_half w = None
}.

Definition lenZ {A} (l : list A) : Z := Z.of_nat (length l).

(** What one processor, and the whole pipeline, still has to do at most. *)
Definition p_work (p : OrderBookProcessor) : Z :=
  5 * lenZ (p_queue p) + 4 * lenZ (p_buffer p) + 3 * (lenZ (book_refs (p_book p)) + lenZ (p_results p)).
Definition e_work (e : MatchingEngine) : Z := zsum (fun kp => p_work kp.2) (map_to_list e).
Definition s_work w : Z :=
  2 * lenZ (sq_matches (w_settle w)) + lenZ (sq_cancels (w_settle w)) + match w_half w with Some _ => 1 | None => 0 end.
Definition work w : Z :=
  7 * lenZ (wal_queue (w_wal w)) + 6 * lenZ (wal_buffer (w_wal w)) + e_work (w_engine w) + s_work w.

Lemma p_work_nonneg p : 0 <= p_work p.
Proof. unfold p_work, lenZ. lia. Qed.

Lemma work_nonneg w : 0 <= work w.
Proof.
  assert (0 <= e_work (w_engine w)) by (apply zsum_nonneg; intros; apply p_work_nonneg).
  unfold work, s_work, lenZ. destruct (w_half w); lia.
Qed.

Lemma e_work_lookup e k p : e !! k = Some p -> e_work e = p_work p + e_work (delete k e).
Proof. intros Hk. unfold e_work. by rewrite <- (map_to_list_delete e k p Hk). Qed.

Lemma e_work_insert e k p p' : e !! k = Some p -> e_work (<[k := p']> e) = e_work e - p_work p + p_work p'.
Proof.
  intros Hk. rewrite (e_work_lookup e k p Hk), (e_work_lookup _ k p') by apply lookup_insert_eq.
  rewrite delete_insert_eq. lia.
Qed.

Lemma lenZ_app {A} (l k : list A) : lenZ (l ++ k) = lenZ l + lenZ k.
Proof. unfold lenZ. rewrite length_app. lia. Qed.

Lemma lenZ_delete {A} i (l : list A) x : l !! i = Some x -> lenZ (delete i l) = lenZ l - 1.
Proof. intros Hi. unfold lenZ. pose proof (lookup_lt_Some _ _ _ Hi). rewrite length_delete by done. lia. Qed.

(** A non-empty dequeue takes something. *)
Lemma dequeue_some {A} ks (q batch rest : list A) :
  ks <> [] -> dequeue ks q = Some (batch, rest) -> lenZ q = lenZ batch + lenZ rest /\ 0 < lenZ batch.
Proof.
  intros Hne Hd. pose proof (dequeue_length _ _ _ _ Hd) as Hl. apply dequeue_perm, Permutation_length in Hd.
  rewrite length_app in Hd. unfold lenZ. destruct ks; [done|]. simpl in *. lia.
Qed.

(** ** Every step leaves less to do *)

Lemma log_work w ks w' : ks <> [] -> exec_log clock w ks = Some w' -> work w' < work w.
Proof.
  intros Hne. unfold exec_log. destruct (wal_buffer (w_wal w)) eqn:Eb; [|done].
  destruct (dequeue ks _) as [[batch rest]|] eqn:Ed; [|done]. apply dequeue_some in Ed as [Hq Hb]; [|done].
  unfold wal_log. destruct (wal_records _ _ _ _). intros [= <-].
  unfold work, s_work. simpl. rewrite Eb, Hq. change (lenZ []) with 0. lia.
Qed.

Lemma forward_work e h ev : e_work (forward e h ev) <= e_work e + 5.
Proof.
  assert (forall k p ev', e !! k = Some p -> e_work (<[k := enqueue ev' p]> e) = e_work e + 5) as Hq.
  { intros k p ev' Hk. rewrite (e_work_insert _ _ _ _ Hk). unfold p_work, enqueue. simpl. rewrite lenZ_app.
    change (lenZ [ev']) with 1. lia. }
  unfold forward, engine_processOrder, CancelOrder.
  destruct (ev_type ev); [destruct (ev_order ev) as [r|]; [destruct (e !! ticker_id _) as [p|] eqn:E|]
    |destruct (e !! ev_ticker_id ev) as [p|] eqn:E]; simpl; rewrite ?(Hq _ _ _ E); lia.
Qed.

Lemma exec_forward_work w w' : exec_forward w = Some w' -> work w' < work w.
Proof.
  unfold exec_forward. destruct (wal_buffer (w_wal w)) as [|ev evs] eqn:Eb; [done|]. intros [= <-].
  set (w1 := set_wal _ w). pose proof (forward_work (w_engine w) (w_heap w) ev) as He.
  assert (w_engine (forward_event w1 ev) = forward (w_engine w) (w_heap w) ev /\
    w_wal (forward_event w1 ev) = w_wal w1 /\ s_work (forward_event w1 ev) = s_work w) as (H1 & H2 & H3).
  { unfold forward_event. destruct (ev_type ev), (ev_order ev); try done. simpl. by destruct (fst _). }
  unfold work. rewrite H1, H2, H3, Eb. change (lenZ (ev :: evs)) with (lenZ ([ev] ++ evs)). rewrite lenZ_app.
  change (lenZ [ev]) with 1. simpl. lia.
Qed.

(** A step of one order book worker that also pushes records to the settlement worker. *)
Lemma proc_step_work w k p p' w' :
  w_engine w !! k = Some p -> w_engine w' = <[k := p']> (w_engine w) -> w_wal w' = w_wal w ->
  p_work p' + s_work w' < p_work p + s_work w -> work w' < work w.
Proof. intros Hk He Hw Hlt. unfold work. rewrite He, Hw, (e_work_insert _ _ _ _ Hk). lia. Qed.

Lemma take_work w k ks w' : ks <> [] -> exec_take w k ks = Some w' -> work w' < work w.
Proof.
  intros Hne. unfold exec_take. destruct (w_engine w !! k) as [[t b q [|] [|]]|] eqn:Ek; try done.
  destruct (dequeue ks q) as [[batch rest]|] eqn:Ed; [|done]. apply dequeue_some in Ed as [Hq Hb]; [|done].
  intros [= <-]. eapply (proc_step_work w k); [exact Ek|done..|].
  unfold p_work. cbn [p_queue p_buffer p_book p_results]. rewrite Hq. change (s_work _) with (s_work w) at 1.
  change (lenZ (@nil EngineEvent)) with 0. lia.
Qed.

Lemma flush_work w k w' :
  useful w (AFlush k) = true -> exec_flush w k = Some w' -> work w' < work w.
Proof.
  unfold useful, exec_flush. destruct (w_engine w !! k) as [[t b q [|] res]|] eqn:Ek; try done.
  intros Hne%bool_decide_eq_true [= <-]. eapply (proc_step_work w k); [exact Ek|done..|].
  destruct res as [|m res]; [done|]. unfold p_work, s_work. simpl. rewrite lenZ_app.
  unfold lenZ. cbn [length]. lia.
Qed.

Lemma event_work w k w' : wf w -> exec_event clock w k = Some w' -> work w' < work w.
Proof.
  intros Hw. pose proof Hw as [Hr He]. unfold exec_event.
  destruct (w_engine w !! k) as [[t b q [|ev evs] res]|] eqn:Hk; try done.
  unfold process_event. cbn [p_book p_results p_ticker_id p_queue p_buffer].
  assert (lenZ (ev :: evs) = lenZ evs + 1) as Hev by (unfold lenZ; cbn [length]; lia).
  destruct (ev_type ev) eqn:Et; [destruct (ev_order ev) as [r|] eqn:Er|].
  - destruct (processOrder clock b r (w_heap w) res (w_ticks w)) as [[[b' h'] res'] t'] eqn:E. intros [= <-].
    destruct (new_order_facts clock w k t b q evs res r Hw ev Et Er Hk b' h' res' t' E) as (f & _ & Hb & Hn & _).
    pose proof (processOrder_size _ _ _ _ _ _ _ _ _ _ Hb Hn E) as Hsize.
    eapply (proc_step_work w k); [exact Hk|done..|]. change (s_work _) with (s_work w) at 1.
    unfold p_work. cbn [p_queue p_buffer p_book p_results]. unfold lenZ in *. lia.
  - intros [= <-]. eapply (proc_step_work w k); [exact Hk|done..|]. change (s_work _) with (s_work w) at 1.
    unfold p_work. cbn [p_queue p_buffer p_book p_results]. lia.
  - destruct (en_book _ _ He k _ Hk) as [Hb _]. cbn [p_book] in Hb.
    destruct (cancelOrder_cases (w_heap w) b (cancel_order_id ev) (cancel_user_id ev) Hb)
      as [(r & Hrb & _ & _ & ->)|[_ ->]]; intros [= <-]; (eapply (proc_step_work w k); [exact Hk|done..|]);
      unfold p_work; cbn [p_queue p_buffer p_book p_results]; [|change (s_work _) with (s_work w) at 1; lia].
    pose proof (cancel_perm _ _ Hb r Hrb) as Hp%Permutation_length. cbn [length] in Hp.
    unfold s_work. simpl. rewrite lenZ_app, Hev. change (lenZ [_]) with 1. unfold lenZ in *. lia.
Qed.

Lemma settle_work w a w' :
  a = ASettleSell \/ (exists i, a = ASettleBuy i \/ a = ASettleCancel i) -> exec clock a w = Some w' -> work w' < work w.
Proof.
  intros [->|(i & [->| ->])]; simpl; unfold exec_settle_sell, exec_settle_buy, exec_settle_cancel;
    destruct (w_half w) as [m|] eqn:Eh; try done.
  - intros [= <-]. unfold work, s_work. simpl. rewrite Eh. lia.
  - destruct (sq_matches (w_settle w) !! i) as [rec|] eqn:E; [|done]. intros [= <-].
    unfold work, s_work. simpl. rewrite (lenZ_delete _ _ _ E), Eh. lia.
  - destruct (sq_cancels (w_settle w) !! i) as [rec|] eqn:E; [|done]. intros [= <-].
    unfold work, s_work. simpl. rewrite (lenZ_delete _ _ _ E), Eh. lia.
Qed.

Lemma worker_step_work w w' : wf w -> worker_step w w' -> work w' < work w.
Proof.
  intros Hw (a & Hu & E). destruct a; try done; simpl in E.
  - by eapply log_work; [apply bool_decide_eq_true in Hu|].
  - by apply exec_forward_work.
  - by eapply take_work; [apply bool_decide_eq_true in Hu|].
  - by eapply event_work.
  - by eapply flush_work.
  - apply (settle_work w (ASettleBuy i)); eauto.
  - apply (settle_work w ASettleSell); eauto.
  - apply (settle_work w (ASettleCancel i)); eauto.
Qed.

(** ** The workers stop only when nothing is left *)

Lemma dequeue_head {A} (x : A) q : dequeue [0%nat] (x :: q) = Some ([x], q).
Proof. done. Qed.

Lemma proc_busy w k p :
  w_engine w !! k = Some p -> ~ (p_queue p = [] /\ p_buffer p = [] /\ p_results p = []) -> exists w', worker_step w w'.
Proof.
  destruct p as [t b q [|ev evs] [|m res]]; cbn [p_queue p_buffer p_results]; intros Hk Hb.
  - destruct q as [|ev q]; [tauto|]. eexists. exists (ATake k [0%nat]). split; [done|]. simpl.
    unfold exec_take. rewrite Hk, dequeue_head. reflexivity.
  - eexists. exists (AFlush k). simpl. unfold exec_flush. rewrite Hk. split; [done|reflexivity].
  - assert (exists w', exec_event clock w k = Some w') as [w' E]; [|by exists w', (AEvent k)].
    unfold exec_event. rewrite Hk. destruct (process_event _ _ _ _ _) as [[[]]]. eauto.
  - assert (exists w', exec_event clock w k = Some w') as [w' E]; [|by exists w', (AEvent k)].
    unfold exec_event. rewrite Hk. destruct (process_event _ _ _ _ _) as [[[]]]. eauto.
Qed.

Lemma wal_busy w : ~ (wal_queue (w_wal w) = [] /\ wal_buffer (w_wal w) = []) -> exists w', worker_step w w'.
Proof.
  intros Hb. destruct (wal_buffer (w_wal w)) as [|ev evs] eqn:Eb.
  - destruct (wal_queue (w_wal w)) as [|ev q] eqn:Eq; [tauto|].
    assert (exists w', exec_log clock w [0%nat] = Some w') as [w' E]; [|by exists w', (ALog [0%nat])].
    unfold exec_log. rewrite Eb, Eq, dequeue_head. unfold wal_log. destruct (wal_records _ _ _ _). eauto.
  - assert (exists w', exec_forward w = Some w') as [w' E]; [|by exists w', AForward].
    unfold exec_forward. rewrite Eb. eauto.
Qed.

Lemma settle_busy w :
  ~ (sq_matches (w_settle w) = [] /\ sq_cancels (w_settle w) = [] /\ w_half w = None) -> exists w', worker_step w w'.
Proof.
  intros Hb. destruct (w_half w) as [m|] eqn:Eh.
  - eexists. exists ASettleSell. split; [done|]. simpl. unfold exec_settle_sell. rewrite Eh. reflexivity.
  - destruct (sq_matches (w_settle w)) as [|m ms] eqn:Em.
    + destruct (sq_cancels (w_settle w)) as [|c cs] eqn:Ec; [tauto|].
      eexists. exists (ASettleCancel 0). split; [done|]. simpl. unfold exec_settle_cancel. rewrite Eh, Ec. reflexivity.
    + eexists. exists (ASettleBuy 0). split; [done|]. simpl. unfold exec_settle_buy. rewrite Eh, Em. reflexivity.
Qed.

#[local] Instance nil_dec {A} (l : list A) : Decision (l = []).
Proof. destruct l; [by left|by right]. Defined.
#[local] Instance none_dec {A} (o : option A) : Decision (o = None).
Proof. destruct o; [by right|by left]. Defined.

(** Either some worker has something to do, or the world is quiescent. *)
Lemma busy_or_quiescent w : (exists w', worker_step w w') \/ quiescent w.
Proof.
  destruct (decide (wal_queue (w_wal w) = [] /\ wal_buffer (w_wal w) = [])) as [Hq|Hb]; [|left; by apply wal_busy].
  destruct (decide (sq_matches (w_settle w) = [] /\ sq_cancels (w_settle w) = [] /\ w_half w = None)) as [Hs|Hb];
    [|left; by apply settle_busy].
  destruct (decide (map_Forall (fun _ p => p_queue p = [] /\ p_buffer p = [] /\ p_results p = []) (w_engine w))) as [He|He].
  - right. by split.
  - left. apply map_not_Forall in He as (k & p & Hk & Hb); [|apply _]. by eapply proc_busy.
Qed.

(** And in a quiescent world no worker has. *)
Lemma quiescent_idle w w' : quiescent w -> ~ worker_step w w'.
Proof.
  intros [[Hq Hb] Hp (Hm & Hc & Hh)] (a & Hu & E). destruct a; try done; simpl in E.
  - apply bool_decide_eq_true in Hu. unfold exec_log in E. rewrite Hb, Hq in E. by destruct ks.
  - unfold exec_forward in E. by rewrite Hb in E.
  - apply bool_decide_eq_true in Hu. unfold exec_take in E.
    destruct (w_engine w !! ticker) as [[t b q [|] [|]]|] eqn:Ek; try done.
    destruct (Hp _ _ Ek) as (Hq' & _). simpl in Hq'. rewrite Hq' in E. by destruct ks.
  - unfold exec_event in E. destruct (w_engine w !! ticker) as [[t b q [|] res]|] eqn:Ek; try done.
    by destruct (Hp _ _ Ek) as (_ & ? & _).
  - unfold useful in Hu. destruct (w_engine w !! ticker) as [p|] eqn:Ek; [|done].
    apply bool_decide_eq_true in Hu. by destruct (Hp _ _ Ek) as (_ & _ & ?).
  - unfold exec_settle_buy in E. by rewrite Hh, Hm in E.
  - unfold exec_settle_sell in E. by rewrite Hh in E.
  - unfold exec_settle_cancel in E. by rewrite Hh, Hc in E.
Qed.

(** ** Runs of the workers *)

Lemma worker_step_reachable w0 w w' : reachable clock w0 w -> worker_step w w' -> reachable clock w0 w'.
Proof. intros Hr (a & Hu & E). eapply reach_step; [exact Hr| |exact E]. by destruct a. Qed.

Lemma worker_steps_reachable w0 w w' : reachable clock w0 w -> rtc worker_step w w' -> reachable clock w0 w'.
Proof. intros Hr. induction 1 as [|w1 w2 w3 H12 _ IH]; [done|]. apply IH. by eapply worker_step_reachable. Qed.

Lemma worker_steps_bound w0 w w' n :
  wf w0 -> reachable clock w0 w -> nsteps worker_step n w w' -> Z.of_nat n + work w' <= work w.
Proof.
  intros H0 Hr Hn. induction Hn as [w|n w1 w2 w3 H12 _ IH]; [lia|].
  pose proof (worker_step_work w1 w2 (reachable_wf clock w0 w1 H0 Hr) H12).
  specialize (IH (worker_step_reachable _ _ _ Hr H12)). lia.
Qed.

Lemma workers_reach_quiescence w0 w :
  wf w0 -> reachable clock w0 w -> exists w', rtc worker_step w w' /\ quiescent w'.
Proof.
  intros H0. remember (Z.to_nat (work w)) as n eqn:En. revert w En.
  induction (lt_wf n) as [n _ IH]. intros w -> Hr.
  destruct (busy_or_quiescent w) as [[w1 H1]|Hq]; [|by exists w].
  pose proof (worker_step_work w w1 (reachable_wf clock w0 w H0 Hr) H1). pose proof (work_nonneg w1).
  destruct (IH (Z.to_nat (work w1)) ltac:(lia) w1 eq_refl (worker_step_reachable _ _ _ Hr H1)) as (w' & Hs & Hq).
  exists w'. split; [by eapply rtc_l|done].
Qed.

(** ** Where the orders are in a quiescent world *)

(** The orders not yet appended by their handler, resting in a book, or dropped. *)
Definition standing w : list oref :=
  w_flight w ++ procs (fun p => book_refs (p_book p)) (w_engine w) ++ w_dropped w.

Lemma procs_ext {A} (f g : OrderBookProcessor -> list A) (e : MatchingEngine) :
  (forall k p, e !! k = Some p -> f p = g p) -> procs f e = procs g e.
Proof.
  intros Hfg. unfold procs. f_equal. apply list_fmap_ext. intros i [k p] Hi%list_elem_of_lookup_2.
  apply elem_of_map_to_list in Hi. by eapply Hfg.
Qed.

Lemma procs_none {A} (f : OrderBookProcessor -> list A) (e : MatchingEngine) :
  (forall k p, e !! k = Some p -> f p = []) -> procs f e = [].
Proof.
  intros Hf. destruct (procs f e) as [|x l] eqn:E; [done|].
  assert (x ∈ procs f e) as (k & p & Hk & Hx)%elem_of_procs by (rewrite E; apply list_elem_of_here).
  rewrite (Hf k p Hk) in Hx. by apply not_elem_of_nil in Hx.
Qed.

Lemma quiescent_refs w : quiescent w -> all_refs w = standing w.
Proof.
  intros [[Hq Hb] Hp _]. unfold all_refs, standing. rewrite Hq, Hb. simpl. f_equal. f_equal.
  apply procs_ext. intros k p Hk. unfold proc_refs. destruct (Hp k p Hk) as (-> & -> & _). simpl. by rewrite app_nil_r.
Qed.

Lemma quiescent_pending w : quiescent w -> pending w = [].
Proof.
  intros [_ Hp (Hm & _ & _)]. unfold pending. rewrite Hm. apply procs_none. intros k p Hk. by apply (Hp k p Hk).
Qed.
End Pipeline.

Section Draining.
Context {S D : Type} `{AL : AccountStoreLaws S} `{UR : IUserRepository D} `{SR : IStockRepository D}.
Context (clock : nat -> Z) (tickers : TickerManager) (u0 : S) (d0 : D) (ids : list Z) (file : option FILE).
Context (Hok : store_ok u0).
Context (Hfrozen : forall uid a, acct u0 uid = Some a -> frozen_balance a = 0 /\ frozen_stock a = ∅).
Implicit Types (w : World S D).

(** The price of the standing buy orders of [uid], and the standing sell orders of [uid] in
    [tick]. *)
Definition standing_money (uid : Z) w : Z :=
  zsum (fun r => let o := deref (w_heap w) r in
          match side o with BUY => if user_id o =? uid then price o * quantity o else 0 | SELL => 0 end) (standing w).
Definition standing_shares (uid tick : Z) w : Z :=
  zsum (fun r => let o := deref (w_heap w) r in
          match side o with
          | SELL => if (user_id o =? uid) && (ticker_id o =? tick) then quantity o else 0 | BUY => 0 end) (standing w).

Lemma quiescent_committed w uid tick :
  quiescent w -> committed_money uid w = standing_money uid w /\ committed_shares uid tick w = standing_shares uid tick w.
Proof.
  intros Hq. unfold committed_money, committed_shares, standing_money, standing_shares.
  rewrite (quiescent_refs w Hq), (quiescent_pending w Hq). destruct Hq as [_ _ (_ & -> & ->)]. cbn [app]. rewrite !zsum_nil. lia.
Qed.

(** C7: whatever was frozen, logged, queued or matched is worked off.  From every reachable
    world, however the WAL worker, the order book workers and the settlement worker are
    interleaved, they take at most [work w] steps; they can come to rest; and they are at
    rest only when every queue, batch and half-settled record is gone, where the frozen
    balance and shares of every account are exactly those of its orders that stand in a
    book, that its handler has not appended yet, or that the engine dropped. *)
Theorem pipeline_drains w :
  reachable clock (w_start tickers u0 d0 ids file) w ->
  (forall n w', nsteps (worker_step clock) n w w' -> Z.of_nat n <= work w) /\
  (exists w', rtc (worker_step clock) w w' /\ nf (worker_step clock) w') /\
  (forall w', rtc (worker_step clock) w w' -> nf (worker_step clock) w' ->
    quiescent w' /\
    forall uid a, acct (w_users w') uid = Some a ->
      frozen_balance a = i64 (standing_money uid w') /\
      forall tick, stock (frozen_stock a) tick = i32 (standing_shares uid tick w')).
Proof.
  intros Hr. assert (wf (w_start tickers u0 d0 ids file)) as H0 by apply start_wf, init_all_fresh.
  split_and!.
  - intros n w' Hn. pose proof (worker_steps_bound clock _ _ _ _ H0 Hr Hn). pose proof (work_nonneg w'). lia.
  - destruct (workers_reach_quiescence clock _ _ H0 Hr) as (w' & Hs & Hq). exists w'. split; [done|].
    intros [w2 H2]. by eapply quiescent_idle.
  - intros w' Hs Hnf. destruct (busy_or_quiescent clock w') as [[w2 H2]|Hq]; [by destruct Hnf; exists w2|].
    split; [done|]. intros uid a Ha. pose proof (worker_steps_reachable clock _ _ _ Hr Hs) as Hr'.
    split; [|intros tick].
    + rewrite (money_tracked clock tickers u0 d0 ids file Hok Hfrozen w' uid a Hr' Ha).
      by destruct (quiescent_committed w' uid 0 Hq) as [-> _].
    + rewrite (shares_tracked clock tickers u0 d0 ids file Hok Hfrozen w' uid tick a Hr' Ha).
      by destruct (quiescent_committed w' uid tick Hq) as [_ ->].
Qed.
End Draining.

Import TableDB.

(** From the world of the sample run the workers have a trade to settle; afterwards the
    resting rest of ann's order is all that is frozen. *)
Lemma pipeline_drains_witness :
  exists w', rtc (worker_step SampleRun.clk) SampleRun.traded w' /\ quiescent w' /\ ~ quiescent SampleRun.traded /\
    exists a, acct (w_users w') 1 = Some a /\ frozen_balance a = i64 (standing_money 1 w') /\ standing_money 1 w' = 240.
Proof.
  destruct (pipeline_drains SampleRun.clk SampleRun.tickers SampleRun.users TableDB.empty_db [7] SampleRun.log
    SampleRun.run_users_ok sample_unfrozen SampleRun.traded SampleRun.traded_reachable) as (_ & _ & H).
  exists SampleRun.settled.
  assert (rtc (worker_step SampleRun.clk) SampleRun.traded SampleRun.settled) as Hs.
  { eapply (rtc_l _ _ (default SampleRun.traded (exec SampleRun.clk (ASettleBuy 0) SampleRun.traded))).
    - exists (ASettleBuy 0). split; [reflexivity|vm_compute; reflexivity].
    - eapply rtc_l; [|apply rtc_refl]. exists ASettleSell. split; [reflexivity|vm_compute; reflexivity]. }
  assert (quiescent SampleRun.settled) as Hq.
  { split; [vm_compute; auto| |vm_compute; auto].
    change (map_Forall (fun _ p => p_queue p = [] /\ p_buffer p = [] /\ p_results p = []) (w_engine SampleRun.settled)).
    apply map_Forall_to_list. vm_compute. repeat constructor. }
  split; [exact Hs|]. split; [exact Hq|]. split.
  - intros [_ _ (Hm & _)]. vm_compute in Hm. discriminate Hm.
  - destruct (acct (w_users SampleRun.settled) 1) as [a|] eqn:E; [|vm_compute in E; discriminate E].
    exists a. split; [reflexivity|].
    destruct (H SampleRun.settled Hs ltac:(intros [w2 H2]; exact (quiescent_idle _ _ _ Hq H2))) as [_ Hf].
    destruct (Hf 1 a E) as [Hm _]. split; [exact Hm|]. vm_compute. reflexivity.
Defined.
