(* ===== verification/Session.v ===== *)
(** * Sessions and the router

    [include/Router.hpp]: the per-connection [Session] and the table from message types to
    handlers. *)

From S2P Require Import Prelude Bytes Protocol.
From stdpp Require Import base list gmap.
From Stdlib Require Import ZArith Lia.
Local Open Scope Z_scope.

Record Session := mkSession {
  s_fd : Z;
  s_buffer : bytes;
  s_username : bytes;
  s_user_id : Z
}.

Definition new_session (fd : Z) : Session := mkSession fd [] [] 0.

Definition isLoggedIn (s : Session) : bool := negb (bool_decide (s_username s = [])).

Definition set_identity (name : bytes) (uid : Z) (s : Session) : Session :=
  mkSession (s_fd s) (s_buffer s) name uid.
Definition set_username (name : bytes) (s : Session) : Session :=
  mkSession (s_fd s) (s_buffer s) name (s_user_id s).
Definition set_buffer (b : bytes) (s : Session) : Session :=
  mkSession (s_fd s) b (s_username s) (s_user_id s).

(** The subclasses of [IHandler]. *)
Inductive HandlerKind :=
| LoginHandler | RegisterUserHandler | ExitHandler | GetBalanceHandler | GetAllStocksHandler
| DepositHandler | TradeHandler | GetHoldingsHandler | GetMarketHandler | GetNewsHandler
| GetTrendHandler | GetOrdersHandler | CancelOrderHandler.

(** [handlers_], keyed by the numeric message type. *)
Definition Router := gmap Z HandlerKind.

Definition registerHandler (t : MsgType) (k : HandlerKind) (r : Router) : Router := <[msg_code t := k]> r.

(** [dispatch]: an unknown type is logged and answered with the empty string. *)
Definition dispatch {St} (handle : HandlerKind -> Session -> bytes -> Z -> St -> option bytes * Session * St)
    (r : Router) (s : Session) (type : Z) (req : bytes) (req_len : Z) (st : St) : option bytes * Session * St :=
  match r !! type with
  | Some k => handle k s req req_len st
  | None => (Some [], s, st)
  end.

(** The thirteen registrations of [main]. *)
Definition registrations : list (MsgType * HandlerKind) :=
  [(LOGIN_REQ, LoginHandler); (REGISTER_REQ, RegisterUserHandler); (LOGOUT_REQ, ExitHandler);
   (BALANCE_REQ, GetBalanceHandler); (DEPOSIT_REQ, DepositHandler); (TRADE_REQ, TradeHandler);
   (HOLDINGS_REQ, GetHoldingsHandler); (MARKET_REQ, GetMarketHandler); (NEWS_REQ, GetNewsHandler);
   (TREND_REQ, GetTrendHandler); (ORDERS_REQ, GetOrdersHandler); (CANCEL_REQ, CancelOrderHandler);
   (ALL_STOCKS_REQ, GetAllStocksHandler)].
Definition register_all (r : Router) : Router :=
  fold_left (fun r tk => registerHandler tk.1 tk.2 r) registrations r.
