(* ===== verification/Handlers.v ===== *)
(** * The request handlers

    [include/Handler.hpp].  A handler gets the session, the memory from the start of the
    request body to the end of the session buffer ([mem]) and the length of the body, and
    returns the reply body; [None] is an exception, which MyEchoBusiness catches.  A [char]
    array read as a C string is read up to the first NUL of [mem], wherever it is. *)

From S2P Require Import Prelude Bytes Protocol Numerals Common OrderBook TickerManager Accounts Repositories.
From S2P Require Import Engine WALManager SettlementProcessor World Session.
From stdpp Require Import base strings list gmap.
From Stdlib Require Import ZArith Lia.
Local Open Scope Z_scope.

Definition symbolToTickerId (t : TickerManager) (symbol : bytes) : Z :=
  let id := getTickerId t symbol in if id =? 0 then 999 else id.
Definition tickerIdToSymbol (t : TickerManager) (id : Z) : bytes := getSymbol t id.

Record NewsTemplate := mkTemplate { nt_title : bytes; nt_type : bytes; nt_symbol : bytes }.

Definition newsPool : list NewsTemplate :=
  [mkTemplate (str "Apple (AAPL) 宣布将自研 AI 芯片整合至全线产品，市场反响剧烈") (str "Tech") (str "AAPL");
   mkTemplate (str "iPhone 16 供应链传出利好，印度组装效率大幅提升超出预期") (str "Tech") (str "AAPL");
   mkTemplate (str "App Store 服务业务收入创季度新高，AAPL 股价盘前上涨 2%") (str "Earnings") (str "AAPL");
   mkTemplate (str "Nvidia (NVDA) 发布 Blackwell 架构 GPU，AI 计算性能提升 5 倍") (str "Tech") (str "NVDA");
   mkTemplate (str "全球数据中心对 H100 需求依然强劲，NVDA 订单已排至 2025 年") (str "Macro") (str "NVDA");
   mkTemplate (str "分析师上调 NVDA 目标价至 $1000，称 AI 革命尚处于早期阶段") (str "Tech") (str "NVDA");
   mkTemplate (str "Tesla (TSLA) FSD V12 版本在北美全量推送，自动驾驶胜率提升") (str "Tech") (str "TSLA");
   mkTemplate (str "特斯拉上海超级工厂扩建项目获批，年产能有望突破 150 万辆") (str "Macro") (str "TSLA");
   mkTemplate (str "TSLA 储能业务 (Megapack) 利润率显著提升，成为新的增长引擎") (str "Earnings") (str "TSLA");
   mkTemplate (str "美联储 3 月会议纪要显示降息预期窗口可能延后，纳指承压") (str "Macro") (str "Global");
   mkTemplate (str "科技巨头集体增持 AI 基础设施，半导体板块出现避险资金流入") (str "Macro") (str "Global");
   mkTemplate (str "美债收益率小幅回落，成长型科技股吸引力增强") (str "Macro") (str "Global")].

Section Handlers.
Context {S D : Type} `{AS : AccountStore S} `{UR : IUserRepository D} `{SR : IStockRepository D}.
Context (clock : nat -> Z).
(** Outside the repository: [std::shuffle] seeded by the device, the reply of Redis to
    [ZREVRANGE key 0 9] ([None]: no array), and [json::parse(s)\["price"\]] ([None]: throws);
    and the bytes left in an uninitialised variable. *)
Context (shuffle : list NewsTemplate -> list NewsTemplate).
Context (zrevrange : bytes -> option (list bytes)) (json_price : bytes -> option Z) (uninit : Z).
Implicit Types (s : Session) (w : World S D) (mem : bytes) (req_len : Z).

Definition reply := (option bytes * Session * World S D)%type.

Definition handle_Login s mem req_len w : reply :=
  if req_len <? sizeof AuthRequest then (Some [], s, w)
  else
    let username := cstr mem in
    let password := cstr (drop 32 mem) in
    let '(ok, d1) := checkLogin username password (w_db w) in
    let w1 := set_db d1 w in
    if ok then
      let s1 := set_username username s in
      let id0 := getId (w_users w1) username in
      if id0 =? 0 then
        match getUserId username (w_db w1) with
        | (None, d2) => (None, s1, set_db d2 w1)
        | (Some db_id, d2) =>
            let w2 := set_db d2 w1 in
            let w3 := if db_id =? 0 then w2
                      else set_users (createUserAccount (w_users w2) db_id username) w2 in
            (Some (to_bytes (mkAuthRes 1 db_id)), set_identity username db_id s1, w3)
        end
      else (Some (to_bytes (mkAuthRes 1 id0)), set_identity username id0 s1, w1)
    else (Some (to_bytes (mkAuthRes 0 uninit)), s, w1).

Definition handle_Register s mem req_len w : reply :=
  if req_len <? sizeof AuthRequest then (Some [], s, w)
  else
    let username := cstr mem in
    let password := cstr (drop 32 mem) in
    let '(ok, d1) := registerUser username password (w_db w) in
    let w1 := set_db d1 w in
    if ok then
      match getUserId username (w_db w1) with
      | (None, d2) => (None, s, set_db d2 w1)
      | (Some new_id, d2) =>
          let w2 := set_db d2 w1 in
          (Some (to_bytes (mkAuthRes 1 new_id)), set_identity username new_id s,
           set_users (createUserAccount (w_users w2) new_id username) w2)
      end
    else (Some (to_bytes (mkAuthRes 0 0)), s, w1).

Definition handle_Exit s mem req_len w : reply :=
  if isLoggedIn s then (Some (to_bytes (mkGenericRes 1)), set_username [] s, w)
  else (Some (to_bytes (mkGenericRes 0)), s, w).

Definition handle_GetBalance s mem req_len w : reply :=
  if negb (isLoggedIn s) then (Some (to_bytes (mkBalanceRes 0 0)), s, w)
  else (Some (to_bytes (mkBalanceRes 1 (u64 (getBalance (w_users w) (s_user_id s))))), s, w).

(** [strncpy(item.symbol, sym.c_str(), sizeof(item.symbol) - 1)] into a zeroed field. *)
Definition char_field (n : nat) (v : bytes) : bytes := strncpy (n - 1) v ++ [0].

Definition handle_GetAllStocks s mem req_len w : reply :=
  let '(stocks, d1) := getAllStocks (w_db w) in
  let item sym := to_bytes (mkStock (symbolToTickerId (w_tickers w) sym) (char_field 16 sym)) in
  (Some (to_bytes (mkListHeader 1 (u32 (Z.of_nat (length stocks)))) ++ concat (item <$> stocks)), s, set_db d1 w).

Definition handle_Deposit s mem req_len w : reply :=
  if negb (isLoggedIn s) then (Some (to_bytes (mkDepositRes 0 0)), s, w)
  else if req_len <? sizeof DepositRequest then (Some [], s, w)
  else
    let amount := i64 (dq_amount (of_bytes mem)) in
    if amount <=? 0 then (Some (to_bytes (mkDepositRes 0 0)), s, w)
    else
      let '(ok, d1) := updateBalance (s_username s) amount (w_db w) in
      let w1 := set_db d1 w in
      if ok then
        let w2 := set_users (addBalance (w_users w1) (s_user_id s) amount) w1 in
        let '(b, d2) := repo_getBalance (s_username s) (w_db w2) in
        (Some (to_bytes (mkDepositRes 1 (u64 b))), s, set_db d2 w2)
      else (Some (to_bytes (mkDepositRes 0 0)), s, w1).

Definition handle_Trade s mem req_len w : reply :=
  if negb (isLoggedIn s) then (Some (to_bytes (mkTradeRes 0)), s, w)
  else if req_len <? sizeof TradeRequest then (Some [], s, w)
  else
    let req := of_bytes (A := TradeRequest) mem in
    let sd := if tq_side req =? 0 then BUY else SELL in
    match trade_freeze clock w (s_user_id s) (tq_ticker_id req) sd (tq_price req) (tq_amount req) with
    | (Some order, w1) => (Some (to_bytes (mkTradeRes 1)), s, trade_append w1 order)
    | (None, w1) => (Some (to_bytes (mkTradeRes 0)), s, w1)
    end.

Definition handle_GetHoldings s mem req_len w : reply :=
  if negb (isLoggedIn s) then (Some (to_bytes (mkListHeader 0 0)), s, w)
  else
    let holdings := map_to_list (getHoldings (w_users w) (s_user_id s)) in
    let items := (fun tq => mkHolding tq.1 (u32 tq.2)) <$> filter (fun tq : Z * Z => 0 < tq.2) holdings in
    (Some (to_bytes (mkListHeader 1 (u32 (Z.of_nat (length items)))) ++ concat (to_bytes <$> items)), s, w).

Definition handle_GetMarket s mem req_len w : reply :=
  if req_len <? sizeof MarketRequest then (Some [], s, w)
  else
    let ticker := mq_ticker_id (of_bytes mem) in
    let '(bid, ask) := engine_getBestBidOffer (w_engine w) ticker (0, 0) in
    (Some (to_bytes (mkMarketRes 1 (u64 bid) (u64 ask))), s, w).

(** Three templates of the shuffled pool; the clock is read once, in seconds. *)
Definition handle_GetNews s mem req_len w : reply :=
  let now := Z.quot (clock (w_ticks w)) 1000000000 in
  let item i (t : NewsTemplate) :=
    mkNews (u32 (now - Z.of_nat i * 300)) (char_field 128 (nt_title t)) (char_field 16 (nt_type t))
      (char_field 16 (nt_symbol t)) in
  let items := imap item (take 3 (shuffle newsPool)) in
  (Some (to_bytes (mkListHeader 1 (u32 (Z.of_nat (length items)))) ++ concat (to_bytes <$> items)), s,
   set_sequence (w_seq w) (1 + w_ticks w) w).

Definition trend_key (ticker : Z) : bytes := str "history:trade:" ++ to_string ticker.

Definition handle_GetTrend s mem req_len w : reply :=
  if req_len <? sizeof TrendRequest then (Some [], s, w)
  else
    let ticker := td_ticker_id (of_bytes mem) in
    let prices :=
      match zrevrange (trend_key ticker) with
      | Some elements => reverse (omap json_price elements)
      | None => []
      end in
    (Some (to_bytes (mkListHeader 1 (u32 (Z.of_nat (length prices)))) ++ concat (le_enc 8 <$> prices)), s, w).

Definition order_item (o : Order) : OrderItem :=
  mkOrderItem (order_id o) (ticker_id o) (match side o with BUY => 0 | SELL => 1 end) (price o) (quantity o).

Definition handle_GetOrders s mem req_len w : reply :=
  if negb (isLoggedIn s) then (Some (to_bytes (mkListHeader 0 0)), s, w)
  else
    let active_orders := engine_getUserActiveOrder (w_engine w) (s_user_id s) in
    let items := (fun r => order_item (deref (w_heap w) r)) <$> active_orders in
    (Some (to_bytes (mkListHeader 1 (u32 (Z.of_nat (length items)))) ++ concat (to_bytes <$> items)), s, w).

Definition handle_CancelOrder s mem req_len w : reply :=
  if negb (isLoggedIn s) then (Some (to_bytes (mkGenericRes 0)), s, w)
  else if req_len <? sizeof CancelRequest then (Some [], s, w)
  else
    let req := of_bytes (A := CancelRequest) mem in
    (Some (to_bytes (mkGenericRes 1)), s,
     set_wal (appendCancel (w_wal w) (cq_ticker_id req) (cq_order_id req) (s_user_id s)) w).

Definition handle (k : HandlerKind) s mem req_len w : reply :=
  match k with
  | LoginHandler => handle_Login s mem req_len w
  | RegisterUserHandler => handle_Register s mem req_len w
  | ExitHandler => handle_Exit s mem req_len w
  | GetBalanceHandler => handle_GetBalance s mem req_len w
  | GetAllStocksHandler => handle_GetAllStocks s mem req_len w
  | DepositHandler => handle_Deposit s mem req_len w
  | TradeHandler => handle_Trade s mem req_len w
  | GetHoldingsHandler => handle_GetHoldings s mem req_len w
  | GetMarketHandler => handle_GetMarket s mem req_len w
  | GetNewsHandler => handle_GetNews s mem req_len w
  | GetTrendHandler => handle_GetTrend s mem req_len w
  | GetOrdersHandler => handle_GetOrders s mem req_len w
  | CancelOrderHandler => handle_CancelOrder s mem req_len w
  end.
End Handlers.
