(* ===== verification/HandlerTheorems.v ===== *)
(** * What the handlers guarantee *)

From S2P Require Import Prelude Bytes Protocol Numerals Common OrderIdGenerator OrderBook OrderBookSpec OrderBookLoops OrderBookProofs.
From S2P Require Import TickerManager Accounts UserManager Repositories Engine WALManager SettlementProcessor World Session Handlers.
From S2P Require Import OrderBookBalance Exposure ExposureProofs Accounting SystemTheorems.
From stdpp Require Import base strings list gmap.
From Stdlib Require Import ZArith Lia.
Local Open Scope Z_scope.

Section Handlers.
Context {S D : Type} `{AL : AccountStoreLaws S} `{UR : IUserRepository D} `{SR : IStockRepository D}.
Context (clock : nat -> Z) (shuffle : list NewsTemplate -> list NewsTemplate).
Context (zrevrange : bytes -> option (list bytes)) (json_price : bytes -> option Z) (uninit : Z).
Implicit Types (w : World S D) (s : Session).

Lemma run_app l k w : run clock (l ++ k) w = match run clock l w with Some w1 => run clock k w1 | None => None end.
Proof. revert w. induction l as [|a l IH]; intros w; simpl; [done|]. by destruct (exec clock a w). Qed.

Lemma trade_freeze_flight w uid ticker sd pr amount r w1 :
  trade_freeze clock w uid ticker sd pr amount = (Some r, w1) -> r ∈ w_flight w1.
Proof.
  unfold trade_freeze. destruct (make_order _ _ _ _ _ _ _) as [o w2]. destruct (freeze_for _ _) as [u []]; [|done].
  destruct (make_shared _ _) as [r' h]. intros [= <- <-]. simpl. inlist.
Qed.

(** ** The actions of a request

    [plan] says, action by action, what a request does to the server: which repository calls it
    makes on whose behalf, whose account it creates or credits, which order it freezes and
    appends, which cancellation it queues.  Whatever is not in the plan does not happen. *)

(** Look a user up after a successful check, and create the account under the id found. *)
Definition plan_identify (username : bytes) (d : D) (create : Z -> bool) : list (action D) :=
  match getUserId username d with
  | (Some id, d') => ADatabase d' :: if create id then [ACreate id username] else []
  | (None, d') => [ADatabase d']
  end.

Definition plan_trade s (req : TradeRequest) w : list (action D) :=
  let sd := if tq_side req =? 0 then BUY else SELL in
  AFreeze (s_user_id s) (tq_ticker_id req) sd (tq_price req) (tq_amount req) ::
  match (trade_freeze clock w (s_user_id s) (tq_ticker_id req) sd (tq_price req) (tq_amount req)).1 with
  | Some order => [AAppend order]
  | None => []
  end.

Definition plan_deposit s (amount : Z) w : list (action D) :=
  let update := updateBalance (s_username s) amount (w_db w) in
  ADatabase update.2 ::
  if update.1 then [ACredit (s_user_id s) amount; ADatabase (repo_getBalance (s_username s) update.2).2] else [].

Definition plan (k : HandlerKind) s (mem : bytes) (len : Z) w : list (action D) :=
  match k with
  | LoginHandler =>
      if len <? 64 then []
      else
        let login := checkLogin (cstr mem) (cstr (drop 32 mem)) (w_db w) in
        ADatabase login.2 ::
        if login.1 && (getId (w_users w) (cstr mem) =? 0)
        then plan_identify (cstr mem) login.2 (fun id => negb (id =? 0)) else []
  | RegisterUserHandler =>
      if len <? 64 then []
      else
        let reg := registerUser (cstr mem) (cstr (drop 32 mem)) (w_db w) in
        ADatabase reg.2 :: if reg.1 then plan_identify (cstr mem) reg.2 (fun _ => true) else []
  | GetAllStocksHandler => [ADatabase (getAllStocks (w_db w)).2]
  | DepositHandler =>
      let amount := i64 (dq_amount (of_bytes mem)) in
      if isLoggedIn s && (8 <=? len) && (0 <? amount) then plan_deposit s amount w else []
  | TradeHandler => if isLoggedIn s && (17 <=? len) then plan_trade s (of_bytes mem) w else []
  | CancelOrderHandler =>
      let req := of_bytes (A := CancelRequest) mem in
      if isLoggedIn s && (12 <=? len) then [ACancel (cq_ticker_id req) (cq_order_id req) (s_user_id s)] else []
  | GetNewsHandler => [ATick]
  | ExitHandler | GetBalanceHandler | GetHoldingsHandler | GetMarketHandler | GetTrendHandler | GetOrdersHandler => []
  end.

(** What a session may do: accounts, orders and cancellations only of its own user, and only
    when logged in; the work of the other threads never. *)
Definition own_action s (a : action D) : Prop :=
  match a with
  | AFreeze uid _ _ _ _ | ACancel _ _ uid => isLoggedIn s = true /\ uid = s_user_id s
  | ACredit uid amount => isLoggedIn s = true /\ uid = s_user_id s /\ 0 < amount
  | AAppend _ => isLoggedIn s = true
  | ACreate _ _ | ADatabase _ | ATick => True
  | _ => False
  end.

Local Abbreviation result := (handle clock shuffle zrevrange json_price uninit).

Lemma login_run s mem len w : run clock (plan LoginHandler s mem len w) w = Some (result LoginHandler s mem len w).2.
Proof.
  cbn [plan handle]. unfold handle_Login. change (sizeof AuthRequest) with 64.
  destruct (len <? 64); [done|]. destruct (checkLogin _ _ _) as [[] d1]; [|done]. simpl.
  destruct (getId _ _ =? 0); [|done]. unfold plan_identify. destruct (getUserId _ d1) as [[id|] d2]; [|done].
  simpl. by destruct (id =? 0).
Qed.

Lemma register_run s mem len w :
  run clock (plan RegisterUserHandler s mem len w) w = Some (result RegisterUserHandler s mem len w).2.
Proof.
  cbn [plan handle]. unfold handle_Register. change (sizeof AuthRequest) with 64.
  destruct (len <? 64); [done|]. destruct (registerUser _ _ _) as [[] d1]; [|done]. simpl.
  unfold plan_identify. by destruct (getUserId _ d1) as [[id|] d2].
Qed.

Lemma deposit_run s mem len w : run clock (plan DepositHandler s mem len w) w = Some (result DepositHandler s mem len w).2.
Proof.
  cbn [plan handle]. unfold handle_Deposit. change (sizeof DepositRequest) with 8.
  destruct (isLoggedIn s); [|done]. cbn [negb andb]. rewrite Z.leb_antisym.
  destruct (len <? 8); [done|]. cbn [negb andb]. rewrite Z.ltb_antisym. destruct (_ <=? 0); [done|].
  cbn [negb]. unfold plan_deposit. destruct (updateBalance _ _ _) as [[] d1]; [|done].
  simpl. by destruct (repo_getBalance _ d1).
Qed.

Lemma trade_run s mem len w : run clock (plan TradeHandler s mem len w) w = Some (result TradeHandler s mem len w).2.
Proof.
  cbn [plan handle]. unfold handle_Trade. change (sizeof TradeRequest) with 17.
  destruct (isLoggedIn s); [|done]. cbn [negb andb]. rewrite Z.leb_antisym.
  destruct (len <? 17); [done|]. cbn [negb andb]. unfold plan_trade. cbn [run exec].
  destruct (trade_freeze _ _ _ _ _ _ _) as [[r|] w1] eqn:E; [|done].
  cbn [fst snd run exec]. by rewrite decide_True by (by eapply trade_freeze_flight).
Qed.

Lemma plan_run k s mem len w : run clock (plan k s mem len w) w = Some (result k s mem len w).2.
Proof.
  destruct k; [apply login_run|apply register_run| | | |apply deposit_run|apply trade_run|..]; cbn [plan handle].
  - unfold handle_Exit. by destruct (isLoggedIn s).
  - unfold handle_GetBalance. by destruct (negb _).
  - unfold handle_GetAllStocks. by destruct (getAllStocks _).
  - unfold handle_GetHoldings. by destruct (negb _).
  - unfold handle_GetMarket. destruct (_ <? _); [done|]. by destruct (engine_getBestBidOffer _ _ _).
  - done.
  - unfold handle_GetTrend. by destruct (_ <? _).
  - unfold handle_GetOrders. by destruct (negb _).
  - unfold handle_CancelOrder. change (sizeof CancelRequest) with 12. destruct (isLoggedIn s); [|done].
    cbn [negb andb]. rewrite Z.leb_antisym. by destruct (len <? 12).
Qed.

Lemma plan_own k s mem len w : Forall (own_action s) (plan k s mem len w).
Proof.
  assert (forall u d f, Forall (own_action s) (plan_identify u d f)) as Hid.
  { intros. unfold plan_identify. destruct (getUserId _ _) as [[id|] d']; repeat constructor. destruct (f id); repeat constructor. }
  destruct k; cbn [plan]; try by repeat constructor.
  - destruct (len <? 64); [constructor|]. constructor; [done|]. destruct (_ && _); [apply Hid|constructor].
  - destruct (len <? 64); [constructor|]. constructor; [done|]. destruct (_.1); [apply Hid|constructor].
  - destruct (isLoggedIn s) eqn:Hs; [|constructor]. destruct (8 <=? len); [|constructor].
    destruct (Z.ltb_spec 0 (i64 (dq_amount (of_bytes mem)))); [|constructor].
    cbn [andb]. unfold plan_deposit. constructor; [done|]. destruct (_.1); repeat constructor; done.
  - destruct (isLoggedIn s) eqn:Hs; [|constructor]. destruct (17 <=? len); [|constructor].
    cbn [andb]. unfold plan_trade. constructor; [done|]. destruct (_.1); repeat constructor; done.
  - destruct (isLoggedIn s) eqn:Hs; [|constructor]. destruct (12 <=? len); repeat constructor; done.
Qed.

(** Only the first action of a plan needs its order's id to be fresh. *)
Lemma plan_admissible k s mem len w a l :
  plan k s mem len w = a :: l -> Forall (fun b => match b with AFreeze _ _ _ _ _ => False | _ => True end) l.
Proof.
  assert (forall u d f, Forall (fun b : action D => match b with AFreeze _ _ _ _ _ => False | _ => True end)
    (plan_identify u d f)) as Hid.
  { intros. unfold plan_identify. destruct (getUserId _ _) as [[id|] d']; repeat constructor. destruct (f id); repeat constructor. }
  destruct k; cbn [plan]; try (by intros [= <- <-]; constructor).
  - destruct (len <? 64); [done|]. intros [= <- <-]. destruct (_ && _); [apply Hid|constructor].
  - destruct (len <? 64); [done|]. intros [= <- <-]. destruct (_.1); [apply Hid|constructor].
  - destruct (_ && _); [|done]. unfold plan_deposit. intros [= <- <-]. destruct (_.1); repeat constructor.
  - destruct (_ && _); [|done]. unfold plan_trade. intros [= <- <-]. destruct (_.1); repeat constructor.
  - destruct (_ && _); [|done]. intros [= <- <-]. constructor.
Qed.

Lemma run_reachable l w0 w w' :
  Forall (fun b => match b with AFreeze _ _ _ _ _ => False | _ => True end) l ->
  reachable clock w0 w -> run clock l w = Some w' -> reachable clock w0 w'.
Proof.
  intros Hl. revert w. induction Hl as [|a l Ha _ IH]; intros w Hw; simpl; [by intros [= <-]|].
  destruct (exec clock a w) as [w1|] eqn:E; [|done]. apply IH. eapply reach_step; [exact Hw| |exact E]. by destruct a.
Qed.

(** C17: a request does exactly what its plan says: the call of a handler is the run of those
    atomic actions, in that order.  The actions are the session's own: funds, orders and
    cancellations of its user only, and none of them when it is not logged in.  So what holds
    in every reachable world holds after the request, provided that the id of the order it
    makes, if any, is not in use. *)
Theorem handler_is_run k s mem len w :
  run clock (plan k s mem len w) w = Some (result k s mem len w).2 /\
  Forall (own_action s) (plan k s mem len w) /\
  (forall w0, reachable clock w0 w -> (forall a, head (plan k s mem len w) = Some a -> admissible clock a w) ->
     reachable clock w0 (result k s mem len w).2).
Proof.
  split; [apply plan_run|]. split; [apply plan_own|]. intros w0 Hr Ha.
  pose proof (plan_run k s mem len w) as Hrun. pose proof (plan_admissible k s mem len w) as Hl.
  destruct (plan k s mem len w) as [|a l]; [by injection Hrun as <-|]. cbn [run] in Hrun.
  destruct (exec clock a w) as [w1|] eqn:E; [|done].
  apply (run_reachable l w0 w1); [by eapply Hl| |done]. eapply reach_step; [done|by apply Ha|done].
Qed.

(** C33: a session that is not logged in cannot do anything but log in, register and read
    public data.  The handlers for accounts, orders and funds answer status 0 and leave the
    server and the session as they were; the handlers for public data give it the answer they
    give anyone, and change nothing but what the query does to the database connection and the
    clock reading of the news. *)
Theorem logged_out_no_effect k s mem len w :
  isLoggedIn s = false -> k <> LoginHandler -> k <> RegisterUserHandler ->
  let '(r, s', w') := result k s mem len w in
  s' = s /\
  match k with
  | GetAllStocksHandler => w' = set_db (getAllStocks (w_db w)).2 w
  | GetNewsHandler => w' = set_sequence (w_seq w) (1 + w_ticks w) w
  | _ => w' = w
  end /\
  match k with
  | GetAllStocksHandler | GetMarketHandler | GetNewsHandler | GetTrendHandler =>
      forall s2, r = (result k s2 mem len w).1.1
  | _ => exists body, r = Some body /\ head body = Some 0
  end.
Proof.
  intros Hs Hl Hr. destruct k; cbn [handle];
    try (unfold handle_Exit, handle_GetBalance, handle_Deposit, handle_Trade, handle_GetHoldings,
      handle_GetOrders, handle_CancelOrder; rewrite Hs; cbn [negb];
      (split_and!; [done|done|eexists; split; reflexivity])).
  - done.
  - done.
  - unfold handle_GetAllStocks. by destruct (getAllStocks _).
  - unfold handle_GetMarket. destruct (_ <? _); [done|]. by destruct (engine_getBestBidOffer _ _ _).
  - unfold handle_GetNews. done.
  - unfold handle_GetTrend. by destruct (_ <? _).
Qed.

(** The funds or shares of the account that an order needs, as [TradeHandler] computes it. *)
Definition covers (o : Order) (a : UserAccount) : bool :=
  match side o with
  | BUY => i64 (u64 (price o * quantity o)) <=? available_balance a
  | SELL => i32 (quantity o) <=? stock (available_stock a) (ticker_id o)
  end.

Lemma freeze_acc_covers o a : (freeze_acc o a).2 = covers o a.
Proof.
  unfold freeze_acc, covers. destruct (side o).
  - unfold freeze_balance. by destruct (_ <=? _).
  - unfold freeze_stock. rewrite stock_touch. by destruct (_ <=? _).
Qed.

Definition request_side (req : TradeRequest) : OrderSide := if tq_side req =? 0 then BUY else SELL.
Definition request_order w (uid : Z) (req : TradeRequest) : Order :=
  (make_order clock w uid (tq_ticker_id req) (request_side req) (tq_price req) (tq_amount req)).1.

Lemma trade_freeze_spec w uid req :
  store_ok (w_users w) ->
  let o := request_order w uid req in
  let ok := match acct (w_users w) uid with Some a => covers o a | None => false end in
  let '(res, w1) := trade_freeze clock w uid (tq_ticker_id req) (request_side req) (tq_price req) (tq_amount req) in
  (forall uid', acct (w_users w1) uid' =
     if decide (uid' = uid) then (fun a => (freeze_acc o a).1) <$> acct (w_users w) uid else acct (w_users w) uid') /\
  w_wal w1 = w_wal w /\
  match res with
  | Some r => ok = true /\ deref (w_heap w1) r = o /\ w_flight w1 = r :: w_flight w
  | None => ok = false
  end.
Proof.
  intros Hok. cbv zeta. unfold trade_freeze.
  destruct (make_order_facts clock w uid (tq_ticker_id req) (request_side req) (tq_price req) (tq_amount req)) as [Hu Hs].
  unfold request_order. assert (w_wal (make_order clock w uid (tq_ticker_id req) (request_side req) (tq_price req)
    (tq_amount req)).2 = w_wal w /\ w_flight (make_order clock w uid (tq_ticker_id req) (request_side req) (tq_price req)
    (tq_amount req)).2 = w_flight w) as [Hwal Hfl] by (unfold make_order; by destruct (generate _ _)).
  destruct (make_order clock w uid _ _ _ _) as [o w1]. cbn [fst snd] in *.
  rewrite freeze_for_acc, Hs, Hu.
  destruct (on_account_spec (w_users w) uid false (freeze_acc o) Hok (freeze_acc_identity o)) as (_ & H2 & H3).
  destruct (on_account (w_users w) uid false (freeze_acc o)) as [u ok] eqn:E. cbn [fst snd] in *.
  assert (match acct (w_users w) uid with Some a => covers o a | None => false end = ok) as ->.
  { rewrite H3. destruct (acct (w_users w) uid) as [a|]; [|done]. symmetry. apply freeze_acc_covers. }
  destruct ok.
  - destruct (make_shared _ o) as [r h] eqn:Em. pose proof (make_shared_deref _ _ _ _ Em).
    cbn -[make_shared]. by rewrite Hfl.
  - cbn. by rewrite Hwal.
Qed.

(** C14: [TradeHandler], for every request of a logged-in session: status 1 exactly when the
    account covers the order; then the funds (or shares) are frozen, nobody else's account
    changes, and the order, with the fields of the request and the user of the session, is
    appended to the log queue; otherwise nothing is appended. *)
Theorem trade_handler_spec s mem len w :
  store_ok (w_users w) -> isLoggedIn s = true -> sizeof TradeRequest <= len ->
  let req := of_bytes (A := TradeRequest) mem in
  let o := request_order w (s_user_id s) req in
  let ok := match acct (w_users w) (s_user_id s) with Some a => covers o a | None => false end in
  let '(r, s', w') := handle_Trade clock s mem len w in
  r = Some [if ok then 1 else 0] /\ s' = s /\
  (forall uid, acct (w_users w') uid =
     if decide (uid = s_user_id s) then (fun a => (freeze_acc o a).1) <$> acct (w_users w) uid
     else acct (w_users w) uid) /\
  if ok then exists x, wal_queue (w_wal w') = wal_queue (w_wal w) ++ [new_order_event x] /\ deref (w_heap w') x = o
  else w_wal w' = w_wal w.
Proof.
  intros Hok Hs Hlen. cbv zeta. unfold handle_Trade. rewrite Hs. cbn [negb].
  destruct (Z.ltb_spec len (sizeof TradeRequest)) as [Hlt|_]; [lia|].
  pose proof (trade_freeze_spec w (s_user_id s) (of_bytes mem) Hok) as H'. cbv zeta in H'.
  fold (request_side (of_bytes mem)).
  destruct (trade_freeze clock w (s_user_id s) _ _ _ _) as [[x|] w1]; destruct H' as (H1 & H2 & H3).
  - destruct H3 as (-> & Hd & _). split_and!; [done|done| |].
    + intros uid. change (w_users (trade_append w1 x)) with (w_users w1). rewrite H1. by destruct (decide _) as [->|].
    + exists x. cbn. rewrite H2. done.
  - rewrite H3. split_and!; [done|done| |done]. intros uid. rewrite H1. by destruct (decide _) as [->|].
Qed.

(** The cost of a buy is a 64-bit product read as a signed number, so a request whose
    cost is a negative number modulo 2^64 is accepted whatever the balance: one share at the
    price 2^64 - 1 costs -1, and the available balance grows. *)
Theorem trade_negative_cost s len w ticker a :
  store_ok (w_users w) -> isLoggedIn s = true -> sizeof TradeRequest <= len -> inU 32 ticker ->
  acct (w_users w) (s_user_id s) = Some a -> 0 <= available_balance a < 2 ^ 63 - 1 ->
  let '(r, _, w') := handle_Trade clock s (to_bytes (mkTradeReq ticker 0 (2 ^ 64 - 1) 1)) len w in
  r = Some [1] /\
  exists a', acct (w_users w') (s_user_id s) = Some a' /\ available_balance a' = available_balance a + 1.
Proof.
  intros Hok Hs Hlen Ht Ha Hb. set (q := mkTradeReq ticker 0 (2 ^ 64 - 1) 1).
  unfold handle_Trade. rewrite Hs. cbn [negb].
  destruct (Z.ltb_spec len (sizeof TradeRequest)) as [Hlt|_]; [lia|].
  assert (of_bytes (to_bytes q) = q) as ->.
  { apply of_to_bytes_nil. split; [done|]. unfold inU in Ht. repeat constructor; simpl; lia. }
  pose proof (trade_freeze_spec w (s_user_id s) q Hok) as H'. cbv zeta in H'. fold (request_side q).
  assert (exists id ts, request_order w (s_user_id s) q = mkOrder id ticker (s_user_id s) BUY (2 ^ 64 - 1) 1 ts) as (id & ts & Eo).
  { unfold request_order, make_order. destruct (generate _ _). by eexists _, _. }
  rewrite Ha, Eo in H'. unfold covers in H'. cbn [side price quantity] in H'.
  change (i64 (u64 ((2 ^ 64 - 1) * 1))) with (-1) in H'.
  destruct (Z.leb_spec (-1) (available_balance a)) as [_|Hlt]; [|lia].
  destruct (trade_freeze _ _ _ _ _ _ _) as [[x|] w1]; destruct H' as (H1 & H2 & H3); [|discriminate H3].
  split; [done|]. change (w_users (trade_append w1 x)) with (w_users w1).
  rewrite H1, decide_True by done. eexists; split; [reflexivity|].
  unfold freeze_acc. cbn [side price quantity]. change (i64 (u64 ((2 ^ 64 - 1) * 1))) with (-1).
  unfold freeze_balance. destruct (Z.leb_spec (-1) (available_balance a)) as [_|Hlt]; [|lia]. cbn.
  rewrite wrapS_id; [lia|done|]. unfold inS. lia.
Qed.
End Handlers.

Import TableDB.

Lemma logged_out_no_effect_witness :
  handle SampleRun.clk id (fun _ => None) (fun _ => None) 0 TradeHandler (new_session 5) [] 17 SampleRun.w0 =
  (Some [0], new_session 5, SampleRun.w0).
Proof.
  destruct (logged_out_no_effect SampleRun.clk id (fun _ => None) (fun _ => None) 0 TradeHandler (new_session 5) [] 17
    SampleRun.w0 eq_refl ltac:(discriminate) ltac:(discriminate)) as (_ & _ & _).
  reflexivity.
Defined.

Module TradeSample.
Definition ann : Session := mkSession 5 [] (str "ann") 1.
Definition request : bytes := to_bytes (mkTradeReq 7 0 100 3).
End TradeSample.

Lemma handler_is_run_witness :
  plan SampleRun.clk TradeHandler TradeSample.ann TradeSample.request 17 SampleRun.w0 = [AFreeze 1 7 BUY 100 3; AAppend 0%nat] /\
  reachable SampleRun.clk SampleRun.w0
    (handle SampleRun.clk id (fun _ => None) (fun _ => None) 0 TradeHandler TradeSample.ann TradeSample.request 17 SampleRun.w0).2.
Proof.
  assert (plan SampleRun.clk TradeHandler TradeSample.ann TradeSample.request 17 SampleRun.w0 =
    [AFreeze 1 7 BUY 100 3; AAppend 0%nat]) as E by (vm_compute; reflexivity).
  split; [exact E|].
  apply (handler_is_run SampleRun.clk id (fun _ => None) (fun _ => None) 0 TradeHandler TradeSample.ann TradeSample.request 17
    SampleRun.w0); [apply reach_init|].
  rewrite E. intros a [= <-]. refine (bool_decide_unpack (admissible SampleRun.clk _ SampleRun.w0) _). vm_compute. exact I.
Defined.

Lemma trade_handler_spec_witness :
  (handle_Trade SampleRun.clk TradeSample.ann TradeSample.request 17 SampleRun.w0).1.1 = Some [1].
Proof.
  pose proof (trade_handler_spec SampleRun.clk TradeSample.ann TradeSample.request 17 SampleRun.w0
    SampleRun.run_users_ok eq_refl (Z.le_refl _)) as H. cbv zeta in H.
  destruct (handle_Trade SampleRun.clk TradeSample.ann TradeSample.request 17 SampleRun.w0) as [[r s'] w'].
  destruct H as (-> & _). vm_compute. reflexivity.
Defined.

Lemma trade_negative_cost_witness :
  (handle_Trade SampleRun.clk TradeSample.ann (to_bytes (mkTradeReq 7 0 (2 ^ 64 - 1) 1)) 17 SampleRun.w0).1.1 = Some [1] /\
  getBalance (w_users SampleRun.w0) 1 = 1000.
Proof.
  split; [|vm_compute; reflexivity].
  destruct (acct (w_users SampleRun.w0) 1) as [a|] eqn:E; [|vm_compute in E; discriminate E].
  assert (0 <= available_balance a < 2 ^ 63 - 1) as Hb.
  { vm_compute in E. injection E as <-. split; [discriminate|reflexivity]. }
  pose proof (trade_negative_cost SampleRun.clk TradeSample.ann 17 SampleRun.w0 7 a SampleRun.run_users_ok eq_refl
    (Z.le_refl _) ltac:(split; done) E Hb) as H.
  destruct (handle_Trade SampleRun.clk TradeSample.ann (to_bytes (mkTradeReq 7 0 (2 ^ 64 - 1) 1)) 17 SampleRun.w0) as [[r s'] w'].
  exact (proj1 H).
Defined.
