(* ===== verification/Framing.v ===== *)
(** * The connection handler

    [MyEchoBusiness] of [src/server/main.cpp]: read what the socket has, cut the session buffer
    into frames, dispatch each frame and send its reply.  The outcomes of [recv] and [send] are
    lists: what the kernel answers to the successive calls. *)

From S2P Require Import Prelude Bytes Protocol Session.
From stdpp Require Import base list gmap.
From Stdlib Require Import ZArith Lia.
Local Open Scope Z_scope.

(** [n > 0] with the bytes; [EAGAIN]; [EINTR]; another error; 0. *)
Inductive recv_result := RecvData (l : bytes) | RecvAgain | RecvIntr | RecvError | RecvClosed.
(** [s > 0]; [EAGAIN]; another error; 0. *)
Inductive send_result := Sent (n : nat) | SendAgain | SendError | SendZero.

(** How phase 1 ends. *)
Inductive read_end := Drained (localData : bytes) | Gone.

(** Phase 1: read until the socket is empty.  [None]: the outcomes run out before. *)
Fixpoint read_stream (outs : list recv_result) (localData : bytes) : option read_end :=
  match outs with
  | [] => None
  | RecvData l :: outs' => read_stream outs' (localData ++ l)
  | RecvAgain :: _ => Some (Drained localData)
  | RecvIntr :: outs' => read_stream outs' localData
  | RecvError :: _ | RecvClosed :: _ => Some Gone
  end.

(** The send loop: the bytes that reach the wire and the outcomes not used. *)
Fixpoint send_loop (outs : list send_result) (packet : bytes) : option (bytes * list send_result) :=
  match packet with
  | [] => Some ([], outs)
  | _ =>
      match outs with
      | [] => None
      | Sent n :: outs' =>
          match send_loop outs' (drop n packet) with
          | Some (w, o) => Some (take n packet ++ w, o)
          | None => None
          end
      | SendAgain :: outs' => send_loop outs' packet
      | SendError :: outs' | SendZero :: outs' => Some ([], outs')
      end
  end.

(** [res_header.length = htonl(reply.size()); res_header.type = htons(raw_type + 1)]. *)
Definition reply_packet (raw_type : Z) (reply : bytes) : bytes :=
  encode_header (u32 (Z.of_nat (length reply))) (u16 (raw_type + 1)) ++ reply.

Section Echo.
Context {St : Type} (handler : HandlerKind -> Session -> bytes -> Z -> St -> option bytes * Session * St) (router : Router).

(** Phases 2 and 3 for one frame: dispatch and send; an exception leaves the reply empty. *)
Definition serve_frame (s : Session) (ty : Z) (mem : bytes) (len : Z) (sends : list send_result) (st : St)
    : option (Session * list send_result * St * bytes) :=
  let '(r, s', st') := dispatch handler router s ty mem len st in
  match default [] r with
  | [] => Some (s', sends, st', [])
  | reply =>
      match send_loop sends (reply_packet ty reply) with
      | Some (out, sends') => Some (s', sends', st', out)
      | None => None
      end
  end.

(** The frame loop: [processed_len], the session, the unused outcomes, the state, the wire. *)
Fixpoint frame_loop (fuel : nat) (processed_len : nat) (s : Session) (sends : list send_result) (st : St) (wire : bytes)
    : option (nat * Session * list send_result * St * bytes) :=
  match fuel with
  | O => None
  | S fuel' =>
      let rest := drop processed_len (s_buffer s) in
      if Z.of_nat (length rest) <? sizeof PacketHeader then Some (processed_len, s, sends, st, wire)
      else
        let '(len, ty) := decode_header rest in
        if Z.of_nat (length rest) <? sizeof PacketHeader + len then Some (processed_len, s, sends, st, wire)
        else
          match serve_frame s ty (drop 6 rest) len sends st with
          | Some (s', sends', st', out) =>
              frame_loop fuel' (processed_len + (6 + Z.to_nat len)) s' sends' st' (wire ++ out)
          | None => None
          end
  end.

(** What a call leaves behind: the result, the session ([None] after [cleanConnection]), the
    unused outcomes, the state and the bytes sent. *)
Record echo_result := mkEcho {
  keepAlive : bool;
  er_session : option Session;
  er_sends : list send_result;
  er_state : St;
  er_wire : bytes
}.

Definition MyEchoBusiness (session : option Session) (recvs : list recv_result) (sends : list send_result) (st : St)
    : option echo_result :=
  match session with
  | None => Some (mkEcho false None sends st [])
  | Some s =>
      match read_stream recvs [] with
      | None => None
      | Some Gone => Some (mkEcho false None sends st [])
      | Some (Drained []) => Some (mkEcho true (Some s) sends st [])
      | Some (Drained localData) =>
          let s1 := set_buffer (s_buffer s ++ localData) s in
          match frame_loop (S (length (s_buffer s1))) 0 s1 sends st [] with
          | Some (processed, s2, sends', st', wire) =>
              Some (mkEcho true (Some (set_buffer (drop processed (s_buffer s2)) s2)) sends' st' wire)
          | None => None
          end
      end
  end.

(** ** The stream as a sequence of frames *)

(** The first frame of a stream: type, body and what follows. *)
Definition next_frame (l : bytes) : option (Z * bytes * bytes) :=
  if Z.of_nat (length l) <? sizeof PacketHeader then None
  else
    let '(len, ty) := decode_header l in
    if Z.of_nat (length l) <? sizeof PacketHeader + len then None
    else Some (ty, take (Z.to_nat len) (drop 6 l), drop (6 + Z.to_nat len) l).

(** The complete frames of a stream and the incomplete rest. *)
Fixpoint parse (fuel : nat) (l : bytes) : list (Z * bytes) * bytes :=
  match fuel with
  | O => ([], l)
  | S fuel' =>
      match next_frame l with
      | None => ([], l)
      | Some (ty, body, rest) => let '(fs, r) := parse fuel' rest in ((ty, body) :: fs, r)
      end
  end.
Definition frames (l : bytes) : list (Z * bytes) * bytes := parse (length l) l.

(** Serving a sequence of frames, each with its own body only. *)
Fixpoint serve (fs : list (Z * bytes)) (s : Session) (sends : list send_result) (st : St)
    : option (Session * list send_result * St * bytes) :=
  match fs with
  | [] => Some (s, sends, st, [])
  | (ty, body) :: fs' =>
      match serve_frame s ty body (Z.of_nat (length body)) sends st with
      | None => None
      | Some (s1, sends1, st1, out1) =>
          match serve fs' s1 sends1 st1 with
          | None => None
          | Some (s2, sends2, st2, out2) => Some (s2, sends2, st2, out1 ++ out2)
          end
      end
  end.
End Echo.
Arguments mkEcho {St}.
Arguments keepAlive {St}. Arguments er_session {St}. Arguments er_sends {St}. Arguments er_state {St}.
Arguments er_wire {St}.

(** ** Facts about frames *)

Lemma header_size : sizeof PacketHeader = 6.
Proof. done. Qed.

Lemma decode_header_bound l : Forall is_byte l -> 0 <= (decode_header l).1 /\ inU 16 (decode_header l).2.
Proof.
  intros _. unfold decode_header. simpl. split; [apply bswap_bound|].
  exact (bswap_bound 2 _).
Qed.

Lemma decode_header_len l : 0 <= (decode_header l).1.
Proof. unfold decode_header. simpl. apply bswap_bound. Qed.

Lemma next_frame_inv l ty body rest :
  next_frame l = Some (ty, body, rest) ->
  exists len, decode_header l = (len, ty) /\ 0 <= len /\ 6 + len <= Z.of_nat (length l) /\
    body = take (Z.to_nat len) (drop 6 l) /\ rest = drop (6 + Z.to_nat len) l /\
    Z.of_nat (length body) = len /\ drop 6 l = body ++ rest /\
    (length rest + 6 + length body = length l)%nat.
Proof.
  unfold next_frame. rewrite header_size. pose proof (decode_header_len l) as Hl.
  destruct (_ <? 6) eqn:E1; [done|]. destruct (decode_header l) as [len t] eqn:Ed. simpl in Hl.
  destruct (_ <? 6 + len) eqn:E2; [done|]. intros [= <- <- <-]. zbool. exists len.
  assert (length (take (Z.to_nat len) (drop 6 l)) = Z.to_nat len) as Hb
    by (rewrite length_take, length_drop; lia).
  split_and!; try done; try lia.
  - rewrite <- (take_drop (Z.to_nat len) (drop 6 l)) at 1. by rewrite drop_drop.
  - rewrite Hb, length_drop. lia.
Qed.

Lemma next_frame_app l k ty body rest :
  next_frame l = Some (ty, body, rest) -> next_frame (l ++ k) = Some (ty, body, rest ++ k).
Proof.
  intros H. apply next_frame_inv in H as (len & Hd & H0 & H1 & -> & -> & H2 & _).
  unfold next_frame. rewrite header_size, length_app.
  assert (decode_header (l ++ k) = (len, ty)) as ->.
  { rewrite <- Hd. unfold decode_header. rewrite <- (of_bytes_take (l ++ k) 6) by (rewrite header_size; lia).
    rewrite take_app_le by lia. by rewrite of_bytes_take by (rewrite header_size; lia). }
  destruct (Z.ltb_spec (Z.of_nat (length l + length k)) 6); [lia|].
  destruct (Z.ltb_spec (Z.of_nat (length l + length k)) (6 + len)); [lia|].
  rewrite !drop_app_le by lia. rewrite take_app_le; [done|]. rewrite length_drop. lia.
Qed.

Lemma parse_fuel n m l : (length l <= n)%nat -> (length l <= m)%nat -> parse n l = parse m l.
Proof.
  revert m l. induction n as [|n IH]; intros m l Hn Hm.
  - destruct l; [|simpl in Hn; lia]. by destruct m.
  - destruct m as [|m].
    + destruct l; [done|simpl in Hm; lia].
    + simpl. destruct (next_frame l) as [[[ty body] rest]|] eqn:E; [|done].
      apply next_frame_inv in E as (len & _ & _ & _ & _ & _ & _ & _ & Hl). rewrite (IH m rest) by lia. done.
Qed.

Lemma frames_step l :
  frames l = match next_frame l with
             | None => ([], l)
             | Some (ty, body, rest) => ((ty, body) :: (frames rest).1, (frames rest).2)
             end.
Proof.
  unfold frames. destruct (length l) as [|n] eqn:Hn.
  - destruct l; [done|discriminate].
  - simpl. destruct (next_frame l) as [[[ty body] rest]|] eqn:E; [|done].
    apply next_frame_inv in E as (len & _ & _ & _ & _ & _ & _ & _ & Hl).
    rewrite (parse_fuel n (length rest) rest) by lia. by destruct (parse (length rest) rest).
Qed.

(** Induction along the frames of a stream. *)
Lemma frames_ind (P : bytes -> Prop) :
  (forall l, next_frame l = None -> P l) ->
  (forall l ty body rest, next_frame l = Some (ty, body, rest) -> P rest -> P l) -> forall l, P l.
Proof.
  intros H1 H2 l. induction l as [l IH] using (induction_ltof1 _ (length (A := Z))).
  destruct (next_frame l) as [[[ty body] rest]|] eqn:E; [|by apply H1].
  eapply H2; [exact E|]. apply IH. unfold ltof.
  apply next_frame_inv in E as (len & _ & _ & _ & _ & _ & _ & _ & Hl). lia.
Qed.

(** Frames do not depend on how the stream is cut. *)
Lemma frames_app l k :
  frames (l ++ k) = ((frames l).1 ++ (frames ((frames l).2 ++ k)).1, (frames ((frames l).2 ++ k)).2).
Proof.
  induction l as [l E|l ty body rest E IH] using frames_ind.
  - rewrite (frames_step l), E. simpl. by destruct (frames (l ++ k)).
  - rewrite (frames_step (l ++ k)), (next_frame_app _ _ _ _ _ E), (frames_step l), E. simpl. by rewrite IH.
Qed.

Lemma frames_rest l : next_frame (frames l).2 = None.
Proof.
  induction l as [l E|l ty body rest E IH] using frames_ind; rewrite frames_step, E; done.
Qed.

(** The frame of a request, as a client builds it. *)
Definition frame_bytes (ty : Z) (body : bytes) : bytes := encode_header (Z.of_nat (length body)) ty ++ body.

Definition frame_ok (f : Z * bytes) : Prop := inU 16 f.1 /\ Z.of_nat (length f.2) < 2 ^ 32.

Lemma next_frame_frame ty body k : frame_ok (ty, body) -> next_frame (frame_bytes ty body ++ k) = Some (ty, body, k).
Proof.
  intros [Ht Hl]. cbn [fst snd] in Ht, Hl. unfold next_frame, frame_bytes. rewrite header_size.
  assert (length (encode_header (Z.of_nat (length body)) ty) = 6%nat) as Hh.
  { pose proof (length_to_bytes (mkHeader (bswap 4 (Z.of_nat (length body))) (bswap 2 ty))) as H.
    rewrite header_size in H. unfold encode_header. lapply H; [lia|].
    split; [done|]. simpl. repeat constructor; [apply (bswap_bound 4)|apply (bswap_bound 4)|apply (bswap_bound 2)|apply (bswap_bound 2)]. }
  rewrite !length_app, Hh. destruct (Z.ltb_spec (Z.of_nat (6 + length body + length k)) 6); [lia|].
  rewrite <- app_assoc, decode_encode_header by (unfold inU in *; lia). cbv beta iota.
  destruct (Z.ltb_spec (Z.of_nat (6 + length body + length k)) (6 + Z.of_nat (length body))); [lia|].
  rewrite Nat2Z.id. rewrite drop_app_ge by lia. rewrite Hh. replace (6 - 6)%nat with 0%nat by lia. rewrite drop_0.
  rewrite take_app_le by lia. rewrite take_ge by lia.
  rewrite drop_app_ge by lia. rewrite Hh. replace (6 + length body - 6)%nat with (length body) by lia.
  rewrite drop_app_ge by lia. by rewrite Nat.sub_diag, drop_0.
Qed.

Lemma frames_requests reqs k :
  Forall frame_ok reqs ->
  frames (concat ((fun f => frame_bytes f.1 f.2) <$> reqs) ++ k) = (reqs ++ (frames k).1, (frames k).2).
Proof.
  induction 1 as [|[ty body] reqs Hf _ IH]; [simpl; by destruct (frames k)|].
  rewrite fmap_cons. cbn [concat fst snd]. rewrite <- app_assoc, frames_step, next_frame_frame by done. by rewrite IH.
Qed.

(** ** Handlers and the session buffer *)

(** A handler neither looks at the session buffer nor changes it. *)
Class BufferBlind {St} (handler : HandlerKind -> Session -> bytes -> Z -> St -> option bytes * Session * St) : Prop :=
  buffer_blind k b s mem n st :
    handler k (set_buffer b s) mem n st =
    let '(r, s', st') := handler k s mem n st in (r, set_buffer b s', st').

Lemma set_buffer_same s : set_buffer (s_buffer s) s = s.
Proof. by destruct s. Qed.

Section Spec.
Context {St : Type} (handler : HandlerKind -> Session -> bytes -> Z -> St -> option bytes * Session * St).
Context `{BB : !BufferBlind handler} (router : Router).
Implicit Types (s : Session) (st : St).

(** A frame whose handler does not read beyond the body. *)
Definition reads_own_body (f : Z * bytes) : Prop :=
  forall s rest st, dispatch handler router s f.1 (f.2 ++ rest) (Z.of_nat (length f.2)) st =
                    dispatch handler router s f.1 f.2 (Z.of_nat (length f.2)) st.

Lemma dispatch_blind b s ty mem n st :
  dispatch handler router (set_buffer b s) ty mem n st =
  let '(r, s', st') := dispatch handler router s ty mem n st in (r, set_buffer b s', st').
Proof. unfold dispatch. destruct (router !! ty); [|done]. apply BB. Qed.

Lemma serve_frame_blind b s ty mem n sends st :
  serve_frame handler router (set_buffer b s) ty mem n sends st =
  match serve_frame handler router s ty mem n sends st with
  | Some (s', sends', st', out) => Some (set_buffer b s', sends', st', out)
  | None => None
  end.
Proof.
  unfold serve_frame. rewrite dispatch_blind. destruct (dispatch handler router s ty mem n st) as [[r s'] st'].
  destruct (default [] r); [done|]. by destruct (send_loop _ _) as [[]|].
Qed.

Lemma serve_frame_buffer s ty mem n sends st s' sends' st' out :
  serve_frame handler router s ty mem n sends st = Some (s', sends', st', out) -> s_buffer s' = s_buffer s.
Proof.
  intros E. pose proof (serve_frame_blind (s_buffer s) s ty mem n sends st) as H.
  rewrite set_buffer_same, E in H. injection H as ->. done.
Qed.

Lemma serve_blind b fs s sends st :
  serve handler router fs (set_buffer b s) sends st =
  match serve handler router fs s sends st with
  | Some (s', sends', st', out) => Some (set_buffer b s', sends', st', out)
  | None => None
  end.
Proof.
  revert s sends st. induction fs as [|[ty body] fs IH]; intros s sends st; [done|]. simpl.
  rewrite serve_frame_blind. destruct (serve_frame _ _ s _ _ _ _ _) as [[[[s1 sends1] st1] out1]|]; [|done].
  rewrite IH. by destruct (serve _ _ fs s1 sends1 st1) as [[[[]]]|].
Qed.

Lemma serve_app f1 f2 s sends st :
  serve handler router (f1 ++ f2) s sends st =
  match serve handler router f1 s sends st with
  | None => None
  | Some (s1, sends1, st1, out1) =>
      match serve handler router f2 s1 sends1 st1 with
      | None => None
      | Some (s2, sends2, st2, out2) => Some (s2, sends2, st2, out1 ++ out2)
      end
  end.
Proof.
  revert s sends st. induction f1 as [|[ty body] f1 IH]; intros s sends st; simpl.
  - by destruct (serve _ _ f2 s sends st) as [[[[]]]|].
  - destruct (serve_frame _ _ s _ _ _ _ _) as [[[[s1 sends1] st1] out1]|]; [|done]. rewrite IH.
    destruct (serve _ _ f1 s1 sends1 st1) as [[[[s2 sends2] st2] out2]|]; [|done].
    destruct (serve _ _ f2 s2 sends2 st2) as [[[[s3 sends3] st3] out3]|]; [|done]. by rewrite app_assoc.
Qed.

(** The frame loop serves the frames of the unprocessed part of the buffer. *)
Lemma frame_loop_serves l :
  Forall reads_own_body (frames l).1 ->
  forall fuel p s sends st wire,
    drop p (s_buffer s) = l -> (length l < fuel)%nat ->
    frame_loop handler router fuel p s sends st wire =
    match serve handler router (frames l).1 s sends st with
    | None => None
    | Some (s', sends', st', out) => Some ((p + (length l - length (frames l).2))%nat, s', sends', st', wire ++ out)
    end.
Proof.
  induction l as [l E|l ty body rest E IH] using frames_ind; rewrite frames_step, E; cbn [fst snd];
    intros Hl fuel p s sends st wire Hd Hf; (destruct fuel as [|fuel]; [lia|]).
  - cbn [frame_loop serve]. rewrite Hd. unfold next_frame in E. rewrite app_nil_r, Nat.sub_diag, Nat.add_0_r.
    destruct (_ <? sizeof PacketHeader); [done|]. destruct (decode_header l) as [len ty].
    by destruct (_ <? sizeof PacketHeader + len).
  - apply Forall_cons in Hl as [Hown Hl].
    pose proof E as (len & Edec & H0 & H1 & Hb & Hr & Hbl & Hdrop & Hlen)%next_frame_inv.
    cbn [frame_loop serve]. rewrite Hd, header_size, Edec.
    destruct (Z.ltb_spec (Z.of_nat (length l)) 6); [lia|].
    destruct (Z.ltb_spec (Z.of_nat (length l)) (6 + len)); [lia|].
    assert (serve_frame handler router s ty (drop 6 l) len sends st =
            serve_frame handler router s ty body (Z.of_nat (length body)) sends st) as ->.
    { unfold serve_frame. rewrite Hdrop, <- Hbl.
      pose proof (Hown s rest st) as Ho. cbn [fst snd] in Ho. by rewrite Ho. }
    destruct (serve_frame _ _ s ty body _ sends st) as [[[[s1 sends1] st1] out1]|] eqn:Es; [|done].
    apply serve_frame_buffer in Es. rewrite (IH Hl).
    + destruct (serve _ _ (frames rest).1 s1 sends1 st1) as [[[[s2 sends2] st2] out2]|]; [|done].
      assert (length (frames rest).2 <= length rest)%nat as Hle.
      { clear. induction rest as [l E|l ty body rest E IH] using frames_ind; rewrite frames_step, E; simpl; [done|].
        apply next_frame_inv in E as (len & _ & _ & _ & _ & _ & _ & _ & Hl). lia. }
      rewrite app_assoc.
      assert (p + (6 + Z.to_nat len) + (length rest - length (frames rest).2) = p + (length l - length (frames rest).2))%nat as -> by lia.
      done.
    + rewrite Es, <- drop_drop, Hd. by rewrite Hr.
    + lia.
Qed.

(** One call of the connection handler. *)
Lemma echo_serves s recvs data sends st :
  next_frame (s_buffer s) = None -> read_stream recvs [] = Some (Drained data) ->
  Forall reads_own_body (frames (s_buffer s ++ data)).1 ->
  MyEchoBusiness handler router (Some s) recvs sends st =
  match serve handler router (frames (s_buffer s ++ data)).1 s sends st with
  | None => None
  | Some (s', sends', st', out) =>
      Some (mkEcho true (Some (set_buffer (frames (s_buffer s ++ data)).2 s')) sends' st' out)
  end.
Proof.
  intros Hn Hr Hl. unfold MyEchoBusiness. rewrite Hr. destruct data as [|b data].
  { rewrite app_nil_r, frames_step, Hn. simpl. by rewrite set_buffer_same. }
  set (d := b :: data) in *. set (s1 := set_buffer (s_buffer s ++ d) s).
  assert (drop 0 (s_buffer s1) = s_buffer s ++ d) as Hd by done.
  rewrite (frame_loop_serves (s_buffer s ++ d) Hl (S (length (s_buffer s1))) 0 s1 sends st [] Hd) by (simpl; lia).
  unfold s1 at 1. rewrite serve_blind.
  destruct (serve _ _ _ s sends st) as [[[[s2 sends2] st2] out2]|]; [|done]. simpl. do 3 f_equal.
  change (s_buffer s ++ b :: data) with (s_buffer s ++ d).
  assert (forall l, drop (length l - length (frames l).2) l = (frames l).2) as Hrest; [|by rewrite Hrest].
  intros l. assert (exists k, l = k ++ (frames l).2) as [k Hk].
  { induction l as [l E|l ty body rest E [k IH]] using frames_ind; rewrite frames_step, E; simpl; [by exists []|].
    apply next_frame_inv in E as (len & _ & _ & _ & _ & -> & _). exists (take (6 + Z.to_nat len) l ++ k).
    rewrite <- app_assoc, <- IH. by rewrite take_drop. }
  rewrite Hk at 1 3. rewrite length_app, drop_app_ge by lia.
  replace (_ - _ - _)%nat with 0%nat by lia. apply drop_0.
Qed.
End Spec.
