(* ===== verification/FramingTheorems.v ===== *)
(** * Theorems about the connection handler

    The stream is cut into frames the same way however it arrives; every complete request is
    dispatched once, in order, and answered; the handlers of Handlers.v satisfy what the
    connection handler assumes of them. *)

From S2P Require Import Prelude Bytes Protocol Numerals Common OrderBook TickerManager Accounts UserManager Repositories.
From S2P Require Import Engine WALManager SettlementProcessor World Session Handlers Framing SystemTheorems.
From stdpp Require Import base strings list gmap.
From Stdlib Require Import ZArith Lia.
Local Open Scope Z_scope.

(** ** Sending *)

Definition send_ok (r : send_result) : Prop :=
  match r with Sent n => (0 < n)%nat | SendAgain => True | SendError | SendZero => False end.

Fixpoint sent_count (outs : list send_result) : nat :=
  match outs with
  | [] => 0
  | Sent _ :: outs' => S (sent_count outs')
  | _ :: outs' => sent_count outs'
  end.

(** A socket that never fails and takes at least [n] more writes. *)
Definition healthy (n : nat) (outs : list send_result) : Prop := Forall send_ok outs /\ (n <= sent_count outs)%nat.

Lemma send_loop_delivers outs packet m :
  healthy (length packet + m) outs -> exists outs', send_loop outs packet = Some (packet, outs') /\ healthy m outs'.
Proof.
  revert packet. induction outs as [|r outs IH]; intros packet [Hok Hn].
  - destruct packet; simpl in *; [|lia]. exists []. split; [done|]. split; [constructor|simpl; lia].
  - destruct packet as [|b packet].
    { exists (r :: outs). split; [by destruct r|]. by split. }
    apply Forall_cons in Hok as [Hr Hok]. destruct r as [n| | |]; simpl in Hr; try done.
    + cbn [send_loop]. destruct n as [|n]; [lia|]. cbn [drop take].
      destruct (IH (drop n packet)) as (outs' & E & Hh).
      { split; [done|]. rewrite length_drop. simpl in Hn. lia. }
      exists outs'. rewrite E. split; [|done]. cbn [app]. by rewrite take_drop.
    + cbn [send_loop]. destruct (IH (b :: packet)) as (outs' & E & Hh); [split; [done|exact Hn]|].
      exists outs'. by rewrite E.
Qed.

(** Nothing is sent twice or out of order, whatever the socket answers. *)
Lemma send_loop_prefix outs packet w outs' : send_loop outs packet = Some (w, outs') -> w `prefix_of` packet.
Proof.
  revert packet w. induction outs as [|r outs IH]; intros [|b packet] w; cbn [send_loop]; try done.
  - intros [= <- _]. done.
  - destruct r; by intros [= <- _].
  - destruct r as [n| | |].
    + destruct (send_loop outs _) as [[w' o]|] eqn:E; [|done]. intros [= <- <-]. apply IH in E as [k Hk].
      exists k. rewrite <- app_assoc, <- Hk. by rewrite take_drop.
    + apply IH.
    + intros [= <- _]. apply prefix_nil.
    + intros [= <- _]. apply prefix_nil.
Qed.

(** ** The exchange *)

Section Exchange.
Context {St : Type} (handler : HandlerKind -> Session -> bytes -> Z -> St -> option bytes * Session * St).
Context `{BB : !BufferBlind handler} (router : Router).
Implicit Types (s : Session) (st : St).

(** The packet a request is answered with; none for an empty reply. *)
Definition answer (ty : Z) (r : option bytes) : bytes :=
  match default [] r with [] => [] | reply => reply_packet ty reply end.

(** The answers to a sequence of requests, the session and the state after them. *)
Fixpoint respond (reqs : list (Z * bytes)) s st : list bytes * Session * St :=
  match reqs with
  | [] => ([], s, st)
  | (ty, body) :: reqs' =>
      let '(r, s1, st1) := dispatch handler router s ty body (Z.of_nat (length body)) st in
      let '(out, s2, st2) := respond reqs' s1 st1 in
      (answer ty r :: out, s2, st2)
  end.

Lemma serve_responds reqs s sends st m :
  healthy (length (concat (respond reqs s st).1.1) + m) sends ->
  exists sends', serve handler router reqs s sends st =
    Some ((respond reqs s st).1.2, sends', (respond reqs s st).2, concat (respond reqs s st).1.1) /\ healthy m sends'.
Proof.
  revert s sends st. induction reqs as [|[ty body] reqs IH]; intros s sends st Hh.
  { exists sends. by split. }
  cbn [serve respond] in *. unfold serve_frame.
  destruct (dispatch handler router s ty body _ st) as [[r s1] st1].
  destruct (respond reqs s1 st1) as [[out s2] st2] eqn:E. cbn [fst snd concat] in *.
  rewrite length_app in Hh. unfold answer in Hh |- *.
  assert (exists sends1, match default [] r with
    | [] => Some (s1, sends, st1, [])
    | reply => match send_loop sends (reply_packet ty reply) with
               | Some (o, sends') => Some (s1, sends', st1, o) | None => None end
    end = Some (s1, sends1, st1, answer ty r) /\ healthy (length (concat out) + m) sends1) as (sends1 & -> & Hh1).
  { unfold answer. destruct (default [] r) as [|b reply]; [by exists sends|].
    rewrite <- Nat.add_assoc in Hh. destruct (send_loop_delivers _ _ _ Hh) as (o & -> & Ho). by exists o. }
  specialize (IH s1 sends1 st1). rewrite E in IH. cbn [fst snd] in IH.
  destruct (IH Hh1) as (sends2 & -> & Hh2). by exists sends2.
Qed.

(** C16: framing.  Requests sent back to back, read by the server in any number of chunks cut
    anywhere, are dispatched one by one in the order sent, each with exactly its type and body,
    and the wire carries exactly their answers; the buffer keeps precisely what follows the last
    complete request.  This needs a socket that does not fail (short writes and EAGAIN are
    allowed) and handlers that neither touch the buffer nor read beyond their body. *)
Theorem echo_exchange s recvs sends st reqs tail
  (Hreqs : Forall frame_ok reqs) (Hown : Forall (reads_own_body handler router) reqs)
  (Htail : next_frame tail = None) (Hbuf : s_buffer s = [])
  (Hread : read_stream recvs [] = Some (Drained (concat ((fun f => frame_bytes f.1 f.2) <$> reqs) ++ tail)))
  (Hsock : healthy (length (concat (respond reqs s st).1.1)) sends) :
  exists sends', MyEchoBusiness handler router (Some s) recvs sends st =
    Some (mkEcho true (Some (set_buffer tail (respond reqs s st).1.2)) sends' (respond reqs s st).2
            (concat (respond reqs s st).1.1)).
Proof.
  assert (frames (s_buffer s ++ (concat ((fun f => frame_bytes f.1 f.2) <$> reqs) ++ tail)) = (reqs, tail)) as Hf.
  { rewrite Hbuf. cbn [app]. rewrite frames_requests by done. rewrite (frames_step tail), Htail. by rewrite app_nil_r. }
  set (data := concat _ ++ tail) in *.
  rewrite (echo_serves handler router s recvs data sends st); [|by rewrite Hbuf|exact Hread|by rewrite Hf].
  rewrite Hf. cbn [fst snd]. destruct (serve_responds reqs s sends st 0) as (sends' & -> & _); [by rewrite Nat.add_0_r|].
  by exists sends'.
Qed.

(** How the bytes are spread over calls does not matter: handling what arrived first and
    then, in a later call, what arrived next, has the same effect on the session, the state and
    the wire as one call that received both. *)
Theorem echo_calls_compose s recvs1 recvs2 recvs12 data1 data2 sends st r1 r2
  (Hbuf : next_frame (s_buffer s) = None)
  (H1 : read_stream recvs1 [] = Some (Drained data1)) (H2 : read_stream recvs2 [] = Some (Drained data2))
  (H12 : read_stream recvs12 [] = Some (Drained (data1 ++ data2)))
  (Hown : Forall (reads_own_body handler router) (frames (s_buffer s ++ data1 ++ data2)).1)
  (E1 : MyEchoBusiness handler router (Some s) recvs1 sends st = Some r1)
  (E2 : MyEchoBusiness handler router (er_session r1) recvs2 (er_sends r1) (er_state r1) = Some r2) :
  MyEchoBusiness handler router (Some s) recvs12 sends st =
    Some (mkEcho true (er_session r2) (er_sends r2) (er_state r2) (er_wire r1 ++ er_wire r2)).
Proof.
  pose proof (frames_app (s_buffer s ++ data1) data2) as Hf. rewrite <- app_assoc in Hf.
  rewrite Hf in Hown. cbn [fst] in Hown. apply Forall_app in Hown as [Ho1 Ho2].
  rewrite (echo_serves handler router s recvs1 data1) in E1 by done.
  destruct (serve handler router (frames (s_buffer s ++ data1)).1 s sends st) as [[[[s1 sends1] st1] out1]|] eqn:Es1; [|done].
  injection E1 as <-. cbn [er_session er_sends er_state er_wire] in *.
  assert (s_buffer (set_buffer (frames (s_buffer s ++ data1)).2 s1) = (frames (s_buffer s ++ data1)).2) as Hb1 by done.
  rewrite (echo_serves handler router _ recvs2 data2) in E2; [|rewrite Hb1; apply frames_rest|done|by rewrite Hb1].
  rewrite Hb1, (serve_blind handler router) in E2.
  rewrite (echo_serves handler router s recvs12 (data1 ++ data2)); [|done|done|].
  2:{ rewrite Hf. by apply Forall_app. }
  rewrite Hf. cbn [fst snd]. rewrite serve_app, Es1.
  destruct (serve handler router (frames _).1 s1 sends1 st1) as [[[[s2 sends2] st2] out2]|]; [|done].
  by injection E2 as <-.
Qed.
End Exchange.

(** ** The handlers of the server *)

Section Handlers.
Context {S D : Type} `{AS : AccountStore S} `{UR : IUserRepository D} `{SR : IStockRepository D}.
Context (clock : nat -> Z) (shuffle : list NewsTemplate -> list NewsTemplate).
Context (zrevrange : bytes -> option (list bytes)) (json_price : bytes -> option Z) (uninit : Z).

#[export] Instance handle_blind : BufferBlind (handle (S := S) (D := D) clock shuffle zrevrange json_price uninit).
Proof.
  intros k b s mem n w. unfold handle.
  destruct k; unfold handle_Login, handle_Register, handle_Exit, handle_GetBalance, handle_GetAllStocks, handle_Deposit,
    handle_Trade, handle_GetHoldings, handle_GetMarket, handle_GetNews, handle_GetTrend, handle_GetOrders, handle_CancelOrder;
    change (isLoggedIn (set_buffer b s)) with (isLoggedIn s); cbn [s_user_id s_username set_buffer];
    repeat case_match; simplify_eq; done.
Qed.

(** A login or register request whose password is NUL-terminated inside the body. *)
Definition own_body (k : HandlerKind) (body : bytes) : Prop :=
  match k with
  | LoginHandler | RegisterUserHandler => Z.of_nat (length body) < sizeof AuthRequest \/ 0 ∈ drop 32 body
  | _ => True
  end.

Lemma cstr_app_elem l rest : 0 ∈ l -> cstr (l ++ rest) = cstr l.
Proof.
  induction l as [|b l IH]; intros H0; [by apply not_elem_of_nil in H0|]. simpl.
  destruct (Z.eqb_spec b 0) as [->|Hb]; [done|]. apply elem_of_cons in H0 as [|H0]; [done|]. by rewrite IH.
Qed.

Lemma of_bytes_app {A} `{PackedLaws A} l rest :
  sizeof A <= Z.of_nat (length l) -> of_bytes (A := A) (l ++ rest) = of_bytes l.
Proof. intros Hl. rewrite <- (of_bytes_take (l ++ rest) (length l)) by done. by rewrite take_app_le, take_ge by lia. Qed.

Lemma auth_strings body rest :
  0 ∈ drop 32 body -> 64 <= Z.of_nat (length body) ->
  cstr (body ++ rest) = cstr body /\ cstr (drop 32 (body ++ rest)) = cstr (drop 32 body).
Proof.
  intros H0 Hl. split; [apply cstr_app_elem; by eapply elem_of_drop|].
  rewrite drop_app_le by lia. by apply cstr_app_elem.
Qed.

(** Every handler but the two that read C strings stays in its body, and so do those when the
    strings are terminated. *)
Lemma handle_own k body s rest w :
  own_body k body ->
  handle (S := S) (D := D) clock shuffle zrevrange json_price uninit k s (body ++ rest) (Z.of_nat (length body)) w =
  handle clock shuffle zrevrange json_price uninit k s body (Z.of_nat (length body)) w.
Proof.
  intros Ho. destruct k; cbn [own_body] in Ho; cbn [handle]; try done.
  - unfold handle_Login. destruct (_ <? _) eqn:E; [done|]. zbool. change (sizeof AuthRequest) with 64 in *.
    destruct Ho as [|Ho]; [lia|]. by destruct (auth_strings body rest Ho E) as [-> ->].
  - unfold handle_Register. destruct (_ <? _) eqn:E; [done|]. zbool. change (sizeof AuthRequest) with 64 in *.
    destruct Ho as [|Ho]; [lia|]. by destruct (auth_strings body rest Ho E) as [-> ->].
  - unfold handle_Deposit. destruct (negb _); [done|]. destruct (_ <? _) eqn:E; [done|]. zbool. by rewrite of_bytes_app.
  - unfold handle_Trade. destruct (negb _); [done|]. destruct (_ <? _) eqn:E; [done|]. zbool. by rewrite of_bytes_app.
  - unfold handle_GetMarket. destruct (_ <? _) eqn:E; [done|]. zbool. by rewrite of_bytes_app.
  - unfold handle_GetTrend. destruct (_ <? _) eqn:E; [done|]. zbool. by rewrite of_bytes_app.
  - unfold handle_CancelOrder. destruct (negb _); [done|]. destruct (_ <? _) eqn:E; [done|]. zbool. by rewrite of_bytes_app.
Qed.

Lemma handle_reads_own router ty body :
  (forall k, router !! ty = Some k -> own_body k body) ->
  reads_own_body (handle (S := S) (D := D) clock shuffle zrevrange json_price uninit) router (ty, body).
Proof.
  intros Ho s rest w. unfold dispatch. cbn [fst snd]. destruct (router !! ty) as [k|]; [|done].
  apply handle_own. by apply Ho.
Qed.

(** A login or registration whose strings are not terminated inside the body is answered
    with bytes of the next frame: the name the handler looks up is the body continued by
    whatever follows it in the buffer. *)
Theorem login_overread s body rest w :
  Z.of_nat (length body) = sizeof AuthRequest -> Forall (fun b => b <> 0) body -> Forall (fun b => b <> 0) rest ->
  rest <> [] ->
  let h := handle_Login (S := S) (D := D) uninit in
  (checkLogin (body ++ rest) (drop 32 body ++ rest) (w_db w)).1 = true ->
  (h s (body ++ rest) (Z.of_nat (length body)) w).1.2.(s_username) = body ++ rest /\ body ++ rest <> body.
Proof.
  intros Hl Hb Hr Hne h Hc. split.
  - unfold h, handle_Login. rewrite (proj2 (Z.ltb_ge _ _)) by lia. change (sizeof AuthRequest) with 64 in Hl.
    rewrite drop_app_le by lia. rewrite !cstr_id; [| |by apply Forall_app].
    2:{ apply Forall_app. split; [by apply Forall_drop|done]. }
    destruct (checkLogin _ _ _) as [ok d1]. simpl in Hc. subst ok.
    destruct (_ =? 0); [|done]. destruct (getUserId _ _) as [[id|] d2]; done.
  - intros E. apply (f_equal length) in E. rewrite length_app in E. destruct rest; [done|]. simpl in E. lia.
Qed.
End Handlers.

(** ** A concrete exchange *)

Module SampleEcho.
Import TableDB.
Definition router : Router := register_all ∅.
Definition h := handle (S := UserManager) (D := DB) SampleRun.clk (fun l => l) (fun _ => None) (fun _ => None) 0.
Definition s : Session := mkSession 5 [] (str "ann") 1.
Definition w : World UserManager DB := SampleRun.w0.
(* a balance query and a cancellation, then the first bytes of a third header *)
Definition reqs : list (Z * bytes) := [(2003, []); (3003, to_bytes (mkCancelReq 7 11))].
Definition tail : bytes := [0; 0; 0].
Definition stream : bytes := concat ((fun f => frame_bytes f.1 f.2) <$> reqs) ++ tail.
(* cut in the middle of the second header, with an interruption *)
Definition recvs : list recv_result := [RecvData (take 9 stream); RecvIntr; RecvData (drop 9 stream); RecvAgain].
(* the socket blocks once and takes few bytes at a time *)
Definition sends : list send_result := SendAgain :: replicate 40 (Sent 3).

Lemma split_frames : (frames (s_buffer s ++ take 9 stream ++ drop 9 stream)).1 = reqs.
Proof. vm_compute. reflexivity. Qed.
Lemma reqs_ok : Forall frame_ok reqs.
Proof. repeat constructor; vm_compute; intuition discriminate. Qed.
Lemma reqs_own : Forall (reads_own_body h router) reqs.
Proof.
  repeat constructor; apply handle_reads_own; intros k Hk; vm_compute in Hk; injection Hk as <-; exact I.
Qed.
End SampleEcho.

Import TableDB.

Lemma echo_exchange_witness :
  exists sends' wire, MyEchoBusiness SampleEcho.h SampleEcho.router (Some SampleEcho.s) SampleEcho.recvs SampleEcho.sends SampleEcho.w =
    Some (mkEcho true (Some (set_buffer SampleEcho.tail SampleEcho.s)) sends'
      (respond SampleEcho.h SampleEcho.router SampleEcho.reqs SampleEcho.s SampleEcho.w).2 wire) /\ length wire = 22%nat.
Proof.
  destruct (echo_exchange SampleEcho.h SampleEcho.router SampleEcho.s SampleEcho.recvs SampleEcho.sends SampleEcho.w
    SampleEcho.reqs SampleEcho.tail SampleEcho.reqs_ok SampleEcho.reqs_own) as (sends' & E).
  - vm_compute. reflexivity.
  - reflexivity.
  - vm_compute. reflexivity.
  - split; [|apply Nat.leb_le; vm_compute; reflexivity]. repeat constructor.
  - exists sends', (concat (respond SampleEcho.h SampleEcho.router SampleEcho.reqs SampleEcho.s SampleEcho.w).1.1).
    split; [exact E|]. vm_compute. reflexivity.
Defined.

Lemma echo_calls_compose_witness :
  exists r1 r2,
    MyEchoBusiness SampleEcho.h SampleEcho.router (Some SampleEcho.s)
      [RecvData (take 9 SampleEcho.stream); RecvAgain] SampleEcho.sends SampleEcho.w = Some r1 /\
    MyEchoBusiness SampleEcho.h SampleEcho.router (Some SampleEcho.s) SampleEcho.recvs SampleEcho.sends SampleEcho.w =
      Some (mkEcho true (er_session r2) (er_sends r2) (er_state r2) (er_wire r1 ++ er_wire r2)) /\
    length (er_wire r1) = 15%nat /\ length (er_wire r2) = 7%nat.
Proof.
  destruct (MyEchoBusiness SampleEcho.h SampleEcho.router (Some SampleEcho.s)
      [RecvData (take 9 SampleEcho.stream); RecvAgain] SampleEcho.sends SampleEcho.w) as [r1|] eqn:E1;
    [|vm_compute in E1; discriminate E1].
  destruct (MyEchoBusiness SampleEcho.h SampleEcho.router (er_session r1)
      [RecvData (drop 9 SampleEcho.stream); RecvAgain] (er_sends r1) (er_state r1)) as [r2|] eqn:E2.
  2:{ vm_compute in E1. injection E1 as <-. vm_compute in E2. discriminate E2. }
  exists r1, r2. split; [reflexivity|]. split.
  - refine (echo_calls_compose SampleEcho.h SampleEcho.router SampleEcho.s _ _ SampleEcho.recvs (take 9 SampleEcho.stream)
      (drop 9 SampleEcho.stream) SampleEcho.sends SampleEcho.w r1 r2 _ _ _ _ _ E1 E2).
    + reflexivity.
    + vm_compute. reflexivity.
    + vm_compute. reflexivity.
    + vm_compute. reflexivity.
    + rewrite SampleEcho.split_frames. exact SampleEcho.reqs_own.
  - vm_compute in E1. injection E1 as <-. vm_compute in E2. injection E2 as <-. split; reflexivity.
Defined.

Module SampleOverread.
Definition body : bytes := replicate 64 97.
Definition rest : bytes := [98; 98].
Definition w : World UserManager DB :=
  start_world empty_tickers empty_manager
    (mkDB {[ body ++ rest := (5, drop 32 body ++ rest, 0) ]} ∅) ∅ SampleRun.log.
End SampleOverread.

Lemma login_overread_witness :
  (handle_Login (S := UserManager) (D := DB) 0 (new_session 4) (SampleOverread.body ++ SampleOverread.rest) 64 SampleOverread.w).1.2.(s_username) =
    SampleOverread.body ++ SampleOverread.rest.
Proof.
  refine (proj1 (login_overread 0 (new_session 4) SampleOverread.body SampleOverread.rest SampleOverread.w eq_refl _ _ _ _)).
  - apply Forall_replicate. discriminate.
  - repeat constructor; discriminate.
  - discriminate.
  - vm_compute. reflexivity.
Defined.
