(* ===== verification/Workers.v ===== *)
(** * The worker loops are runs of atomic actions

    One iteration of each worker loop, as the code writes it, has the effect of a sequence
    of the actions of World.v; between two of those actions any other thread may run. *)

From S2P Require Import Prelude Bytes Common OrderIdGenerator OrderBook TickerManager Accounts UserManager Repositories.
From S2P Require Import Engine WALManager SettlementProcessor World SystemTheorems.
From stdpp Require Import base strings list gmap.
From Stdlib Require Import ZArith Lia.
Local Open Scope Z_scope.

Section Workers.
Context {S D : Type} `{AS : AccountStore S} `{UR : IUserRepository D} `{SR : IStockRepository D}.
Context (clock : nat -> Z).
Implicit Types (w : World S D).

Lemma run_cons a l w : run clock (a :: l) w = match exec clock a w with Some w' => run clock l w' | None => None end.
Proof. done. Qed.

Lemma run_snoc l k w w1 : run clock l w = Some w1 -> run clock (l ++ k) w = run clock k w1.
Proof.
  revert w. induction l as [|a l IH]; intros w; simpl; [by intros [= ->]|].
  destruct (exec clock a w); [|done]. apply IH.
Qed.

(** ** The WAL worker *)

Lemma forward_event_facts w ev :
  w_engine (forward_event w ev) = forward (w_engine w) (w_heap w) ev /\
  w_wal (forward_event w ev) = w_wal w /\ w_heap (forward_event w ev) = w_heap w /\
  w_ticks (forward_event w ev) = w_ticks w /\ w_users (forward_event w ev) = w_users w.
Proof. unfold forward_event. destruct (ev_type ev), (ev_order ev); try done. simpl. by destruct (fst _). Qed.

Lemma run_forwards evs w q file :
  w_wal w = mkWM q evs file ->
  exists w', run clock (replicate (length evs) AForward) w = Some w' /\
    w_wal w' = mkWM q [] file /\ w_heap w' = w_heap w /\ w_ticks w' = w_ticks w /\ w_users w' = w_users w /\
    w_engine w' = fold_left (fun e ev => forward e (w_heap w) ev) evs (w_engine w).
Proof.
  revert w. induction evs as [|ev evs IH]; intros w Hw; [by exists w|].
  cbn [length replicate]. rewrite run_cons. cbn [exec]. unfold exec_forward. rewrite Hw.
  cbn [wal_buffer wal_queue wal_file_].
  destruct (forward_event_facts (set_wal (mkWM q evs file) w) ev) as (H1 & H2 & H3 & H4 & H5).
  destruct (IH _ H2) as (w' & Hr & G1 & G2 & G3 & G4 & G5). exists w'.
  rewrite Hr, G1, G2, G3, G4, G5, H1, H3, H4, H5. done.
Qed.

Lemma wal_iteration_run w ks batch rest :
  wal_buffer (w_wal w) = [] -> dequeue ks (wal_queue (w_wal w)) = Some (batch, rest) ->
  exists w', run clock (ALog ks :: replicate (length batch) AForward) w = Some w' /\
    (w_wal w', w_engine w', w_ticks w') =
      processerLoop_iteration clock (w_wal w) (w_engine w) (w_heap w) (w_ticks w) batch rest.
Proof.
  intros Hb Hq. rewrite run_cons. cbn [exec]. unfold exec_log. rewrite Hb, Hq. unfold processerLoop_iteration.
  unfold wal_log. destruct (wal_records clock (w_heap w) (w_ticks w) batch) as [recs t].
  destruct (run_forwards batch (set_heap (w_heap w) t (set_wal (mkWM rest batch (append_log recs (wal_file_ (w_wal w)))) w))
    rest (append_log recs (wal_file_ (w_wal w))) eq_refl) as (w' & Hr & H1 & H2 & H3 & H4 & H5).
  exists w'. rewrite Hr, H1, H3, H5. done.
Qed.

(** ** An order book worker *)

Definition with_buffer (b : list EngineEvent) (p : OrderBookProcessor) : OrderBookProcessor :=
  mkProc (p_ticker_id p) (p_book p) (p_queue p) b (p_results p).

Lemma process_event_buffer p h t ev b :
  process_event clock (with_buffer b p) h t ev =
    let '(p', h', cs, t') := process_event clock p h t ev in (with_buffer b p', h', cs, t').
Proof.
  unfold process_event, with_buffer. cbn. destruct (ev_type ev).
  - destruct (ev_order ev) as [r|]; [|done]. by destruct (processOrder _ _ _ _ _ _) as [[[]]].
  - destruct (cancelOrder _ _ _ _) as [[r|] b']; done.
Qed.

Lemma push_cancels_app cs1 cs2 q : push_cancels (cs1 ++ cs2) q = push_cancels cs2 (push_cancels cs1 q).
Proof. unfold push_cancels. by rewrite fold_left_app. Qed.

Lemma run_events k evs w p :
  w_engine w !! k = Some (with_buffer evs p) ->
  let '(p', h', cs, t') := process_events clock p (w_heap w) (w_ticks w) evs in
  exists w', run clock (replicate (length evs) (AEvent k)) w = Some w' /\
    w_engine w' = <[k := with_buffer [] p']> (w_engine w) /\ w_heap w' = h' /\ w_ticks w' = t' /\
    w_settle w' = push_cancels cs (w_settle w) /\ w_market w' = w_market w.
Proof.
  revert w p. induction evs as [|ev evs IH]; intros w p Hp.
  - simpl. exists w. split_and!; try done. by rewrite insert_id.
  - cbn [process_events length replicate]. rewrite run_cons. cbn [exec]. unfold exec_event. rewrite Hp.
    cbn [with_buffer].
    change (mkProc (p_ticker_id p) (p_book p) (p_queue p) evs (p_results p)) with (with_buffer evs p).
    rewrite process_event_buffer.
    destruct (process_event clock p (w_heap w) (w_ticks w) ev) as [[[p1 h1] cs1] t1].
    set (w1 := set_settle _ _).
    specialize (IH w1 p1 (lookup_insert_eq _ _ _)). change (w_heap w1) with h1 in IH. change (w_ticks w1) with t1 in IH.
    destruct (process_events clock p1 h1 t1 evs) as [[[p2 h2] cs2] t2].
    destruct IH as (w' & Hr & H1 & H2 & H3 & H4 & H5). exists w'. rewrite Hr, H1, H2, H3, H4, H5.
    change (w_engine w1) with (<[k := with_buffer evs p1]> (w_engine w)). rewrite insert_insert_eq, push_cancels_app. done.
Qed.

Lemma book_iteration_run w k t b q ks batch rest :
  w_engine w !! k = Some (mkProc t b q [] []) -> dequeue ks q = Some (batch, rest) -> batch <> [] ->
  let '(p', h', cs, recs, t') := processLoop_iteration clock (mkProc t b q [] []) (w_heap w) (w_ticks w) batch rest in
  exists w', run clock (ATake k ks :: replicate (length batch) (AEvent k) ++ [AFlush k]) w = Some w' /\
    w_engine w' = <[k := p']> (w_engine w) /\ w_heap w' = h' /\ w_ticks w' = t' /\
    w_settle w' = pushRecords recs (push_cancels cs (w_settle w)) /\ w_market w' = w_market w ++ recs.
Proof.
  intros Hk Hq Hne. unfold processLoop_iteration. destruct batch as [|ev batch]; [done|].
  set (evs := ev :: batch) in *. cbn [p_ticker_id p_book].
  rewrite run_cons. cbn [exec]. unfold exec_take. rewrite Hk, Hq.
  set (w1 := set_engine _ w).
  pose proof (run_events k evs w1 (mkProc t b rest [] []) (lookup_insert_eq _ _ _)) as He.
  change (w_heap w1) with (w_heap w) in He. change (w_ticks w1) with (w_ticks w) in He.
  destruct (process_events clock (mkProc t b rest [] []) (w_heap w) (w_ticks w) evs) as [[[p' h'] cs] t'].
  destruct He as (w2 & Hr & H1 & H2 & H3 & H4 & H5).
  rewrite (run_snoc _ _ _ _ Hr). cbn [run exec]. unfold exec_flush. rewrite H1, lookup_insert_eq. cbn [with_buffer].
  eexists. split; [reflexivity|]. cbn. rewrite H2, H3, H4, H5.
  change (w_engine w1) with (<[k := mkProc t b rest evs []]> (w_engine w)). rewrite !insert_insert_eq. done.
Qed.

(** ** The settlement worker *)

Lemma settle_match_run w i rec :
  w_half w = None -> sq_matches (w_settle w) !! i = Some rec ->
  exists w', run clock [ASettleBuy i; ASettleSell] w = Some w' /\ w_half w' = None /\
    (w_users w', w_db w') = settle_match (w_tickers w) (w_users w, w_db w) rec /\
    w_settle w' = mkSQ (delete i (sq_matches (w_settle w))) (sq_cancels (w_settle w)) /\ w_tickers w' = w_tickers w.
Proof.
  intros Hh Hi. cbn [run exec]. unfold exec_settle_buy. rewrite Hh, Hi. cbn [exec_settle_sell w_half set_half].
  eexists. split; [reflexivity|]. done.
Qed.

Lemma settle_matches_run ks w batch rest :
  w_half w = None -> dequeue ks (sq_matches (w_settle w)) = Some (batch, rest) ->
  exists w', run clock (concat ((fun i => [ASettleBuy i; ASettleSell]) <$> ks)) w = Some w' /\ w_half w' = None /\
    (w_users w', w_db w') = fold_left (settle_match (w_tickers w)) batch (w_users w, w_db w) /\
    w_settle w' = mkSQ rest (sq_cancels (w_settle w)) /\ w_tickers w' = w_tickers w.
Proof.
  revert w batch rest. induction ks as [|i ks IH]; intros w batch rest Hh; simpl.
  - intros [= <- <-]. exists w. split_and!; try done. by destruct (w_settle w).
  - destruct (_ !! i) as [rec|] eqn:Ei; [|done].
    destruct (dequeue ks (delete i _)) as [[b r]|] eqn:Ed; [|done]. intros [= <- <-].
    destruct (settle_match_run w i rec Hh Ei) as (w1 & Hr & H1 & H2 & H3 & H4).
    destruct (IH w1 b r H1) as (w' & Hr' & G1 & G2 & G3 & G4); [by rewrite H3|].
    exists w'. split_and!; [exact (eq_trans (run_snoc [ASettleBuy i; ASettleSell] _ w w1 Hr) Hr')|done| |by rewrite G3, H3|by rewrite G4, H4].
    rewrite G2, H4, H2. done.
Qed.

Lemma settle_cancels_run ks w batch rest :
  w_half w = None -> dequeue ks (sq_cancels (w_settle w)) = Some (batch, rest) ->
  exists w', run clock (ASettleCancel <$> ks) w = Some w' /\
    w_users w' = fold_left settle_cancel batch (w_users w) /\ w_db w' = w_db w /\
    w_settle w' = mkSQ (sq_matches (w_settle w)) rest.
Proof.
  revert w batch rest. induction ks as [|i ks IH]; intros w batch rest Hh; simpl.
  - intros [= <- <-]. exists w. split_and!; try done. by destruct (w_settle w).
  - destruct (_ !! i) as [c|] eqn:Ei; [|done].
    destruct (dequeue ks (delete i _)) as [[b r]|] eqn:Ed; [|done]. intros [= <- <-].
    unfold exec_settle_cancel. rewrite Hh, Ei. set (w1 := set_settle _ _).
    destruct (IH w1 b r Hh Ed) as (w' & Hr' & G1 & G2 & G3). exists w'. rewrite G1, G2, G3. done.
Qed.

(** The three worker loops, as the code writes them, do what the actions do: an
    undisturbed iteration of the WAL worker, of an order book worker or of the settlement
    worker, on whatever batch its queue delivers, is a run of atomic actions with the same
    effect on the log, the engine, the books, the orders, the queues, the accounts and the
    database. *)
Theorem worker_loops_are_runs w :
  (forall ks batch rest,
     wal_buffer (w_wal w) = [] -> dequeue ks (wal_queue (w_wal w)) = Some (batch, rest) ->
     exists acts w', run clock acts w = Some w' /\
       (w_wal w', w_engine w', w_ticks w') =
         processerLoop_iteration clock (w_wal w) (w_engine w) (w_heap w) (w_ticks w) batch rest) /\
  (forall k p ks batch rest,
     w_engine w !! k = Some p -> p_buffer p = [] -> p_results p = [] ->
     dequeue ks (p_queue p) = Some (batch, rest) -> batch <> [] ->
     let '(p', h', cs, recs, t') := processLoop_iteration clock p (w_heap w) (w_ticks w) batch rest in
     exists acts w', run clock acts w = Some w' /\
       w_engine w' = <[k := p']> (w_engine w) /\ w_heap w' = h' /\ w_ticks w' = t' /\
       w_settle w' = pushRecords recs (push_cancels cs (w_settle w)) /\ w_market w' = w_market w ++ recs) /\
  (forall ks1 ks2 matches cancels rest1 rest2,
     w_half w = None -> dequeue ks1 (sq_matches (w_settle w)) = Some (matches, rest1) ->
     dequeue ks2 (sq_cancels (w_settle w)) = Some (cancels, rest2) ->
     exists acts w', run clock acts w = Some w' /\
       (w_users w', w_db w') = settle_iteration (w_tickers w) (w_users w, w_db w) matches cancels /\
       w_settle w' = mkSQ rest1 rest2).
Proof.
  split_and!.
  - intros ks batch rest Hb Hq. destruct (wal_iteration_run w ks batch rest Hb Hq) as (w' & H). eauto.
  - intros k [t b q buf res] ks batch rest Hk. simpl. intros -> -> Hq Hne.
    pose proof (book_iteration_run w k t b q ks batch rest Hk Hq Hne) as H'.
    destruct (processLoop_iteration _ _ _ _ _ _) as [[[[p' h'] cs] recs] t']. destruct H' as (w' & H'). eauto.
  - intros ks1 ks2 matches cancels rest1 rest2 Hh H1 H2.
    destruct (settle_matches_run ks1 w matches rest1 Hh H1) as (w1 & Hr1 & Hh1 & Hu1 & Hs1 & _).
    destruct (settle_cancels_run ks2 w1 cancels rest2 Hh1) as (w2 & Hr2 & Hu2 & Hd2 & Hs2); [by rewrite Hs1|].
    exists (concat ((fun i => [ASettleBuy i; ASettleSell]) <$> ks1) ++ (ASettleCancel <$> ks2)), w2.
    rewrite (run_snoc _ _ _ _ Hr1). split_and!; [done| |by rewrite Hs2, Hs1].
    unfold settle_iteration. rewrite <- Hu1. by rewrite Hu2, Hd2.
Qed.
End Workers.

Import TableDB.

Lemma worker_loops_are_runs_witness :
  exists acts (w' : World UserManager TableDB.DB), run SampleRun.clk acts SampleRun.traded = Some w' /\
    w_settle w' = mkSQ [] [] /\ sq_matches (w_settle SampleRun.traded) <> [].
Proof.
  destruct (worker_loops_are_runs SampleRun.clk SampleRun.traded) as (_ & _ & H).
  destruct (sq_matches (w_settle SampleRun.traded)) as [|m [|]] eqn:E;
    [vm_compute in E; discriminate E| |vm_compute in E; discriminate E].
  destruct (H [0%nat] [] [m] [] [] [] ltac:(vm_compute; reflexivity) eq_refl
    ltac:(vm_compute; reflexivity)) as (acts & w' & Hr & _ & Hs).
  exists acts, w'. split; [exact Hr|]. split; [exact Hs|discriminate].
Defined.
