(* ===== verification/WalTheorems.v ===== *)
(** * The write-ahead property

    In every run of the server, an event reaches the matching engine only after its record
    was passed to [fwrite]; the log stream decodes to the records of exactly the events that
    were forwarded or are about to be, in that order, and the file on disk holds a prefix of
    them, possibly none. *)

From S2P Require Import Prelude Bytes Common OrderIdGenerator OrderedMap OrderBook OrderBookSpec OrderBookLoops.
From S2P Require Import OrderBookProofs TickerManager Accounts UserManager Repositories.
From S2P Require Import Engine WALManager SettlementProcessor World Exposure ExposureProofs SystemTheorems.
From stdpp Require Import base strings list gmap.
From Stdlib Require Import ZArith Lia.
Local Open Scope Z_scope.

(** ** What a record says of an event *)

Definition order_record (o : Order) : WALRecord :=
  mkWAL 0 (timestamp o) (order_id o) (ticker_id o) (user_id o)
    (match side o with BUY => 0 | SELL => 1 end) (price o) (quantity o).
Definition cancel_wal (ts : Z) (ev : EngineEvent) : WALRecord :=
  mkWAL 1 ts (cancel_order_id ev) (ev_ticker_id ev) (cancel_user_id ev) 0 0 0.

(** The record of an event whose order may have been matched since: only the quantity of the
    order may differ from the logged one. *)
Definition logs (h : heap) (rec : WALRecord) (ev : EngineEvent) : Prop :=
  match ev_type ev with
  | NEW_ORDER => exists r, ev_order ev = Some r /\ is_Some (h !! r) /\
                 rec = order_record (set_quantity (deref h r) (wr_quantity rec))
  | CANCEL_ORDER => exists ts, rec = cancel_wal ts ev
  end.

(** The record of an event not yet forwarded: the order as it is. *)
Definition logs_exactly (h : heap) (rec : WALRecord) (ev : EngineEvent) : Prop :=
  match ev_type ev with
  | NEW_ORDER => exists r, ev_order ev = Some r /\ is_Some (h !! r) /\ rec = order_record (deref h r)
  | CANCEL_ORDER => exists ts, rec = cancel_wal ts ev
  end.

Lemma logs_exactly_logs h rec ev : logs_exactly h rec ev -> logs h rec ev.
Proof.
  unfold logs_exactly, logs. destruct (ev_type ev); [|done].
  intros (r & ? & ? & ->). exists r. split_and!; [done..|]. by destruct (deref h r).
Qed.

(** ** Stores that only grow and only change quantities *)

Definition heap_ext (h h' : heap) : Prop :=
  forall r, is_Some (h !! r) -> is_Some (h' !! r) /\ set_quantity (deref h' r) 0 = set_quantity (deref h r) 0.

#[export] Instance heap_ext_refl : Reflexive heap_ext.
Proof. by intros h r Hr. Qed.

Lemma static_heap_ext h h' : static_eq h h' -> heap_ext h h'.
Proof. intros Hs r Hr. split; [by apply (static_live _ _ r Hs)|by apply Hs]. Qed.

Lemma frame_heap_ext h h' : (forall r, is_Some (h !! r) -> h' !! r = h !! r) -> heap_ext h h'.
Proof. intros Hf r Hr. unfold deref. by rewrite Hf. Qed.

Lemma logs_ext h h' rec ev : heap_ext h h' -> logs h rec ev -> logs h' rec ev.
Proof.
  unfold logs. intros Hx. destruct (ev_type ev); [|done]. intros (r & Hr & Hl & Hrec). exists r.
  destruct (Hx r Hl) as [Hl' He]. split_and!; [done..|].
  assert (set_quantity (deref h' r) (wr_quantity rec) = set_quantity (deref h r) (wr_quantity rec)) as ->; [|done].
  change (set_quantity (set_quantity (deref h' r) 0) (wr_quantity rec) = set_quantity (deref h r) (wr_quantity rec)).
  by rewrite He.
Qed.

Lemma logs_exactly_frame h h' rec ev :
  (forall r, r ∈ event_refs [ev] -> h' !! r = h !! r) -> logs_exactly h rec ev -> logs_exactly h' rec ev.
Proof.
  unfold logs_exactly. intros Hf. destruct (ev_type ev) eqn:Et; [|done]. intros (r & Hr & Hl & ->). exists r.
  assert (h' !! r = h !! r) as Hh. { apply Hf. unfold event_refs. simpl. rewrite Et, Hr. inlist. }
  split_and!; [done|by rewrite Hh|]. unfold deref. by rewrite Hh.
Qed.

(** ** Types *)

Lemma lor_bound a b : inU 64 a -> inU 64 b -> inU 64 (Z.lor a b).
Proof.
  unfold inU. intros Ha Hb. split; [apply Z.lor_nonneg; lia|].
  assert (0 <= Z.lor a b) as H0 by (apply Z.lor_nonneg; lia).
  destruct (Z.eq_dec (Z.lor a b) 0) as [->|]; [done|]. apply Z.log2_lt_pow2; [lia|]. rewrite Z.log2_lor by lia.
  assert (forall x, 0 <= x < 2 ^ 64 -> Z.log2 x < 64) as Hl.
  { intros x Hx. destruct (Z.eq_dec x 0) as [->|]; [done|]. apply Z.log2_lt_pow2; lia. }
  pose proof (Hl a Ha). pose proof (Hl b Hb). lia.
Qed.

(** An id is a 64-bit integer whatever the clock says. *)
Lemma generate_typed now seq : inU 64 (generate now seq).1.
Proof.
  unfold generate, fetch_add. cbn [fst]. apply lor_bound; [apply lor_bound; apply wrapU_range; lia|].
  change MAX_SEQUENCE with (Z.ones 12). rewrite Z.land_ones by lia.
  pose proof (Z.mod_pos_bound seq (2 ^ 12)). unfold inU. lia.
Qed.

Definition heap_typed (h : heap) : Prop := forall r o, h !! r = Some o -> order_typed (set_quantity o 0).

(** The C++ types of a request. *)
Definition action_typed {D} (a : action D) : Prop :=
  match a with
  | AFreeze uid ticker _ pr _ => inU 64 uid /\ inU 32 ticker /\ inU 64 pr
  | ACancel ticker oid uid => inU 32 ticker /\ inU 64 oid /\ inU 64 uid
  | _ => True
  end.

(** An event in the hands of the WAL worker: a live order or a typed cancellation. *)
Definition event_live (h : heap) (ev : EngineEvent) : Prop :=
  match ev_type ev with
  | NEW_ORDER => exists r, ev_order ev = Some r /\ is_Some (h !! r)
  | CANCEL_ORDER => inU 64 (cancel_order_id ev) /\ inU 32 (ev_ticker_id ev) /\ inU 64 (cancel_user_id ev)
  end.

Lemma event_live_ext h h' ev : heap_ext h h' -> event_live h ev -> event_live h' ev.
Proof.
  unfold event_live. intros Hx. destruct (ev_type ev); [|done]. intros (r & Hr & Hl). exists r.
  split; [done|]. by apply Hx.
Qed.

Lemma event_live_typed h ev :
  heap_typed h -> (forall r, r ∈ event_refs [ev] -> inU 64 (quantity (deref h r))) -> event_live h ev -> event_typed h ev.
Proof.
  unfold event_live, event_typed, event_refs. intros Hh Hq. simpl in Hq. destruct (ev_type ev); [|done].
  intros (r & Hr & [o Ho]). rewrite Hr in Hq. exists r. split; [done|].
  specialize (Hq r ltac:(inlist)). pose proof (Hh r o Ho) as Ht. rewrite (deref_lookup _ _ _ Ho) in *.
  destruct Ht as (H1 & H2 & H3 & H4 & _ & H5). by split_and!.
Qed.

Lemma wal_record_exact clock h t ev : event_live h ev -> logs_exactly h (wal_record clock h t ev).1 ev.
Proof.
  unfold event_live, logs_exactly, wal_record. destruct (ev_type ev).
  - intros (r & Hr & Hl). exists r. by rewrite Hr.
  - intros _. by eexists.
Qed.

Lemma wal_records_exact clock h t evs :
  Forall (event_live h) evs -> Forall2 (logs_exactly h) (wal_records clock h t evs).1 evs.
Proof.
  intros He. revert t. induction He as [|ev evs Hev _ IH]; intros t; simpl; [constructor|].
  pose proof (wal_record_exact clock h t ev Hev) as Hr. destruct (wal_record clock h t ev) as [rec t1].
  specialize (IH t1). destruct (wal_records clock h t1 evs) as [recs t2]. by constructor.
Qed.

Lemma decode_records_fuel recs n :
  Forall packed_ok recs -> (length recs <= n)%nat -> decode_records n (encode_records recs) = recs.
Proof.
  intros Hr Hn. rewrite <- (decode_encode_records recs Hr) at 2. clear -Hr Hn.
  revert n Hn. induction Hr as [|r recs Hok Hr IH]; intros n Hn; [by destruct n|].
  destruct n as [|n]; simpl in Hn; [lia|]. cbn [length].
  pose proof (length_to_bytes r Hok) as Hl. rewrite wal_record_size in Hl.
  unfold encode_records in *. rewrite fmap_cons. cbn [concat].
  assert (to_bytes r ++ concat (to_bytes <$> recs) <> []) as Hne.
  { intros E. apply (f_equal length) in E. rewrite length_app in E. cbn [length] in E. lia. }
  rewrite !decode_records_step by done. f_equal.
  rewrite drop_app_ge by lia. replace (46 - length (to_bytes r))%nat with 0%nat by lia. apply IH. lia.
Qed.

Lemma length_encode_records recs : Forall packed_ok recs -> length (encode_records recs) = (46 * length recs)%nat.
Proof.
  unfold encode_records. induction 1 as [|r recs Hok _ IH]; [done|]. rewrite fmap_cons. cbn [concat length].
  pose proof (length_to_bytes r Hok) as Hl. rewrite wal_record_size in Hl. rewrite length_app, IH. lia.
Qed.

(** ** The invariant *)

Section Wal.
Context {S D : Type} `{AL : AccountStoreLaws S} `{UR : IUserRepository D} `{SR : IStockRepository D}.
Context (clock : nat -> Z).
Implicit Types (w : World S D).

(** The events an action hands to the engine. *)
Definition forwarded_by (a : action D) w : list EngineEvent :=
  match a with AForward => take 1 (wal_buffer (w_wal w)) | _ => [] end.

(** A run that records what it forwarded. *)
Inductive traced w0 : list EngineEvent -> World S D -> Prop :=
| traced_init : traced w0 [] w0
| traced_step fwd w a w' :
    traced w0 fwd w -> admissible clock a w -> action_typed a -> exec clock a w = Some w' ->
    traced w0 (fwd ++ forwarded_by a w) w'.

Fixpoint trace_checked (l : list (action D)) (fwd : list EngineEvent) w : option (list EngineEvent * World S D) :=
  match l with
  | [] => Some (fwd, w)
  | a :: l' => if decide (admissible clock a w) then
                 match exec clock a w with Some w' => trace_checked l' (fwd ++ forwarded_by a w) w' | None => None end
               else None
  end.

Lemma trace_checked_traced l w0 fwd w fwd' w' :
  traced w0 fwd w -> Forall action_typed l -> trace_checked l fwd w = Some (fwd', w') -> traced w0 fwd' w'.
Proof.
  intros Ht Hl. revert fwd w Ht. induction Hl as [|a l Ha _ IH]; intros fwd w Ht; simpl; [by intros [= <- <-]|].
  destruct (decide _) as [Had|]; [|done]. destruct (exec clock a w) as [w1|] eqn:E; [|done].
  apply IH. by econstructor.
Qed.

Definition wal_events w : list EngineEvent := wal_queue (w_wal w) ++ wal_buffer (w_wal w).

(** The stream opened at startup, and the stream now. *)
Definition log_state (start now : option FILE) (recs : list WALRecord) : Prop :=
  match start, now with
  | Some f0, Some f => stream_grew f0 f (encode_records recs)
  | None, None => True
  | _, _ => False
  end.

Lemma append_log_state start now recs more :
  log_state start now recs -> log_state start (append_log more now) (recs ++ more).
Proof.
  destruct start, now; simpl; try done. intros H'. destruct more; [by rewrite app_nil_r|].
  rewrite encode_records_app. by apply fwrite_grows.
Qed.

Section Started.
Context (start : option FILE).

Record wal_inv w (done_ todo : list WALRecord) (fwd : list EngineEvent) : Prop := {
  wi_wf : wf w;
  wi_file : log_state start (wal_file_ (w_wal w)) (done_ ++ todo);
  wi_packed : Forall packed_ok (done_ ++ todo);
  wi_done : Forall2 (logs (w_heap w)) done_ fwd;
  wi_todo : Forall2 (logs_exactly (w_heap w)) todo (wal_buffer (w_wal w));
  wi_live : Forall (event_live (w_heap w)) (wal_events w);
  wi_heap : heap_typed (w_heap w)
}.

Lemma wal_refs w r : r ∈ event_refs (wal_events w) -> r ∈ all_refs w.
Proof. unfold wal_events. rewrite event_refs_app. unfold all_refs. intros [Hr|Hr]%elem_of_app; inlist. Qed.

Lemma elem_event_refs r ev evs : ev ∈ evs -> r ∈ event_refs [ev] -> r ∈ event_refs evs.
Proof. intros (l1 & l2 & ->)%list_elem_of_split Hr. change (ev :: l2) with ([ev] ++ l2). rewrite !event_refs_app. inlist. Qed.

(** What an action can do to the orders. *)
Record heap_step w w' : Prop := {
  hs_ext : heap_ext (w_heap w) (w_heap w');
  hs_wal r : r ∈ event_refs (wal_events w) -> w_heap w' !! r = w_heap w !! r;
  hs_typed : heap_typed (w_heap w) -> heap_typed (w_heap w')
}.

Lemma heap_step_same w w' : w_heap w' = w_heap w -> heap_step w w'.
Proof. intros E. split; by rewrite E. Qed.

Lemma heap_step_freeze w uid ticker sd pr amount :
  wf w -> inU 64 uid -> inU 32 ticker -> inU 64 pr ->
  heap_step w (trade_freeze clock w uid ticker sd pr amount).2.
Proof.
  intros Hw Hu Ht Hp. unfold trade_freeze, make_order.
  pose proof (generate_typed (now_ms (clock (w_ticks w))) (w_seq w)) as Hid.
  destruct (generate _ _) as [id seq]. simpl in Hid.
  set (o := mkOrder _ _ _ _ _ _ _). destruct (freeze_for _ o) as [u ok].
  destruct ok; [|by apply heap_step_same]. cbn [w_heap set_users set_sequence].
  destruct (make_shared (w_heap w) o) as [r h] eqn:Em. cbn [snd w_heap set_flight set_heap].
  assert (forall r', is_Some (w_heap w !! r') -> h !! r' = w_heap w !! r') as Hf by (intros; by eapply make_shared_frame).
  split; cbn [w_heap set_flight set_heap].
  - by apply frame_heap_ext.
  - intros r' Hr'. apply Hf. destruct Hw as [Hr _]. by apply (ro_live _ _ Hr), wal_refs.
  - intros Hh r' o'. unfold make_shared in Em. injection Em as <- <-. rewrite lookup_insert_Some.
    intros [[_ <-]|[_ Ho']]; [|by eapply Hh]. unfold order_typed. simpl.
    split_and!; try done. apply wrapU_range. lia.
Qed.

Lemma heap_step_static w w' :
  static_eq (w_heap w) (w_heap w') -> (forall r, r ∈ event_refs (wal_events w) -> w_heap w' !! r = w_heap w !! r) ->
  heap_step w w'.
Proof.
  intros Hs Hf. split; [by apply static_heap_ext|done|]. intros Hh r o Ho.
  assert (is_Some (w_heap w !! r)) as [o0 Ho0] by (apply (static_live _ _ r Hs); eauto).
  destruct Hs as [_ He]. specialize (He r). rewrite (deref_lookup _ _ _ Ho), (deref_lookup _ _ _ Ho0) in He.
  rewrite He. by eapply Hh.
Qed.

Lemma heap_step_event w k w' : wf w -> exec_event clock w k = Some w' -> heap_step w w'.
Proof.
  intros Hw. unfold exec_event. destruct (w_engine w !! k) as [[t b q [|ev evs] res]|] eqn:Hk; try done.
  unfold process_event. destruct (ev_type ev) eqn:Et.
  - destruct (ev_order ev) as [r|] eqn:Er; [|intros [= <-]; by apply heap_step_same].
    cbn [p_book p_results p_ticker_id p_queue p_buffer].
    destruct (processOrder clock b r (w_heap w) res (w_ticks w)) as [[[b' h'] res'] t'] eqn:E. intros [= <-].
    destruct (new_order_facts clock w k t b q evs res r Hw ev Et Er Hk _ _ _ _ E) as (f & P & _ & _ & Hf & _).
    apply heap_step_static; [exact (pp_static _ _ _ _ _ _ _ _ _ _ _ P)|].
    intros x Hx. cbn [w_heap set_settle set_heap]. apply Hf. unfold others.
    unfold wal_events in Hx. rewrite event_refs_app in Hx. apply elem_of_app in Hx as [Hx|Hx]; inlist.
  - destruct (cancelOrder _ _ _ _) as [[c|] b']; intros [= <-]; by apply heap_step_same.
Qed.

Lemma exec_heap w a w' : wf w -> action_typed a -> exec clock a w = Some w' -> heap_step w w'.
Proof.
  intros Hw Ha. destruct a; simpl; try (by intros [= <-]; apply heap_step_same).
  - intros [= <-]. destruct Ha as (? & ? & ?). by apply heap_step_freeze.
  - destruct (decide _); [|done]. intros [= <-]. by apply heap_step_same.
  - unfold exec_log. destruct (wal_buffer _); [|done]. destruct (dequeue _ _) as [[]|]; [|done].
    destruct (wal_log _ _ _ _ _). intros [= <-]. by apply heap_step_same.
  - unfold exec_forward. destruct (wal_buffer _) as [|ev ?]; [done|]. intros [= <-]. unfold forward_event.
    apply heap_step_same. destruct (ev_type ev), (ev_order ev); try done. by destruct (fst _).
  - unfold exec_take. destruct (w_engine w !! _) as [[t b q [|] [|]]|]; try done.
    destruct (dequeue _ _) as [[]|]; [|done]. intros [= <-]. by apply heap_step_same.
  - by apply heap_step_event.
  - unfold exec_flush. destruct (w_engine w !! _) as [[t b q [|] res]|]; try done. intros [= <-]. by apply heap_step_same.
  - unfold exec_settle_buy. destruct (w_half w); [done|]. destruct (_ !! _); [|done]. intros [= <-]. by apply heap_step_same.
  - unfold exec_settle_sell. destruct (w_half w); [|done]. intros [= <-]. by apply heap_step_same.
  - unfold exec_settle_cancel. destruct (w_half w); [done|]. destruct (_ !! _); [|done]. intros [= <-]. by apply heap_step_same.
Qed.

(** Moving the invariant along a change of the orders that leaves the log alone. *)
Lemma wal_inv_move w w' d t fwd :
  wal_inv w d t fwd -> wf w' -> heap_step w w' ->
  wal_buffer (w_wal w') = wal_buffer (w_wal w) -> wal_file_ (w_wal w') = wal_file_ (w_wal w) ->
  (forall ev, ev ∈ wal_queue (w_wal w') -> ev ∈ wal_queue (w_wal w) \/ event_live (w_heap w') ev) ->
  wal_inv w' d t fwd.
Proof.
  intros [I1 I2 I3 I4 I5 I6 I7] Hw [H1 H2 H3] Hb Hf Hq. split.
  - done.
  - by rewrite Hf.
  - done.
  - eapply Forall2_impl; [exact I4|]. intros. by eapply logs_ext.
  - rewrite Hb. apply Forall2_same_length_lookup in I5 as [Hl I5]. apply Forall2_same_length_lookup. split; [done|].
    intros i rec ev Hi He. eapply logs_exactly_frame; [|by eapply I5]. intros r Hr. apply H2.
    eapply elem_event_refs; [|exact Hr]. unfold wal_events. apply list_elem_of_lookup_2 in He. inlist.
  - rewrite Forall_forall in *. intros ev [Hev|Hev]%elem_of_app.
    + apply Hq in Hev as [Hev|]; [|done]. eapply event_live_ext; [done|]. apply I6. unfold wal_events. inlist.
    + rewrite Hb in Hev. eapply event_live_ext; [done|]. apply I6. unfold wal_events. inlist.
  - by apply H3.
Qed.

Lemma wal_inv_log w w' ks d t fwd :
  wal_inv w d t fwd -> wf w' -> exec_log clock w ks = Some w' -> exists t', wal_inv w' d t' fwd.
Proof.
  intros I Hw. unfold exec_log. destruct (wal_buffer (w_wal w)) as [|? ?] eqn:Eb; [|done].
  destruct (dequeue ks _) as [[batch rest]|] eqn:Ed; [|done]. apply dequeue_perm in Ed.
  unfold wal_log. destruct (wal_records clock (w_heap w) (w_ticks w) batch) as [recs t1] eqn:Er. intros [= <-].
  destruct I as [I1 I2 I3 I4 I5 I6 I7]. rewrite Eb in I5. apply Forall2_nil_inv_r in I5 as ->. rewrite app_nil_r in *.
  assert (Forall (event_live (w_heap w)) batch) as Hb.
  { unfold wal_events in I6. rewrite Ed, !Forall_app in I6. apply I6. }
  assert (Forall (event_typed (w_heap w)) batch) as Ht.
  { rewrite Forall_forall in *. intros ev Hev. apply event_live_typed; [done| |by apply Hb].
    intros r Hr. destruct I1 as [Hr' _]. apply (ro_live _ _ Hr'). apply wal_refs. unfold wal_events.
    eapply elem_event_refs; [|exact Hr]. rewrite Ed. inlist. }
  exists recs. split; cbn [w_heap w_wal set_heap set_wal wal_file_ wal_buffer wal_queue].
  - done.
  - by apply append_log_state.
  - apply Forall_app. split; [done|]. pose proof (wal_records_ok clock _ (w_ticks w) batch Ht) as H'. by rewrite Er in H'.
  - done.
  - pose proof (wal_records_exact clock _ (w_ticks w) batch Hb) as H'. by rewrite Er in H'.
  - unfold wal_events in *. simpl. rewrite Ed, !Forall_app in I6. apply Forall_app. tauto.
  - done.
Qed.

Lemma wal_inv_forward w w' d t fwd :
  wal_inv w d t fwd -> wf w' -> exec_forward w = Some w' ->
  exists d' t', wal_inv w' d' t' (fwd ++ take 1 (wal_buffer (w_wal w))).
Proof.
  intros I Hw. unfold exec_forward. destruct (wal_buffer (w_wal w)) as [|ev evs] eqn:Eb; [done|]. intros [= E].
  destruct I as [I1 I2 I3 I4 I5 I6 I7]. rewrite Eb in I5.
  apply Forall2_cons_inv_r in I5 as (rec & t' & Hrec & Ht' & ->).
  assert (w_heap w' = w_heap w /\ w_wal w' = mkWM (wal_queue (w_wal w)) evs (wal_file_ (w_wal w))) as [Eh Ew].
  { subst w'. unfold forward_event. destruct (ev_type ev), (ev_order ev); try done. by destruct (fst _). }
  exists (d ++ [rec]), t'. split; rewrite ?Eh, ?Ew; cbn [wal_file_ wal_buffer take].
  - done.
  - by rewrite <- app_assoc.
  - by rewrite <- app_assoc.
  - apply Forall2_app; [done|]. constructor; [|constructor]. by apply logs_exactly_logs.
  - done.
  - unfold wal_events in *. rewrite Ew. simpl. rewrite Eb, Forall_app, Forall_cons in I6. apply Forall_app. tauto.
  - done.
Qed.

Lemma wal_inv_step w a w' d t fwd :
  wal_inv w d t fwd -> admissible clock a w -> action_typed a -> exec clock a w = Some w' ->
  exists d' t', wal_inv w' d' t' (fwd ++ forwarded_by a w).
Proof.
  intros I Had Hty E. pose proof (wi_wf _ _ _ _ I) as Hw.
  pose proof (exec_wf clock w a w' Hw Had E) as Hw'. pose proof (exec_heap w a w' Hw Hty E) as Hs.
  assert ((forall ev, ev ∈ wal_queue (w_wal w') -> ev ∈ wal_queue (w_wal w) \/ event_live (w_heap w') ev) ->
    wal_buffer (w_wal w') = wal_buffer (w_wal w) -> wal_file_ (w_wal w') = wal_file_ (w_wal w) ->
    exists d' t', wal_inv w' d' t' (fwd ++ [])) as Hmove.
  { intros. rewrite app_nil_r. exists d, t. by eapply wal_inv_move. }
  assert (w_wal w' = w_wal w -> exists d' t', wal_inv w' d' t' (fwd ++ [])) as Hsame.
  { intros Ew. apply Hmove; rewrite Ew; auto. }
  destruct a; cbn [forwarded_by]; cbn [exec] in E.
  - injection E as <-. apply Hsame. unfold trade_freeze, make_order.
    by destruct (generate _ _), (freeze_for _ _) as [? []].
  - destruct (decide _) as [Hr|]; [|done]. injection E as <-. apply Hmove; [|done|done].
    simpl. intros ev [Hev|Hev]%elem_of_app; [by left|]. right. apply list_elem_of_singleton in Hev as ->.
    exists r. split; [done|]. destruct Hw as [Hr' _]. apply (ro_live _ _ Hr'). unfold all_refs. inlist.
  - injection E as <-. apply Hmove; [|done|done].
    simpl. intros ev [Hev|Hev]%elem_of_app; [by left|]. right. apply list_elem_of_singleton in Hev as ->.
    destruct Hty as (? & ? & ?). by split_and!.
  - injection E as <-. by apply Hsame.
  - injection E as <-. by apply Hsame.
  - injection E as <-. by apply Hsame.
  - injection E as <-. by apply Hsame.
  - rewrite app_nil_r. exists d. by eapply wal_inv_log.
  - by eapply wal_inv_forward.
  - apply Hsame. revert E. unfold exec_take. destruct (w_engine w !! _) as [[tt b q [|] [|]]|]; try done.
    destruct (dequeue _ _) as [[]|]; [|done]. by intros [= <-].
  - apply Hsame. revert E. unfold exec_event. destruct (w_engine w !! _) as [[tt b q [|] res]|]; try done.
    destruct (process_event _ _ _ _ _) as [[[]]]. by intros [= <-].
  - apply Hsame. revert E. unfold exec_flush. destruct (w_engine w !! _) as [[tt b q [|] res]|]; try done. by intros [= <-].
  - apply Hsame. revert E. unfold exec_settle_buy. destruct (w_half w); [done|]. destruct (_ !! _); [|done]. by intros [= <-].
  - apply Hsame. revert E. unfold exec_settle_sell. destruct (w_half w); [|done]. by intros [= <-].
  - apply Hsame. revert E. unfold exec_settle_cancel. destruct (w_half w); [done|]. destruct (_ !! _); [|done]. by intros [= <-].
Qed.

Lemma wal_inv_traced w0 d t fwd w :
  wal_inv w0 d t [] -> traced w0 fwd w -> exists d' t', wal_inv w d' t' fwd.
Proof.
  intros H0. induction 1 as [|fwd w a w' _ (d' & t' & IH) Ha Hty E]; [eauto|]. by eapply wal_inv_step.
Qed.

End Started.

Lemma start_wal_inv tickers (u0 : S) (d0 : D) ids file :
  wal_inv file (start_world tickers u0 d0 (init_all ids) file) [] [] [].
Proof.
  assert (fresh_engine (init_all ids)) as He by apply init_all_fresh. split; simpl; try done; try constructor.
  - by apply (start_wf tickers u0 d0 (init_all ids) file).
  - by apply (start_wf tickers u0 d0 (init_all ids) file).
  - destruct file; [apply stream_grew_refl|done].
Qed.

(** C10: write-ahead order.  In every run of the server, whatever the interleaving of the
    threads, whatever the log file held at startup and however the C library buffers: the
    records passed to [fwrite] are, in order, first those of the events the engine has received
    and then exactly those of the events about to be forwarded, so no event reaches the engine
    before its record was passed to [fwrite], and every record has the id, ticker, user, side,
    price and timestamp of its order (and, until the order is forwarded, its quantity).  If the
    file could be opened, the old contents stay, what is in the file after them is a prefix of
    those records' bytes and decodes to the first of the records, and closing the stream
    completes it.  A library that keeps everything buffered leaves the file as it was; if the
    file could not be opened nothing is ever logged. *)
Theorem wal_write_ahead tickers (u0 : S) (d0 : D) ids (opened : option (bytes * (nat -> nat))) fwd w :
  traced (start_world tickers u0 d0 (init_all ids) ((fun o => fopen o.1 o.2) <$> opened)) fwd w ->
  exists received waiting,
    Forall2 (logs (w_heap w)) received fwd /\
    Forall2 (logs_exactly (w_heap w)) waiting (wal_buffer (w_wal w)) /\
    match opened, wal_file_ (w_wal w) with
    | Some (contents, spill), Some f =>
        (exists on_disk, f_disk f = contents ++ on_disk /\
          decode_records (length on_disk / 46) on_disk = take (length on_disk / 46) (received ++ waiting)) /\
        (exists log, fclose f = contents ++ log /\ length log = (46 * (length received + length waiting))%nat /\
          decode_records (length log) log = received ++ waiting) /\
        ((forall n, spill n = 0%nat) -> f_disk f = contents)
    | None, file => file = None
    | Some _, None => False
    end.
Proof.
  intros Ht. destruct (wal_inv_traced _ _ [] [] fwd w (start_wal_inv tickers u0 d0 ids _) Ht) as (d & t & I).
  destruct I as [I1 I2 I3 I4 I5 I6 I7]. exists d, t. split_and!; [done|done|].
  destruct opened as [[contents spill]|]; simpl in I2; destruct (wal_file_ (w_wal w)) as [f|]; try done.
  destruct I2 as [G1 (l & G2) G3 G4]. unfold fclose in G1. simpl in *. rewrite app_nil_r in G1.
  pose proof (length_encode_records _ I3) as Hl. rewrite length_app in Hl. split_and!.
  - exists l. split; [done|]. rewrite G2, <- app_assoc in G1. apply app_inv_head in G1. by eapply decode_records_prefix.
  - exists (encode_records (d ++ t)). split_and!; [done|done|]. apply decode_records_fuel; [done|]. rewrite length_app. lia.
  - done.
Qed.
End Wal.

Import TableDB.

Lemma wal_write_ahead_witness :
  exists fwd w, trace_checked SampleRun.clk SampleRun.acts [] SampleRun.w0 = Some (fwd, w) /\ length fwd = 2%nat /\
    exists f received log, wal_file_ (w_wal w) = Some f /\ fclose f = log /\ decode_records (length log) log = received /\
      Forall2 (logs (w_heap w)) received fwd /\ length log = 92%nat.
Proof.
  destruct (trace_checked SampleRun.clk SampleRun.acts [] SampleRun.w0) as [[fwd w]|] eqn:E; [|vm_compute in E; discriminate E].
  exists fwd, w. split; [reflexivity|].
  assert (length fwd = 2%nat /\ wal_buffer (w_wal w) = []) as [Hf Hb].
  { vm_compute in E. injection E as <- <-. split; reflexivity. }
  split; [exact Hf|].
  destruct (wal_write_ahead SampleRun.clk SampleRun.tickers SampleRun.users empty_db [7] (Some ([], fun _ => 46%nat)) fwd w) as
    (received & waiting & F1 & F2 & F3).
  - eapply trace_checked_traced; [apply traced_init| |exact E].
    repeat constructor; vm_compute; intuition discriminate.
  - rewrite Hb in F2. apply Forall2_nil_inv_r in F2 as ->.
    destruct (wal_file_ (w_wal w)) as [f|]; [|destruct F3]. destruct F3 as (_ & (log & G1 & G2 & G3) & _).
    rewrite app_nil_r in G3. exists f, received, log. split; [reflexivity|]. split; [exact G1|]. split; [exact G3|].
    split; [exact F1|]. apply Forall2_length in F1. rewrite G2, F1, Hf. reflexivity.
Defined.

(** The log is not on disk before the orders are executed: with a library whose buffer is
    larger than the two records, both orders of the sample run are matched and their trade is
    with the settlement worker while the file is still empty. *)
Lemma executed_before_logged :
  exists w, run_checked SampleRun.clk SampleRun.acts
      (start_world SampleRun.tickers SampleRun.users empty_db (init_all [7]) (Some (fopen [] (fun _ => 0%nat)))) = Some w /\
    length (sq_matches (w_settle w)) = 1%nat /\
    exists f, wal_file_ (w_wal w) = Some f /\ f_disk f = [] /\ length (f_buffer f) = 92%nat.
Proof.
  destruct (run_checked _ _ _) as [w|] eqn:E; [|vm_compute in E; discriminate E]. exists w. split; [reflexivity|].
  vm_compute in E. injection E as <-. split; [reflexivity|]. eexists. split; [reflexivity|]. split; reflexivity.
Qed.
