(* ===== verification/SettlementTheorems.v ===== *)
(** * Theorems about settlement

    What settling one match record does to the accounts of its buyer and seller, and that
    the in-memory accounts and the database stay in step when the database accepts the
    updates; and what happens when it does not. *)

From S2P Require Import Prelude Bytes Common TickerManager Accounts UserManager Repositories SettlementProcessor.
From S2P Require Import Accounting SystemTheorems.
From stdpp Require Import base strings list gmap.
From Stdlib Require Import ZArith Lia.
Local Open Scope Z_scope.

(** A record the matching engine can produce, small enough for the 64- and 32-bit sums. *)
Record fair (rec : MatchRecord) : Prop := {
  fair_price : 0 <= match_price rec <= buyer_expected_price rec;
  fair_quantity : 0 <= match_quantity rec < 2 ^ 30;
  fair_cost : buyer_expected_price rec * match_quantity rec < 2 ^ 61
}.

(** An account with room for one more trade. *)
Record roomy (a : UserAccount) : Prop := {
  ry_available : - 2 ^ 61 <= available_balance a < 2 ^ 61;
  ry_frozen : - 2 ^ 61 <= frozen_balance a < 2 ^ 61;
  ry_stock t : - 2 ^ 30 <= stock (available_stock a) t < 2 ^ 30;
  ry_frozen_stock t : - 2 ^ 30 <= stock (frozen_stock a) t < 2 ^ 30
}.

Definition paid (rec : MatchRecord) : Z := match_price rec * match_quantity rec.
Definition reserved (rec : MatchRecord) : Z := buyer_expected_price rec * match_quantity rec.
Definition if_buyer (rec : MatchRecord) (uid z : Z) : Z := if buyer_user_id rec =? uid then z else 0.
Definition if_seller (rec : MatchRecord) (uid z : Z) : Z := if sell_user_id rec =? uid then z else 0.
Definition if_ticker (rec : MatchRecord) (t z : Z) : Z := if mr_ticker_id rec =? t then z else 0.

Lemma fair_bounds rec : fair rec -> 0 <= paid rec <= reserved rec /\ reserved rec < 2 ^ 61.
Proof. intros [H1 H2 H3]. unfold paid, reserved. nia. Qed.

Lemma sell_money_exact rec : fair rec -> sell_money rec = paid rec.
Proof.
  intros Hf. pose proof (fair_bounds rec Hf). unfold sell_money, paid in *.
  rewrite wrapS_wrapU. apply wrapS_id; [lia|]. unfold inS. lia.
Qed.

Lemma refund_money_exact rec : fair rec -> refund_money rec = reserved rec - paid rec.
Proof.
  intros Hf. pose proof (fair_bounds rec Hf). unfold refund_money, paid, reserved in *.
  rewrite wrapU_mul, wrapS_wrapU. rewrite wrapS_id; [lia|lia|]. unfold inS. lia.
Qed.

Lemma quantity_exact rec : fair rec -> i32 (match_quantity rec) = match_quantity rec.
Proof. intros [_ H _]. apply wrapS_id; [lia|]. unfold inS. lia. Qed.

Lemma commit_buy_fair rec a :
  fair rec -> roomy a ->
  exists a', commit_buy (mr_ticker_id rec) (sell_money rec) (i32 (match_quantity rec)) (refund_money rec) a = a' /\
    available_balance a' = available_balance a + (reserved rec - paid rec) /\
    frozen_balance a' = frozen_balance a - reserved rec /\
    (forall t, stock (available_stock a') t = stock (available_stock a) t + if_ticker rec t (match_quantity rec)) /\
    frozen_stock a' = frozen_stock a.
Proof.
  intros Hf [R1 R2 R3 R4]. eexists. split; [reflexivity|].
  rewrite sell_money_exact, refund_money_exact, quantity_exact by done.
  pose proof (fair_bounds rec Hf). pose proof (fair_quantity rec Hf). unfold commit_buy. simpl. split_and!; [| | |done].
  - apply wrapS_id; [lia|]. unfold inS. lia.
  - rewrite wrapS_opp. rewrite wrapS_id; [lia|lia|]. unfold inS. lia.
  - intros t. rewrite stock_add_spec. unfold if_ticker. specialize (R3 t).
    destruct (decide (t = _)) as [->|]; [rewrite Z.eqb_refl|rewrite (proj2 (Z.eqb_neq _ _)) by done; lia].
    apply wrapS_id; [lia|]. unfold inS. lia.
Qed.

Lemma commit_sell_fair rec a :
  fair rec ->
  (inS 64 (available_balance a + paid rec)) ->
  (forall t, - 2 ^ 30 <= stock (frozen_stock a) t < 2 ^ 30) ->
  exists a', commit_sell (mr_ticker_id rec) (sell_money rec) (i32 (match_quantity rec)) a = a' /\
    available_balance a' = available_balance a + paid rec /\
    frozen_balance a' = frozen_balance a /\
    available_stock a' = available_stock a /\
    (forall t, stock (frozen_stock a') t = stock (frozen_stock a) t - if_ticker rec t (match_quantity rec)).
Proof.
  intros Hf R1 R2. eexists. split; [reflexivity|].
  rewrite sell_money_exact, quantity_exact by done. pose proof (fair_quantity rec Hf). unfold commit_sell. simpl.
  split_and!; [by apply wrapS_id|done|done|].
  intros t. rewrite stock_add_spec. unfold if_ticker. specialize (R2 t).
  destruct (decide (t = _)) as [->|]; [rewrite Z.eqb_refl|rewrite (proj2 (Z.eqb_neq _ _)) by done; lia].
  apply wrapS_id; [lia|]. unfold inS. lia.
Qed.

Section Theorems.
Context {S D : Type} `{AL : AccountStoreLaws S} `{UL : UserRepositoryLaws D} `{!IStockRepository D} `{!StockRepositoryLaws D}.
Implicit Types (u : S) (d : D) (t : TickerManager) (rec : MatchRecord).

(** The account of [uid] after the settlement of [rec]. *)
Definition settled_account rec uid (a a' : UserAccount) : Prop :=
  acc_username a' = acc_username a /\
  available_balance a' = available_balance a + if_buyer rec uid (reserved rec - paid rec) + if_seller rec uid (paid rec) /\
  frozen_balance a' = frozen_balance a - if_buyer rec uid (reserved rec) /\
  (forall k, stock (available_stock a') k =
     stock (available_stock a) k + if_buyer rec uid (if_ticker rec k (match_quantity rec))) /\
  (forall k, stock (frozen_stock a') k =
     stock (frozen_stock a) k - if_seller rec uid (if_ticker rec k (match_quantity rec))).

Lemma settle_accounts u rec uid a :
  store_ok u -> fair rec -> roomy a -> acct u uid = Some a ->
  exists a', acct (settle_sell (settle_buy u rec) rec) uid = Some a' /\ settled_account rec uid a a'.
Proof.
  intros Hu Hf Ha Hacc. rewrite settle_sell_acct by eauto with exch. rewrite settle_buy_acct by done. rewrite Hacc.
  pose proof (fair_bounds rec Hf). unfold settled_account, if_buyer, if_seller.
  destruct (commit_buy_fair rec a Hf Ha) as (b & Eb & B1 & B2 & B3 & B4). pose proof (ry_available a Ha).
  assert (acc_username b = acc_username a) as Hn by (by rewrite <- Eb).
  destruct (decide (uid = buyer_user_id rec)) as [->|Hb];
    [rewrite Z.eqb_refl|rewrite (proj2 (Z.eqb_neq (buyer_user_id rec) uid)) by done];
    (destruct (decide (_ = sell_user_id rec)) as [Es|Hs];
      [rewrite Es, Z.eqb_refl|rewrite (proj2 (Z.eqb_neq (sell_user_id rec) _)) by done]); simpl.
  - rewrite Eb. destruct (commit_sell_fair rec b Hf) as (c & Ec & C1 & C2 & C3 & C4);
      [unfold inS; lia|rewrite B4; apply Ha|].
    exists c. rewrite Ec. split; [done|]. split_and!; [by rewrite <- Ec|lia|lia| |].
    + intros k. by rewrite C3, B3.
    + intros k. by rewrite C4, B4.
  - rewrite Eb. exists b. split; [done|]. split_and!; [done|lia|lia|done|intros k; rewrite B4; lia].
  - destruct (commit_sell_fair rec a Hf) as (c & Ec & C1 & C2 & C3 & C4); [unfold inS; lia|apply Ha|].
    exists c. rewrite Ec. split; [done|]. split_and!; [by rewrite <- Ec|lia|lia| |].
    + intros k. rewrite C3. lia.
    + intros k. by rewrite C4.
  - exists a. split; [done|]. split_and!; [done|lia|lia|intros; lia|intros; lia].
Qed.

(** C8: settling a trade moves exactly its money and its shares.  The buyer's frozen balance
    falls by what was reserved at the limit price, the difference to the execution price
    comes back to the available balance, the seller is paid the execution price; the shares
    move from the seller's frozen to the buyer's available stock; no other account changes.
    So money and shares are neither created nor destroyed, also when buyer and seller are the
    same user. *)
Theorem settlement_conserves u d t rec b s
  (Hu : store_ok u) (Hf : fair rec) (Hb : acct u (buyer_user_id rec) = Some b) (Hs : acct u (sell_user_id rec) = Some s)
  (Rb : roomy b) (Rs : roomy s) :
  let u' := (settle_match t (u, d) rec).1 in
  store_ok u' /\
  (forall uid, uid <> buyer_user_id rec -> uid <> sell_user_id rec -> acct u' uid = acct u uid) /\
  exists b' s', acct u' (buyer_user_id rec) = Some b' /\ acct u' (sell_user_id rec) = Some s' /\
    settled_account rec (buyer_user_id rec) b b' /\ settled_account rec (sell_user_id rec) s s' /\
    let money a := available_balance a + frozen_balance a in
    let shares k a := stock (available_stock a) k + stock (frozen_stock a) k in
    let total (f : UserAccount -> Z) x y := if buyer_user_id rec =? sell_user_id rec then f x else f x + f y in
    total money b' s' = total money b s /\ forall k, total (shares k) b' s' = total (shares k) b s.
Proof.
  simpl. split; [by eauto with exch|]. split.
  { intros uid ? ?. rewrite settle_sell_acct, settle_buy_acct by eauto with exch. by rewrite !decide_False. }
  destruct (settle_accounts u rec _ b Hu Hf Rb Hb) as (b' & Hb' & Sb).
  destruct (settle_accounts u rec _ s Hu Hf Rs Hs) as (s' & Hs' & Ss).
  exists b', s'. split_and!; [done..| |].
  - destruct Sb as (_ & B1 & B2 & _), Ss as (_ & S1 & S2 & _).
    unfold if_buyer, if_seller in *. rewrite !Z.eqb_refl, (Z.eqb_sym (sell_user_id rec)) in *.
    destruct (_ =? _); lia.
  - intros k. destruct Sb as (_ & _ & _ & B1 & B2), Ss as (_ & _ & _ & S1 & S2).
    specialize (B1 k). specialize (B2 k). specialize (S1 k). specialize (S2 k).
    unfold if_buyer, if_seller in *. rewrite !Z.eqb_refl, (Z.eqb_sym (sell_user_id rec)) in *.
    destruct (_ =? _); lia.
Qed.

(** ** The database *)

(** The database agrees with memory: its balance is the available plus the frozen balance,
    its holding of a listed ticker the available plus the frozen shares. *)
Definition in_sync t u d : Prop :=
  forall uid a, acct u uid = Some a ->
    balance_of d (acc_username a) = Some (available_balance a + frozen_balance a) /\
    forall k symbol, id_to_symbol_ t !! k = Some symbol ->
      holding_of d (acc_username a) symbol = stock (available_stock a) k + stock (frozen_stock a) k.

Definition distinct_names u : Prop :=
  forall i j a a', acct u i = Some a -> acct u j = Some a' -> acc_username a = acc_username a' -> i = j.

(** The four calls of [settle_db], with the results the code does not look at. *)
Definition settle_db_results t u rec d (r1 r2 r3 r4 : bool) (d' : D) : Prop :=
  let buyer_name := getName u (buyer_user_id rec) in
  let seller_name := getName u (sell_user_id rec) in
  let symbol := getSymbol t (mr_ticker_id rec) in
  exists d1 d2 d3,
    deductBalance buyer_name (sell_money rec) d = (r1, d1) /\
    updateStockHolding buyer_name symbol (i32 (match_quantity rec)) d1 = (r2, d2) /\
    updateBalance seller_name (sell_money rec) d2 = (r3, d3) /\
    deductStockHolding seller_name symbol (i32 (match_quantity rec)) d3 = (r4, d').

Lemma settle_db_calls t u rec d :
  exists r1 r2 r3 r4, settle_db_results t u rec d r1 r2 r3 r4 (settle_db t u rec d).
Proof.
  unfold settle_db.
  destruct (deductBalance _ _ d) as [r1 d1] eqn:E1. destruct (updateStockHolding _ _ _ d1) as [r2 d2] eqn:E2.
  destruct (updateBalance _ _ d2) as [r3 d3] eqn:E3. destruct (deductStockHolding _ _ _ d3) as [r4 d4] eqn:E4.
  exists r1, r2, r3, r4, d1, d2, d3. done.
Qed.

(** The balance and the holding of a name after the four calls. *)
Lemma settle_db_effect t u rec d r1 r2 r3 r4 d' :
  settle_db_results t u rec d r1 r2 r3 r4 d' ->
  let bn := getName u (buyer_user_id rec) in let sn := getName u (sell_user_id rec) in
  let sym := getSymbol t (mr_ticker_id rec) in
  (forall n x, balance_of d n = Some x ->
     balance_of d' n = Some (x - (if decide (n = bn) then if r1 then sell_money rec else 0 else 0)
                               + (if decide (n = sn) then if r3 then sell_money rec else 0 else 0))) /\
  (forall n y, holding_of d' n y =
     holding_of d n y + (if decide (n = bn /\ y = sym) then if r2 then i32 (match_quantity rec) else 0 else 0)
                      - (if decide (n = sn /\ y = sym) then if r4 then i32 (match_quantity rec) else 0 else 0)).
Proof.
  intros (d1 & d2 & d3 & E1 & E2 & E3 & E4) bn sn sym. fold bn sn sym in E1, E2, E3, E4.
  assert (same_holdings d d1 /\ forall n, balance_of d1 n =
    (fun b => b - if decide (n = bn) then if r1 then sell_money rec else 0 else 0) <$> balance_of d n) as [G1 B1].
  { destruct r1.
    - apply deductBalance_true in E1 as (Hh & _ & Hb). split; [done|]. intros n. rewrite Hb.
      destruct (decide _) as [->|]; [done|]. destruct (balance_of d n); simpl; [f_equal; lia|done].
    - apply deductBalance_false in E1 as [Hh Hb]. split; [done|]. intros n. rewrite Hb.
      destruct (balance_of d n); simpl; [|done]. f_equal. by destruct (decide _); lia. }
  assert (same_balances d1 d2 /\ forall n y, holding_of d2 n y =
    holding_of d1 n y + if decide (n = bn /\ y = sym) then if r2 then i32 (match_quantity rec) else 0 else 0) as [B2 G2].
  { destruct r2.
    - apply updateStockHolding_true in E2 as (Hb & Hh). split; [done|]. intros n y. rewrite Hh.
      destruct (decide _) as [[-> ->]|]; lia.
    - apply updateStockHolding_false in E2 as [Hb Hh]. split; [done|]. intros n y. rewrite Hh. destruct (decide _); lia. }
  assert (same_holdings d2 d3 /\ forall n, balance_of d3 n =
    (fun b => b + if decide (n = sn) then if r3 then sell_money rec else 0 else 0) <$> balance_of d2 n) as [G3 B3].
  { destruct r3.
    - apply updateBalance_true in E3 as (Hh & Hb). split; [done|]. intros n. rewrite Hb.
      destruct (decide _) as [->|]; [destruct (balance_of d2 sn)|destruct (balance_of d2 n)]; simpl; try done; f_equal; lia.
    - apply updateBalance_false in E3 as [Hh Hb]. split; [done|]. intros n. rewrite Hb.
      destruct (balance_of d2 n); simpl; [|done]. f_equal. by destruct (decide _); lia. }
  assert (same_balances d3 d' /\ forall n y, holding_of d' n y =
    holding_of d3 n y - if decide (n = sn /\ y = sym) then if r4 then i32 (match_quantity rec) else 0 else 0) as [B4 G4].
  { destruct r4.
    - apply deductStockHolding_true in E4 as (Hb & _ & Hh). split; [done|]. intros n y. rewrite Hh.
      destruct (decide _) as [[-> ->]|]; lia.
    - apply deductStockHolding_false in E4 as [Hb Hh]. split; [done|]. intros n y. rewrite Hh. destruct (decide _); lia. }
  split.
  - intros n x Hx. rewrite B4, B3, B2, B1, Hx. done.
  - intros n y. rewrite G4, G3, G2, G1. done.
Qed.

Lemma getName_acct u uid a : acct u uid = Some a -> getName u uid = acc_username a.
Proof. unfold getName. by intros ->. Qed.

(** Names and symbols tell accounts and tickers apart as their ids do. *)
Lemma name_decides {X} u uid a j aj (x y : X) :
  distinct_names u -> acct u uid = Some a -> acct u j = Some aj ->
  (if decide (acc_username a = acc_username aj) then x else y) = if j =? uid then x else y.
Proof.
  intros Hn Ha Hj. destruct (Z.eqb_spec j uid) as [->|Hne].
  - rewrite decide_True; [done|]. congruence.
  - rewrite decide_False; [done|]. intros E. apply Hne. by eapply Hn.
Qed.

Lemma name_symbol_decides u t uid a j aj k i symbol sym (x y : Z) :
  distinct_names u -> tickers_ok t -> acct u uid = Some a -> acct u j = Some aj ->
  id_to_symbol_ t !! k = Some symbol -> id_to_symbol_ t !! i = Some sym ->
  (if decide (acc_username a = acc_username aj /\ symbol = sym) then x else y) = if (j =? uid) && (i =? k) then x else y.
Proof.
  intros Hn Ht Ha Hj Hk Hi. destruct (Z.eqb_spec j uid) as [->|Hne]; simpl.
  - destruct (Z.eqb_spec i k) as [E|Hne].
    + rewrite decide_True; [done|]. split; congruence.
    + rewrite decide_False; [done|]. intros [_ ->]. apply Hne. apply Ht in Hk, Hi. congruence.
  - rewrite decide_False; [done|]. intros [E _]. apply Hne. by eapply Hn.
Qed.

(** By how much memory and database then differ for an account. *)
Lemma settlement_drift t u rec d (r1 r2 r3 r4 : bool) d' uid a' :
  store_ok u -> fair rec -> (forall uid a, acct u uid = Some a -> roomy a) -> distinct_names u ->
  tickers_ok t -> is_Some (id_to_symbol_ t !! mr_ticker_id rec) ->
  is_Some (acct u (buyer_user_id rec)) -> is_Some (acct u (sell_user_id rec)) ->
  in_sync t u d -> settle_db_results t u rec d r1 r2 r3 r4 d' ->
  acct (settle_sell (settle_buy u rec) rec) uid = Some a' ->
  balance_of d' (acc_username a') =
    Some (available_balance a' + frozen_balance a' + if_buyer rec uid (if r1 then 0 else paid rec)
          - if_seller rec uid (if r3 then 0 else paid rec)) /\
  forall k symbol, id_to_symbol_ t !! k = Some symbol ->
    holding_of d' (acc_username a') symbol =
      stock (available_stock a') k + stock (frozen_stock a') k
      - if_buyer rec uid (if_ticker rec k (if r2 then 0 else match_quantity rec))
      + if_seller rec uid (if_ticker rec k (if r4 then 0 else match_quantity rec)).
Proof.
  intros Hu Hf Hroom Hn Ht [sym Hsym] [ab Hb] [as' Hs] Hsync Hcalls Ha'.
  destruct (settle_db_effect t u rec d r1 r2 r3 r4 d' Hcalls) as [Eb Eh]. destruct (acct u uid) as [a|] eqn:Ha.
  2:{ exfalso. rewrite settle_sell_acct, settle_buy_acct in Ha' by eauto with exch.
      repeat case_decide; rewrite Ha in Ha'; discriminate. }
  destruct (settle_accounts u rec uid a Hu Hf (Hroom _ _ Ha) Ha) as (x & Hx & Sn & S1 & S2 & S3 & S4).
  rewrite Hx in Ha'. injection Ha' as ->. destruct (Hsync _ _ Ha) as [Yb Yh]. rewrite Sn.
  rewrite (getName_acct _ _ _ Hb), (getName_acct _ _ _ Hs) in Eb, Eh. split.
  - rewrite (Eb _ _ Yb). f_equal.
    rewrite !(name_decides u uid a _ _ _ _ Hn Ha Hb), !(name_decides u uid a _ _ _ _ Hn Ha Hs), S1, S2.
    rewrite sell_money_exact by done. unfold if_buyer, if_seller. destruct r1, r3; repeat case_match; lia.
  - intros k symbol Hk. rewrite Eh, (Yh _ _ Hk), S3, S4, quantity_exact by done.
    assert (getSymbol t (mr_ticker_id rec) = sym) as -> by (unfold getSymbol; by rewrite Hsym).
    rewrite (name_symbol_decides u t uid a _ _ k _ symbol sym _ _ Hn Ht Ha Hb Hk Hsym),
      (name_symbol_decides u t uid a _ _ k _ symbol sym _ _ Hn Ht Ha Hs Hk Hsym).
    unfold if_buyer, if_seller, if_ticker. destruct r2, r4; repeat case_match; simpl in *; try discriminate; lia.
Qed.

(** C9: what settlement does to the database, for every combination of results of the four
    calls, which the code ignores.  If memory and database agreed before, then afterwards the
    database balance of an account exceeds its available plus frozen balance by the price paid
    exactly when it is the buyer and the debit was refused, and falls short of it by that price
    exactly when it is the seller and the credit was refused; likewise for the shares.  So memory
    and database agree again when all four calls succeed. *)
Theorem settlement_database t u rec d (r1 r2 r3 r4 : bool) d'
  (Hu : store_ok u) (Hf : fair rec) (Hroom : forall uid a, acct u uid = Some a -> roomy a) (Hn : distinct_names u)
  (Ht : tickers_ok t) (Htick : is_Some (id_to_symbol_ t !! mr_ticker_id rec))
  (Hb : is_Some (acct u (buyer_user_id rec))) (Hs : is_Some (acct u (sell_user_id rec)))
  (Hsync : in_sync t u d) (Hcalls : settle_db_results t u rec d r1 r2 r3 r4 d') :
  exists u', settle_match t (u, d) rec = (u', d') /\
  (forall uid a', acct u' uid = Some a' ->
     balance_of d' (acc_username a') =
       Some (available_balance a' + frozen_balance a' + if_buyer rec uid (if r1 then 0 else paid rec)
             - if_seller rec uid (if r3 then 0 else paid rec)) /\
     forall k symbol, id_to_symbol_ t !! k = Some symbol ->
       holding_of d' (acc_username a') symbol =
         stock (available_stock a') k + stock (frozen_stock a') k
         - if_buyer rec uid (if_ticker rec k (if r2 then 0 else match_quantity rec))
         + if_seller rec uid (if_ticker rec k (if r4 then 0 else match_quantity rec))) /\
  (r1 && r2 && r3 && r4 -> in_sync t u' d').
Proof.
  exists (settle_sell (settle_buy u rec) rec).
  pose proof (fun uid a' => settlement_drift t u rec d r1 r2 r3 r4 d' uid a' Hu Hf Hroom Hn Ht Htick Hb Hs Hsync Hcalls) as Hall.
  split; [|split; [exact Hall|]].
  - unfold settle_match. f_equal. unfold settle_db. destruct Hcalls as (d1 & d2 & d3 & E1 & E2 & E3 & E4). by rewrite E1, E2, E3, E4.
  - intros Hr uid a' Ha'. destruct (Hall uid a' Ha') as [A1 A2].
    destruct r1, r2, r3, r4; try done. unfold if_buyer, if_seller, if_ticker in *.
    split; [rewrite A1; f_equal; repeat case_match; lia|].
    intros k symbol Hk. rewrite (A2 k symbol Hk). repeat case_match; lia.
Qed.
End Theorems.

(** ** Facts about a concrete manager, by evaluation *)

Lemma um_all (P : UserAccount -> Prop) (u : UserManager) :
  store_ok u -> map_Forall (fun _ a => P a) (um_heap u) ->
  forall uid a, acct u uid = Some a -> P a /\ acc_user_id a = uid.
Proof.
  intros Hu HP uid a Ha. split; [|by eapply acct_id].
  apply (um_acct_Some u uid a Hu) in Ha as (r & _ & Hr). by eapply HP.
Qed.

Definition roomy_check (a : UserAccount) : Prop :=
  (- 2 ^ 61 <= available_balance a < 2 ^ 61 /\ - 2 ^ 61 <= frozen_balance a < 2 ^ 61) /\
  map_Forall (fun _ q => - 2 ^ 30 <= q < 2 ^ 30) (available_stock a) /\
  map_Forall (fun _ q => - 2 ^ 30 <= q < 2 ^ 30) (frozen_stock a).
#[export] Instance roomy_check_dec a : Decision (roomy_check a).
Proof. unfold roomy_check. apply _. Defined.

Lemma roomy_check_sound a : roomy_check a -> roomy a.
Proof.
  intros ([? ?] & H1 & H2). split; [done|done|intros t; unfold stock..].
  - destruct (available_stock a !! t) eqn:E; [exact (H1 t _ E)|]. vm_compute; intuition discriminate.
  - destruct (frozen_stock a !! t) eqn:E; [exact (H2 t _ E)|]. vm_compute; intuition discriminate.
Qed.

Module SampleSettlement.
Import TableDB.
(* ann buys 4 shares of bob's at 100; her limit was 120 *)
Definition rec : MatchRecord := mkMatch 7 11 12 1 2 120 100 4 0.
Definition users : UserManager :=
  let u0 := createUserAccount (createUserAccount empty_manager 1 (str "ann")) 2 (str "bob") in
  let u1 := set_holding (addBalance u0 1 1000) 2 7 10 in
  (tryFreezeStock (tryFreezeBalance u1 1 480).1 2 7 4).1.
Definition db : DB :=
  mkDB {[ str "ann" := (1, str "x", 1000); str "bob" := (2, str "y", 0) ]}
       {[ (str "bob", str "AAPL") := 10 ]}.
Definition tickers : TickerManager := add_ticker (str "AAPL") 7 empty_tickers.
(* the database after each of the first three calls *)
Definition db1 : DB := (deductBalance (str "ann") 400 db).2.
Definition db2 : DB := (updateStockHolding (str "ann") (str "AAPL") 4 db1).2.
Definition db3 : DB := (updateBalance (str "bob") 400 db2).2.

Lemma users_ok : store_ok users.
Proof.
  unfold users. set (u1 := set_holding _ _ _ _).
  assert (store_ok u1) as H1.
  { apply update_account_ok; [|by intros []]. apply update_account_ok; [|eauto with exch].
    apply create_ok, create_ok. exact um_ok_empty. }
  pose proof (tryFreezeBalance_spec u1 1 480 H1) as H2. destruct (tryFreezeBalance u1 1 480) as [u2 ok2].
  destruct H2 as [H2 _]. cbn [fst]. pose proof (tryFreezeStock_spec u2 2 7 4 H2) as H3.
  destruct (tryFreezeStock u2 2 7 4). apply H3.
Qed.

Lemma rec_fair : fair rec.
Proof. split; vm_compute; intuition discriminate. Qed.

Lemma users_roomy uid a : acct users uid = Some a -> roomy a.
Proof.
  intros Ha. apply roomy_check_sound. refine (proj1 (um_all roomy_check users users_ok _ uid a Ha)).
  apply (bool_decide_unpack _). vm_compute. exact I.
Qed.

Lemma users_distinct : distinct_names users.
Proof.
  set (P := fun a => map_Forall (fun _ b => acc_username a = acc_username b -> acc_user_id a = acc_user_id b) (um_heap users)).
  intros i j a b Ha Hb E.
  destruct (um_all P users users_ok) with i a as [HP <-]; [|done|].
  { unfold P. apply (bool_decide_unpack _). vm_compute. exact I. }
  destruct (um_all (fun b => acc_username a = acc_username b -> acc_user_id a = acc_user_id b) users users_ok HP j b Hb)
    as [Hi <-]. by apply Hi.
Qed.

Lemma synced : in_sync tickers users db.
Proof.
  set (P := fun a => balance_of db (acc_username a) = Some (available_balance a + frozen_balance a) /\
    map_Forall (fun k symbol => holding_of db (acc_username a) symbol =
      stock (available_stock a) k + stock (frozen_stock a) k) (id_to_symbol_ tickers)).
  intros uid a Ha. destruct (um_all P users users_ok) with uid a as [[H1 H2] _]; [|done|].
  { unfold P. apply (bool_decide_unpack _). vm_compute. exact I. }
  split; [exact H1|]. intros k symbol. apply H2.
Qed.

Lemma tickers_fine : tickers_ok tickers.
Proof. apply add_ticker_ok; [apply tickers_ok_empty|done|done]. Qed.
End SampleSettlement.

Import TableDB.

Lemma settlement_conserves_witness :
  exists b s b' s', acct SampleSettlement.users 1 = Some b /\ acct SampleSettlement.users 2 = Some s /\
    settled_account SampleSettlement.rec 1 b b' /\ settled_account SampleSettlement.rec 2 s s' /\
    available_balance b' = 600 /\ available_balance s' = 400.
Proof.
  destruct (acct SampleSettlement.users 1) as [b|] eqn:Eb; [|vm_compute in Eb; discriminate Eb].
  destruct (acct SampleSettlement.users 2) as [s|] eqn:Es; [|vm_compute in Es; discriminate Es].
  destruct (settlement_conserves SampleSettlement.users SampleSettlement.db SampleSettlement.tickers SampleSettlement.rec
    b s SampleSettlement.users_ok SampleSettlement.rec_fair Eb Es (SampleSettlement.users_roomy 1 b Eb)
    (SampleSettlement.users_roomy 2 s Es)) as (_ & _ & b' & s' & _ & _ & Sb & Ss & _).
  exists b, s, b', s'. split; [reflexivity|]. split; [reflexivity|]. split; [exact Sb|]. split; [exact Ss|].
  destruct Sb as (_ & -> & _), Ss as (_ & -> & _).
  vm_compute in Eb, Es. injection Eb as <-. injection Es as <-. vm_compute. split; reflexivity.
Defined.

Lemma settlement_database_witness :
  exists u' d', settle_match SampleSettlement.tickers (SampleSettlement.users, SampleSettlement.db) SampleSettlement.rec = (u', d') /\
    in_sync SampleSettlement.tickers u' d' /\ balance_of d' (str "ann") = Some 600.
Proof.
  destruct (settlement_database SampleSettlement.tickers SampleSettlement.users SampleSettlement.rec SampleSettlement.db
    true true true true (settle_db SampleSettlement.tickers SampleSettlement.users SampleSettlement.rec SampleSettlement.db)
    SampleSettlement.users_ok SampleSettlement.rec_fair SampleSettlement.users_roomy SampleSettlement.users_distinct
    SampleSettlement.tickers_fine) as (u' & Em & _ & Hsync).
  - vm_compute. eauto.
  - vm_compute. eauto.
  - vm_compute. eauto.
  - exact SampleSettlement.synced.
  - exists SampleSettlement.db1, SampleSettlement.db2, SampleSettlement.db3.
    split; [vm_compute; reflexivity|]. split; [vm_compute; reflexivity|]. split; vm_compute; reflexivity.
  - exists u', (settle_db SampleSettlement.tickers SampleSettlement.users SampleSettlement.rec SampleSettlement.db).
    split; [exact Em|]. split; [apply Hsync; exact I|]. vm_compute. reflexivity.
Defined.
