(* ===== verification/Conservation.v ===== *)
(** * Nothing is made or lost

    A [ledger] is what an account owns of one kind, money or the shares of one ticker, available
    and frozen together.  Freezing, cancelling and matching move it within an account; the two
    halves of a settlement move it between accounts, and between them it is [held] by the record
    that the settlement worker is at.  So the total over all accounts changes by deposits only,
    in every run, modulo the width of the integers. *)

From S2P Require Import Prelude Bytes Common OrderIdGenerator OrderBook OrderBookProofs TickerManager Accounts UserManager Repositories.
From S2P Require Import Engine WALManager SettlementProcessor World Exposure ExposureProofs Accounting SystemTheorems.
From S2P Require Import SettlementTheorems.
From stdpp Require Import base strings list gmap.
From Stdlib Require Import ZArith Lia.
Local Open Scope Z_scope.

(** ** Equality of [n]-bit integers *)

Definition eqw (n a b : Z) : Prop := (2 ^ n | a - b).
Local Notation "a ≡[ n ] b" := (eqw n a b) (at level 70, n at level 9, no associativity).

#[export] Instance eqw_equivalence n : Equivalence (eqw n).
Proof.
  unfold eqw. split.
  - intros a. rewrite Z.sub_diag. apply Z.divide_0_r.
  - intros a b H. replace (b - a) with (- (a - b)) by lia. by apply Z.divide_opp_r.
  - intros a b c H1 H2. replace (a - c) with ((a - b) + (b - c)) by lia. by apply Z.divide_add_r.
Qed.
#[export] Instance eqw_add n : Proper (eqw n ==> eqw n ==> eqw n) Z.add.
Proof. unfold eqw. intros a a' Ha b b' Hb. replace (a + b - (a' + b')) with ((a - a') + (b - b')) by lia. by apply Z.divide_add_r. Qed.
#[export] Instance eqw_opp n : Proper (eqw n ==> eqw n) Z.opp.
Proof. unfold eqw. intros a a' Ha. replace (- a - - a') with (- (a - a')) by lia. by apply Z.divide_opp_r. Qed.
#[export] Instance eqw_sub n : Proper (eqw n ==> eqw n ==> eqw n) Z.sub.
Proof. intros a a' Ha b b' Hb. rewrite <- !Z.add_opp_r. by rewrite Ha, Hb. Qed.
#[export] Instance eqw_mul n : Proper (eqw n ==> eqw n ==> eqw n) Z.mul.
Proof.
  unfold eqw. intros a a' Ha b b' Hb. replace (a * b - a' * b') with ((a - a') * b + a' * (b - b')) by lia.
  apply Z.divide_add_r; [by apply Z.divide_mul_l|by apply Z.divide_mul_r].
Qed.

Lemma eqw_wrapU n a : 0 <= n -> wrapU n a ≡[n] a.
Proof.
  intros Hn. exists (- (a / 2 ^ n)). unfold wrapU. pose proof (Z.div_mod a (2 ^ n) ltac:(lia)). lia.
Qed.
Lemma eqw_wrapS n a : 0 <= n -> wrapS n a ≡[n] a.
Proof.
  intros Hn. exists (- ((a + 2 ^ (n - 1)) / 2 ^ n)). unfold wrapS.
  pose proof (Z.div_mod (a + 2 ^ (n - 1)) (2 ^ n) ltac:(lia)). lia.
Qed.

#[export] Instance eqw_wrapS_proper n : Proper (eqw n ==> eqw n) (wrapS n).
Proof.
  intros a b H. destruct (Z.le_gt_cases 0 n) as [Hn|Hn]; [by rewrite !eqw_wrapS by done|].
  destruct H as [k Hk]. rewrite Z.pow_neg_r in Hk by done. by replace a with b by lia.
Qed.

(** Signed numbers in range that are equal as [n]-bit integers are equal. *)
Lemma eqw_exact n a b : 0 < n -> inS n a -> inS n b -> a ≡[n] b -> a = b.
Proof.
  unfold inS. intros Hn Ha Hb [k Hk]. assert (2 ^ n = 2 * 2 ^ (n - 1)) as E by (rewrite <- Z.pow_succ_r by lia; f_equal; lia).
  rewrite E in Hk. set (M := 2 ^ (n - 1)) in *. assert (0 < M) by (apply Z.pow_pos_nonneg; lia).
  assert (k = 0) as ->; [|lia]. destruct (Z.lt_trichotomy k 0) as [?|[?|?]]; [nia|done|nia].
Qed.

(** ** Ledgers *)

(** [g] of an account; [held m] after the buyer's half of [m], until the seller's; what a
    deposit adds. *)
Record ledger (n : Z) (g : UserAccount -> Z) (held : MatchRecord -> Z) (credit : Z -> Z) : Prop := {
  lg_new uid name : g (new_account uid name) = 0;
  lg_freeze o a : g (freeze_acc o a).1 ≡[n] g a;
  lg_buy m a : g (settle_buy_acc m a) + held m ≡[n] g a;
  lg_sell m a : g (settle_sell_acc m a) ≡[n] g a + held m;
  lg_cancel c a : g (cancel_effect c a) ≡[n] g a;
  lg_credit amount a : g (add_balance amount a) ≡[n] g a + credit amount;
  lg_zero m : match_quantity m = 0 -> held m = 0
}.

Definition money (a : UserAccount) : Z := available_balance a + frozen_balance a.
Definition shares (tick : Z) (a : UserAccount) : Z := stock (available_stock a) tick + stock (frozen_stock a) tick.

(** A cash deposit, and none of shares. *)
Definition cash (amount : Z) : Z := amount.
Definition no_shares (amount : Z) : Z := 0.
(** What the buyer paid; what the seller has not delivered yet. *)
Definition shares_due (tick : Z) (m : MatchRecord) : Z := if mr_ticker_id m =? tick then - match_quantity m else 0.

(** Drop the wraps of [n]-bit arithmetic. *)
Ltac eqw_unwrap n := repeat first [rewrite (eqw_wrapS n) by lia | rewrite (eqw_wrapU n) by lia].
Ltac eqw_ring n := eqw_unwrap n; match goal with |- eqw _ ?a ?b => replace a with b by ring; reflexivity end.

Lemma money_ledger : ledger 64 money sell_money cash.
Proof.
  split.
  - done.
  - intros o a. unfold freeze_acc, freeze_balance, freeze_stock, money. destruct (side o), (_ <=? _); simpl; try done; eqw_ring 64.
  - intros m a. unfold settle_buy_acc, commit_buy, money. simpl. eqw_ring 64.
  - intros m a. unfold settle_sell_acc, commit_sell, money. simpl. eqw_ring 64.
  - intros c a. unfold cancel_effect, money. destruct (cr_side c); simpl; [eqw_ring 64|done].
  - intros amount a. unfold money, cash. simpl. eqw_ring 64.
  - intros m Hm. unfold sell_money. by rewrite Hm, Z.mul_0_r.
Qed.

Lemma shares_ledger tick : ledger 32 (shares tick) (shares_due tick) no_shares.
Proof.
  split.
  - done.
  - intros o a. unfold freeze_acc, freeze_balance, freeze_stock, shares. destruct (side o), (_ <=? _); simpl; try done.
    + autorewrite with exch. destruct (decide _) as [->|]; [eqw_ring 32|done].
    + by autorewrite with exch.
  - intros m a. unfold settle_buy_acc, commit_buy, shares, shares_due. simpl. autorewrite with exch.
    destruct (decide _) as [->|]; [rewrite Z.eqb_refl; eqw_ring 32|]. rewrite (proj2 (Z.eqb_neq _ _)) by congruence. by rewrite Z.add_0_r.
  - intros m a. unfold settle_sell_acc, commit_sell, shares, shares_due. simpl. autorewrite with exch.
    destruct (decide _) as [->|]; [rewrite Z.eqb_refl; eqw_ring 32|]. rewrite (proj2 (Z.eqb_neq _ _)) by congruence. by rewrite Z.add_0_r.
  - intros c a. unfold cancel_effect, shares. destruct (cr_side c); simpl; [done|]. autorewrite with exch.
    destruct (decide _) as [->|]; [eqw_ring 32|done].
  - intros amount a. unfold shares, no_shares. simpl. by rewrite Z.add_0_r.
  - intros m Hm. unfold shares_due. rewrite Hm. by destruct (_ =? _).
Qed.

(** ** The total over the accounts *)

Section Conservation.
Context {S D : Type} `{AL : AccountStoreLaws S} `{UR : IUserRepository D} `{SR : IStockRepository D}.
Context (clock : nat -> Z).
Implicit Types (w : World S D) (us : list Z).

(** Over the user ids [us]; an id without an account has nothing. *)
Definition total (g : UserAccount -> Z) us (u : S) : Z := zsum (g_of g u) us.

Definition held_half (held : MatchRecord -> Z) (m : option MatchRecord) : Z := match m with Some m => held m | None => 0 end.

(** What an action brings in from outside. *)
Definition deposit (credit : Z -> Z) w (a : action D) : Z :=
  match a with ACredit uid amount => match acct (w_users w) uid with Some _ => credit amount | None => 0 end | _ => 0 end.

Fixpoint deposits (credit : Z -> Z) (l : list (action D)) w : Z :=
  match l with
  | [] => 0
  | a :: l' => deposit credit w a + match exec clock a w with Some w' => deposits credit l' w' | None => 0 end
  end.

(** The accounts, and the record that is half settled, after an action. *)
Definition users_after w (a : action D) : S :=
  match a with
  | AFreeze uid ticker sd pr amount =>
      (on_account (w_users w) uid false (freeze_acc (make_order clock w uid ticker sd pr amount).1)).1
  | ACreate uid name => createUserAccount (w_users w) uid name
  | ACredit uid amount => update_account (w_users w) uid (add_balance amount)
  | ASettleBuy i =>
      match sq_matches (w_settle w) !! i with
      | Some m => update_account (w_users w) (buyer_user_id m) (settle_buy_acc m) | None => w_users w end
  | ASettleSell =>
      match w_half w with Some m => update_account (w_users w) (sell_user_id m) (settle_sell_acc m) | None => w_users w end
  | ASettleCancel i =>
      match sq_cancels (w_settle w) !! i with
      | Some c => update_account (w_users w) (cr_user_id c) (cancel_effect c) | None => w_users w end
  | _ => w_users w
  end.
Definition half_after w (a : action D) : option MatchRecord :=
  match a with ASettleBuy i => sq_matches (w_settle w) !! i | ASettleSell => None | _ => w_half w end.

(** When the worker is at a record it takes no other. *)
Definition half_free w (a : action D) : Prop := match a with ASettleBuy _ => w_half w = None | _ => True end.

Lemma exec_after a w w' : exec clock a w = Some w' ->
  w_users w' = users_after w a /\ w_half w' = half_after w a /\ half_free w a.
Proof.
  destruct a; cbn [exec users_after half_after half_free].
  - intros [= <-]. pose proof (make_order_facts clock w uid ticker sd pr amount) as [Hu Hs]. unfold trade_freeze.
    assert (w_half (make_order clock w uid ticker sd pr amount).2 = w_half w) as Hh by (unfold make_order; by destruct (generate _ _)).
    destruct (make_order clock w uid ticker sd pr amount) as [o w1]. cbn [fst snd] in *. rewrite freeze_for_acc, Hs, Hu.
    by destruct (on_account _ _ _ _) as [u []].
  - destruct (decide _); [|done]. by intros [= <-].
  - by intros [= <-].
  - by intros [= <-].
  - by intros [= <-].
  - by intros [= <-].
  - by intros [= <-].
  - unfold exec_log. destruct (wal_buffer _); [|done]. destruct (dequeue _ _) as [[]|]; [|done].
    destruct (wal_log _ _ _ _ _). by intros [= <-].
  - unfold exec_forward. destruct (wal_buffer _) as [|ev ?]; [done|]. intros [= <-].
    unfold forward_event. destruct (ev_type ev), (ev_order ev); try done. by destruct (fst _).
  - unfold exec_take. destruct (w_engine w !! _) as [[t b q [|] [|]]|]; try done.
    destruct (dequeue _ _) as [[]|]; [|done]. by intros [= <-].
  - unfold exec_event. destruct (w_engine w !! _) as [[t b q [|] res]|]; try done.
    destruct (process_event _ _ _ _ _) as [[[]]]. intros [= <-]. done.
  - unfold exec_flush. destruct (w_engine w !! _) as [[t b q [|] res]|]; try done. by intros [= <-].
  - unfold exec_settle_buy. destruct (w_half w) eqn:Eh; [done|]. destruct (_ !! i) as [m|] eqn:E; [|done]. by intros [= <-].
  - unfold exec_settle_sell. destruct (w_half w) as [m|] eqn:E; [|done]. by intros [= <-].
  - unfold exec_settle_cancel. destruct (w_half w) eqn:Eh; [done|]. destruct (_ !! i) as [c|] eqn:E; [|done].
    intros [= <-]. simpl. by rewrite settle_cancel_effect, Eh.
Qed.

(** The total after one account changed. *)
Lemma total_change g us (u u' : S) uid d :
  NoDup us -> uid ∈ us -> (forall k, k <> uid -> acct u' k = acct u k) -> g_of g u' uid = g_of g u uid + d ->
  total g us u' = total g us u + d.
Proof.
  intros Hn Hin Hsame Hd. apply elem_of_Permutation in Hin as [l E]. unfold total. rewrite E, !zsum_cons, Hd.
  rewrite E in Hn. inversion_clear Hn as [|? ? Hni _].
  rewrite (zsum_ext (g_of g u') (g_of g u) l); [lia|]. intros k Hk. unfold g_of. rewrite Hsame; [done|]. by intros ->.
Qed.

Section Ledger.
Context (n : Z) (g : UserAccount -> Z) (held : MatchRecord -> Z) (credit : Z -> Z) (L : ledger n g held credit).
Local Notation "a ≡[ m ] b" := (eqw m a b) (at level 70, m at level 9, no associativity).

(** Every account is counted. *)
Definition covers us (u : S) : Prop := NoDup us /\ forall uid a, acct u uid = Some a -> uid ∈ us.

Lemma total_update us (u : S) uid f :
  store_ok u -> keeps_identity f -> covers us u ->
  total g us (update_account u uid f) = total g us u + match acct u uid with Some a => g (f a) - g a | None => 0 end.
Proof.
  intros Hok Hf [Hn Hc]. destruct (acct u uid) as [a|] eqn:E.
  - apply (total_change g us _ _ uid); [done|by eapply Hc| |].
    + intros k Hk. rewrite acct_update by done. by rewrite decide_False.
    + unfold g_of. rewrite acct_update, decide_True, E by done. simpl. lia.
  - rewrite Z.add_0_r. apply zsum_ext. intros k _. unfold g_of. rewrite acct_update by done.
    destruct (decide _) as [->|]; [by rewrite E|done].
Qed.

(** A user with no account took part in nothing that is settled. *)
Lemma nobody_buys w i m : accounted w -> sq_matches (w_settle w) !! i = Some m -> acct (w_users w) (buyer_user_id m) = None -> held m = 0.
Proof.
  intros Hw Hm Hn. assert (m ∈ pending w) as Hin by (apply elem_of_app; left; by eapply list_elem_of_lookup_2).
  destruct (no_pending w _ (ac_wf w Hw) (ac_records w Hw) (ac_none w Hw _ Hn) m (fun _ _ _ => 1) (fun _ _ => 1) Hin) as [Hb _].
  specialize (Hb eq_refl). unfold buy_value in Hb. apply (lg_zero _ _ _ _ L). lia.
Qed.
Lemma nobody_sells w m : accounted w -> w_half w = Some m -> acct (w_users w) (sell_user_id m) = None -> held m = 0.
Proof.
  intros Hw Hm Hn.
  pose proof (no_half w _ (ac_wf w Hw) (ac_records w Hw) (ac_none w Hw _ Hn) m (fun _ _ => 1) Hm eq_refl) as Hs.
  unfold sell_value in Hs. apply (lg_zero _ _ _ _ L). lia.
Qed.

Definition in_system us w : Z := total g us (w_users w) + held_half held (w_half w).

(** One action. *)
Lemma exec_conserves us w a w' :
  accounted w -> exec clock a w = Some w' -> covers us (w_users w') -> in_system us w' ≡[n] in_system us w + deposit credit w a.
Proof.
  intros Hw E [Hn Hcov]. pose proof (users_step_store clock w a _ (exec_users clock w a w' E) (ac_store w Hw)) as [_ Hmono].
  assert (covers us (w_users w)) as Hc.
  { split; [done|]. intros uid x Hx. destruct (acct (w_users w') uid) as [y|] eqn:Ey; [by eapply Hcov|].
    apply Hmono in Ey. congruence. }
  pose proof (ac_store w Hw) as Hok. destruct (exec_after a w w' E) as (Hu & Hh & Hfree). unfold in_system. rewrite Hu, Hh.
  destruct a; cbn [users_after half_after deposit half_free] in *; rewrite ?Z.add_0_r; try reflexivity.
  - set (o := (make_order clock w uid ticker sd pr amount).1).
    change ((on_account (w_users w) uid false (freeze_acc o)).1) with (on_account (w_users w) uid false (freeze_acc o)).1.
    assert ((on_account (w_users w) uid false (freeze_acc o)).1 = update_account (w_users w) uid (fun x => (freeze_acc o x).1)) as ->.
    { unfold update_account, on_account. destruct (acct (w_users w) uid) as [x|]; [|done]. by destruct (freeze_acc o x). }
    rewrite total_update by (done || apply freeze_acc_identity). destruct (acct (w_users w) uid) as [x|]; [|by rewrite Z.add_0_r].
    rewrite (lg_freeze _ _ _ _ L). by rewrite Z.sub_diag, Z.add_0_r.
  - assert (total g us (createUserAccount (w_users w) uid name) = total g us (w_users w)) as ->; [|done].
    apply zsum_ext. intros k _. unfold g_of. rewrite acct_create by done. destruct (decide _) as [->|]; [|done].
    destruct (acct (w_users w) uid); simpl; [done|]. apply (lg_new _ _ _ _ L).
  - rewrite total_update by eauto with exch. destruct (acct (w_users w) uid) as [x|]; [|by rewrite !Z.add_0_r].
    rewrite (lg_credit _ _ _ _ L). replace (g x + credit amount - g x) with (credit amount) by lia.
    replace (total g us (w_users w) + credit amount + held_half held (w_half w)) with
      (total g us (w_users w) + held_half held (w_half w) + credit amount) by lia. reflexivity.
  - rewrite Hfree. destruct (_ !! i) as [m|] eqn:Em; [|done]. simpl. rewrite total_update by (done || apply settle_identities).
    rewrite Z.add_0_r. destruct (acct (w_users w) (buyer_user_id m)) as [x|] eqn:Ex.
    + replace (total g us (w_users w) + (g (settle_buy_acc m x) - g x) + held m) with
        (total g us (w_users w) + (g (settle_buy_acc m x) + held m - g x)) by lia.
      rewrite (lg_buy _ _ _ _ L). by rewrite Z.sub_diag, Z.add_0_r.
    + rewrite (nobody_buys w i m) by done. by rewrite !Z.add_0_r.
  - destruct (w_half w) as [m|] eqn:Em; simpl; [|by rewrite Z.add_0_r].
    rewrite total_update by (done || apply settle_identities). destruct (acct (w_users w) (sell_user_id m)) as [x|] eqn:Ex.
    + rewrite (lg_sell _ _ _ _ L). by replace (g x + held m - g x) with (held m) by lia.
    + by rewrite (nobody_sells w m) by done.
  - destruct (_ !! i) as [c|] eqn:Ec; [|done]. rewrite total_update by eauto with exch.
    destruct (acct (w_users w) (cr_user_id c)) as [x|]; [|by rewrite Z.add_0_r].
    rewrite (lg_cancel _ _ _ _ L). by rewrite Z.sub_diag, Z.add_0_r.
Qed.

(** A run. *)
Lemma run_conserves us l w w' :
  accounted w -> run_checked clock l w = Some w' -> covers us (w_users w') ->
  in_system us w' ≡[n] in_system us w + deposits credit l w.
Proof.
  revert w. induction l as [|a l IH]; intros w Hw; simpl; [intros [= <-] _; by rewrite Z.add_0_r|].
  destruct (decide (admissible clock a w)) as [Ha|]; [|done]. destruct (exec clock a w) as [w1|] eqn:E; [|done]. intros Er Hc.
  pose proof (exec_accounted clock w a w1 Hw Ha E) as Hw1. pose proof (IH w1 Hw1 Er Hc) as Hl. rewrite Hl.
  assert (covers us (w_users w1)) as Hc1; [|rewrite (exec_conserves us w a w1 Hw E Hc1); by rewrite Z.add_assoc].
  destruct Hc as [Hn Hcov]. split; [done|]. clear IH Hl E Ha. revert w1 Hw1 Er.
  induction l as [|b l IHl]; intros w1 Hw1; simpl; [by intros [= ->]|].
  destruct (decide (admissible clock b w1)) as [Hb|]; [|done]. destruct (exec clock b w1) as [w2|] eqn:E; [|done].
  intros Er uid x Hx. destruct (users_step_store clock w1 b _ (exec_users clock w1 b w2 E) (ac_store w1 Hw1)) as [_ Hmono].
  destruct (acct (w_users w2) uid) as [y|] eqn:Ey; [|apply Hmono in Ey; congruence].
  eapply (IHl w2); [by eapply exec_accounted|done|exact Ey].
Qed.
End Ledger.
End Conservation.

(** ** The theorem *)

Section Totals.
Context {S D : Type} `{AL : AccountStoreLaws S} `{UR : IUserRepository D} `{SR : IStockRepository D}.
Context (clock : nat -> Z) (tickers : TickerManager) (u0 : S) (d0 : D) (ids : list Z) (file : option FILE).
Local Notation start := (w_start tickers u0 d0 ids file).

(** C5: in every run of the server from its start, whatever the interleaving of the threads, the
    money of all accounts together, available and frozen, changes by the deposits only, and the
    shares of every ticker not at all; between the two halves of a settlement the price paid is
    with the settlement worker, and the seller has not delivered the shares.  (As 64-bit and
    32-bit integers; the sums are equal when they fit.) *)
Theorem wealth_conserved us l w :
  store_ok u0 -> run_checked clock l start = Some w -> covers us (w_users w) ->
  let money_before := total money us u0 + deposits clock cash l start in
  let money_after := total money us (w_users w) + held_half sell_money (w_half w) in
  let shares_before tick := total (shares tick) us u0 in
  let shares_after tick := total (shares tick) us (w_users w) + held_half (shares_due tick) (w_half w) in
  eqw 64 money_after money_before /\ (inS 64 money_before -> inS 64 money_after -> money_after = money_before) /\
  forall tick, eqw 32 (shares_after tick) (shares_before tick) /\
    (inS 32 (shares_before tick) -> inS 32 (shares_after tick) -> shares_after tick = shares_before tick).
Proof.
  intros Hok Er Hc. assert (accounted (S := S) (D := D) start) as H0 by (apply start_accounted; [done|apply init_all_fresh]).
  pose proof (run_conserves clock 64 money sell_money cash money_ledger us l start w H0 Er Hc) as Hm.
  unfold in_system in Hm. simpl in Hm. rewrite Z.add_0_r in Hm.
  split; [exact Hm|]. split; [intros H1 H2; by apply (eqw_exact 64)|]. intros tick.
  pose proof (run_conserves clock 32 (shares tick) (shares_due tick) no_shares (shares_ledger tick) us l start w H0 Er Hc) as Hs.
  assert (forall w0 : World S D, deposits clock no_shares l w0 = 0) as Hd.
  { clear. induction l as [|a l IH]; intros w0; simpl; [done|]. destruct (exec clock a w0) as [w1|]; [rewrite IH|];
      destruct a; simpl; try done; by destruct (acct _ _). }
  rewrite Hd in Hs. unfold in_system in Hs. simpl in Hs. rewrite !Z.add_0_r in Hs.
  split; [exact Hs|]. intros H1 H2. by apply (eqw_exact 32).
Qed.
End Totals.

(** Ann buys four of Bob's shares at 100, and only her half is settled; then she deposits 50. *)
Module HalfSettled.
Import TableDB.
Definition acts : list (action DB) := SampleRun.acts ++ [ASettleBuy 0; ACredit 1 50].
Definition half : World UserManager DB := default SampleRun.w0 (run_checked SampleRun.clk acts SampleRun.w0).
Lemma half_run : run_checked SampleRun.clk acts SampleRun.w0 = Some half.
Proof. vm_compute. reflexivity. Qed.

Lemma half_covered : covers [1; 2] (w_users half).
Proof.
  split; [apply (bool_decide_unpack _); vm_compute; exact I|]. intros uid a Ha.
  assert (accounted half) as Hw.
  { apply (reachable_measure SampleRun.clk 64 1 _ _ _ (money_measure 1) SampleRun.w0).
    - apply start_accounted; [exact SampleRun.run_users_ok|apply init_all_fresh].
    - exact (start_tracks SampleRun.tickers SampleRun.users empty_db [7] SampleRun.log sample_unfrozen 64 1 _ _ _ (money_measure 1) ltac:(tauto)).
    - exact (run_checked_reachable SampleRun.clk acts SampleRun.w0 SampleRun.w0 half (reach_init _ _) half_run). }
  destruct (um_all (fun a => acc_user_id a ∈ [1; 2]) (w_users half) (ac_store _ Hw)) with uid a as [Hin <-]; [|done|exact Hin].
  apply (bool_decide_unpack _). vm_compute. exact I.
Qed.
End HalfSettled.

Import TableDB.

Lemma wealth_conserved_witness :
  total money [1; 2] (w_users HalfSettled.half) = 650 /\
  held_half sell_money (w_half HalfSettled.half) = 400 /\
  total money [1; 2] (w_users HalfSettled.half) + held_half sell_money (w_half HalfSettled.half) =
    total money [1; 2] SampleRun.users + deposits SampleRun.clk cash HalfSettled.acts SampleRun.w0.
Proof.
  split; [vm_compute; reflexivity|]. split; [vm_compute; reflexivity|].
  destruct (wealth_conserved SampleRun.clk SampleRun.tickers SampleRun.users TableDB.empty_db [7] SampleRun.log [1; 2] HalfSettled.acts
    HalfSettled.half SampleRun.run_users_ok HalfSettled.half_run HalfSettled.half_covered) as (_ & H & _).
  apply H; vm_compute; split; [discriminate|reflexivity|discriminate|reflexivity].
Defined.
