(* ===== verification/Timers.v ===== *)
(** * Connection timers

    [include/TimerManager.hpp]: a heap of expiry times that keeps stale nodes, and a table with
    the current expiry of every descriptor.  Times are nanoseconds of the steady clock. *)

From S2P Require Import Prelude.
From stdpp Require Import base list gmap sorting.
From Stdlib Require Import ZArith Lia.
Local Open Scope Z_scope.

Record TimerNode := mkNode { tn_fd : Z; tn_expire : Z }.

#[export] Instance TimerNode_eq_dec : EqDecision TimerNode.
Proof. solve_decision. Defined.

(** [minHeap_] is a priority queue; it is kept as the list of its nodes in the order they come
    to the top (the order of equal expiry times is not specified by the code). *)
Record TimerManager := mkTimers { minHeap_ : list TimerNode; secretTable_ : gmap Z Z }.

Definition empty_timers : TimerManager := mkTimers [] ∅.

(** [minHeap_.push]. *)
Fixpoint heap_push (n : TimerNode) (h : list TimerNode) : list TimerNode :=
  match h with
  | [] => [n]
  | top :: h' => if tn_expire n <? tn_expire top then n :: top :: h' else top :: heap_push n h'
  end.

Definition addTimer (now fd timeout_sec : Z) (t : TimerManager) : TimerManager :=
  let expire := now + timeout_sec * 1000000000 in
  mkTimers (heap_push (mkNode fd expire) (minHeap_ t)) (<[fd := expire]> (secretTable_ t)).

(** [secretTable_\[fd\]] creates the entry with the zero time point when it is absent. *)
Definition table_at (fd : Z) (tab : gmap Z Z) : Z := default 0 (tab !! fd).
Definition table_touch (fd : Z) (tab : gmap Z Z) : gmap Z Z := <[fd := table_at fd tab]> tab.

Section Timeouts.
(** The callback acts on the rest of the server, [C]; it runs with [mtx_] held, so a callback
    that locks [mtx_] again never returns: [None]. *)
Context {C : Type} (closeCallback : Z -> C -> option C).

Fixpoint timeout_loop (now : Z) (h : list TimerNode) (tab : gmap Z Z) (c : C) : option (TimerManager * C) :=
  match h with
  | [] => Some (mkTimers [] tab, c)
  | top :: h' =>
      if now <? tn_expire top then Some (mkTimers h tab, c)
      else
        let tab1 := table_touch (tn_fd top) tab in
        if negb (tn_expire top =? table_at (tn_fd top) tab) then timeout_loop now h' tab1 c
        else
          match closeCallback (tn_fd top) c with
          | Some c' => timeout_loop now h' (delete (tn_fd top) tab1) c'
          | None => None
          end
  end.

Definition handleTimeouts (now : Z) (t : TimerManager) (c : C) : option (TimerManager * C) :=
  timeout_loop now (minHeap_ t) (secretTable_ t) c.
End Timeouts.

Definition cancelTimer (fd : Z) (t : TimerManager) : TimerManager :=
  mkTimers (minHeap_ t) (delete fd (secretTable_ t)).

(** ** The invariant *)

(** The heap is in order, times are positive, and every current expiry has its node.  A stale
    node leaves a zero entry behind. *)
Record timers_ok (t : TimerManager) : Prop := {
  tk_sorted : StronglySorted Z.le (tn_expire <$> minHeap_ t);
  tk_positive : Forall (fun n => 0 < tn_expire n) (minHeap_ t);
  tk_nodes fd e : secretTable_ t !! fd = Some e -> e = 0 \/ mkNode fd e ∈ minHeap_ t
}.

Lemma heap_push_perm n h : heap_push n h ≡ₚ n :: h.
Proof.
  induction h as [|m h IH]; [done|]. simpl. destruct (_ <? _); [done|]. rewrite IH. apply Permutation_swap.
Qed.

Lemma heap_push_sorted n h :
  StronglySorted Z.le (tn_expire <$> h) -> StronglySorted Z.le (tn_expire <$> heap_push n h).
Proof.
  induction h as [|m h IH]; intros Hs; [repeat constructor|]. rewrite fmap_cons in Hs.
  inversion_clear Hs as [|? ? Hs' Hf]. simpl. destruct (_ <? _) eqn:E; zbool; rewrite !fmap_cons.
  - constructor; [by constructor|]. constructor; [lia|]. eapply Forall_impl; [exact Hf|]. simpl. lia.
  - constructor; [by apply IH|]. rewrite heap_push_perm, fmap_cons. by constructor.
Qed.

Lemma timers_ok_empty : timers_ok empty_timers.
Proof. split; [constructor|constructor|]. intros fd e. simpl. by rewrite lookup_empty. Qed.

Lemma addTimer_ok now fd sec t : timers_ok t -> 0 <= now -> 0 < sec -> timers_ok (addTimer now fd sec t).
Proof.
  intros [H1 H2 H3] Hn Hs. split; unfold addTimer; cbn [minHeap_ secretTable_].
  - by apply heap_push_sorted.
  - rewrite heap_push_perm. constructor; [simpl; lia|done].
  - intros fd' e. rewrite heap_push_perm, elem_of_cons, lookup_insert_Some.
    intros [[<- <-]|[_ He]]; [auto|]. apply H3 in He. tauto.
Qed.

Lemma cancelTimer_ok fd t : timers_ok t -> timers_ok (cancelTimer fd t).
Proof.
  intros [H1 H2 H3]. split; [done|done|]. intros fd' e. simpl. intros [_ He]%lookup_delete_Some. by apply H3.
Qed.

(** ** What [handleTimeouts] does *)

(** The calls of a callback on a list of descriptors, in order, up to one that does not return. *)
Fixpoint run_callbacks {C} (cb : Z -> C -> option C) (fds : list Z) (c : C) : option C :=
  match fds with
  | [] => Some c
  | fd :: fds' => match cb fd c with Some c' => run_callbacks cb fds' c' | None => None end
  end.

Section Spec.
Lemma table_touch_lookup fd tab fd' e :
  table_touch fd tab !! fd' = Some e -> e <> 0 -> tab !! fd' = Some e.
Proof.
  unfold table_touch, table_at. rewrite lookup_insert_Some. intros [[<- <-]|[_ H]]; [|done].
  by destruct (tab !! fd).
Qed.

(** The table of the loop: every entry is zero or has its node left in the heap. *)
Definition covered (h : list TimerNode) (tab : gmap Z Z) : Prop :=
  forall fd e, tab !! fd = Some e -> e = 0 \/ mkNode fd e ∈ h.

Lemma covered_pop n h tab :
  covered (n :: h) tab -> tn_expire n <> table_at (tn_fd n) tab -> covered h (table_touch (tn_fd n) tab).
Proof.
  intros Hc Hne fd e He. destruct (decide (e = 0)) as [|H0]; [by left|]. right.
  assert (tab !! fd = Some e) as He' by (by eapply table_touch_lookup).
  destruct (Hc fd e He') as [|Hin]; [done|]. apply elem_of_cons in Hin as [<-|]; [|done].
  exfalso. apply Hne. unfold table_at. simpl. by rewrite He'.
Qed.

Lemma covered_fire n h tab :
  covered (n :: h) tab -> covered h (delete (tn_fd n) (table_touch (tn_fd n) tab)).
Proof.
  intros Hc fd e [Hne He]%lookup_delete_Some. destruct (decide (e = 0)) as [|H0]; [by left|]. right.
  assert (tab !! fd = Some e) as He' by (by eapply table_touch_lookup).
  destruct (Hc fd e He') as [|Hin]; [done|]. apply elem_of_cons in Hin as [<-|]; [|done]. done.
Qed.

Lemma table_touch_other fd tab fd' : fd' <> fd -> table_touch fd tab !! fd' = tab !! fd'.
Proof. intros. by apply lookup_insert_ne. Qed.

(** A heap whose nodes are all later than [now] has nothing to fire. *)
Lemma nothing_due now h tab :
  covered h tab -> Forall (fun n => now < tn_expire n) h ->
  (forall fd, fd ∈ [] <-> exists e, tab !! fd = Some e /\ e <> 0 /\ e <= now) /\
  (forall fd e, e <> 0 -> tab !! fd = Some e <-> tab !! fd = Some e /\ now < e).
Proof.
  intros Hc Hl. assert (forall fd e, tab !! fd = Some e -> e <> 0 -> now < e) as Hlate.
  { intros fd e [|Hin]%Hc Hne; [done|]. exact (proj1 (Forall_forall _ _) Hl _ Hin). }
  split; intros fd; [|intros e Hne; split; [eauto|by intros [? _]]].
  split; [by intros ?%not_elem_of_nil|]. intros (e & He & Hne & Hle). pose proof (Hlate fd e He Hne). lia.
Qed.

(** The descriptors [fired] are due, and come in the order of their expiry times. *)
Definition by_expiry (tab : gmap Z Z) (fired : list Z) : Prop :=
  StronglySorted Z.le ((fun fd => table_at fd tab) <$> fired).

Lemma by_expiry_ext tab tab' fired :
  (forall fd, fd ∈ fired -> table_at fd tab' = table_at fd tab) -> by_expiry tab' fired -> by_expiry tab fired.
Proof.
  unfold by_expiry. intros He. assert ((fun fd => table_at fd tab') <$> fired = (fun fd => table_at fd tab) <$> fired) as ->; [|done].
  induction fired as [|fd l IH]; [done|]. rewrite !fmap_cons, He by inlist. f_equal. apply IH. intros x Hx. apply He. inlist.
Qed.

Lemma timeout_loop_spec now h tab :
  StronglySorted Z.le (tn_expire <$> h) -> Forall (fun n => 0 < tn_expire n) h -> covered h tab ->
  exists fired t',
    (forall (C : Type) (cb : Z -> C -> option C) c,
       timeout_loop cb now h tab c = pair t' <$> run_callbacks cb fired c) /\
    NoDup fired /\ by_expiry tab fired /\
    (forall fd, fd ∈ fired <-> exists e, tab !! fd = Some e /\ e <> 0 /\ e <= now) /\
    timers_ok t' /\
    (forall fd e, e <> 0 -> secretTable_ t' !! fd = Some e <-> tab !! fd = Some e /\ now < e) /\
    Forall (fun n => now < tn_expire n) (minHeap_ t').
Proof.
  revert tab. induction h as [|n h IH]; intros tab Hs Hp Hc; cbn [timeout_loop].
  { destruct (nothing_due now [] tab Hc (Forall_nil_2 _)) as [N1 N2].
    exists [], (mkTimers [] tab). split_and!; [done|constructor|constructor|done| |done|constructor].
    split; [constructor|constructor|done]. }
  rewrite fmap_cons in Hs. inversion_clear Hs as [|? ? Hs' Hf]. apply Forall_cons in Hp as [Hp Hp'].
  assert (forall m, m ∈ h -> tn_expire n <= tn_expire m) as Hmin.
  { intros m Hm. rewrite Forall_forall in Hf. apply Hf. apply list_elem_of_fmap. eauto. }
  destruct (now <? tn_expire n) eqn:En; zbool.
  { assert (Forall (fun m => now < tn_expire m) (n :: h)) as Hl.
    { constructor; [done|]. apply Forall_forall. intros m Hm%Hmin. lia. }
    destruct (nothing_due now (n :: h) tab Hc Hl) as [N1 N2].
    exists [], (mkTimers (n :: h) tab). split_and!; try done; [constructor|constructor|]. split; [by constructor|by constructor|done]. }
  destruct (tn_expire n =? table_at (tn_fd n) tab) eqn:Et; simpl; zbool.
  - assert (tab !! tn_fd n = Some (tn_expire n)) as Hn.
    { unfold table_at in Et. destruct (tab !! tn_fd n); simpl in Et; [by f_equal|lia]. }
    destruct (IH _ Hs' Hp' (covered_fire n h tab Hc)) as (fired & t' & F0 & F1 & Fs & F2 & F3 & F4 & F5).
    assert (forall fd, fd ∈ fired -> fd <> tn_fd n /\ exists e, tab !! fd = Some e /\ tn_expire n <= e) as Hrest.
    { intros fd (e & He & Hne & _)%F2. destruct (covered_fire n h tab Hc fd e He) as [|Hin]; [done|].
      apply lookup_delete_Some in He as [Hfd He]. rewrite table_touch_other in He by done.
      split; [done|]. exists e. split; [done|]. apply (Hmin _ Hin). }
    exists (tn_fd n :: fired), t'. split_and!; [| | | |done| |done].
    + intros C cb c. cbn [run_callbacks]. destruct (cb (tn_fd n) c); [apply F0|done].
    + constructor; [|done]. intros Hin%Hrest. tauto.
    + unfold by_expiry. rewrite fmap_cons. constructor.
      * eapply by_expiry_ext; [|exact Fs]. intros fd Hin%Hrest. destruct Hin as [Hfd _].
        unfold table_at. by rewrite lookup_delete_ne, table_touch_other by done.
      * apply Forall_fmap, Forall_forall. intros fd Hin%Hrest. destruct Hin as (_ & e & He & Hle).
        unfold compose, table_at. by rewrite Hn, He.
    + intros fd. rewrite elem_of_cons, F2. split.
      * intros [->|(e & He & Hne & Hle)]; [exists (tn_expire n); split_and!; [done|lia|done]|].
        apply lookup_delete_Some in He as [Hfd He]. rewrite table_touch_other in He by done. eauto.
      * intros (e & He & Hne & Hle). destruct (decide (fd = tn_fd n)) as [|Hfd]; [by left|]. right.
        exists e. rewrite lookup_delete_ne, table_touch_other by done. done.
    + intros fd e Hne. rewrite F4 by done. destruct (decide (fd = tn_fd n)) as [->|Hfd].
      * rewrite lookup_delete_eq, Hn. split; [by intros [? _]|]. intros [[= <-] ?]. lia.
      * by rewrite lookup_delete_ne, table_touch_other by done.
  - destruct (IH _ Hs' Hp' (covered_pop n h tab Hc Et)) as (fired & t' & F0 & F1 & Fs & F2 & F3 & F4 & F5).
    assert (forall fd e, e <> 0 -> table_touch (tn_fd n) tab !! fd = Some e <-> tab !! fd = Some e) as Htouch.
    { intros fd e Hne. split; [intros; by eapply table_touch_lookup|]. intros He.
      destruct (decide (fd = tn_fd n)) as [->|]; [|by rewrite table_touch_other].
      unfold table_touch, table_at. rewrite lookup_insert_eq, He. done. }
    exists fired, t'. split_and!; [done|done| | |done| |done].
    + eapply by_expiry_ext; [|exact Fs]. intros fd (e & He & Hne & _)%F2.
      pose proof (proj1 (Htouch fd e Hne) He) as He'. unfold table_at at 1. rewrite He. unfold table_at. by rewrite He'.
    + intros fd. rewrite F2. split; intros (e & He & Hne & Hle); exists e; [apply Htouch in He|rewrite Htouch]; done.
    + intros fd e Hne. rewrite F4, Htouch by done. done.
Qed.
End Spec.

(** C38: the timer wheel, under any callback: [handleTimeouts] calls the callback exactly once
    for every descriptor whose current expiry has passed, in the order of those expiries, and for
    no other (a descriptor re-armed since, or cancelled, is skipped although its old node is still
    in the heap); its own loop always ends, so it returns exactly when those calls all do, with
    what they made of the rest of the server; then the timers that have not expired are kept, and
    no expired node stays. *)
Theorem handleTimeouts_exact now t :
  timers_ok t ->
  exists fired t',
    (forall (C : Type) (closeCallback : Z -> C -> option C) c,
       handleTimeouts closeCallback now t c = pair t' <$> run_callbacks closeCallback fired c) /\
    NoDup fired /\ by_expiry (secretTable_ t) fired /\
    (forall fd, fd ∈ fired <-> exists e, secretTable_ t !! fd = Some e /\ e <> 0 /\ e <= now) /\
    timers_ok t' /\
    (forall fd e, e <> 0 -> secretTable_ t' !! fd = Some e <-> secretTable_ t !! fd = Some e /\ now < e) /\
    Forall (fun n => now < tn_expire n) (minHeap_ t').
Proof. intros [H1 H2 H3]. by apply (timeout_loop_spec now (minHeap_ t) (secretTable_ t)). Qed.

(** Descriptor 5 is re-armed, 6 expires, 7 is cancelled, 8 expires before 6. *)
Definition sample_timers : TimerManager :=
  cancelTimer 7 (addTimer 2000000000 5 60 (addTimer 1000000000 7 60 (addTimer 1000000000 6 60
    (addTimer 1000000000 5 60 (addTimer 1000000000 8 50 empty_timers))))).

(** A callback that records the descriptors, and one that never returns for descriptor 6. *)
Definition record_fd (fd : Z) (l : list Z) : option (list Z) := Some (l ++ [fd]).
Definition stuck_on_6 (fd : Z) (l : list Z) : option (list Z) := if fd =? 6 then None else record_fd fd l.

Lemma record_fd_all fds l : run_callbacks record_fd fds l = Some (l ++ fds).
Proof.
  revert l. induction fds as [|x fds IH]; intros l; simpl; [by rewrite app_nil_r|]. by rewrite IH, <- app_assoc.
Qed.

Lemma handleTimeouts_exact_witness :
  exists fired, fired = [8; 6] /\ NoDup fired /\
    (exists t', handleTimeouts record_fd 61000000000 sample_timers [] = Some (t', fired)) /\
    handleTimeouts stuck_on_6 61000000000 sample_timers [] = None.
Proof.
  destruct (handleTimeouts_exact 61000000000 sample_timers) as (fired & t' & E & Hn & _).
  - apply cancelTimer_ok. repeat (apply addTimer_ok; [|lia|lia]). apply timers_ok_empty.
  - assert (fired = [8; 6]) as ->.
    { pose proof (E _ record_fd []) as Er. assert (run_callbacks record_fd fired [] = Some fired) as Hr.
      { apply (record_fd_all fired []). }
      rewrite Hr in Er. vm_compute in Er. congruence. }
    exists [8; 6]. split; [done|]. split; [exact Hn|]. split; [exists t'|]; rewrite E; reflexivity.
Defined.
