(* ===== verification/Connections.v ===== *)
(** * Connections: the session table and the TCP server

    [include/SessionManager.hpp], [include/TcpServer.h] and [src/server/TcpServer.cpp]: the
    table of sessions indexed by descriptor, the accept loop, the dispatch of readiness events
    to the thread pool, and the clean-up of connections on errors and timeouts. *)

From S2P Require Import Prelude Bytes Session Framing Timers.
From stdpp Require Import base list gmap.
From Stdlib Require Import ZArith Lia.
Local Open Scope Z_scope.

(** ** [SessionManager] *)

Definition MAX_FD : Z := 65535.

(** The slots that are not null. *)
Abbreviation SessionManager := (gmap Z Session).

Definition createSession (fd : Z) (t : SessionManager) : SessionManager :=
  if fd <? MAX_FD then <[fd := new_session fd]> t else t.

Definition getSession (fd : Z) (t : SessionManager) : option Session :=
  if MAX_FD <=? fd then None else t !! fd.

Definition removeSession (fd : Z) (t : SessionManager) : SessionManager :=
  if fd <? MAX_FD then delete fd t else t.

(** [sessions_\[fd\] == nullptr], with no test of the index: [None] is a read outside the array. *)
Definition hasSession (fd : Z) (t : SessionManager) : option bool :=
  if (0 <=? fd) && (fd <? MAX_FD) then Some (bool_decide (t !! fd = None)) else None.

(** ** [TcpServer] *)

(** The sessions, the descriptors passed to [close] in order, the timers, the descriptors epoll
    watches (armed or waiting to be re-armed: [EPOLLONESHOT]), and the tasks in the pool. *)
Record TcpServer := mkServer {
  ts_sessions : SessionManager;
  ts_closed : list Z;
  ts_timer : TimerManager;
  ts_epoll : gmap Z bool;
  ts_tasks : list Z
}.

Definition set_sessions (t : SessionManager) (ts : TcpServer) : TcpServer :=
  mkServer t (ts_closed ts) (ts_timer ts) (ts_epoll ts) (ts_tasks ts).
Definition set_timer (t : TimerManager) (ts : TcpServer) : TcpServer :=
  mkServer (ts_sessions ts) (ts_closed ts) t (ts_epoll ts) (ts_tasks ts).
Definition set_epoll (e : gmap Z bool) (ts : TcpServer) : TcpServer :=
  mkServer (ts_sessions ts) (ts_closed ts) (ts_timer ts) e (ts_tasks ts).

(** [SessionManager::cleanConnection(fd)]. *)
Definition cleanConnection (fd : Z) (ts : TcpServer) : TcpServer :=
  mkServer (removeSession fd (ts_sessions ts)) (ts_closed ts ++ [fd]) (ts_timer ts) (ts_epoll ts) (ts_tasks ts).

(** [addEvent]: [EPOLL_CTL_ADD] fails on a descriptor that is watched already. *)
Definition addEvent (fd : Z) (ts : TcpServer) : TcpServer :=
  match ts_epoll ts !! fd with
  | None => set_epoll (<[fd := true]> (ts_epoll ts)) ts
  | Some _ => ts
  end.
(** [EPOLL_CTL_MOD]: fails on a descriptor that is not watched. *)
Definition rearm (fd : Z) (ts : TcpServer) : TcpServer :=
  match ts_epoll ts !! fd with
  | Some _ => set_epoll (<[fd := true]> (ts_epoll ts)) ts
  | None => ts
  end.

(** What [accept] answers. *)
Inductive accept_result := Accepted (fd : Z) | AcceptAgain | AcceptError.

Definition admit_connection (now fd : Z) (ts : TcpServer) : TcpServer :=
  let ts1 := set_sessions (createSession fd (ts_sessions ts)) ts in
  let ts2 := addEvent fd ts1 in
  set_timer (addTimer now fd 60 (ts_timer ts2)) ts2.

(** The accept loop; [None]: the outcomes run out before [accept] fails.  The options set on the
    new socket ([O_NONBLOCK], [TCP_NODELAY]) change nothing here. *)
Fixpoint acceptConnection (now : Z) (outs : list accept_result) (ts : TcpServer) : option TcpServer :=
  match outs with
  | [] => None
  | Accepted fd :: outs' => acceptConnection now outs' (admit_connection now fd ts)
  | AcceptAgain :: _ | AcceptError :: _ => Some ts
  end.

(** A readiness event of a connection: epoll disarms it, the timer is renewed, a task queued. *)
Definition connection_event (now fd : Z) (ts : TcpServer) : TcpServer :=
  mkServer (ts_sessions ts) (ts_closed ts) (addTimer now fd 60 (ts_timer ts))
    (match ts_epoll ts !! fd with Some _ => <[fd := false]> (ts_epoll ts) | None => ts_epoll ts end)
    (ts_tasks ts ++ [fd]).

(** A step that may not come back: a read outside [sessions_], or a lock of [mtx_] by the
    thread that holds it. *)
Inductive outcome := Done (ts : TcpServer) | OutOfBounds | Deadlock.

(** [doCleanup(fd)]; [held]: the caller holds the timers' [mtx_], which [cancelTimer] locks. *)
Definition doCleanup (held : bool) (fd : Z) (ts : TcpServer) : outcome :=
  match hasSession fd (ts_sessions ts) with
  | None => OutOfBounds
  | Some false => Done ts
  | Some true =>
      if held then Deadlock
      else Done (cleanConnection fd (set_timer (cancelTimer fd (ts_timer ts)) (set_epoll (delete fd (ts_epoll ts)) ts)))
  end.

(** The callback [start] gives to [handleTimeouts], which calls it with [mtx_] held. *)
Definition timeout_callback (fd : Z) (ts : TcpServer) : option TcpServer :=
  match hasSession fd (ts_sessions ts) with
  | None => None
  | Some false => Some ts
  | Some true => match doCleanup true fd ts with Done ts' => Some ts' | _ => None end
  end.

(** The timeout phase of an iteration of [start]. *)
Definition timeout_phase (now : Z) (ts : TcpServer) : option TcpServer :=
  match handleTimeouts timeout_callback now (ts_timer ts) ts with
  | Some (t', ts') => Some (set_timer t' ts')
  | None => None
  end.

Section Worker.
Context {St : Type} (handler : HandlerKind -> Session -> bytes -> Z -> St -> option bytes * Session * St) (router : Router).

(** The task of a readiness event, run by a worker of the pool: the server, the state of the
    handlers and the bytes sent.  [None]: blocked in [recv] or [send]. *)
Definition worker_task (fd : Z) (recvs : list recv_result) (sends : list send_result) (st : St) (ts : TcpServer)
    : option (outcome * St * bytes) :=
  match MyEchoBusiness handler router (getSession fd (ts_sessions ts)) recvs sends st with
  | None => None
  | Some r =>
      let ts1 :=
        match getSession fd (ts_sessions ts), er_session r with
        | Some _, Some s' => set_sessions (<[fd := s']> (ts_sessions ts)) ts
        | Some _, None => cleanConnection fd ts
        | None, _ => ts
        end in
      Some (if keepAlive r then Done (rearm fd ts1) else doCleanup false fd ts1, er_state r, er_wire r)
  end.
End Worker.

(** ** Theorems *)

(** A callback that leaves its state alone, or does not return. *)
Lemma run_callbacks_unchanged {C} (cb : Z -> C -> option C) (c : C) fds :
  (forall fd, cb fd c = Some c \/ cb fd c = None) ->
  (Forall (fun fd => cb fd c = Some c) fds -> run_callbacks cb fds c = Some c) /\
  (Exists (fun fd => cb fd c = None) fds -> run_callbacks cb fds c = None).
Proof.
  intros Hcb. induction fds as [|fd l [IH1 IH2]]; simpl; [split; [done|by intros ?%Exists_nil]|]. split.
  - intros [-> Hf]%Forall_cons. by apply IH1.
  - intros [->|Hf]%Exists_cons; [done|]. destruct (Hcb fd) as [->| ->]; [by apply IH2|done].
Qed.

Lemma timeout_callback_cases ts fd :
  timeout_callback fd ts = if bool_decide (0 <= fd < MAX_FD /\ is_Some (ts_sessions ts !! fd)) then Some ts else None.
Proof.
  unfold timeout_callback, doCleanup, hasSession.
  destruct (Z.leb_spec 0 fd), (Z.ltb_spec fd MAX_FD); simpl;
    destruct (ts_sessions ts !! fd) as [s|] eqn:E;
    repeat (case_bool_decide; try done); try (destruct_and?; unfold is_Some in *; naive_solver lia); exfalso; naive_solver.
Qed.

(** [hasSession] is inverted, so the idle timeout never closes a connection: whatever the
    timers, the timeout phase leaves the sessions, the epoll set and the closed descriptors as
    they are; and it returns only if every expired descriptor still has its session.  If one has
    none, the server's main thread blocks forever on the timers' own mutex. *)
Theorem idle_timeout_closes_nothing now ts (Ht : timers_ok (ts_timer ts)) :
  let expired fd := exists e, secretTable_ (ts_timer ts) !! fd = Some e /\ e <> 0 /\ e <= now in
  ((forall fd, expired fd -> 0 <= fd < MAX_FD /\ is_Some (ts_sessions ts !! fd)) ->
     exists t', timeout_phase now ts = Some (set_timer t' ts)) /\
  ((exists fd, expired fd /\ ts_sessions ts !! fd = None) -> timeout_phase now ts = None).
Proof.
  intros expired. destruct Ht as [H1 H2 H3].
  destruct (timeout_loop_spec now (minHeap_ (ts_timer ts)) (secretTable_ (ts_timer ts)) H1 H2 H3)
    as (fired & t' & E & _ & _ & Hf & _).
  assert (forall fd, timeout_callback fd ts = Some ts \/ timeout_callback fd ts = None) as Hcb.
  { intros fd. rewrite timeout_callback_cases. case_bool_decide; auto. }
  destruct (run_callbacks_unchanged timeout_callback ts fired Hcb) as [R1 R2].
  unfold timeout_phase, handleTimeouts. rewrite E. split.
  - intros Hall. exists t'. rewrite R1; [done|]. apply Forall_forall. intros fd Hin.
    rewrite timeout_callback_cases, bool_decide_true; [done|]. apply Hall. by apply Hf.
  - intros (fd & He & Hn). rewrite R2; [done|]. apply Exists_exists. exists fd. split; [by apply Hf|].
    rewrite timeout_callback_cases, bool_decide_false; [done|]. rewrite Hn. intros [_ [? ?]]. done.
Qed.

(** For the same reason a connection the peer closed is closed twice: the connection handler
    closes the descriptor and drops the session, and [doCleanup], which returns early for live
    sessions, then finds the empty slot and closes the descriptor number again. *)
Theorem closed_connection_closed_twice {St : Type}
  (handler : HandlerKind -> Session -> bytes -> Z -> St -> option bytes * Session * St) router fd s data sends st ts
  (Hfd : 0 <= fd < MAX_FD) (Hs : ts_sessions ts !! fd = Some s) :
  exists ts', worker_task handler router fd [RecvData data; RecvClosed] sends st ts = Some (Done ts', st, []) /\
    ts_closed ts' = ts_closed ts ++ [fd; fd] /\ ts_sessions ts' = delete fd (ts_sessions ts) /\
    ts_epoll ts' = delete fd (ts_epoll ts) /\ secretTable_ (ts_timer ts') !! fd = None.
Proof.
  unfold worker_task, getSession. rewrite (proj2 (Z.leb_gt _ _)) by lia. rewrite Hs. simpl.
  unfold doCleanup, hasSession. rewrite (proj2 (Z.leb_le _ _)), (proj2 (Z.ltb_lt _ _)) by lia. simpl.
  unfold removeSession. rewrite (proj2 (Z.ltb_lt _ _)) by lia.
  rewrite bool_decide_true by apply lookup_delete_eq.
  eexists. split; [reflexivity|]. simpl. rewrite <- app_assoc. split_and!; [done| |done|apply lookup_delete_eq].
  unfold removeSession. rewrite (proj2 (Z.ltb_lt _ _)) by lia. by rewrite delete_delete_eq.
Qed.

(** A server with one connection, on descriptor 5, idle for more than a minute. *)
Definition idle_server : TcpServer :=
  admit_connection 1000000000 5 (mkServer ∅ [] empty_timers ∅ []).

Lemma idle_timers_ok : timers_ok (ts_timer idle_server).
Proof. apply (addTimer_ok 1000000000 5 60 empty_timers); [apply timers_ok_empty|lia|lia]. Qed.

Lemma idle_timeout_closes_nothing_witness :
  exists t', timeout_phase 61000000001 idle_server = Some (set_timer t' idle_server) /\
    secretTable_ (ts_timer idle_server) !! 5 = Some 61000000000.
Proof.
  destruct (idle_timeout_closes_nothing 61000000001 idle_server idle_timers_ok) as [H _].
  destruct H as [t' H].
  - intros fd (e & He & _ & _). change (({[ 5 := 61000000000 ]} : gmap Z Z) !! fd = Some e) in He.
    apply lookup_singleton_Some in He as [<- <-]. split; [unfold MAX_FD; lia|]. vm_compute. eauto.
  - exists t'. split; [exact H|reflexivity].
Defined.

Lemma closed_connection_closed_twice_witness :
  exists ts', worker_task (fun _ s _ _ st => (Some [], s, st)) ∅ 5 [RecvData [1]; RecvClosed] [] tt idle_server =
    Some (Done ts', tt, []) /\ ts_closed ts' = [5; 5].
Proof.
  destruct (closed_connection_closed_twice (fun _ s _ _ st => (Some [], s, st)) ∅ 5 (new_session 5) [1] [] tt idle_server)
    as (ts' & E & Hc & _).
  - unfold MAX_FD. lia.
  - vm_compute. reflexivity.
  - exists ts'. split; [exact E|exact Hc].
Defined.
