(* ===== verification/EventLoop.v ===== *)
(** * The event loop and its threads

    [src/server/TcpServer.cpp]: the set-up of the listening socket as a sequence of system calls,
    the loop of [start], and the server as a transition system in which the main thread and the
    workers of the pool interleave at every access to the slots of [sessions_], to epoll, to the
    timers, to the queue of tasks and to the descriptors themselves.  Connections.v has the same
    operations as functions; the theorems about both are in EventLoopTheorems.v. *)

From S2P Require Import Prelude Bytes Session Framing Timers Connections.
From stdpp Require Import base list gmap.
From Stdlib Require Import ZArith Lia.
Local Open Scope Z_scope.

(** ** The constructor and the destructor

    What the kernel answers to a call may depend on the calls before it, so it is a function of
    the trace.  A computation extends the trace and returns, or ends the process ([None]). *)

Inductive Syscall :=
| Socket
| SetReuseAddr (fd : Z)
| SetNoDelay (fd : Z)
| Bind (fd : Z) (sin_port : bytes)
| LogBindError (port : Z)
| Exit
| Listen (fd backlog : Z)
| GetFlags (fd : Z)
| SetFlags (fd flags : Z)
| EpollCreate
| EpollAdd (epfd fd events : Z)
| Close (fd : Z).

#[export] Instance Syscall_eq_dec : EqDecision Syscall.
Proof. solve_decision. Defined.

(** Newest first. *)
Definition trace := list Syscall.

Definition EPOLLIN : Z := 1.
Definition O_NONBLOCK : Z := 2048.

Section Setup.
Variable kernel : trace -> Syscall -> Z.

Definition Proc (A : Type) : Type := trace -> trace * option A.
#[export] Instance Proc_ret : MRet Proc := fun A a t => (t, Some a).
#[export] Instance Proc_bind : MBind Proc :=
  fun A B f m t => match m t with (t', Some a) => f a t' | (t', None) => (t', None) end.
Definition syscall (c : Syscall) : Proc Z := fun t => (c :: t, Some (kernel t c)).
Definition exit_process {A} : Proc A := fun t => (Exit :: t, None).

Definition setNonBlocking (fd : Z) : Proc Z :=
  flags ← syscall (GetFlags fd); syscall (SetFlags fd (Z.lor flags O_NONBLOCK)).

(** [htons] takes 16 bits of the [int]; the bytes of [sin_port]. *)
Definition sin_port (port : Z) : bytes := [u8 (Z.shiftr (u16 port) 8); u8 (u16 port)].

Definition initSocket (port : Z) : Proc Z :=
  listenFd ← syscall Socket;
  syscall (SetReuseAddr listenFd);;
  syscall (SetNoDelay listenFd);;
  r ← syscall (Bind listenFd (sin_port port));
  if r <? 0 then syscall (LogBindError port);; exit_process
  else
    syscall (Listen listenFd 4096);;
    setNonBlocking listenFd;;
    mret listenFd.

(** [listenFd_] and [epollFd_]. *)
Definition TcpServer_new (port : Z) : Proc (Z * Z) :=
  listenFd ← initSocket port;
  epollFd ← syscall EpollCreate;
  syscall (EpollAdd epollFd listenFd EPOLLIN);;
  mret (listenFd, epollFd).

Definition close_unless_none (fd : Z) : Proc Z := if fd =? -1 then mret 0 else syscall (Close fd).

Definition TcpServer_delete (fds : Z * Z) : Proc Z :=
  close_unless_none fds.1;; close_unless_none fds.2.
End Setup.

(** ** One iteration of [start] *)

(** [EPOLLONESHOT]: a reported connection is not watched until it is re-armed; the listening
    descriptor stays watched. *)
Fixpoint disarm (listenFd : Z) (evs : list Z) (e : gmap Z bool) : gmap Z bool :=
  match evs with
  | [] => e
  | fd :: evs' => disarm listenFd evs' (if fd =? listenFd then e else <[fd := false]> e)
  end.

Definition push_task (fd : Z) (ts : TcpServer) : TcpServer :=
  mkServer (ts_sessions ts) (ts_closed ts) (ts_timer ts) (ts_epoll ts) (ts_tasks ts ++ [fd]).

(** The events in order; with an event of the listening descriptor, what [accept] answers then. *)
Fixpoint dispatch_events (listenFd now : Z) (evs : list (Z * list accept_result)) (ts : TcpServer) : option TcpServer :=
  match evs with
  | [] => Some ts
  | (fd, outs) :: evs' =>
      if fd =? listenFd then
        match acceptConnection now outs ts with
        | Some ts' => dispatch_events listenFd now evs' ts'
        | None => None
        end
      else dispatch_events listenFd now evs' (push_task fd (set_timer (addTimer now fd 60 (ts_timer ts)) ts))
  end.

Definition start_iteration (listenFd now : Z) (evs : list (Z * list accept_result)) (ts : TcpServer) : option TcpServer :=
  match dispatch_events listenFd now evs (set_epoll (disarm listenFd (fst <$> evs) (ts_epoll ts)) ts) with
  | Some ts' => timeout_phase now ts'
  | None => None
  end.

(** ** The threads *)

(** Where a worker is with its descriptor: about to call [getSession]; in the connection handler
    with the object it got; about to re-arm; in [cleanConnection] of the handler, the slot
    emptied; then in [doCleanup]: before [hasSession], [EPOLL_CTL_DEL], [cancelTimer],
    [removeSession] and [close]. *)
Inductive task_stage := WGet | WIn (obj : nat) | WRearm | WClosing | WCheck | WDel | WCancel | WRemove | WClose.

(** Where the main thread is, with the events of the batch it has not dispatched. *)
Inductive main_pc :=
| PWait
| PBatch (evs : list Z)
| PEnqueue (fd : Z) (evs : list Z)
| PAccept (evs : list Z)
| PCreate (fd : Z) (evs : list Z)
| PWatch (fd : Z) (evs : list Z)
| PArm (fd : Z) (evs : list Z).

(** [sys_obj] names the object each slot of [sessions_] points to, [sys_next] the next name;
    [sys_open] are the connections accepted and not closed since. *)
Record Sys := mkSys {
  sys_net : TcpServer;
  sys_obj : gmap Z nat;
  sys_next : nat;
  sys_open : gset Z;
  sys_pc : main_pc;
  sys_workers : list (Z * task_stage)
}.

Definition set_net (ts : TcpServer) (s : Sys) : Sys :=
  mkSys ts (sys_obj s) (sys_next s) (sys_open s) (sys_pc s) (sys_workers s).
Definition set_pc (pc : main_pc) (s : Sys) : Sys :=
  mkSys (sys_net s) (sys_obj s) (sys_next s) (sys_open s) pc (sys_workers s).
Definition set_workers (ws : list (Z * task_stage)) (s : Sys) : Sys :=
  mkSys (sys_net s) (sys_obj s) (sys_next s) (sys_open s) (sys_pc s) ws.

(** [createSession]: a new object; the old one is deleted with its slot. *)
Definition sys_create (fd : Z) (s : Sys) : Sys :=
  mkSys (set_sessions (createSession fd (ts_sessions (sys_net s))) (sys_net s))
    (if fd <? MAX_FD then <[fd := sys_next s]> (sys_obj s) else sys_obj s)
    (S (sys_next s)) (sys_open s) (sys_pc s) (sys_workers s).
(** [removeSession]: the object is deleted. *)
Definition sys_remove (fd : Z) (s : Sys) : Sys :=
  mkSys (set_sessions (removeSession fd (ts_sessions (sys_net s))) (sys_net s))
    (if fd <? MAX_FD then delete fd (sys_obj s) else sys_obj s)
    (sys_next s) (sys_open s) (sys_pc s) (sys_workers s).
(** [close]: the kernel frees the number, and epoll forgets it. *)
Definition sys_close (fd : Z) (s : Sys) : Sys :=
  let ts := sys_net s in
  mkSys (mkServer (ts_sessions ts) (ts_closed ts ++ [fd]) (ts_timer ts) (delete fd (ts_epoll ts)) (ts_tasks ts))
    (sys_obj s) (sys_next s) (sys_open s ∖ {[fd]}) (sys_pc s) (sys_workers s).
(** [EPOLL_CTL_ADD] fails on a descriptor that is not open. *)
Definition sys_watch (fd : Z) (s : Sys) : Sys :=
  if bool_decide (fd ∈ sys_open s) then set_net (addEvent fd (sys_net s)) s else s.

Inductive net_action :=
| AWait (evs : list Z)
| ATouch (now : Z)
| AEnqueue
| AAccept (r : accept_result)
| ACreate
| AWatch
| AArm (now : Z)
| ATimeouts (now : Z)
| ATake
| AReturn (i : nat) (r : option Session)
| AWork (i : nat).

Section Exec.
Variable listenFd : Z.

(** What [epoll_wait] can report: distinct watched descriptors, at most 1024. *)
Definition ready (evs : list Z) (e : gmap Z bool) : bool :=
  bool_decide (NoDup evs) && (length evs <=? 1024)%nat &&
  forallb (fun fd => (fd =? listenFd) || bool_decide (e !! fd = Some true)) evs.

Definition main_exec (a : net_action) (s : Sys) : option Sys :=
  let ts := sys_net s in
  match a, sys_pc s with
  | AWait evs, PWait =>
      if ready evs (ts_epoll ts) then Some (set_pc (PBatch evs) (set_net (set_epoll (disarm listenFd evs (ts_epoll ts)) ts) s))
      else None
  | ATouch now, PBatch (fd :: evs) =>
      if fd =? listenFd then Some (set_pc (PAccept evs) s)
      else Some (set_pc (PEnqueue fd evs) (set_net (set_timer (addTimer now fd 60 (ts_timer ts)) ts) s))
  | AEnqueue, PEnqueue fd evs => Some (set_pc (PBatch evs) (set_net (push_task fd ts) s))
  | AAccept (Accepted fd), PAccept evs =>
      (* the kernel gives a number that is not in use *)
      if bool_decide (fd ∉ sys_open s) && (0 <=? fd) && negb (fd =? listenFd)
      then Some (mkSys ts (sys_obj s) (sys_next s) ({[fd]} ∪ sys_open s) (PCreate fd evs) (sys_workers s))
      else None
  | AAccept AcceptAgain, PAccept evs | AAccept AcceptError, PAccept evs => Some (set_pc (PBatch evs) s)
  | ACreate, PCreate fd evs => Some (set_pc (PWatch fd evs) (sys_create fd s))
  | AWatch, PWatch fd evs => Some (set_pc (PArm fd evs) (sys_watch fd s))
  | AArm now, PArm fd evs =>
      Some (set_pc (PAccept evs) (set_net (set_timer (addTimer now fd 60 (ts_timer ts)) ts) s))
  | ATimeouts now, PBatch [] =>
      match timeout_phase now ts with
      | Some ts' => Some (set_pc PWait (set_net ts' s))
      | None => None
      end
  | _, _ => None
  end.

(** The next stage ([None]: the task is done) and the state; [None]: undefined behaviour. *)
Definition work_step (fd : Z) (st : task_stage) (s : Sys) : option (option task_stage * Sys) :=
  let ts := sys_net s in
  match st with
  | WGet =>
      match getSession fd (ts_sessions ts), sys_obj s !! fd with
      | Some _, Some o => Some (Some (WIn o), s)
      | _, _ => Some (Some WCheck, s)
      end
  | WIn _ => None
  | WRearm => Some (None, set_net (rearm fd ts) s)
  | WClosing => Some (Some WCheck, sys_close fd s)
  | WCheck =>
      match hasSession fd (ts_sessions ts) with
      | None => None
      | Some false => Some (None, s)
      | Some true => Some (Some WDel, s)
      end
  | WDel => Some (Some WCancel, set_net (set_epoll (delete fd (ts_epoll ts)) ts) s)
  | WCancel => Some (Some WRemove, set_net (set_timer (cancelTimer fd (ts_timer ts)) ts) s)
  | WRemove => Some (Some WClose, sys_remove fd s)
  | WClose => Some (None, sys_close fd s)
  end.

(** The connection handler returns: it kept the connection and left [Some] session, or dropped
    the session.  [None]: the object it worked on has been deleted. *)
Definition handler_return (fd : Z) (o : nat) (r : option Session) (s : Sys) : option (task_stage * Sys) :=
  if bool_decide (sys_obj s !! fd = Some o) then
    Some match r with
         | Some x => (WRearm, set_net (set_sessions (<[fd := x]> (ts_sessions (sys_net s))) (sys_net s)) s)
         | None => (WClosing, sys_remove fd s)
         end
  else None.

Definition net_exec (a : net_action) (s : Sys) : option Sys :=
  match a with
  | ATake =>
      match ts_tasks (sys_net s) with
      | fd :: rest =>
          let ts := sys_net s in
          Some (set_workers (sys_workers s ++ [(fd, WGet)])
                 (set_net (mkServer (ts_sessions ts) (ts_closed ts) (ts_timer ts) (ts_epoll ts) rest) s))
      | [] => None
      end
  | AReturn i r =>
      match sys_workers s !! i with
      | Some (fd, WIn o) =>
          match handler_return fd o r s with
          | Some (st, s') => Some (set_workers (<[i := (fd, st)]> (sys_workers s)) s')
          | None => None
          end
      | _ => None
      end
  | AWork i =>
      match sys_workers s !! i with
      | Some (fd, st) =>
          match work_step fd st s with
          | Some (Some st', s') => Some (set_workers (<[i := (fd, st')]> (sys_workers s)) s')
          | Some (None, s') => Some (set_workers (delete i (sys_workers s)) s')
          | None => None
          end
      | None => None
      end
  | _ => main_exec a s
  end.

Fixpoint net_run (l : list net_action) (s : Sys) : option Sys :=
  match l with
  | [] => Some s
  | a :: l' => match net_exec a s with Some s' => net_run l' s' | None => None end
  end.

(** The server after the constructor. *)
Definition sys_start : Sys :=
  mkSys (mkServer ∅ [] empty_timers {[ listenFd := true ]} []) ∅ 0 ∅ PWait [].
End Exec.
