(* ===== verification/EventLoopInvariant.v ===== *)
(** * Who owns a connection

    The invariant of the transition system of EventLoop.v: at any time a connection is watched by
    epoll, in the batch of the main thread, in the queue of tasks or with one worker, and only in
    one of these, as long as no descriptor number is given out again while a worker still cleans
    up its last connection.  It is proved for each step of the workers, then for each step of the
    main thread. *)

From S2P Require Import Prelude Bytes Session Framing Timers Connections EventLoop.
From stdpp Require Import base list gmap.
From Stdlib Require Import ZArith Lia.
Local Open Scope Z_scope.

(** ** One owner for each connection *)

Section Invariant.
Context (listenFd : Z).
Implicit Types (s : Sys) (o : gset Z) (m : gmap Z nat).

Definition conns_of (evs : list Z) : list Z := filter (fun fd => fd <> listenFd) evs.

(** The connections whose event the main thread has yet to hand over. *)
Definition conns_pc (pc : main_pc) : list Z :=
  match pc with
  | PWait => []
  | PEnqueue fd evs => fd :: conns_of evs
  | PBatch evs | PAccept evs | PCreate _ evs | PWatch _ evs | PArm _ evs => conns_of evs
  end.

Definition queued s : list Z := conns_pc (sys_pc s) ++ ts_tasks (sys_net s).
Definition busy s : list Z := queued s ++ (fst <$> sys_workers s).

(** What a worker may rely on, by the open connections and the objects in the slots. *)
Definition worker_ok o m (w : Z * task_stage) : Prop :=
  match w.2 with
  | WGet | WRearm => w.1 ∈ o /\ is_Some (m !! w.1)
  | WIn obj => w.1 ∈ o /\ m !! w.1 = Some obj
  | WClosing => w.1 ∈ o /\ m !! w.1 = None
  | WCheck | WDel | WCancel | WRemove | WClose => w.1 ∉ o /\ m !! w.1 = None
  end.

(** The connection just accepted is nobody's yet. *)
Definition admitting s (fd : Z) : Prop :=
  fd ∈ sys_open s /\ fd ∉ busy s /\ ts_epoll (sys_net s) !! fd = None.

Record inv s : Prop := {
  iv_nodup : NoDup (busy s);
  iv_busy fd : fd ∈ busy s -> ts_epoll (sys_net s) !! fd <> Some true /\ fd <> listenFd /\ 0 <= fd < MAX_FD;
  iv_queued fd : fd ∈ queued s -> fd ∈ sys_open s /\ is_Some (sys_obj s !! fd);
  iv_workers w : w ∈ sys_workers s -> worker_ok (sys_open s) (sys_obj s) w;
  iv_epoll fd b : fd <> listenFd -> ts_epoll (sys_net s) !! fd = Some b ->
    fd ∈ sys_open s /\ (b = true -> is_Some (sys_obj s !! fd));
  iv_open fd : fd ∈ sys_open s -> fd <> listenFd /\ 0 <= fd < MAX_FD;
  iv_pc : match sys_pc s with
          | PCreate fd _ => admitting s fd
          | PWatch fd _ => admitting s fd /\ is_Some (sys_obj s !! fd)
          | _ => True
          end;
  iv_dom fd : is_Some (sys_obj s !! fd) <-> is_Some (ts_sessions (sys_net s) !! fd)
}.

(** A descriptor number is given out again only when no worker is left with it. *)
Definition careful (a : net_action) s : Prop :=
  match a with
  | AAccept (Accepted fd) => fd < MAX_FD /\ fd ∉ (fst <$> sys_workers s)
  | _ => True
  end.

Inductive reach : Sys -> Prop :=
| reach_start : reach (sys_start listenFd)
| reach_step s a s' : reach s -> careful a s -> net_exec listenFd a s = Some s' -> reach s'.

Lemma inv_start : inv (sys_start listenFd).
Proof.
  split; unfold busy, queued; simpl; try set_solver; try (by constructor).
  - intros fd b Hne [? _]%lookup_singleton_Some. congruence.
  - intros fd. rewrite !lookup_empty. by split.
Qed.

Lemma disarm_lookup evs e fd : ~ (fd ∈ conns_of evs) -> disarm listenFd evs e !! fd = e !! fd.
Proof.
  unfold conns_of. revert e. induction evs as [|x evs IH]; intros e H; simpl; [done|].
  rewrite filter_cons in H. case_decide as Hx; rewrite IH; try set_solver.
  - rewrite (proj2 (Z.eqb_neq _ _) Hx). rewrite lookup_insert_ne; set_solver.
  - rewrite (proj2 (Z.eqb_eq _ _)); [done|]. destruct (decide (x = listenFd)); tauto.
Qed.

Lemma disarm_conn evs e fd : fd ∈ conns_of evs -> disarm listenFd evs e !! fd = Some false.
Proof.
  unfold conns_of. revert e. induction evs as [|x evs IH]; intros e H; simpl; [set_solver|].
  rewrite filter_cons in H.
  destruct (decide (fd ∈ filter (fun fd => fd <> listenFd) evs)); [by apply IH|].
  rewrite disarm_lookup by done. case_decide as Hx; [|set_solver].
  assert (fd = x) as -> by set_solver. rewrite (proj2 (Z.eqb_neq _ _) Hx). apply lookup_insert_eq.
Qed.

Lemma ready_spec evs e :
  ready listenFd evs e = true -> NoDup evs /\ forall fd, fd ∈ conns_of evs -> fd <> listenFd /\ e !! fd = Some true.
Proof.
  unfold ready, conns_of. intros [[H1 _]%andb_true_iff H2]%andb_true_iff. apply bool_decide_eq_true in H1.
  split; [done|]. intros fd [Hne Hin]%list_elem_of_filter. split; [done|].
  rewrite forallb_forall in H2. apply list_elem_of_In, H2, orb_true_iff in Hin as [?%Z.eqb_eq|?%bool_decide_eq_true]; done.
Qed.

Lemma worker_ok_frame o m o' m' fd w :
  w.1 <> fd -> (forall x, x <> fd -> x ∈ o' <-> x ∈ o) -> (forall x, x <> fd -> m' !! x = m !! x) ->
  worker_ok o m w -> worker_ok o' m' w.
Proof. intros Hne Ho Hm. unfold worker_ok. rewrite (Hm _ Hne). pose proof (Ho _ Hne). destruct w.2; tauto. Qed.

(** A step of a worker, seen from outside: only its own descriptor is touched. *)
Lemma inv_worker fd s s' :
  inv s -> fd ∈ (fst <$> sys_workers s) -> sys_pc s' = sys_pc s ->
  ts_tasks (sys_net s') = ts_tasks (sys_net s) ->
  (forall x, x <> fd -> (x ∈ sys_open s' <-> x ∈ sys_open s) /\ sys_obj s' !! x = sys_obj s !! x /\
     ts_epoll (sys_net s') !! x = ts_epoll (sys_net s) !! x /\
     (is_Some (ts_sessions (sys_net s') !! x) <-> is_Some (ts_sessions (sys_net s) !! x))) ->
  (fst <$> sys_workers s') ⊆+ (fst <$> sys_workers s) ->
  (forall w, w ∈ sys_workers s' -> (w ∈ sys_workers s /\ w.1 <> fd) \/ (w.1 = fd /\ worker_ok (sys_open s') (sys_obj s') w)) ->
  (ts_epoll (sys_net s') !! fd = Some true -> fd ∉ (fst <$> sys_workers s')) ->
  (forall b, ts_epoll (sys_net s') !! fd = Some b -> fd ∈ sys_open s' /\ (b = true -> is_Some (sys_obj s' !! fd))) ->
  (fd ∈ sys_open s' -> fd ∈ sys_open s) ->
  (is_Some (sys_obj s' !! fd) <-> is_Some (ts_sessions (sys_net s') !! fd)) -> inv s'.
Proof.
  intros [Hnd Hb Hq Hw He Ho Hp Hd] Hfd Epc Et Hout Hsub Hws Htrue Hep Hop Hdom.
  assert (queued s' = queued s) as Eq by (unfold queued; by rewrite Epc, Et).
  assert (fd ∉ queued s) as Hnq.
  { intros Hin. apply NoDup_app in Hnd as (_ & Hx & _). by apply (Hx fd). }
  assert (forall x, x ∈ busy s' -> x ∈ busy s) as Hbs.
  { intros x. unfold busy. rewrite Eq, !elem_of_app. intros [?|Hx]; [by left|right].
    by eapply elem_of_submseteq. }
  assert (fd ∈ busy s) as Hfb by (unfold busy; rewrite elem_of_app; by right).
  assert (forall x, x ∈ busy s -> x <> fd \/ x = fd) as Hdec by (intros x _; destruct (decide (x = fd)); auto).
  split.
  - unfold busy. rewrite Eq. eapply NoDup_sub; [by apply submseteq_skips_l|done].
  - intros x Hx. destruct (decide (x = fd)) as [->|Hne].
    + split; [|apply Hb; auto]. intros E. apply (Htrue E). unfold busy in Hx. rewrite Eq in Hx. set_solver.
    + destruct (Hout x Hne) as (_ & _ & -> & _). auto.
  - intros x Hx. rewrite Eq in Hx. destruct (decide (x = fd)) as [->|Hne]; [done|].
    destruct (Hout x Hne) as (-> & -> & _). auto.
  - intros w [[Hin Hne]|[_ Hok]]%Hws; [|done].
    apply (worker_ok_frame (sys_open s) (sys_obj s) _ _ fd); [done| | |by apply Hw];
      intros x Hx; destruct (Hout x Hx) as (H1 & H2 & _); done.
  - intros x b Hx. destruct (decide (x = fd)) as [->|Hne]; [apply Hep|].
    destruct (Hout x Hne) as (-> & -> & -> & _). by apply He.
  - intros x Hx. apply Ho. destruct (decide (x = fd)) as [->|Hne]; [auto|]. by apply (Hout x Hne).
  - rewrite Epc. destruct (sys_pc s) as [| | | |c|c|]; try done.
    all: unfold admitting in *; assert (c <> fd) as Hne by (intros ->; tauto);
      destruct (Hout c Hne) as (-> & E2 & -> & _); rewrite ?E2; split_and!; try tauto; intros Hx%Hbs; tauto.
  - intros x. destruct (decide (x = fd)) as [->|Hne]; [done|].
    destruct (Hout x Hne) as (_ & -> & _ & ->). apply Hd.
Qed.

Section Workers.
Context (s : Sys) (i : nat) (fd : Z) (st : task_stage).
Context (Hinv : inv s) (Hi : sys_workers s !! i = Some (fd, st)).

Lemma worker_here : fd ∈ (fst <$> sys_workers s).
Proof. apply list_elem_of_fmap. exists (fd, st). split; [done|by eapply list_elem_of_lookup_2]. Qed.

Lemma worker_range : 0 <= fd < MAX_FD.
Proof. apply (iv_busy s Hinv). unfold busy. rewrite elem_of_app. right. apply worker_here. Qed.

Lemma worker_disarmed : ts_epoll (sys_net s) !! fd <> Some true.
Proof. apply (iv_busy s Hinv). unfold busy. rewrite elem_of_app. right. apply worker_here. Qed.

Lemma workers_nodup : NoDup (fst <$> sys_workers s).
Proof. pose proof (iv_nodup s Hinv) as H. unfold busy in H. by apply NoDup_app in H as (_ & _ & H). Qed.

Lemma other_worker j w : sys_workers s !! j = Some w -> j <> i -> w.1 <> fd.
Proof.
  intros Hj Hne E. apply Hne. eapply (NoDup_lookup _ _ _ fd workers_nodup).
  - by rewrite list_lookup_fmap, Hj, <- E.
  - by rewrite list_lookup_fmap, Hi.
Qed.

Lemma gone_worker : fd ∉ (fst <$> delete i (sys_workers s)).
Proof.
  pose proof workers_nodup as Hnd. rewrite (delete_Permutation _ _ _ Hi), fmap_cons, NoDup_cons in Hnd. apply Hnd.
Qed.

Lemma worker_now : worker_ok (sys_open s) (sys_obj s) (fd, st).
Proof. apply (iv_workers s Hinv). by eapply list_elem_of_lookup_2. Qed.

(** The fields a step of worker [i] leaves alone away from its descriptor. *)
Definition only_here s' : Prop :=
  sys_pc s' = sys_pc s /\ ts_tasks (sys_net s') = ts_tasks (sys_net s) /\
  forall x, x <> fd -> (x ∈ sys_open s' <-> x ∈ sys_open s) /\ sys_obj s' !! x = sys_obj s !! x /\
     ts_epoll (sys_net s') !! x = ts_epoll (sys_net s) !! x /\
     (is_Some (ts_sessions (sys_net s') !! x) <-> is_Some (ts_sessions (sys_net s) !! x)).

Lemma inv_move st' s' :
  only_here s' -> worker_ok (sys_open s') (sys_obj s') (fd, st') ->
  ts_epoll (sys_net s') !! fd <> Some true ->
  (is_Some (ts_epoll (sys_net s') !! fd) -> fd ∈ sys_open s') ->
  (fd ∈ sys_open s' -> fd ∈ sys_open s) ->
  (is_Some (sys_obj s' !! fd) <-> is_Some (ts_sessions (sys_net s') !! fd)) ->
  inv (set_workers (<[i := (fd, st')]> (sys_workers s)) s').
Proof.
  intros (E1 & E2 & E3) Hok Ht He Ho Hd. apply (inv_worker fd s); try done; cbn.
  - apply worker_here.
  - rewrite list_fmap_insert, list_insert_id; [done|]. by rewrite list_lookup_fmap, Hi.
  - intros w (j & Hj)%list_elem_of_lookup_1.
    destruct (decide (j = i)) as [->|Hne].
    + rewrite list_lookup_insert_eq in Hj by (by eapply lookup_lt_Some). injection Hj as <-. by right.
    + rewrite list_lookup_insert_ne in Hj by done. left. split; [by eapply list_elem_of_lookup_2|by eapply other_worker].
  - intros b Eb. split; [apply He; eauto|]. intros ->. by rewrite Eb in Ht.
Qed.

Lemma inv_done s' :
  only_here s' ->
  (forall b, ts_epoll (sys_net s') !! fd = Some b -> fd ∈ sys_open s' /\ (b = true -> is_Some (sys_obj s' !! fd))) ->
  (fd ∈ sys_open s' -> fd ∈ sys_open s) ->
  (is_Some (sys_obj s' !! fd) <-> is_Some (ts_sessions (sys_net s') !! fd)) ->
  inv (set_workers (delete i (sys_workers s)) s').
Proof.
  intros (E1 & E2 & E3) He Ho Hd. apply (inv_worker fd s); try done; cbn.
  - apply worker_here.
  - rewrite (delete_Permutation _ _ _ Hi) at 2. rewrite fmap_cons. by apply submseteq_cons.
  - intros w Hw. left. split; [by eapply list_elem_of_delete_inv|].
    intros E. apply gone_worker. rewrite <- E. by apply list_elem_of_fmap_2.
  - intros _. apply gone_worker.
Qed.

Lemma only_here_refl : only_here s.
Proof. done. Qed.

Lemma only_here_remove : only_here (sys_remove fd s).
Proof.
  unfold only_here, sys_remove, removeSession. cbn. rewrite (proj2 (Z.ltb_lt _ _)) by apply worker_range.
  split_and!; [done|done|]. intros x Hx. rewrite !lookup_delete_ne by done. done.
Qed.

Lemma only_here_close : only_here (sys_close fd s).
Proof. split_and!; [done|done|]. intros x Hx. cbn. rewrite lookup_delete_ne by done. set_solver. Qed.

Lemma closed_here : fd ∉ sys_open (sys_close fd s).
Proof. cbn. set_solver. Qed.

Lemma removed_here : sys_obj (sys_remove fd s) !! fd = None /\ ts_sessions (sys_net (sys_remove fd s)) !! fd = None.
Proof.
  unfold sys_remove, removeSession. cbn. rewrite (proj2 (Z.ltb_lt _ _)) by apply worker_range.
  rewrite !lookup_delete_eq. done.
Qed.

Lemma watched_open b : ts_epoll (sys_net s) !! fd = Some b -> fd ∈ sys_open s /\ (b = true -> is_Some (sys_obj s !! fd)).
Proof.
  apply (iv_epoll s Hinv). apply (iv_busy s Hinv). unfold busy. rewrite elem_of_app. right. apply worker_here.
Qed.

(** A step of a worker keeps the invariant, and in [doCleanup] never reads outside the table. *)
Lemma inv_work : (forall obj, st <> WIn obj) ->
  match work_step fd st s with
  | Some (Some st', s') => inv (set_workers (<[i := (fd, st')]> (sys_workers s)) s')
  | Some (None, s') => inv (set_workers (delete i (sys_workers s)) s')
  | None => False
  end.
Proof.
  intros Hst. pose proof worker_now as Hok. pose proof worker_disarmed as Hdis. pose proof worker_range as Hr.
  pose proof (iv_dom s Hinv fd) as Hdom. pose proof watched_open as Hwo. pose proof removed_here as [Hro Hrs].
  assert (forall st', worker_ok (sys_open s) (sys_obj s) (fd, st') ->
            inv (set_workers (<[i := (fd, st')]> (sys_workers s)) s)) as Hsame.
  { intros st' H. apply inv_move; [apply only_here_refl|done..| |done|done]. intros [b Hb]. by apply Hwo in Hb as [? _]. }
  revert Hok Hst. case_eq st; [|intros obj0| | | | | | |]; intros _ Hok Hst; simpl.
  - destruct Hok as [Ho [obj Hobj]]. cbn in *. unfold getSession. rewrite (proj2 (Z.leb_gt _ _)) by lia.
    destruct (proj1 Hdom) as [x Hx]; [eauto|]. rewrite Hx, Hobj. by apply Hsame.
  - by destruct (Hst obj0).
  - destruct Hok as [Ho Hobj]. cbn in Ho, Hobj. unfold rearm.
    destruct (ts_epoll _ !! fd) as [b|] eqn:Eb; apply inv_done; try done.
    split_and!; [done|done|]. intros x Hx. cbn. by rewrite lookup_insert_ne.
  - destruct Hok as [Ho Hobj]. cbn in Ho, Hobj. apply inv_move; try done; cbn.
    + apply only_here_close.
    + split; [|done]. apply closed_here.
    + by rewrite lookup_delete_eq.
    + rewrite lookup_delete_eq. by intros [? ?].
  - destruct Hok as [Ho Hobj]. cbn in Ho, Hobj. unfold hasSession.
    rewrite (proj2 (Z.leb_le _ _)), (proj2 (Z.ltb_lt _ _)) by lia. cbn.
    rewrite bool_decide_true; [by apply Hsame|].
    apply eq_None_not_Some. rewrite <- Hdom, Hobj. by intros [? ?].
  - apply inv_move; try done; cbn; [|by rewrite lookup_delete_eq|rewrite lookup_delete_eq; by intros [? ?]].
    split_and!; [done|done|]. intros x Hx. cbn. by rewrite lookup_delete_ne.
  - apply inv_move; try done; cbn. intros [b Hb]. by apply Hwo in Hb as [? _].
  - apply inv_move; try done.
    + apply only_here_remove.
    + split; [apply Hok|done].
    + intros [b Hb]. by apply Hwo in Hb as [? _].
    + rewrite Hro, Hrs. by split; intros [? ?].
  - apply inv_done; try done; cbn.
    + apply only_here_close.
    + intros b. by rewrite lookup_delete_eq.
    + set_solver.
Qed.

(** The handler returns: the object it used is still there. *)
Lemma inv_return obj r : st = WIn obj ->
  exists st' s', handler_return fd obj r s = Some (st', s') /\ inv (set_workers (<[i := (fd, st')]> (sys_workers s)) s').
Proof.
  intros Est. pose proof worker_now as Hok. rewrite Est in Hok. destruct Hok as [Ho Hobj]. cbn in Ho, Hobj.
  pose proof worker_disarmed as Hdis. pose proof watched_open as Hwo. pose proof removed_here as [Hro Hrs].
  unfold handler_return. rewrite bool_decide_true by done. destruct r as [x|]; (do 2 eexists; split; [done|]).
  - apply inv_move; try done; cbn.
    + split_and!; [done|done|]. intros y Hy. cbn. by rewrite lookup_insert_ne.
    + rewrite lookup_insert_eq, Hobj. by split; eauto.
  - apply inv_move; try done.
    + apply only_here_remove.
    + rewrite Hro, Hrs. by split; intros [? ?].
Qed.
End Workers.

Lemma inv_take s s' : inv s -> net_exec listenFd ATake s = Some s' -> inv s'.
Proof.
  intros [Hnd Hb Hq Hw He Ho Hp Hd]. simpl. destruct (ts_tasks (sys_net s)) as [|fd rest] eqn:Et; [done|]. intros [= <-].
  assert (busy (set_workers (sys_workers s ++ [(fd, WGet)])
     (set_net (mkServer (ts_sessions (sys_net s)) (ts_closed (sys_net s)) (ts_timer (sys_net s)) (ts_epoll (sys_net s)) rest) s))
     ≡ₚ busy s) as Hperm.
  { unfold busy, queued. cbn. rewrite Et, fmap_app. cbn. rewrite <- !(assoc_L (++)). f_equiv.
    rewrite (assoc_L (++)), (comm (++) (rest ++ _) [fd]). done. }
  assert (fd ∈ queued s) as Hfd by (unfold queued; rewrite Et; set_solver).
  split; cbn; try done.
  - by rewrite Hperm.
  - intros x. rewrite Hperm. apply Hb.
  - intros x Hx. apply Hq. unfold queued in *. rewrite Et. cbn in Hx. set_solver.
  - intros w [Hin| ->%list_elem_of_singleton]%elem_of_app; [by apply Hw|]. by apply Hq.
  - destruct (sys_pc s); try done; unfold admitting in *; cbn; by rewrite Hperm.
Qed.

(** A step of the main thread that touches neither the connections nor the slots. *)
Lemma inv_main_frame s s' :
  inv s -> sys_workers s' = sys_workers s -> sys_open s' = sys_open s -> sys_obj s' = sys_obj s ->
  ts_epoll (sys_net s') = ts_epoll (sys_net s) -> ts_sessions (sys_net s') = ts_sessions (sys_net s) ->
  queued s' ≡ₚ queued s ->
  match sys_pc s' with PCreate _ _ | PWatch _ _ => False | _ => True end -> inv s'.
Proof.
  intros [Hnd Hb Hq Hw He Ho Hp Hd] E1 E2 E3 E4 E5 E6 Hpc.
  assert (busy s' ≡ₚ busy s) as Hperm by (unfold busy; by rewrite E1, E6).
  split; rewrite ?E1, ?E2, ?E3, ?E4, ?E5; try done.
  - by rewrite Hperm.
  - intros fd. rewrite Hperm. apply Hb.
  - intros fd. rewrite E6. apply Hq.
  - by destruct (sys_pc s').
Qed.

Lemma timeout_loop_keeps {C} (cb : Z -> C -> option C) now h tab c t' c' :
  (forall fd c1 c2, cb fd c1 = Some c2 -> c2 = c1) -> timeout_loop cb now h tab c = Some (t', c') -> c' = c.
Proof.
  intros Hcb. revert tab c. induction h as [|n h IH]; intros tab c; simpl; [by intros [= _ ->]|].
  destruct (_ <? _); [by intros [= _ ->]|]. destruct (negb _); [apply IH|].
  destruct (cb _ c) as [c1|] eqn:E; [|done]. apply Hcb in E as ->. apply IH.
Qed.

Lemma timeout_phase_timer now ts ts' : timeout_phase now ts = Some ts' -> exists t', ts' = set_timer t' ts.
Proof.
  unfold timeout_phase, handleTimeouts. destruct (timeout_loop _ _ _ _ _) as [[t1 ts1]|] eqn:E; [|done].
  apply timeout_loop_keeps in E as ->; [intros [= <-]; eauto|].
  intros fd c1 c2. rewrite timeout_callback_cases. by case_bool_decide; [intros [= ->]|].
Qed.

Lemma conns_of_cons fd evs : conns_of (fd :: evs) =
  if decide (fd = listenFd) then conns_of evs else fd :: conns_of evs.
Proof. unfold conns_of. rewrite filter_cons. destruct (decide (fd = listenFd)), (decide (fd <> listenFd)); done || tauto. Qed.

Lemma inv_wait evs s s' : inv s -> net_exec listenFd (AWait evs) s = Some s' -> inv s'.
Proof.
  intros [Hnd Hb Hq Hw He Ho Hp Hd]. simpl. destruct (sys_pc s) eqn:Epc; try done.
  destruct (ready _ _ _) eqn:Er; [|done]. intros [= <-]. apply ready_spec in Er as [Hne Hr].
  set (s1 := set_pc _ _). set (cs := conns_of evs) in *.
  assert (busy s1 = cs ++ busy s) as Eb by (unfold busy, queued; by rewrite Epc, (assoc_L (++))).
  assert (queued s1 = cs ++ queued s) as Eq by (unfold queued; by rewrite Epc).
  assert (forall fd, fd ∈ cs -> fd ∈ sys_open s /\ is_Some (sys_obj s !! fd)) as Hcs.
  { intros fd [Hx Ht]%Hr. destruct (He fd true Hx Ht). eauto. }
  assert (forall fd, fd ∉ cs -> ts_epoll (sys_net s1) !! fd = ts_epoll (sys_net s) !! fd) as Hout
    by (intros; by apply disarm_lookup).
  assert (forall fd, fd ∈ cs -> ts_epoll (sys_net s1) !! fd = Some false) as Hin by (intros; by apply disarm_conn).
  split; try done.
  - rewrite Eb. apply NoDup_app. split_and!; [by apply NoDup_filter| |done].
    intros fd [_ Ht]%Hr Hbusy. by apply Hb in Hbusy as [? _].
  - intros fd. rewrite Eb, elem_of_app. destruct (decide (fd ∈ cs)) as [Hx|Hx].
    + intros _. rewrite (Hin _ Hx). split; [done|]. by apply Ho, Hcs.
    + intros [?|Hy]; [done|]. rewrite (Hout _ Hx). by apply Hb.
  - intros fd. rewrite Eq, elem_of_app. intros [Hx|Hx]; [by apply Hcs|by apply Hq].
  - intros fd b Hx. destruct (decide (fd ∈ cs)) as [Hy|Hy].
    + intros _. split; [by apply Hcs|]. intros _. by apply Hcs.
    + rewrite (Hout _ Hy). by apply He.
Qed.

Lemma inv_accept fd s s' :
  inv s -> careful (AAccept (Accepted fd)) s -> net_exec listenFd (AAccept (Accepted fd)) s = Some s' -> inv s'.
Proof.
  intros [Hnd Hb Hq Hw He Ho Hp Hd] [Hmax Hnw]. simpl. destruct (sys_pc s) eqn:Epc; try done.
  destruct (_ && _ && _) eqn:Eg; [|done]. intros [= <-].
  apply andb_true_iff in Eg as [[Hno%bool_decide_eq_true H0%Z.leb_le]%andb_true_iff Hl%negb_true_iff%Z.eqb_neq].
  set (s1 := mkSys _ _ _ _ _ _).
  assert (queued s1 = queued s) as Eq by (unfold queued; by rewrite Epc).
  assert (busy s1 = busy s) as Eb by (unfold busy; by rewrite Eq).
  assert (fd ∉ busy s) as Hnb.
  { unfold busy. rewrite elem_of_app. intros [Hx|Hx]; [|done]. by apply Hq in Hx as [? _]. }
  split; rewrite ?Eq, ?Eb; try done; cbn.
  - intros x [Hx ?]%Hq. split; [set_solver|done].
  - intros w Hin. assert (w.1 <> fd) as Hne.
    { intros <-. apply Hnw. by apply list_elem_of_fmap_2. }
    apply (worker_ok_frame (sys_open s) (sys_obj s) _ _ fd); [done| |done|by apply Hw]. set_solver.
  - intros x b Hx Hy. destruct (He x b Hx Hy). split; [set_solver|done].
  - intros x [->%elem_of_singleton|Hx]%elem_of_union; [done|by apply Ho].
  - unfold admitting. rewrite Eb. cbn. split_and!; [set_solver|done|].
    destruct (ts_epoll (sys_net s) !! fd) as [b|] eqn:Ee; [|done]. by destruct (He fd b Hl Ee).
Qed.

Lemma inv_create s s' : inv s -> net_exec listenFd ACreate s = Some s' -> inv s'.
Proof.
  intros [Hnd Hb Hq Hw He Ho Hp Hd]. simpl. destruct (sys_pc s) as [| | | |fd evs| |] eqn:Epc; try done. intros [= <-].
  destruct Hp as (Hopen & Hnb & Hne). destruct (Ho fd Hopen) as [Hl Hr]. set (s1 := set_pc _ _).
  assert (queued s1 = queued s) as Eq by (unfold queued; by rewrite Epc).
  assert (busy s1 = busy s) as Eb by (unfold busy; by rewrite Eq).
  assert (sys_obj s1 = <[fd := sys_next s]> (sys_obj s)) as Em.
  { subst s1. cbn. by rewrite (proj2 (Z.ltb_lt _ _)) by lia. }
  assert (ts_sessions (sys_net s1) = <[fd := new_session fd]> (ts_sessions (sys_net s))) as Es.
  { subst s1. cbn. unfold createSession. by rewrite (proj2 (Z.ltb_lt _ _)) by lia. }
  assert (forall x, is_Some (sys_obj s !! x) -> is_Some (sys_obj s1 !! x)) as Hmono.
  { intros x Hx. rewrite Em. destruct (decide (x = fd)) as [->|]; [rewrite lookup_insert_eq; eauto|].
    by rewrite lookup_insert_ne. }
  split; rewrite ?Eq, ?Eb; try done.
  - intros x [? ?]%Hq. auto.
  - intros w Hin. apply (worker_ok_frame (sys_open s) (sys_obj s) _ _ fd); [|done| |by apply Hw].
    + intros <-. apply Hnb. unfold busy. rewrite elem_of_app. right. by apply list_elem_of_fmap_2.
    + intros x Hx. rewrite Em. by apply lookup_insert_ne.
  - intros x b Hx Hy. destruct (He x b Hx Hy). auto.
  - change (admitting s1 fd /\ is_Some (sys_obj s1 !! fd)). unfold admitting. rewrite Eb, Em, lookup_insert_eq. eauto.
  - intros x. rewrite Em, Es. destruct (decide (x = fd)) as [->|Hx]; [rewrite !lookup_insert_eq; split; eauto|].
    by rewrite !lookup_insert_ne.
Qed.

Lemma inv_watch s s' : inv s -> net_exec listenFd AWatch s = Some s' -> inv s'.
Proof.
  intros [Hnd Hb Hq Hw He Ho Hp Hd]. simpl. destruct (sys_pc s) as [| | | | |fd evs|] eqn:Epc; try done. intros [= <-].
  destruct Hp as [(Hopen & Hnb & Hne) Hobj]. set (s1 := set_pc _ _).
  assert (s1 = set_pc (PArm fd evs) (set_net (set_epoll (<[fd := true]> (ts_epoll (sys_net s))) (sys_net s)) s)) as E1.
  { subst s1. unfold sys_watch, addEvent. by rewrite bool_decide_true, Hne. }
  assert (queued s1 = queued s) as Eq by (rewrite E1; unfold queued; by rewrite Epc).
  assert (busy s1 = busy s) as Eb by (unfold busy; rewrite Eq; by rewrite E1).
  rewrite E1 in *. split; rewrite ?Eq, ?Eb; try done; cbn.
  - intros x Hx. rewrite lookup_insert_ne by (by intros ->). by apply Hb.
  - intros x b Hx. destruct (decide (x = fd)) as [->|Hy]; [done|]. rewrite lookup_insert_ne by done. by apply He.
Qed.

Lemma inv_step a s s' : inv s -> careful a s -> net_exec listenFd a s = Some s' -> inv s'.
Proof.
  intros Hinv Hc E. destruct a as [evs|now| |[fd| |]| | |now|now| |i r|i];
    try (by eapply inv_wait); try (by eapply inv_accept); try (by eapply inv_create); try (by eapply inv_watch);
    try (by eapply inv_take).
  - simpl in E. destruct (sys_pc s) as [|[|fd evs]| | | | |] eqn:Epc; try done. destruct (Z.eqb_spec fd listenFd) as [->|Hne];
      injection E as <-; apply (inv_main_frame s); try done; unfold queued; rewrite Epc; cbn [conns_pc sys_pc sys_net set_pc set_net]; rewrite conns_of_cons.
    + by rewrite decide_True.
    + by rewrite decide_False.
  - simpl in E. destruct (sys_pc s) as [| |fd evs| | | |] eqn:Epc; try done. injection E as <-.
    apply (inv_main_frame s); try done. unfold queued. cbn. rewrite Epc. cbn.
    by rewrite (assoc_L (++)), <- Permutation_cons_append.
  - simpl in E. destruct (sys_pc s) eqn:Epc; try done. injection E as <-. apply (inv_main_frame s); try done.
    unfold queued. by rewrite Epc.
  - simpl in E. destruct (sys_pc s) eqn:Epc; try done. injection E as <-. apply (inv_main_frame s); try done.
    unfold queued. by rewrite Epc.
  - simpl in E. destruct (sys_pc s) eqn:Epc; try done. injection E as <-. apply (inv_main_frame s); try done.
    unfold queued. by rewrite Epc.
  - simpl in E. destruct (sys_pc s) as [|[|]| | | | |] eqn:Epc; try done.
    destruct (timeout_phase _ _) as [ts'|] eqn:Et; [|done]. apply timeout_phase_timer in Et as [t' ->].
    injection E as <-. apply (inv_main_frame s); try done. unfold queued. by rewrite Epc.
  - simpl in E. destruct (sys_workers s !! i) as [[fd st]|] eqn:Ei; [|done]. destruct st as [|obj| | | | | | |]; try done.
    destruct (inv_return s i fd (WIn obj) Hinv Ei obj r eq_refl) as (st' & s1 & E1 & Hi). rewrite E1 in E. by injection E as <-.
  - simpl in E. destruct (sys_workers s !! i) as [[fd st]|] eqn:Ei; [|done].
    pose proof (inv_work s i fd st Hinv Ei) as H. destruct (work_step fd st s) as [[[st'|] s1]|] eqn:Ew; [| |done];
      (injection E as <-; apply H; by intros obj ->).
Qed.

Lemma reach_inv s : reach s -> inv s.
Proof. induction 1; [apply inv_start|]. by eapply inv_step. Qed.
End Invariant.
