(* ===== verification/EventLoopTheorems.v ===== *)
(** * What the event loop guarantees

    The system calls of the constructor on every branch; the functions of Connections.v and
    [start_iteration] as runs of the transition system of EventLoop.v; that a connection is in
    the hands of one worker at a time, as long as no descriptor number is given out again while a
    worker still cleans up its last connection; and a run in which it is given out, and a
    session is deleted under the worker that uses it. *)

From S2P Require Import Prelude Bytes Session Framing Timers Connections EventLoop EventLoopInvariant.
From stdpp Require Import base list gmap.
From Stdlib Require Import ZArith Lia.
Local Open Scope Z_scope.

(** ** One owner for each connection *)

#[export] Instance careful_dec a s : Decision (careful a s).
Proof. destruct a as [| | |[]| | | | | | |]; simpl; apply _. Defined.

(** All the numbers given out along a run are unused. *)
Fixpoint careful_run (listenFd : Z) (l : list net_action) (s : Sys) : bool :=
  match l with
  | [] => true
  | a :: l' =>
      bool_decide (careful a s) &&
      match net_exec listenFd a s with Some s' => careful_run listenFd l' s' | None => true end
  end.

Lemma reach_run listenFd l s s' :
  reach listenFd s -> careful_run listenFd l s = true -> net_run listenFd l s = Some s' -> reach listenFd s'.
Proof.
  revert s. induction l as [|a l IH]; intros s Hs; simpl; [by intros _ [= <-]|].
  intros [Hc%bool_decide_eq_true Hl]%andb_true_iff. destruct (net_exec listenFd a s) as [s1|] eqn:E; [|done].
  apply IH; [by eapply reach_step|done].
Qed.

(** C15: a connection is in the hands of one worker at a time: provided the kernel does not give a
    descriptor number out again while a worker still cleans up its last connection, then under
    every interleaving of the main thread and the workers no two workers have the same
    descriptor, and none has one that waits in the queue of tasks or is watched by epoll; the
    session object a worker got from [getSession] is not deleted before the handler returns; no
    worker reads outside the table of sessions; and the second [close] of a connection closes
    nobody else's. *)
Theorem session_exclusive listenFd s (Hr : reach listenFd s) :
  NoDup (ts_tasks (sys_net s) ++ (fst <$> sys_workers s)) /\
  (forall fd, fd ∈ ts_tasks (sys_net s) ++ (fst <$> sys_workers s) -> ts_epoll (sys_net s) !! fd <> Some true) /\
  (forall i fd obj, sys_workers s !! i = Some (fd, WIn obj) ->
     fd ∈ sys_open s /\ sys_obj s !! fd = Some obj /\ forall r, is_Some (net_exec listenFd (AReturn i r) s)) /\
  (forall i fd st, sys_workers s !! i = Some (fd, st) -> (forall obj, st <> WIn obj) ->
     is_Some (net_exec listenFd (AWork i) s)) /\
  (forall i fd, sys_workers s !! i = Some (fd, WClose) -> fd ∉ sys_open s).
Proof.
  apply reach_inv in Hr as Hi. split_and!.
  - pose proof (iv_nodup _ _ Hi) as Hn. unfold busy, queued in Hn. rewrite <- (assoc_L (++)) in Hn. by apply NoDup_app in Hn as (_ & _ & ?).
  - intros fd Hfd. apply (iv_busy _ _ Hi). unfold busy, queued. set_solver.
  - intros i fd obj Hw. pose proof (worker_now _ _ _ _ _ Hi Hw) as [H1 H2]. split_and!; [done|done|]. intros r.
    simpl. rewrite Hw. destruct (inv_return _ s i fd _ Hi Hw obj r eq_refl) as (st' & s' & -> & _). eauto.
  - intros i fd st Hw Hst. pose proof (inv_work _ s i fd st Hi Hw Hst) as H. simpl. rewrite Hw.
    destruct (work_step fd st s) as [[[st'|] s']|]; [eauto..|done].
  - intros i fd Hw. by pose proof (worker_now _ _ _ _ _ Hi Hw) as [H1 _].
Qed.

(** ** A number given out too early *)

Definition accept_one (fd : Z) : list net_action :=
  [AWait [3]; ATouch 0; AAccept (Accepted fd); ACreate; AWatch; AArm 0; AAccept AcceptAgain; ATimeouts 0].
Definition hand_over (fd : Z) : list net_action := [AWait [fd]; ATouch 0; AEnqueue; ATimeouts 0; ATake].

(** A connection is accepted, handed to a worker and closed by its peer; after the handler has
    closed the descriptor, the worker gets as far as [removeSession] in [doCleanup]. *)
Definition first_life : list net_action :=
  accept_one 5 ++ hand_over 5 ++ [AWork 0; AReturn 0 None; AWork 0; AWork 0; AWork 0; AWork 0].
(** The kernel reuses the number, and a second worker enters the handler with the new session. *)
Definition second_life : list net_action := accept_one 5 ++ hand_over 5 ++ [AWork 1].

(** Without the proviso of [session_exclusive] it fails: when the kernel gives the number of a
    closed connection to a new one, the worker that still cleans up deletes the new session while
    another worker uses it, and then closes the new connection. *)
Theorem stale_cleanup_frees_session :
  exists s s', net_run 3 (first_life ++ second_life ++ [AWork 0]) (sys_start 3) = Some s /\
    net_exec 3 (AWork 0) s = Some s' /\
    sys_workers s !! 1%nat = Some (5, WIn 1) /\ sys_obj s !! 5 = None /\ net_exec 3 (AReturn 1 None) s = None /\
    5 ∈ sys_open s /\ 5 ∉ sys_open s' /\ sys_workers s' = [(5, WIn 1)].
Proof.
  destruct (net_run 3 (first_life ++ second_life ++ [AWork 0]) (sys_start 3)) as [s|] eqn:E; [|vm_compute in E; discriminate E].
  vm_compute in E. injection E as <-. do 2 eexists. split; [reflexivity|]. split; [vm_compute; reflexivity|].
  split_and!; try reflexivity; apply (bool_decide_unpack _); vm_compute; exact I.
Qed.

Lemma session_exclusive_witness :
  exists s, net_run 3 (accept_one 5 ++ hand_over 5 ++ [AWork 0] ++ accept_one 6 ++ hand_over 6) (sys_start 3) = Some s /\
    sys_workers s = [(5, WIn 0); (6, WGet)] /\ sys_obj s !! 5 = Some 0%nat /\ is_Some (net_exec 3 (AReturn 0 None) s).
Proof.
  destruct (net_run 3 (accept_one 5 ++ hand_over 5 ++ [AWork 0] ++ accept_one 6 ++ hand_over 6) (sys_start 3)) as [s|] eqn:E;
    [|vm_compute in E; discriminate E].
  assert (reach 3 s) as Hr.
  { eapply reach_run; [apply reach_start| |exact E]. vm_compute. reflexivity. }
  destruct (session_exclusive 3 s Hr) as (_ & _ & H & _). exists s.
  assert (sys_workers s = [(5, WIn 0); (6, WGet)]) as Hw by (vm_compute in E; injection E as <-; reflexivity).
  destruct (H 0%nat 5 0%nat) as (_ & H2 & H3); [by rewrite Hw|]. split_and!; [done|done|done|apply H3].
Defined.

(** ** The sequential functions are runs *)

Section Runs.
Context (listenFd : Z).

Lemma net_run_app l k s s1 : net_run listenFd l s = Some s1 -> net_run listenFd (l ++ k) s = net_run listenFd k s1.
Proof.
  revert s. induction l as [|a l IH]; intros s; simpl; [by intros [= ->]|].
  destruct (net_exec listenFd a s); [apply IH|done].
Qed.

Lemma net_exec_work i fd st s :
  sys_workers s !! i = Some (fd, st) ->
  net_exec listenFd (AWork i) s =
    match work_step fd st s with
    | Some (Some st', s') => Some (set_workers (<[i := (fd, st')]> (sys_workers s)) s')
    | Some (None, s') => Some (set_workers (delete i (sys_workers s)) s')
    | None => None
    end.
Proof. simpl. by intros ->. Qed.

Lemma delete_insert_list {A} (l : list A) i x : delete i (<[i := x]> l) = delete i l.
Proof. revert i. induction l as [|y l IH]; intros [|i]; simpl; [done..|]. f_equal. apply IH. Qed.

(** What a worker alone leaves of the system. *)
Definition task_done (i : nat) (s s' : Sys) (ts : TcpServer) : Prop :=
  sys_net s' = ts /\ sys_workers s' = delete i (sys_workers s) /\ sys_pc s' = sys_pc s.

(** The worker is at [i] in [s1], the rest of the list is that of [s]. *)
Definition at_stage (i : nat) (w : Z * task_stage) (s s1 : Sys) : Prop :=
  sys_workers s1 = <[i := w]> (sys_workers s) /\ (i < length (sys_workers s))%nat /\ sys_pc s1 = sys_pc s.

Lemma at_stage_start i w s : sys_workers s !! i = Some w -> at_stage i w s s.
Proof. intros H. split_and!; [by rewrite list_insert_id|by eapply lookup_lt_Some|done]. Qed.

Lemma work_on i fd st st' s s1 s2 :
  at_stage i (fd, st) s s1 -> work_step fd st s1 = Some (Some st', s2) -> sys_pc s2 = sys_pc s1 ->
  exists s3, net_exec listenFd (AWork i) s1 = Some s3 /\ at_stage i (fd, st') s s3 /\ sys_net s3 = sys_net s2 /\ sys_obj s3 = sys_obj s2.
Proof.
  intros (H1 & H2 & H3) E Ep. rewrite (net_exec_work i fd st), E by (rewrite H1; by apply list_lookup_insert_eq).
  eexists. split; [done|]. split; [|done]. split; [|split; [done|by rewrite <- H3]].
  cbn. by rewrite H1, list_insert_insert_eq.
Qed.

Lemma work_last i fd st s s1 s2 :
  at_stage i (fd, st) s s1 -> work_step fd st s1 = Some (None, s2) -> sys_pc s2 = sys_pc s1 ->
  exists s3, net_exec listenFd (AWork i) s1 = Some s3 /\ task_done i s s3 (sys_net s2).
Proof.
  intros (H1 & H2 & H3) E Ep. rewrite (net_exec_work i fd st), E by (rewrite H1; by apply list_lookup_insert_eq).
  eexists. split; [done|]. split_and!; [done| |by rewrite <- H3]. cbn. by rewrite H1, delete_insert_list.
Qed.

(** [doCleanup] at an empty slot, access by access. *)
Lemma cleanup_run i fd s s1 ts' :
  at_stage i (fd, WCheck) s s1 -> hasSession fd (ts_sessions (sys_net s1)) = Some true ->
  doCleanup false fd (sys_net s1) = Done ts' ->
  exists s', net_run listenFd (replicate 5 (AWork i)) s1 = Some s' /\ task_done i s s' ts'.
Proof.
  intros Hat Hh. unfold doCleanup. rewrite Hh. intros [= <-].
  destruct (work_on i fd WCheck WDel s s1 s1 Hat) as (s2 & E2 & A2 & N2 & _); [simpl; by rewrite Hh|done|].
  destruct (work_on i fd WDel WCancel s s2 _ A2 eq_refl eq_refl) as (s3 & E3 & A3 & N3 & _).
  destruct (work_on i fd WCancel WRemove s s3 _ A3 eq_refl eq_refl) as (s4 & E4 & A4 & N4 & _).
  destruct (work_on i fd WRemove WClose s s4 _ A4 eq_refl eq_refl) as (s5 & E5 & A5 & N5 & _).
  destruct (work_last i fd WClose s s5 _ A5 eq_refl eq_refl) as (s6 & E6 & D6).
  exists s6. cbn [replicate net_run]. rewrite E2, E3, E4, E5, E6. split; [done|].
  destruct D6 as (Hnet & Hrest). split; [|done]. rewrite Hnet. cbn. rewrite N5. cbn. rewrite N4. cbn. rewrite N3. cbn. rewrite N2.
  unfold cleanConnection. cbn. by rewrite delete_delete_eq.
Qed.

(** After [cleanConnection] of the handler the slot is empty, and [doCleanup] runs in full. *)
Lemma doCleanup_removed fd ts ts' :
  (fd <? MAX_FD) = true -> doCleanup false fd (cleanConnection fd ts) = Done ts' ->
  hasSession fd (ts_sessions (cleanConnection fd ts)) = Some true /\
  doCleanup false fd (set_epoll (delete fd (ts_epoll ts)) (cleanConnection fd ts)) = Done ts'.
Proof.
  intros Hmax. unfold doCleanup, hasSession. cbn. unfold removeSession. rewrite Hmax.
  destruct (0 <=? fd); [|done]. cbn. rewrite bool_decide_true by apply lookup_delete_eq.
  intros [= <-]. split; [done|]. by rewrite delete_delete_eq.
Qed.

Context {St : Type} (handler : HandlerKind -> Session -> bytes -> Z -> St -> option bytes * Session * St) (router : Router).

(** The handler keeps a connection exactly when it leaves a session. *)
Lemma echo_keeps x recvs sends (st : St) r :
  MyEchoBusiness handler router (Some x) recvs sends st = Some r -> keepAlive r = bool_decide (is_Some (er_session r)).
Proof.
  unfold MyEchoBusiness. destruct (read_stream recvs []) as [[[|b d]|]|]; [by intros [= <-]| |by intros [= <-]|done].
  destruct (frame_loop _ _ _ _ _ _ _ _) as [[[[[]]]]|]; [by intros [= <-]|done].
Qed.

(** The task of a readiness event, run by a worker with nobody else running, is the function of
    Connections.v. *)
Theorem worker_task_is_run i fd recvs sends st s ts' st' wire
  (Hi : sys_workers s !! i = Some (fd, WGet))
  (Hobj : is_Some (sys_obj s !! fd) <-> is_Some (ts_sessions (sys_net s) !! fd))
  (Ht : worker_task handler router fd recvs sends st (sys_net s) = Some (Done ts', st', wire)) :
  exists l s', net_run listenFd l s = Some s' /\ task_done i s s' ts'.
Proof.
  unfold worker_task in Ht. pose proof (at_stage_start i _ s Hi) as A0.
  destruct (MyEchoBusiness _ _ _ _ _ _) as [r|] eqn:Er; [|done]. injection Ht as Hd <- <-.
  destruct (getSession fd _) as [x|] eqn:Eg.
  - assert (fd < MAX_FD /\ ts_sessions (sys_net s) !! fd = Some x) as [Hmax Hx].
    { unfold getSession in Eg. destruct (Z.leb_spec MAX_FD fd); [done|]. by split. }
    destruct (proj2 Hobj) as [o Ho]; [by rewrite Hx; eauto|].
    destruct (work_on i fd WGet (WIn o) s s s A0) as (s1 & E1 & A1 & N1 & O1); [simpl; by rewrite Eg, Ho|done|].
    apply echo_keeps in Er. rewrite Er in Hd.
    assert (forall q st1 s2, handler_return fd o q s1 = Some (st1, s2) -> sys_pc s2 = sys_pc s1 ->
              exists s3, net_exec listenFd (AReturn i q) s1 = Some s3 /\ at_stage i (fd, st1) s s3 /\ sys_net s3 = sys_net s2)
      as Hret.
    { intros q st1 s2 Eq Ep. destruct A1 as (W1 & L1 & P1). simpl. rewrite W1, list_lookup_insert_eq, Eq by done.
      eexists. split; [done|]. split; [|done]. split; [cbn; by rewrite list_insert_insert_eq|]. split; [done|]. by rewrite <- P1. }
    unfold handler_return in Hret. rewrite O1, bool_decide_true in Hret by done.
    destruct (er_session r) as [y|] eqn:Ey; simpl in Hd.
    + injection Hd as <-.
      destruct (Hret (Some y) _ _ eq_refl eq_refl) as (s3 & E3 & A3 & N3).
      destruct (work_last i fd WRearm s s3 _ A3 eq_refl eq_refl) as (s4 & E4 & D4).
      exists [AWork i; AReturn i (Some y); AWork i], s4. cbn [net_run]. rewrite E1, E3, E4. split; [done|].
      cbn in D4. by rewrite N3, N1 in D4.
    + destruct (Hret None _ _ eq_refl eq_refl) as (s3 & E3 & A3 & N3).
      destruct (work_on i fd WClosing WCheck s s3 _ A3 eq_refl eq_refl) as (s4 & E4 & A4 & N4 & _).
      assert (sys_net s4 = set_epoll (delete fd (ts_epoll (sys_net s))) (cleanConnection fd (sys_net s))) as N.
      { rewrite N4. cbn. rewrite N3. cbn. by rewrite N1. }
      apply doCleanup_removed in Hd as [Hh Hd]; [|by apply Z.ltb_lt].
      destruct (cleanup_run i fd s s4 ts' A4) as (s9 & E9 & D9); [by rewrite N|by rewrite N|].
      exists (AWork i :: AReturn i None :: AWork i :: replicate 5 (AWork i)), s9. cbn [net_run]. rewrite E1, E3, E4. by split.
  - simpl in Er. injection Er as <-. simpl in Hd.
    destruct (hasSession fd (ts_sessions (sys_net s))) as [h|] eqn:Eh; [|unfold doCleanup in Hd; by rewrite Eh in Hd].
    assert (h = true) as ->.
    { unfold hasSession in Eh. unfold getSession in Eg. destruct (Z.leb_spec MAX_FD fd) as [?|?], (Z.leb_spec 0 fd), (Z.ltb_spec fd MAX_FD); try lia; try done.
      injection Eh as <-. by apply bool_decide_eq_true. }
    destruct (work_on i fd WGet WCheck s s s A0) as (s1 & E1 & A1 & N1 & _); [simpl; by rewrite Eg|done|].
    destruct (cleanup_run i fd s s1 ts' A1) as (s9 & E9 & D9); [by rewrite N1|by rewrite N1|].
    exists (AWork i :: replicate 5 (AWork i)), s9. cbn [net_run]. rewrite E1. by split.
Qed.
End Runs.

(** The descriptors an accept loop is given, and those of an iteration. *)
Fixpoint accepted_fds (outs : list accept_result) : list Z :=
  match outs with
  | Accepted fd :: outs' => fd :: accepted_fds outs'
  | _ => []
  end.
Fixpoint accepted_all (listenFd : Z) (evs : list (Z * list accept_result)) : list Z :=
  match evs with
  | [] => []
  | (fd, outs) :: evs' => (if fd =? listenFd then accepted_fds outs else []) ++ accepted_all listenFd evs'
  end.

Section Iteration.
Context (listenFd now : Z).

(** What the main thread alone leaves of the system, with the connections it accepted. *)
Definition main_done (fds : list Z) (s s' : Sys) (ts : TcpServer) (pc : main_pc) : Prop :=
  sys_net s' = ts /\ sys_workers s' = sys_workers s /\ sys_pc s' = pc /\ sys_open s' = list_to_set fds ∪ sys_open s.

Definition unused (fds : list Z) (s : Sys) : Prop :=
  NoDup fds /\ forall fd, fd ∈ fds -> fd ∉ sys_open s /\ 0 <= fd /\ fd <> listenFd.

Lemma main_done_trans fds1 fds2 s s1 s2 ts1 ts2 pc1 pc2 :
  main_done fds1 s s1 ts1 pc1 -> main_done fds2 s1 s2 ts2 pc2 -> main_done (fds1 ++ fds2) s s2 ts2 pc2.
Proof.
  intros (_ & W1 & _ & O1) (N2 & W2 & P2 & O2). split; [done|]. split; [by rewrite W2|]. split; [done|].
  rewrite O2, O1, list_to_set_app_L. set_solver.
Qed.

Lemma unused_later fds1 fds2 s s1 ts pc : unused (fds1 ++ fds2) s -> main_done fds1 s s1 ts pc -> unused fds2 s1.
Proof.
  intros [Hn Hu] (_ & _ & _ & O1). apply NoDup_app in Hn as (_ & Hd & Hn). split; [done|]. intros fd Hfd.
  destruct (Hu fd) as (H1 & H2); [set_solver|]. split; [|done]. rewrite O1, elem_of_union, elem_of_list_to_set.
  intros [Hx|Hx]; [by apply (Hd fd)|done].
Qed.

Lemma admit_run fd evs s : sys_pc s = PAccept evs -> unused [fd] s ->
  exists s', net_run listenFd [AAccept (Accepted fd); ACreate; AWatch; AArm now] s = Some s' /\
    main_done [fd] s s' (admit_connection now fd (sys_net s)) (PAccept evs).
Proof.
  intros Hpc [_ Hu]. destruct (Hu fd) as (H1 & H2 & H3); [set_solver|]. cbn [net_run net_exec main_exec]. rewrite Hpc.
  rewrite bool_decide_true, (proj2 (Z.leb_le _ _)), (proj2 (Z.eqb_neq _ _)) by done. cbn [andb negb sys_pc set_pc].
  eexists. split; [done|]. unfold sys_watch. cbn [sys_open sys_create set_pc].
  rewrite bool_decide_true by set_solver. split; [done|]. cbn. split; [done|]. split; [done|]. set_solver.
Qed.

Lemma accept_run outs evs s ts' :
  sys_pc s = PAccept evs -> unused (accepted_fds outs) s -> acceptConnection now outs (sys_net s) = Some ts' ->
  exists l s', net_run listenFd l s = Some s' /\ main_done (accepted_fds outs) s s' ts' (PBatch evs).
Proof.
  revert s. induction outs as [|[fd| |] outs IH]; intros s Hpc Hu; simpl; [done| | |].
  - intros E. destruct (admit_run fd evs s Hpc) as (s1 & E1 & D1).
    { destruct Hu as [_ Hu]. split; [apply NoDup_singleton|]. intros x ->%list_elem_of_singleton. apply Hu. by left. }
    pose proof D1 as (N1 & _ & P1 & _). rewrite <- N1 in E.
    destruct (IH s1 P1 (unused_later [fd] _ _ _ _ _ Hu D1) E) as (l & s2 & E2 & D2).
    eexists (_ ++ l), s2. rewrite (net_run_app _ _ _ _ _ E1). split; [done|]. exact (main_done_trans [fd] _ _ _ _ _ _ _ _ D1 D2).
  - intros [= <-]. exists [AAccept AcceptAgain]. simpl. rewrite Hpc. eexists. split; [done|].
    split; [done|]. split; [done|]. split; [done|]. cbn. set_solver.
  - intros [= <-]. exists [AAccept AcceptError]. simpl. rewrite Hpc. eexists. split; [done|].
    split; [done|]. split; [done|]. split; [done|]. cbn. set_solver.
Qed.

Lemma dispatch_run evs s ts' :
  sys_pc s = PBatch (fst <$> evs) -> unused (accepted_all listenFd evs) s ->
  dispatch_events listenFd now evs (sys_net s) = Some ts' ->
  exists l s', net_run listenFd l s = Some s' /\ main_done (accepted_all listenFd evs) s s' ts' (PBatch []).
Proof.
  revert s. induction evs as [|[fd outs] evs IH]; intros s Hpc Hu.
  { intros [= <-]. exists [], s. split; [done|]. split; [done|]. split; [done|]. split; [done|]. cbn. set_solver. }
  cbn [dispatch_events accepted_all] in *. destruct (fd =? listenFd) eqn:El.
  - destruct (acceptConnection _ _ _) as [ts1|] eqn:Ea; [|done]. intros Ed.
    assert (exists s0, net_exec listenFd (ATouch now) s = Some s0 /\ sys_pc s0 = PAccept (fst <$> evs) /\
      sys_net s0 = sys_net s /\ sys_workers s0 = sys_workers s /\ sys_open s0 = sys_open s) as (s0 & E0 & P0 & N0 & W0 & O0).
    { simpl. rewrite Hpc. cbn. rewrite El. eexists. by split. }
    destruct (accept_run outs (fst <$> evs) s0 ts1 P0) as (l1 & s1 & E1 & D1).
    { destruct Hu as [Hn Hu]. apply NoDup_app in Hn as (Hn & _ & _). split; [done|]. rewrite O0. intros x Hx. apply Hu. set_solver. }
    { by rewrite N0. }
    assert (main_done (accepted_fds outs) s s1 ts1 (PBatch (fst <$> evs))) as D1'.
    { destruct D1 as (? & ? & ? & ?). unfold main_done. by rewrite <- W0, <- O0. }
    pose proof D1' as (N1 & _ & P1 & _). rewrite <- N1 in Ed.
    destruct (IH s1 P1 (unused_later _ _ _ _ _ _ Hu D1') Ed) as (l2 & s2 & E2 & D2).
    exists (ATouch now :: l1 ++ l2), s2. cbn [net_run]. rewrite E0, (net_run_app _ _ _ _ _ E1).
    split; [done|]. exact (main_done_trans _ _ _ _ _ _ _ _ _ D1' D2).
  - intros Ed.
    assert (exists s1, net_run listenFd [ATouch now; AEnqueue] s = Some s1 /\
      main_done [] s s1 (push_task fd (set_timer (addTimer now fd 60 (ts_timer (sys_net s))) (sys_net s))) (PBatch (fst <$> evs)))
      as (s1 & E1 & D1).
    { cbn [net_run net_exec main_exec]. rewrite Hpc. cbn. rewrite El. eexists. split; [done|].
      split; [done|]. split; [done|]. split; [done|]. cbn. set_solver. }
    pose proof D1 as (N1 & _ & P1 & _). rewrite <- N1 in Ed.
    destruct (IH s1 P1 (unused_later [] _ _ _ _ _ Hu D1) Ed) as (l2 & s2 & E2 & D2).
    exists ([ATouch now; AEnqueue] ++ l2), s2. rewrite (net_run_app _ _ _ _ _ E1).
    split; [done|]. exact (main_done_trans [] _ _ _ _ _ _ _ _ D1 D2).
Qed.

(** An iteration of [start] is a run of the main thread's steps, for whatever the kernel reports
    and accepts. *)
Theorem start_iteration_is_run evs s ts'
  (Hpc : sys_pc s = PWait) (Hready : ready listenFd (fst <$> evs) (ts_epoll (sys_net s)) = true)
  (Hu : unused (accepted_all listenFd evs) s) (Hs : start_iteration listenFd now evs (sys_net s) = Some ts') :
  exists l s', net_run listenFd l s = Some s' /\ main_done (accepted_all listenFd evs) s s' ts' PWait.
Proof.
  unfold start_iteration in Hs. destruct (dispatch_events _ _ _ _) as [ts1|] eqn:Ed; [|done].
  assert (exists s1, net_exec listenFd (AWait (fst <$> evs)) s = Some s1 /\
    main_done [] s s1 (set_epoll (disarm listenFd (fst <$> evs) (ts_epoll (sys_net s))) (sys_net s)) (PBatch (fst <$> evs)))
    as (s1 & E1 & D1).
  { simpl. rewrite Hpc, Hready. eexists. split; [done|]. split; [done|]. split; [done|]. split; [done|]. cbn. set_solver. }
  pose proof D1 as (N1 & _ & P1 & _). rewrite <- N1 in Ed.
  destruct (dispatch_run evs s1 ts1 P1 (unused_later [] _ _ _ _ _ Hu D1) Ed) as (l & s2 & E2 & D2).
  pose proof (main_done_trans [] _ _ _ _ _ _ _ _ D1 D2) as (N2 & W2 & P2 & O2).
  exists (AWait (fst <$> evs) :: l ++ [ATimeouts now]). cbn [net_run].
  rewrite E1, (net_run_app _ _ _ _ _ E2). cbn. rewrite P2, N2, Hs. eexists. split; [done|]. by split.
Qed.
End Iteration.

(** ** Setting the server up *)

Definition is_close (c : Syscall) : bool := match c with Close _ => true | _ => false end.

(** The constructor on every branch, and the destructor after it.  If [bind] fails (as it does on
    a failed [socket]) the process logs the port and exits, and nothing listens.  Otherwise the
    descriptor of [socket] listens and has all the flags it had and [O_NONBLOCK] before epoll
    watches it for input; the port on the wire is the low 16 bits, high byte first; and the
    destructor closes the two descriptors once each, but for those that could not be made. *)
Theorem server_setup kernel port tr res (E : TcpServer_new kernel port [] = (tr, res)) :
  (forall b, b ∈ sin_port port -> 0 <= b < 256) /\
  (exists hi lo, sin_port port = [hi; lo] /\ hi * 256 + lo = port mod 65536) /\
  match res with
  | None => exists fd rest, tr = Exit :: LogBindError port :: Bind fd (sin_port port) :: rest /\
      kernel rest (Bind fd (sin_port port)) < 0 /\ Forall (fun c => c ∈ [Socket; SetReuseAddr fd; SetNoDelay fd]) rest
  | Some (fd, ep) => exists flags rest,
      tr = EpollAdd ep fd EPOLLIN :: EpollCreate :: SetFlags fd flags :: GetFlags fd :: Listen fd 4096 ::
           Bind fd (sin_port port) :: rest /\
      kernel [] Socket = fd /\ 0 <= kernel rest (Bind fd (sin_port port)) /\
      (forall n, 0 <= n -> Z.testbit flags n =
         Z.testbit (kernel (Listen fd 4096 :: Bind fd (sin_port port) :: rest) (GetFlags fd)) n || (n =? 11)) /\
      filter is_close (TcpServer_delete kernel (fd, ep) tr).1 =
        (if ep =? -1 then [] else [Close ep]) ++ (if fd =? -1 then [] else [Close fd])
  end.
Proof.
  split; [|split].
  - intros b. unfold sin_port. rewrite !elem_of_cons, elem_of_nil. intros [->|[->|[]]]; mword.
  - do 2 eexists. split; [reflexivity|]. rewrite Z.shiftr_div_pow2 by lia. change (2 ^ 8) with 256. mword.
  - unfold TcpServer_new, initSocket, setNonBlocking, syscall, exit_process, mbind, Proc_bind, mret, Proc_ret in E. simpl in E.
    destruct (_ <? 0) eqn:Eb; injection E as <- <-.
    + do 2 eexists. split; [reflexivity|]. split; [by apply Z.ltb_lt|]. rewrite !Forall_cons, !elem_of_cons. naive_solver.
    + do 2 eexists. split; [reflexivity|]. split; [done|]. split; [by apply Z.ltb_ge|]. split.
      * intros n Hn. rewrite Z.lor_spec. f_equal. unfold O_NONBLOCK. change 2048 with (2 ^ 11).
        rewrite Z.pow2_bits_eqb by lia. by rewrite Z.eqb_sym.
      * unfold TcpServer_delete, close_unless_none, syscall, mbind, Proc_bind, mret, Proc_ret. simpl.
        destruct (kernel [] Socket =? -1), (_ =? -1); reflexivity.
Qed.
