(* ===== verification/Pools.v ===== *)
(** * Connection pools

    [src/server/DBPool.cpp] and [src/server/RedisPool.cpp]: a queue of open connections, a mutex
    and a condition variable.  [getConnection] waits while the queue is empty; the deleter of
    the returned pointer pushes the connection back and calls [notify_one].  The two pools share
    everything but the way they open connections. *)

From S2P Require Import Prelude Bytes.
From stdpp Require Import base list.
From Stdlib Require Import ZArith Lia.

(** ** Opening the connections *)

Section Init.
Context {C : Type}.

(** [DBPool::init]: one outcome of [mysql_real_connect] per attempt. *)
Fixpoint db_init (attempts : list (option C)) (connQueue : list C) : list C :=
  match attempts with
  | [] => connQueue
  | Some conn :: rest => db_init rest (connQueue ++ [conn])
  | None :: rest => db_init rest connQueue
  end.

(** What [redisConnect] and the [AUTH] command answer. *)
Inductive redis_attempt := RedisNull | RedisErr (conn : C) | RedisOpen (conn : C) (auth_ok : bool).

(** [RedisPool::init]: the queue and the contexts freed on the way. *)
Fixpoint redis_init (password : bytes) (attempts : list redis_attempt) (connQueue freed : list C) : list C * list C :=
  match attempts with
  | [] => (connQueue, freed)
  | RedisNull :: rest => redis_init password rest connQueue freed
  | RedisErr conn :: rest => redis_init password rest connQueue (freed ++ [conn])
  | RedisOpen conn auth_ok :: rest =>
      if negb (bool_decide (password = [])) && negb auth_ok
      then redis_init password rest connQueue (freed ++ [conn])
      else redis_init password rest (connQueue ++ [conn]) freed
  end.
End Init.
Arguments redis_attempt : clear implicits.

(** ** The pool *)

(** The queue, the connections in use, the threads asleep on the condition variable, and the
    threads that were woken and have not re-checked the queue yet. *)
Record Pool (C : Type) := mkPool { connQueue_ : list C; in_use : list C; asleep : nat; woken : nat }.
Arguments mkPool {C}. Arguments connQueue_ {C}. Arguments in_use {C}. Arguments asleep {C}. Arguments woken {C}.

(** The destructor: every pooled connection is closed; those in use are not. *)
Definition pool_destroy {C} (p : Pool C) : list C * Pool C := (connQueue_ p, mkPool [] (in_use p) (asleep p) (woken p)).

Section Pool.
Context {C : Type}.
Implicit Types (p : Pool C).

Inductive pool_action :=
| Request            (* a thread calls getConnection and tests the queue *)
| Resume             (* a woken thread tests the queue *)
| Spurious           (* a sleeping thread wakes by itself *)
| Release (i : nat). (* the i-th pointer in use is destroyed *)

(** [conn = connQueue_.front(); connQueue_.pop()]. *)
Definition take_front p : option (C * Pool C) :=
  match connQueue_ p with
  | [] => None
  | c :: q => Some (c, mkPool q (c :: in_use p) (asleep p) (woken p))
  end.

(** One critical section of [mtx_]. *)
Definition pool_exec (a : pool_action) p : option (Pool C) :=
  match a with
  | Request =>
      match take_front p with
      | Some (_, p') => Some p'
      | None => Some (mkPool (connQueue_ p) (in_use p) (S (asleep p)) (woken p))
      end
  | Resume =>
      match woken p with
      | O => None
      | S n =>
          let p1 := mkPool (connQueue_ p) (in_use p) (asleep p) n in
          match take_front p1 with
          | Some (_, p') => Some p'
          | None => Some (mkPool (connQueue_ p) (in_use p) (S (asleep p)) n)
          end
      end
  | Spurious =>
      match asleep p with
      | O => None
      | S n => Some (mkPool (connQueue_ p) (in_use p) n (S (woken p)))
      end
  | Release i =>
      match in_use p !! i with
      | None => None
      | Some c =>
          let q := connQueue_ p ++ [c] in
          let u := delete i (in_use p) in
          match asleep p with
          | O => Some (mkPool q u O (woken p))
          | S n => Some (mkPool q u n (S (woken p)))
          end
      end
  end.

Fixpoint pool_run (l : list pool_action) p : option (Pool C) :=
  match l with
  | [] => Some p
  | a :: l' => match pool_exec a p with Some p' => pool_run l' p' | None => None end
  end.

Definition start_pool (conns : list C) : Pool C := mkPool conns [] 0 0.

(** Nothing is lost, and no wake-up is lost: while a thread sleeps there are at least as many
    woken threads as free connections. *)
Record pool_ok (conns : list C) p : Prop := {
  po_conns : connQueue_ p ++ in_use p ≡ₚ conns;
  po_wake : (0 < asleep p)%nat -> (length (connQueue_ p) <= woken p)%nat
}.

Lemma take_front_spec p c p' :
  take_front p = Some (c, p') ->
  connQueue_ p = c :: connQueue_ p' /\ in_use p' = c :: in_use p /\ asleep p' = asleep p /\ woken p' = woken p.
Proof. unfold take_front. destruct (connQueue_ p) as [|x q]; [done|]. by intros [= <- <-]. Qed.

Lemma pool_exec_ok conns a p p' : pool_ok conns p -> pool_exec a p = Some p' -> pool_ok conns p'.
Proof.
  intros [H1 H2]. destruct a; simpl.
  - destruct (take_front p) as [[c p1]|] eqn:E.
    + apply take_front_spec in E as (Eq & Eu & Ea & Ew). intros [= <-]. rewrite Eq in H1, H2. simpl in H2. split.
      * rewrite Eu, <- H1. simpl. by rewrite Permutation_middle.
      * rewrite Ea, Ew. lia.
    + unfold take_front in E. destruct (connQueue_ p) eqn:Eq; [|done]. intros [= <-]. split; simpl; [done|lia].
  - destruct (woken p) as [|n] eqn:Ew; [done|].
    destruct (take_front _) as [[c p1]|] eqn:E.
    + apply take_front_spec in E as (Eq & Eu & Ea & Ew'). intros [= <-]. simpl in *. rewrite Eq in H1, H2. simpl in H2. split.
      * rewrite Eu, <- H1. simpl. by rewrite Permutation_middle.
      * rewrite Ea, Ew'. lia.
    + unfold take_front in E. simpl in E. destruct (connQueue_ p) eqn:Eq; [|done]. intros [= <-]. split; simpl; [done|lia].
  - destruct (asleep p) as [|n] eqn:Ea; [done|]. intros [= <-]. split; simpl; [done|lia].
  - destruct (in_use p !! i) as [c|] eqn:Ei; [|done].
    assert ((connQueue_ p ++ [c]) ++ delete i (in_use p) ≡ₚ conns) as Hp.
    { rewrite <- H1, <- app_assoc. simpl. by rewrite <- (delete_Permutation (in_use p) i c Ei). }
    destruct (asleep p) as [|n] eqn:Ea; intros [= <-]; (split; simpl; [done|]); [lia|].
    rewrite length_app. simpl. lia.
Qed.

Lemma pool_run_ok conns l p p' : pool_ok conns p -> pool_run l p = Some p' -> pool_ok conns p'.
Proof.
  revert p. induction l as [|a l IH]; intros p Hp; simpl; [by intros [= <-]|].
  destruct (pool_exec a p) as [p1|] eqn:E; [|done]. apply IH. by eapply pool_exec_ok.
Qed.

(** C36: the pools, under every interleaving of the threads and with spurious wake-ups.  No
    connection is lost, duplicated or handed to two threads; no wake-up is lost: whenever a
    thread waits while a connection is free, a woken thread is about to take one; so threads
    wait only for connections in use, unless the pool never opened one. *)
Theorem pool_no_lost_wakeup conns l p :
  pool_run l (start_pool conns) = Some p ->
  connQueue_ p ++ in_use p ≡ₚ conns /\
  (NoDup conns -> NoDup (in_use p)) /\
  ((0 < asleep p)%nat -> connQueue_ p <> [] -> exists p', pool_exec Resume p = Some p' /\
     length (in_use p') = S (length (in_use p))) /\
  ((0 < asleep p)%nat -> woken p = 0%nat -> conns <> [] -> in_use p <> []).
Proof.
  intros E. destruct (pool_run_ok conns l (start_pool conns) p) as [H1 H2]; [|done|].
  { split; simpl; [by rewrite app_nil_r|lia]. }
  split_and!; [done| | |].
  - intros Hn. rewrite <- H1 in Hn. by apply NoDup_app in Hn as (_ & _ & Hn).
  - intros Ha Hq. specialize (H2 Ha). simpl. destruct (woken p) as [|n].
    + destruct (connQueue_ p); [done|simpl in H2; lia].
    + unfold take_front. simpl. destruct (connQueue_ p) as [|c q]; [done|]. eexists. split; [done|]. done.
  - intros Ha Hw Hc Hu. rewrite Hu, app_nil_r in H1. specialize (H2 Ha). rewrite Hw in H2.
    destruct (connQueue_ p); [|simpl in H2; lia]. apply Permutation_nil_l in H1. done.
Qed.

End Pool.

(** Two connections, three threads: the third sleeps, a release wakes it. *)
Lemma pool_no_lost_wakeup_witness :
  exists p, pool_run [Request; Request; Request; Release 1%nat] (start_pool [10%nat; 20%nat]) = Some p /\
    connQueue_ p ++ in_use p ≡ₚ [10%nat; 20%nat] /\ woken p = 1%nat.
Proof.
  destruct (pool_run [Request; Request; Request; Release 1%nat] (start_pool [10%nat; 20%nat])) as [p|] eqn:E; [|discriminate E].
  destruct (pool_no_lost_wakeup _ _ _ E) as (H & _). exists p. split; [reflexivity|]. split; [exact H|].
  injection E as <-. reflexivity.
Defined.
