(* ===== verification/Background.v ===== *)
(** * Background workers: the thread pool, the logger, the market data publisher

    [include/ThreadPool.hpp], [include/Logger.hpp] and [include/MarketDataPublisher.hpp].  Each
    owns a queue and threads that drain it; what differs is what happens at shutdown. *)

From S2P Require Import Prelude Bytes Numerals Common Handlers World.
From stdpp Require Import base strings list gmap.
From Stdlib Require Import ZArith Lia.

(** ** [ThreadPool] *)

Module ThreadPool.
(** The queue (who enqueued, and the task; [None] is the null task), [running_], the idle
    workers, the tasks being run, the workers that returned, and the tasks completed. *)
Record Pool (A : Type) := mkTP {
  tasks_ : list (Z * option A);
  running_ : bool;
  idle : nat;
  busy : list A;
  exited : nat;
  completed : list A
}.
Arguments mkTP {A}. Arguments tasks_ {A}. Arguments running_ {A}. Arguments idle {A}.
Arguments busy {A}. Arguments exited {A}. Arguments completed {A}.

(** The queue keeps the order of each enqueuing thread only: a dequeue may take any entry that
    has none of the same thread before it. *)
Definition takeable {T} (i : nat) (l : list (Z * T)) : bool :=
  match l !! i with
  | Some e => forallb (fun e' => negb (e'.1 =? e.1)%Z) (take i l)
  | None => false
  end.

(** The entries of one thread, in order. *)
Definition entries_of {T} (who : Z) (l : list (Z * T)) : list T := snd <$> filter (fun e => e.1 = who) l.

Lemma entries_of_none {T} who (l : list (Z * T)) : Forall (fun e => e.1 <> who) l -> entries_of who l = [].
Proof. intros Hl. unfold entries_of. rewrite filter_none; [done|]. by apply Forall_forall. Qed.

Lemma entries_of_all {T} who (l : list (Z * T)) : Forall (fun e => e.1 = who) l -> entries_of who l = snd <$> l.
Proof. intros Hl. unfold entries_of. rewrite filter_all; [done|]. by apply Forall_forall. Qed.

Lemma entries_of_app {T} who (l k : list (Z * T)) : entries_of who (l ++ k) = entries_of who l ++ entries_of who k.
Proof. unfold entries_of. by rewrite filter_app, fmap_app. Qed.

Lemma take_entries {T} i (l : list (Z * T)) who x :
  takeable i l = true -> l !! i = Some (who, x) ->
  entries_of who l = x :: entries_of who (delete i l) /\
  forall w, w <> who -> entries_of w (delete i l) = entries_of w l.
Proof.
  intros Ht Hi. unfold takeable in Ht. rewrite Hi in Ht.
  assert (Forall (fun e : Z * T => e.1 <> who) (take i l)) as Hf.
  { apply Forall_forall. intros e He. apply forallb_forall with (x := e) in Ht; [|by apply list_elem_of_In].
    simpl in Ht. apply negb_true_iff, Z.eqb_neq in Ht. done. }
  rewrite delete_take_drop. pose proof (take_drop_middle l i (who, x) Hi) as El. split.
  - rewrite <- El at 1. rewrite !entries_of_app, entries_of_none by done. unfold entries_of. by rewrite filter_cons_True.
  - intros w Hw. rewrite <- El at 3. rewrite !entries_of_app. f_equal. unfold entries_of. by rewrite filter_cons_False.
Qed.

(** The tasks in a queue. *)
Definition waiting {A} (l : list (Z * option A)) : list A := omap snd l.

Section Pool.
Context {A : Type}.
Implicit Types (p : Pool A) (who : Z).

Definition start (numThreads : nat) : Pool A := mkTP [] true numThreads [] 0 [].

(** [enqueue(task)], called by thread [who]. *)
Definition enqueue who (task : A) p : Pool A :=
  mkTP (tasks_ p ++ [(who, Some task)]) (running_ p) (idle p) (busy p) (exited p) (completed p).

(** The destructor up to the joins, run by thread [who]: clear [running_], then one null task
    per worker. *)
Definition shutdown who (numThreads : nat) p : Pool A :=
  mkTP (tasks_ p ++ replicate numThreads (who, None)) false (idle p) (busy p) (exited p) (completed p).

(** A step of some worker: [wait_dequeue], which hands out entry [i], and the tests on what it
    took; or the end of a task. *)
Inductive worker_action := Dequeue (i : nat) | Finish (i : nat).

Definition worker_exec (a : worker_action) p : option (Pool A) :=
  match a with
  | Dequeue i =>
      match idle p, tasks_ p !! i with
      | S n, Some (_, task) =>
          if negb (takeable i (tasks_ p)) then None
          else
            let q := delete i (tasks_ p) in
            match task with
            | None =>
                if running_ p then Some (mkTP q true (S n) (busy p) (exited p) (completed p))
                else Some (mkTP q false n (busy p) (S (exited p)) (completed p))
            | Some t => Some (mkTP q (running_ p) n (t :: busy p) (exited p) (completed p))
            end
      | _, _ => None
      end
  | Finish i =>
      match busy p !! i with
      | Some t => Some (mkTP (tasks_ p) (running_ p) (S (idle p)) (delete i (busy p)) (exited p) (completed p ++ [t]))
      | None => None
      end
  end.

Fixpoint worker_run (l : list worker_action) p : option (Pool A) :=
  match l with
  | [] => Some p
  | a :: l' => match worker_exec a p with Some p' => worker_run l' p' | None => None end
  end.

(** The life of the pool: tasks are submitted, by any threads, while the workers run. *)
Inductive phase := Submit (who : Z) (task : A) | Work (a : worker_action).
Fixpoint serve_phase (l : list phase) p : option (Pool A) :=
  match l with
  | [] => Some p
  | Submit who t :: l' => serve_phase l' (enqueue who t p)
  | Work a :: l' => match worker_exec a p with Some p' => serve_phase l' p' | None => None end
  end.
Definition submitted (l : list phase) : list A :=
  omap (fun x => match x with Submit _ t => Some t | Work _ => None end) l.
Definition submitters (l : list phase) : list Z :=
  omap (fun x => match x with Submit who _ => Some who | Work _ => None end) l.

(** The workers are accounted for, and so are the tasks.  Before shutdown there is no null
    task; after it, by thread [d], the entries of [d] are the tasks still to run, followed by
    one null task for each worker that has not left, and the others' entries are tasks. *)
Record pool_inv (n : nat) (d : Z) (all : list A) p : Prop := {
  pi_workers : (idle p + length (busy p) + exited p)%nat = n;
  pi_tasks : completed p ++ busy p ++ waiting (tasks_ p) ≡ₚ all;
  pi_others : Forall (fun e => e.2 = None -> e.1 = d) (tasks_ p);
  pi_queue : exists ts k, entries_of d (tasks_ p) = (Some <$> ts) ++ replicate k None /\
             (if running_ p then k = 0%nat /\ exited p = 0%nat
              else (k + exited p)%nat = n /\ ((0 < exited p)%nat -> ts = []))
}.

Lemma waiting_delete (l : list (Z * option A)) i who x :
  l !! i = Some (who, x) -> waiting l ≡ₚ option_list x ++ waiting (delete i l).
Proof.
  intros Hi. unfold waiting. rewrite (delete_Permutation _ _ _ Hi) at 1. simpl. by destruct x.
Qed.

Lemma worker_exec_inv n d all a p p' : pool_inv n d all p -> worker_exec a p = Some p' -> pool_inv n d all p'.
Proof.
  intros [H1 H2 H3 (ts & k & Hq & Hr)]. destruct a as [i|i]; simpl.
  - destruct (idle p) as [|m] eqn:Ei; [done|]. destruct (tasks_ p !! i) as [[who task]|] eqn:Eq; [|done].
    destruct (takeable i (tasks_ p)) eqn:Et; [|done]. cbn [negb].
    destruct (take_entries i _ who task Et Eq) as [He Ho]. pose proof (waiting_delete _ _ _ _ Eq) as Hw.
    assert (Forall (fun e => e.2 = None -> e.1 = d) (delete i (tasks_ p))) as H3'.
    { rewrite (delete_Permutation _ _ _ Eq), Forall_cons in H3. apply H3. }
    destruct task as [t|]; simpl in Hw.
    + intros [= <-]. split; simpl; [lia| |done|].
      * rewrite <- H2, Hw. apply Permutation_app_head. by rewrite Permutation_middle.
      * destruct (decide (who = d)) as [->|Hne].
        -- destruct ts as [|t' ts]; [rewrite Hq in He; destruct k; discriminate He|].
           rewrite Hq in He. simpl in He. injection He as _ He. exists ts, k. split; [done|].
           destruct (running_ p); [done|]. destruct Hr as [? Hr]. split; [done|]. intros ?%Hr. done.
        -- exists ts, k. split; [|done]. by rewrite Ho by done.
    + assert (who = d) as -> by (apply list_elem_of_lookup_2 in Eq; rewrite Forall_forall in H3; by apply (H3 (who, None))).
      assert (ts = [] /\ exists k', k = S k') as [-> [k' ->]].
      { rewrite Hq in He. destruct ts as [|t ts]; [|discriminate He]. split; [done|]. destruct k as [|k']; [discriminate He|eauto]. }
      rewrite Hq in He. simpl in He. injection He as He. destruct (running_ p) eqn:Er; [destruct Hr; lia|].
      intros [= <-]. split; simpl; [lia| |done|].
      * by rewrite <- H2, Hw.
      * exists [], k'. split; [done|]. destruct Hr. split; [lia|done].
  - destruct (busy p !! i) as [t|] eqn:Ei; [|done]. intros [= <-].
    pose proof (delete_Permutation _ _ _ Ei) as Hd. split; simpl; [| |done|by exists ts, k].
    + apply Permutation_length in Hd. simpl in Hd. lia.
    + rewrite <- H2, <- app_assoc. apply Permutation_app_head. rewrite app_assoc. apply Permutation_app_tail. by symmetry.
Qed.

Lemma enqueue_inv n d all who t p : running_ p = true -> pool_inv n d all p -> pool_inv n d (all ++ [t]) (enqueue who t p).
Proof.
  intros Er [H1 H2 H3 (ts & k & Hq & Hr)]. rewrite Er in Hr. destruct Hr as [-> He]. split; simpl.
  - done.
  - unfold waiting in *. rewrite omap_app. simpl. by rewrite <- H2, <- !app_assoc.
  - apply Forall_app. split; [done|]. by repeat constructor.
  - rewrite Er, entries_of_app, Hq. simpl. rewrite app_nil_r. unfold entries_of. destruct (decide (who = d)) as [->|Hne].
    + exists (ts ++ [t]), 0%nat. rewrite filter_cons_True by done. simpl. by rewrite fmap_app, app_nil_r.
    + exists ts, 0%nat. rewrite filter_cons_False by done. simpl. by rewrite !app_nil_r.
Qed.

Lemma shutdown_inv n d all p : running_ p = true -> pool_inv n d all p -> pool_inv n d all (shutdown d n p).
Proof.
  intros Er [H1 H2 H3 (ts & k & Hq & Hr)]. rewrite Er in Hr. destruct Hr as [-> He]. split; simpl.
  - done.
  - unfold waiting in *. rewrite omap_app. assert (omap snd (replicate n (d, @None A)) = []) as ->; [|by rewrite app_nil_r].
    clear. by induction n.
  - apply Forall_app. split; [done|]. by apply Forall_replicate.
  - exists ts, n. rewrite entries_of_app, Hq. simpl. rewrite app_nil_r. split; [|split; lia]. f_equal.
    by rewrite entries_of_all, fmap_replicate by (by apply Forall_replicate).
Qed.

Lemma worker_exec_running a p p' : worker_exec a p = Some p' -> running_ p' = running_ p.
Proof.
  destruct a as [i|i]; simpl.
  - destruct (idle p), (tasks_ p !! i) as [[who [t|]]|]; try done; destruct (negb _); try done; [by intros [= <-]|].
    destruct (running_ p) eqn:Er; intros [= <-]; done.
  - destruct (busy p !! i); [|done]. by intros [= <-].
Qed.

(** Who enqueued what is in the queue. *)
Definition tasks_from (ws : list Z) p : Prop := Forall (fun e => e.1 ∈ ws) (tasks_ p).

Lemma worker_exec_from ws a p p' : tasks_from ws p -> worker_exec a p = Some p' -> tasks_from ws p'.
Proof.
  unfold tasks_from. intros Hf. destruct a as [i|i]; simpl.
  - destruct (idle p), (tasks_ p !! i) as [[who x]|] eqn:Eq; try done. destruct (negb _); [done|].
    rewrite (delete_Permutation _ _ _ Eq), Forall_cons in Hf. destruct Hf as [_ Hf].
    destruct x as [t|]; [by intros [= <-]|]. destruct (running_ p); by intros [= <-].
  - destruct (busy p !! i); [|done]. by intros [= <-].
Qed.

Lemma serve_phase_inv n d ws all l p p' :
  running_ p = true -> pool_inv n d all p -> tasks_from ws p -> serve_phase l p = Some p' ->
  running_ p' = true /\ pool_inv n d (all ++ submitted l) p' /\ tasks_from (ws ++ submitters l) p'.
Proof.
  revert all ws p. induction l as [|[who t|a] l IH]; intros all ws p Er Hp Hf; simpl.
  - intros [= <-]. by rewrite !app_nil_r.
  - intros E. destruct (IH (all ++ [t]) (ws ++ [who]) (enqueue who t p) Er) as (H1 & H2 & H3); [by apply enqueue_inv| |done|].
    { apply Forall_app. split; [|repeat constructor; inlist]. eapply Forall_impl; [exact Hf|]. intros e He. inlist. }
    rewrite <- app_assoc in H2. rewrite <- app_assoc in H3. done.
  - destruct (worker_exec a p) as [p1|] eqn:Ea; [|done]. apply IH; [|by eapply worker_exec_inv|by eapply worker_exec_from].
    by rewrite (worker_exec_running _ _ _ Ea).
Qed.

Lemma worker_run_inv n d ws all l p p' :
  pool_inv n d all p -> tasks_from ws p -> worker_run l p = Some p' ->
  pool_inv n d all p' /\ tasks_from ws p' /\ running_ p' = running_ p.
Proof.
  revert p. induction l as [|a l IH]; intros p Hp Hf; simpl; [by intros [= <-]|].
  destruct (worker_exec a p) as [p1|] eqn:Ea; [|done]. rewrite <- (worker_exec_running _ _ _ Ea).
  apply IH; [by eapply worker_exec_inv|by eapply worker_exec_from].
Qed.

(** What is left to do decreases with every step, so the joins of the destructor return. *)
Definition work_left p : nat := 2 * length (tasks_ p) + length (busy p).

Lemma worker_exec_decreases a p p' : worker_exec a p = Some p' -> (work_left p' < work_left p)%nat.
Proof.
  unfold work_left. destruct a as [i|i]; simpl.
  - destruct (idle p), (tasks_ p !! i) as [[who x]|] eqn:Eq; try done. destruct (negb _); [done|].
    apply delete_Permutation, Permutation_length in Eq. simpl in Eq.
    destruct x as [t|]; [intros [= <-]; simpl; lia|]. destruct (running_ p); intros [= <-]; simpl; lia.
  - destruct (busy p !! i) as [t|] eqn:Ei; [|done]. intros [= <-]. simpl.
    apply delete_Permutation, Permutation_length in Ei. simpl in Ei. lia.
Qed.

Lemma worker_run_bounded l p p' : worker_run l p = Some p' -> (length l + work_left p' <= work_left p)%nat.
Proof.
  revert p. induction l as [|a l IH]; intros p; simpl; [intros [= <-]; lia|].
  destruct (worker_exec a p) as [p1|] eqn:E; [|done]. intros H%IH. apply worker_exec_decreases in E. lia.
Qed.

(** When no worker can move. *)
Lemma stuck_pool n d all p :
  (0 < n)%nat -> pool_inv n d all p -> running_ p = false -> (forall a, worker_exec a p = None) ->
  exited p = n /\ busy p = [] /\ entries_of d (tasks_ p) = [].
Proof.
  intros Hn [W _ _ (ts & k & Hq & Hk)] Hr Hstuck. rewrite Hr in Hk. destruct Hk as [Hk Hts].
  assert (busy p = []) as Hb.
  { destruct (busy p) as [|t b] eqn:Eb; [done|]. specialize (Hstuck (Finish 0)). simpl in Hstuck. by rewrite Eb in Hstuck. }
  rewrite Hb in W. simpl in W. assert (exited p = n) as He.
  { specialize (Hstuck (Dequeue 0)). simpl in Hstuck. destruct (idle p) as [|m] eqn:Ei; [lia|].
    destruct (tasks_ p) as [|[who [t|]] q] eqn:Et; [|done|by rewrite Hr in Hstuck].
    unfold entries_of in Hq. simpl in Hq. destruct ts; [|done]. destruct k; [|done]. lia. }
  split_and!; [done|done|]. rewrite Hq, Hts by lia. assert (k = 0%nat) as -> by lia. done.
Qed.

(** C37: the thread pool runs tasks at most once and its destructor terminates.  After any
    interleaving of submissions, by any threads, and workers, and then a shutdown by thread [d]:
    every run of the workers is finite, and when none of them can move all of them have returned,
    and every submitted task has either been run exactly once or is still queued, submitted by
    another thread than [d] (the queue orders each thread's tasks only, so the null tasks of the
    destructor may overtake those).  If every task was submitted by [d], as the server's main
    thread does, all have been run, those still queued at shutdown included. *)
Theorem thread_pool_drains n d life l p1 p2 :
  (0 < n)%nat -> serve_phase life (start n) = Some p1 -> worker_run l (shutdown d n p1) = Some p2 ->
  (length l <= work_left (shutdown d n p1))%nat /\
  ((forall a, worker_exec a p2 = None) ->
     exited p2 = n /\ completed p2 ++ waiting (tasks_ p2) ≡ₚ submitted life /\
     Forall (fun e => e.1 <> d /\ e.1 ∈ submitters life /\ is_Some e.2) (tasks_ p2) /\
     (Forall (fun who => who = d) (submitters life) -> tasks_ p2 = [] /\ completed p2 ≡ₚ submitted life)).
Proof.
  intros Hn E1 E2. split; [apply worker_run_bounded in E2; lia|]. intros Hstuck.
  destruct (serve_phase_inv n d [] [] life (start n) p1) as (Hr & H1 & Hf1); [done| |constructor|done|].
  { split; simpl; [lia|done|constructor|]. by exists [], 0%nat. }
  assert (tasks_from (d :: submitters life) (shutdown d n p1)) as Hf.
  { apply Forall_app. split; [|apply Forall_replicate; inlist]. eapply Forall_impl; [exact Hf1|]. intros e He. inlist. }
  destruct (worker_run_inv n d _ _ l _ p2 (shutdown_inv n d _ _ Hr H1) Hf E2) as (Hp2 & Hf2 & Hr2).
  destruct (stuck_pool n d _ p2 Hn Hp2 Hr2 Hstuck) as (He & Hb & Hd). destruct Hp2 as [_ H2 H3 _].
  rewrite Hb in H2. simpl in H2.
  assert (Forall (fun e => e.1 <> d /\ e.1 ∈ submitters life /\ is_Some e.2) (tasks_ p2)) as Hleft.
  { unfold tasks_from in Hf2. rewrite Forall_forall in *. intros e Hin. assert (e.1 <> d) as Hne.
    { intros Ed. assert (e.2 ∈ entries_of d (tasks_ p2)) as Hx; [|rewrite Hd in Hx; by apply not_elem_of_nil in Hx].
      unfold entries_of. apply list_elem_of_fmap_2. by apply list_elem_of_filter. }
    split_and!; [done| |].
    - specialize (Hf2 e Hin). apply elem_of_cons in Hf2 as [?|?]; done.
    - destruct (e.2) eqn:Ex; [by eexists|]. exfalso. apply Hne, (H3 e Hin Ex). }
  split_and!; [done|done|done|]. intros Hall.
  assert (tasks_ p2 = []) as Ht.
  { destruct (tasks_ p2) as [|e q]; [done|]. apply Forall_cons in Hleft as [(Hne & Hin & _) _].
    rewrite Forall_forall in Hall. by apply Hall in Hin. }
  split; [done|]. rewrite Ht in H2. simpl in H2. by rewrite app_nil_r in H2.
Qed.
End Pool.
End ThreadPool.

Import ThreadPool.

(** One main thread, 1, that submits two tasks and destroys the pool. *)
Lemma thread_pool_drains_witness :
  exists p1 p2, serve_phase [Submit 1 7%nat; Work (Dequeue 0); Submit 1 8%nat] (start 2) = Some p1 /\
    worker_run [Dequeue 0; Finish 0; Finish 0; Dequeue 0; Dequeue 0] (shutdown 1 2 p1) = Some p2 /\
    exited p2 = 2%nat /\ completed p2 ≡ₚ [7%nat; 8%nat].
Proof.
  destruct (serve_phase [Submit 1 7%nat; Work (Dequeue 0); Submit 1 8%nat] (start 2)) as [p1|] eqn:E1; [|discriminate E1].
  destruct (worker_run [Dequeue 0; Finish 0; Finish 0; Dequeue 0; Dequeue 0] (shutdown 1 2 p1)) as [p2|] eqn:E2;
    [|injection E1 as <-; discriminate E2].
  destruct (thread_pool_drains 2 1 _ _ _ _ ltac:(lia) E1 E2) as [_ H].
  exists p1, p2. split; [reflexivity|]. split; [exact E2|].
  destruct H as (H1 & _ & _ & H2).
  - intros a. injection E1 as <-. injection E2 as <-. destruct a as [i|i]; reflexivity.
  - split; [exact H1|]. apply H2. repeat constructor.
Defined.

(** A task of another thread, 2, may be overtaken by the null tasks and never run. *)
Example foreign_task_left :
  exists p1 p2, serve_phase [Submit 2 7%nat] (start 1) = Some p1 /\ worker_run [Dequeue 1] (shutdown 1 1 p1) = Some p2 /\
    exited p2 = 1%nat /\ completed p2 = [] /\ tasks_ p2 = [(2%Z, Some 7%nat)].
Proof. eexists _, _. repeat split; reflexivity. Qed.

(** ** [Logger] *)

Module Logger.
Local Open Scope Z_scope.
Inductive LogLevel := DEBUG | INFO | WARN | ERROR.
Record LogItem := mkItem { li_level : LogLevel; li_msg : bytes; li_timestamp : Z }.

(** The file ([None]: not open), [running_], the queue, and what was written to the console. *)
Record Logger := mkLogger { fileStream_ : option bytes; log_running : bool; log_queue : list LogItem; console : bytes }.

Definition fresh_logger : Logger := mkLogger None false [] [].

(** [init(filename)]; [file]: what [open] yields, the present contents in append mode. *)
Definition init (file : option bytes) (l : Logger) : Logger :=
  if log_running l then l
  else
    match file with
    | None => mkLogger None (log_running l) (log_queue l) (console l)
    | Some f => mkLogger (Some f) true (log_queue l) (console l)
    end.

Definition log (now : Z) (level : LogLevel) (msg : bytes) (l : Logger) : Logger :=
  if negb (log_running l) then l
  else mkLogger (fileStream_ l) (log_running l) (log_queue l ++ [mkItem level msg now]) (console l).

Definition level_str (level : LogLevel) : bytes :=
  match level with
  | DEBUG => str "[DEBUG]" | INFO => str "[INFO ]" | WARN => str "[WARN ]" | ERROR => str "[ERROR]"
  end.

Section Sink.
(** [localtime_r] and [std::put_time] of the C library. *)
Context (put_time : Z -> bytes).

(** [std::setfill('0') << std::setw(3)]. *)
Definition pad3 (n : Z) : bytes := let s := to_string n in replicate (3 - length s) 48 ++ s.

Definition format_item (item : LogItem) : bytes :=
  put_time (Z.quot (li_timestamp item) 1000000000) ++ str "." ++
  pad3 (Z.rem (Z.quot (li_timestamp item) 1000000) 1000) ++ str " " ++ level_str (li_level item) ++ str " " ++
  li_msg item ++ [10].

Definition writeToSink (item : LogItem) (l : Logger) : Logger :=
  mkLogger ((fun f => f ++ format_item item) <$> fileStream_ l) (log_running l) (log_queue l)
    (console l ++ format_item item).

(** One iteration of [processLogs] that dequeues at the positions [ks]. *)
Definition log_iteration (ks : list nat) (l : Logger) : option Logger :=
  match dequeue ks (log_queue l) with
  | Some (items, rest) =>
      Some (fold_left (fun l item => writeToSink item l) items
              (mkLogger (fileStream_ l) (log_running l) rest (console l)))
  | None => None
  end.

(** The destructor: clear [running_]; the worker goes on until the queue is empty. *)
Definition stop (l : Logger) : Logger := mkLogger (fileStream_ l) false (log_queue l) (console l).
Fixpoint log_drain (fuel : nat) (l : Logger) : option Logger :=
  match log_queue l with
  | [] => Some l
  | q =>
      match fuel with
      | O => None
      | S fuel' => match log_iteration (replicate (Nat.min 500 (length q)) 0%nat) l with
                   | Some l' => log_drain fuel' l'
                   | None => None
                   end
      end
  end.

Lemma fold_write items f r q c :
  fold_left (fun l item => writeToSink item l) items (mkLogger f r q c) =
  mkLogger ((fun x => x ++ concat (format_item <$> items)) <$> f) r q (c ++ concat (format_item <$> items)).
Proof.
  revert f c. induction items as [|i items IH]; intros f c; simpl.
  - rewrite app_nil_r. destruct f; simpl; [by rewrite app_nil_r|done].
  - unfold writeToSink at 2. simpl. rewrite IH, <- app_assoc. destruct f; simpl; [by rewrite <- app_assoc|done].
Qed.

Lemma log_drain_spec fuel l :
  (length (log_queue l) <= fuel)%nat ->
  log_drain fuel l = Some (mkLogger ((fun x => x ++ concat (format_item <$> log_queue l)) <$> fileStream_ l)
    (log_running l) [] (console l ++ concat (format_item <$> log_queue l))).
Proof.
  revert l. induction fuel as [|fuel IH]; intros [f r q c] Hf; cbn [log_queue fileStream_ log_running console] in *.
  - destruct q; [|simpl in Hf; lia]. simpl. rewrite app_nil_r. by destruct f; simpl; rewrite ?app_nil_r.
  - destruct q as [|i q]; [simpl; rewrite app_nil_r; by destruct f; simpl; rewrite ?app_nil_r|].
    cbn [log_drain log_queue]. set (n := Nat.min 500 (length (i :: q))).
    assert (n <= length (i :: q))%nat as Hn by (unfold n; lia). assert (0 < n)%nat as Hn' by (unfold n; cbn [length]; lia).
    unfold log_iteration. cbn [log_queue fileStream_ log_running console].
    rewrite (dequeue_front n (i :: q) Hn), fold_write, IH
      by (cbn [log_queue]; rewrite length_drop; cbn [length] in *; lia).
    cbn [log_queue fileStream_ log_running console].
    assert (concat (format_item <$> i :: q) =
      concat (format_item <$> take n (i :: q)) ++ concat (format_item <$> drop n (i :: q))) as ->
      by (by rewrite <- concat_app, <- fmap_app, take_drop).
    destruct f; cbn [fmap option_fmap option_map]; by rewrite !app_assoc.
Qed.

(** The life of the logger: calls of [log] and iterations of the worker. *)
Inductive logger_op := Log (now : Z) (level : LogLevel) (msg : bytes) | Iterate (ks : list nat).
Fixpoint logger_run (ops : list logger_op) (l : Logger) : option Logger :=
  match ops with
  | [] => Some l
  | Log now level msg :: ops' => logger_run ops' (log now level msg l)
  | Iterate ks :: ops' => match log_iteration ks l with Some l' => logger_run ops' l' | None => None end
  end.
Definition logged (ops : list logger_op) : list LogItem :=
  omap (fun op => match op with Log now level msg => Some (mkItem level msg now) | Iterate _ => None end) ops.

Lemma logger_run_spec ops f r0 q c l :
  r0 = true -> logger_run ops (mkLogger (Some f) r0 q c) = Some l ->
  exists written, l = mkLogger (Some (f ++ concat (format_item <$> written))) true (log_queue l)
                        (c ++ concat (format_item <$> written)) /\
    written ++ log_queue l ≡ₚ q ++ logged ops.
Proof.
  intros ->. revert f q c. induction ops as [|[now level msg|ks] ops IH]; intros f q c; simpl.
  - intros [= <-]. exists []. simpl. by rewrite !app_nil_r.
  - intros E. unfold log in E. simpl in E. destruct (IH _ _ _ E) as (wr & Hl & Hp). exists wr. split; [done|].
    rewrite Hp. rewrite <- app_assoc. done.
  - unfold log_iteration. cbn [log_queue]. destruct (dequeue ks q) as [[items rest]|] eqn:Ed; [|done].
    apply dequeue_perm in Ed. cbn [fileStream_ log_running console]. rewrite fold_write. intros E.
    destruct (IH _ _ _ E) as (wr & Hl & Hp). exists (items ++ wr).
    rewrite fmap_app, concat_app, !app_assoc. split; [done|]. rewrite <- app_assoc, Hp, Ed. by rewrite <- app_assoc.
Qed.

(** The logger loses nothing: whatever was logged between [init] and the destructor, by any
    interleaving with the worker and in whatever order the queue delivers it, is on the console
    and appended to the file, each line exactly once, when the destructor returns. *)
Theorem logger_loses_nothing f ops l :
  logger_run ops (init (Some f) fresh_logger) = Some l ->
  exists l' written, log_drain (length (log_queue l)) (stop l) = Some l' /\ written ≡ₚ logged ops /\
    log_queue l' = [] /\
    console l' = concat (format_item <$> written) /\ fileStream_ l' = Some (f ++ concat (format_item <$> written)).
Proof.
  intros E. destruct (logger_run_spec ops f true [] [] l eq_refl E) as (wr & Hl & Hp). simpl in Hp.
  eexists _, (wr ++ log_queue l). rewrite log_drain_spec by done. split; [done|]. split; [done|].
  cbn [log_queue console fileStream_ stop]. 
  assert (console l = concat (format_item <$> wr)) as -> by (by rewrite Hl).
  assert (fileStream_ l = Some (f ++ concat (format_item <$> wr))) as -> by (by rewrite Hl).
  rewrite fmap_app, concat_app. simpl. by rewrite app_assoc.
Qed.
End Sink.
End Logger.

Lemma logger_loses_nothing_witness :
  exists l l', Logger.logger_run (fun _ => str "T") [Logger.Log 1000000 Logger.INFO (str "a"); Logger.Iterate [0%nat];
      Logger.Log 2000000 Logger.ERROR (str "b")] (Logger.init (Some []) Logger.fresh_logger) = Some l /\
    Logger.console l' = str "T.001 [INFO ] a" ++ [10%Z] ++ str "T.002 [ERROR] b" ++ [10%Z] /\
    exists written, Logger.console l' = concat (Logger.format_item (fun _ => str "T") <$> written) /\ length written = 2%nat.
Proof.
  destruct (Logger.logger_run (fun _ => str "T") [Logger.Log 1000000 Logger.INFO (str "a"); Logger.Iterate [0%nat];
      Logger.Log 2000000 Logger.ERROR (str "b")] (Logger.init (Some []) Logger.fresh_logger)) as [l|] eqn:E;
    [|vm_compute in E; discriminate E].
  destruct (Logger.logger_loses_nothing (fun _ => str "T") [] _ l E) as (l' & wr & Hd & Hp & _ & Hc & _).
  exists l, l'. split; [reflexivity|]. split.
  - vm_compute in E. injection E as <-. vm_compute in Hd. injection Hd as <-. vm_compute. reflexivity.
  - exists wr. split; [exact Hc|]. apply Permutation_length in Hp. rewrite Hp. reflexivity.
Defined.

(** ** [MarketDataPublisher] *)

Module MarketDataPublisher.
Local Open Scope Z_scope.
(** The queue, [running_], and the [ZADD] commands sent so far: key, score and member. *)
Record Publisher := mkPub { pub_queue : list MatchRecord; pub_running : bool; zadds : list (bytes * Z * bytes) }.

Definition pushRecords (recs : list MatchRecord) (p : Publisher) : Publisher :=
  match recs with
  | [] => p
  | _ => mkPub (pub_queue p ++ recs) (pub_running p) (zadds p)
  end.

(** A quoted key and its colon. *)
Definition json_key (k : bytes) : bytes := 34 :: k ++ [34; 58].
Definition json_data (rec : MatchRecord) : bytes :=
  str "{" ++ json_key (str "ticker") ++ to_string (mr_ticker_id rec) ++
  str "," ++ json_key (str "price") ++ to_string (match_price rec) ++
  str "," ++ json_key (str "qty") ++ to_string (match_quantity rec) ++ str "}".
Definition zset_key (rec : MatchRecord) : bytes := str "history:trade:" ++ to_string (mr_ticker_id rec).

(** [publishBatchToRedis]: [conn = false] is a null connection, which drops the batch. *)
Definition publishBatchToRedis (conn : bool) (batch : list MatchRecord) (p : Publisher) : Publisher :=
  if negb conn then p
  else mkPub (pub_queue p) (pub_running p)
         (zadds p ++ ((fun rec => (zset_key rec, mr_timestamp rec, json_data rec)) <$> batch)).

(** One test of [running_] and one batch, dequeued at the positions [ks]; [None]: the loop has
    ended. *)
Definition publish_iteration (conn : bool) (ks : list nat) (p : Publisher) : option Publisher :=
  if negb (pub_running p) then None
  else
    match dequeue ks (pub_queue p) with
    | Some ([], _) => Some p
    | Some (batch, rest) => Some (publishBatchToRedis conn batch (mkPub rest (pub_running p) (zadds p)))
    | None => None
    end.

Definition stop (p : Publisher) : Publisher := mkPub (pub_queue p) false (zadds p).
End MarketDataPublisher.

Section Publisher.
Local Open Scope Z_scope.
Import MarketDataPublisher.

(** Printed numbers followed by text that does not start with a digit are equal only if the
    numbers and the texts are. *)
Lemma digits_bytes fuel n rest :
  0 <= n -> Forall (fun c => is_digit c = true) rest -> Forall (fun c => is_digit c = true) (digits fuel n rest).
Proof.
  revert n rest. induction fuel as [|fuel IH]; intros n rest Hn Hr; simpl; [done|].
  destruct (n <? 10) eqn:E; zbool; [constructor; [apply is_digit_48; lia|done]|].
  apply IH; [apply Z.div_pos; lia|]. constructor; [apply is_digit_48; apply Z.mod_pos_bound; lia|done].
Qed.

Lemma digits_prefix_eq (a b : bytes) (c d : Z) (s t : bytes) :
  Forall (fun c => is_digit c = true) a -> Forall (fun c => is_digit c = true) b ->
  is_digit c = false -> is_digit d = false -> a ++ c :: s = b ++ d :: t -> a = b /\ c :: s = d :: t.
Proof.
  intros Ha. revert b. induction Ha as [|x a Hx Ha IH]; intros b Hb Hc Hd E.
  - destruct Hb as [|y b Hy _]; [done|]. simpl in E. injection E as -> _. congruence.
  - destruct Hb as [|y b Hy Hb]; simpl in E; [injection E as -> _; congruence|].
    injection E as -> E. destruct (IH b Hb Hc Hd E) as [-> ?]. done.
Qed.

Lemma to_string_digits z : 0 <= z -> Forall (fun c => is_digit c = true) (to_string z).
Proof. intros Hz. unfold to_string. rewrite (proj2 (Z.ltb_ge z 0)) by done. by apply digits_bytes. Qed.

Lemma to_string_sep z1 z2 c s t :
  inU 64 z1 -> inU 64 z2 -> is_digit c = false ->
  to_string z1 ++ c :: s = to_string z2 ++ c :: t -> z1 = z2 /\ s = t.
Proof.
  intros H1 H2 Hc E. apply digits_prefix_eq in E as [E1 E2]; [|apply to_string_digits; unfold inU in *; lia..|done|done].
  split; [|by injection E2]. pose proof (stoull_to_string z1 H1) as P1. rewrite E1, stoull_to_string in P1 by done.
  by injection P1.
Qed.

(** What the publisher stores in Redis.  A batch sends one [ZADD] per record, under the key
    that [GetTrendHandler] reads for the record's ticker, scored with the record's time; but the
    member names only ticker, price and quantity, and a sorted set keeps a member once: two
    trades of the same ticker, price and quantity are one entry of the history, and no others
    are. *)
Theorem publisher_members_collide p batch r1 r2
  (H1 : inU 64 (mr_ticker_id r1) /\ inU 64 (match_price r1) /\ inU 64 (match_quantity r1))
  (H2 : inU 64 (mr_ticker_id r2) /\ inU 64 (match_price r2) /\ inU 64 (match_quantity r2)) :
  zadds (publishBatchToRedis true batch p) =
    zadds p ++ ((fun rec => (trend_key (mr_ticker_id rec), mr_timestamp rec, json_data rec)) <$> batch) /\
  (json_data r1 = json_data r2 <->
   mr_ticker_id r1 = mr_ticker_id r2 /\ match_price r1 = match_price r2 /\ match_quantity r1 = match_quantity r2).
Proof.
  split; [done|]. destruct H1 as (A1 & A2 & A3), H2 as (B1 & B2 & B3). split.
  - unfold json_data. intros E. apply app_inv_head in E. apply app_inv_head in E.
    apply to_string_sep in E as [-> E]; [|done..]. apply app_inv_head in E.
    apply to_string_sep in E as [-> E]; [|done..]. apply app_inv_head in E.
    by apply to_string_sep in E as [-> _].
  - unfold json_data. by intros (-> & -> & ->).
Qed.
End Publisher.

Lemma publisher_members_collide_witness :
  MarketDataPublisher.json_data (mkMatch 7 1 2 3 4 120 100 5 1000) =
  MarketDataPublisher.json_data (mkMatch 7 8 9 5 6 130 100 5 2000).
Proof.
  refine (proj2 (proj2 (publisher_members_collide (MarketDataPublisher.mkPub [] true []) []
    (mkMatch 7 1 2 3 4 120 100 5 1000) (mkMatch 7 8 9 5 6 130 100 5 2000) _ _)) _).
  - repeat split; vm_compute; congruence.
  - repeat split; vm_compute; congruence.
  - repeat split.
Defined.
