(* ===== verification/Shutdown.v ===== *)
(** * How the worker threads end

    The destructors of [WALManager.hpp], [OrderBookProcessor.hpp], [MarketDataPublisher.hpp] and
    [SettlementProcessor.hpp] clear [running_] and join the thread.  The first three loops test
    [running_] alone, so they leave what is in the queue then; the settlement loop goes on until
    both of its queues are empty.  What a batch does is in WALManager.v, Engine.v, Background.v
    and SettlementProcessor.v; here the elements of a batch are counted as handled.

    The queues are bags (BlockingQueue.v, ConcurrentQueueTheorems.v). *)

From S2P Require Import Prelude.
From stdpp Require Import base list.
From Stdlib Require Import ZArith Lia.
Local Open Scope Z_scope.

Definition batch_size : nat := 1000.

(** ** Loops that test the flag alone *)

Section TimedWorker.
Context {A : Type}.

Inductive loop_stage :=
| TestRunning
| WaitDequeue              (* wait_dequeue_bulk_timed *)
| Handle (batch : list A)
| Ended.

Record Worker := mkWorker { running : bool; queue : list A; loop : loop_stage; handled : list A }.
Implicit Types (w : Worker).

(** The constructor starts the thread. *)
Definition start_worker : Worker := mkWorker true [] TestRunning [].

(** One step of the thread; [ks] are the places of the elements it gets, none when the wait
    times out. *)
Definition worker_turn (ks : list nat) w : option Worker :=
  match loop w with
  | TestRunning => Some (mkWorker (running w) (queue w) (if running w then WaitDequeue else Ended) (handled w))
  | WaitDequeue =>
      if (length ks <=? batch_size)%nat then
        match dequeue ks (queue w) with
        | Some ([], _) => Some (mkWorker (running w) (queue w) TestRunning (handled w))
        | Some (batch, rest) => Some (mkWorker (running w) rest (Handle batch) (handled w))
        | None => None
        end
      else None
  | Handle batch => Some (mkWorker (running w) (queue w) TestRunning (handled w ++ batch))
  | Ended => None
  end.

Inductive life_action := Push (l : list A) | StopRunning | Turn (ks : list nat).

Definition life_exec (a : life_action) w : option Worker :=
  match a with
  | Push l => Some (mkWorker (running w) (queue w ++ l) (loop w) (handled w))
  | StopRunning => Some (mkWorker false (queue w) (loop w) (handled w))
  | Turn ks => worker_turn ks w
  end.

Fixpoint life_run (l : list life_action) w : option Worker :=
  match l with
  | [] => Some w
  | a :: l' => match life_exec a w with Some w' => life_run l' w' | None => None end
  end.

Definition pushed (a : life_action) : list A := match a with Push l => l | _ => [] end.
Fixpoint turns (l : list life_action) : nat :=
  match l with [] => 0%nat | Turn _ :: l' => S (turns l') | _ :: l' => turns l' end.

Definition in_hand w : list A := match loop w with Handle batch => batch | _ => [] end.

(** Turns that are left once the flag is down. *)
Definition turns_left w : nat := match loop w with WaitDequeue => 3 | Handle _ => 2 | TestRunning => 1 | Ended => 0 end.

Lemma life_exec_bag a w w' : life_exec a w = Some w' ->
  handled w' ++ in_hand w' ++ queue w' ≡ₚ (handled w ++ in_hand w ++ queue w) ++ pushed a.
Proof.
  destruct a as [l| |ks]; simpl; [intros [= <-]|intros [= <-]|]; unfold in_hand; simpl.
  - by rewrite !app_assoc.
  - by rewrite app_nil_r.
  - unfold worker_turn. destruct w as [r q lo h]. simpl. rewrite app_nil_r. destruct lo as [| |b|]; simpl; [..|done].
    + intros [= <-]. simpl. by destruct r.
    + destruct (_ <=? _)%nat; [|done]. destruct (dequeue ks q) as [[[|x b] rest]|] eqn:E; [| |done]; intros [= <-]; simpl; [done|].
      apply dequeue_perm in E. by rewrite E.
    + intros [= <-]. simpl. by rewrite <- app_assoc.
Qed.

Lemma life_run_bag l w w' : life_run l w = Some w' ->
  handled w' ++ in_hand w' ++ queue w' ≡ₚ (handled w ++ in_hand w ++ queue w) ++ concat (pushed <$> l).
Proof.
  revert w. induction l as [|a l IH]; intros w; simpl; [intros [= ->]; by rewrite app_nil_r|].
  destruct (life_exec a w) as [w1|] eqn:E; [|done]. intros H%IH. rewrite H, (life_exec_bag a w w1 E). by rewrite <- !app_assoc.
Qed.

(** Once the flag is down every turn brings the end closer, and at most one more batch is taken. *)
Definition still_to_handle w : nat := match loop w with WaitDequeue => batch_size | Handle batch => length batch | _ => 0 end.

Lemma stopped_step a w w' : running w = false -> life_exec a w = Some w' ->
  running w' = false /\ (turns [a] + turns_left w' <= turns_left w)%nat /\
  (length (handled w') + still_to_handle w' <= length (handled w) + still_to_handle w)%nat.
Proof.
  intros Hr. destruct w as [r q lo h]. simpl in Hr. subst r. destruct a as [l| |ks]; simpl.
  - intros [= <-]. unfold turns_left, still_to_handle. simpl. lia.
  - intros [= <-]. unfold turns_left, still_to_handle. simpl. lia.
  - unfold worker_turn. destruct lo as [| |b|]; simpl; [..|done].
    + intros [= <-]. unfold turns_left, still_to_handle. simpl. lia.
    + destruct (length ks <=? batch_size)%nat eqn:El; [|done]. apply Nat.leb_le in El.
      destruct (dequeue ks q) as [[[|x b] rest]|] eqn:E; [| |done]; intros [= <-]; unfold turns_left, still_to_handle; simpl; [lia|].
      apply dequeue_length in E. simpl in E. lia.
    + intros [= <-]. unfold turns_left, still_to_handle. simpl. rewrite length_app. lia.
Qed.

Lemma stopped_run l w w' : running w = false -> life_run l w = Some w' ->
  running w' = false /\ (turns l + turns_left w' <= turns_left w)%nat /\
  (length (handled w') + still_to_handle w' <= length (handled w) + still_to_handle w)%nat.
Proof.
  revert w. induction l as [|a l IH]; intros w Hr; simpl; [by intros [= <-]|].
  destruct (life_exec a w) as [w1|] eqn:E; [|done]. intros H. destruct (stopped_step a w w1 Hr E) as (Hr1 & Ht & Hh).
  destruct (IH w1 Hr1 H) as (Hr' & Ht' & Hh'). split; [done|]. split; [|lia].
  destruct a; simpl in *; lia.
Qed.

(** The join of the destructor returns: after [running_] is cleared the thread takes at most
    three more turns, and always has one until it has ended.  It handles at most the batch it is
    at or one more; the rest of the queue, with all that is pushed later, is never handled. *)
Theorem timed_worker_shutdown l l' w w' :
  life_run l start_worker = Some w -> running w = false -> life_run l' w = Some w' ->
  (turns l' <= 3)%nat /\
  (loop w' = Ended \/ exists ks, is_Some (life_exec (Turn ks) w')) /\
  (length (handled w') <= length (handled w) + batch_size)%nat /\
  (loop w' = Ended -> handled w' ++ queue w' ≡ₚ concat (pushed <$> (l ++ l'))).
Proof.
  intros E Hr E'. destruct (stopped_run l' w w' Hr E') as (Hr' & Ht & Hh). split_and!.
  - unfold turns_left in Ht. destruct (loop w), (loop w'); lia.
  - destruct w' as [r q [| |b|] h]; [right; exists []; by eexists..|by left].
  - assert (length (in_hand w) <= batch_size)%nat as Hb; [|unfold still_to_handle, in_hand in *; destruct (loop w); simpl in *; lia].
    clear Hh Ht Hr Hr' E' w' l'. revert w E. induction l as [|a l IH] using rev_ind; intros w; [intros [= <-]; simpl; lia|].
    assert (forall k w0, life_run (k ++ [a]) w0 = match life_run k w0 with Some w1 => life_exec a w1 | None => None end) as ->.
    { induction k as [|b k IHk]; intros w0; simpl; [by destruct (life_exec a w0)|]. by destruct (life_exec b w0). }
    destruct (life_run l start_worker) as [w1|]; [|done]. intros E. specialize (IH w1 eq_refl). destruct w1 as [r q lo h].
    destruct a as [k| |ks]; simpl in E; [by injection E as <-..|]. unfold worker_turn in E. destruct lo as [| |b|]; simpl in E.
    + injection E as <-. unfold in_hand. simpl. destruct r; simpl; lia.
    + destruct (length ks <=? batch_size)%nat eqn:El; [|done]. apply Nat.leb_le in El.
      destruct (dequeue ks q) as [[[|x b] rest]|] eqn:Ed; [| |done]; injection E as <-; unfold in_hand; simpl; [lia|].
      apply dequeue_length in Ed. simpl in Ed. lia.
    + injection E as <-. unfold in_hand. simpl. lia.
    + done.
  - intros Hend. rewrite fmap_app, concat_app. pose proof (life_run_bag l _ w E) as B1. pose proof (life_run_bag l' w w' E') as B2.
    rewrite B1 in B2. unfold in_hand in B2 at 1. rewrite Hend in B2. exact B2.
Qed.
End TimedWorker.
Arguments Worker : clear implicits.
Arguments loop_stage : clear implicits.
Arguments life_action : clear implicits.

(** Three orders are logged for and answered with success; the server is stopped while the WAL
    worker waits between two batches: none of them is handled. *)
Example queued_events_are_lost :
  life_run [Push [1; 2; 3]; StopRunning; Turn []] start_worker = Some (mkWorker false [1; 2; 3] Ended []).
Proof. reflexivity. Qed.

Lemma timed_worker_shutdown_witness : exists w',
  life_run [Push [4; 5]; Turn [0%nat]; Turn []; Turn []] (mkWorker false [1; 2; 3] WaitDequeue []) = Some w' /\
  handled w' ++ queue w' ≡ₚ concat (pushed <$> ([Turn []; Push [1; 2; 3]; StopRunning] ++ [Push [4; 5]; Turn [0%nat]; Turn []; Turn []])).
Proof.
  eexists. split; [reflexivity|].
  exact (proj2 (proj2 (proj2 (timed_worker_shutdown [Turn []; Push [1; 2; 3]; StopRunning] [Push [4; 5]; Turn [0%nat]; Turn []; Turn []]
    _ _ eq_refl eq_refl eq_refl))) eq_refl).
Defined.

(** ** The settlement loop *)

Section SettlementWorker.
Context {M C : Type}.

Inductive settle_stage :=
| S_TestRunning
| S_TestMatches            (* queue_.size_approx() > 0 *)
| S_TestCancels
| S_Matches                (* queue_.try_dequeue_bulk *)
| S_Cancels (busy : bool)  (* cancel_queue_.try_dequeue_bulk *)
| S_Ended.

Record SettleWorker := mkSettle {
  s_running : bool; s_matches : list M; s_cancels : list C; s_loop : settle_stage; s_settled : list M; s_released : list C
}.
Implicit Types (w : SettleWorker).

Definition start_settle : SettleWorker := mkSettle true [] [] S_TestRunning [] [].

Definition set_loop (st : settle_stage) w : SettleWorker :=
  mkSettle (s_running w) (s_matches w) (s_cancels w) st (s_settled w) (s_released w).

(** [while (running_ || queue_.size_approx() > 0 || cancel_queue_.size_approx() > 0)] and its
    body; [ks] are the places of the elements that a [try_dequeue_bulk] gets, at least one if
    nobody else is at the queue and it is not empty. *)
Definition settle_turn (ks : list nat) w : option SettleWorker :=
  match s_loop w with
  | S_TestRunning => Some (set_loop (if s_running w then S_Matches else S_TestMatches) w)
  | S_TestMatches => Some (set_loop (if (0 <? length (s_matches w))%nat then S_Matches else S_TestCancels) w)
  | S_TestCancels => Some (set_loop (if (0 <? length (s_cancels w))%nat then S_Matches else S_Ended) w)
  | S_Matches =>
      match dequeue ks (s_matches w) with
      | Some (batch, rest) =>
          Some (mkSettle (s_running w) rest (s_cancels w) (S_Cancels (0 <? length batch)%nat) (s_settled w ++ batch) (s_released w))
      | None => None
      end
  | S_Cancels busy =>
      match dequeue ks (s_cancels w) with
      | Some (batch, rest) => Some (mkSettle (s_running w) (s_matches w) rest S_TestRunning (s_settled w) (s_released w ++ batch))
      | None => None
      end
  | S_Ended => None
  end.

Definition stop_settle w : SettleWorker := mkSettle false (s_matches w) (s_cancels w) (s_loop w) (s_settled w) (s_released w).

(** What a lone [try_dequeue_bulk] may get. *)
Definition turn_fair (ks : list nat) w : Prop :=
  (length ks <= batch_size)%nat /\
  match s_loop w with
  | S_Matches => s_matches w <> [] -> ks <> []
  | S_Cancels _ => s_cancels w <> [] -> ks <> []
  | _ => True
  end.

(** The thread alone, after the flag is cleared and its producers have ended. *)
Inductive settle_turns : nat -> SettleWorker -> SettleWorker -> Prop :=
| no_turn w : settle_turns 0 w w
| next_turn n ks w w1 w' : turn_fair ks w -> settle_turn ks w = Some w1 -> settle_turns n w1 w' -> settle_turns (S n) w w'.

(** While the server runs: turns of the thread, and what the order book workers push. *)
Inductive settle_reached : SettleWorker -> Prop :=
| reached_start : settle_reached start_settle
| reached_push m c w :
    settle_reached w ->
    settle_reached (mkSettle (s_running w) (s_matches w ++ m) (s_cancels w ++ c) (s_loop w) (s_settled w) (s_released w))
| reached_turn ks w w' : settle_reached w -> settle_turn ks w = Some w' -> settle_reached w'.

(** A round that begins with an element takes one; a round that begins without one is the last. *)
Definition settle_left w : nat :=
  let e := (length (s_matches w) + length (s_cancels w))%nat in
  match s_loop w with
  | S_Matches => if (e =? 0)%nat then 5 else 5 * e
  | S_Cancels busy => if busy || (length (s_cancels w) =? 0)%nat then 5 * e + 4 else 5 * e - 1
  | S_TestRunning => 5 * e + 3
  | S_TestMatches => 5 * e + 2
  | S_TestCancels => 5 * e + 1
  | S_Ended => 0
  end.

(** At the second test, and at the end, the queues tested are empty. *)
Definition tested w : Prop :=
  s_running w = false /\
  match s_loop w with S_TestCancels => s_matches w = [] | S_Ended => s_matches w = [] /\ s_cancels w = [] | _ => True end.

Lemma dequeue_rest {A} ks (q batch rest : list A) : dequeue ks q = Some (batch, rest) ->
  length batch = length ks /\ (length rest + length ks = length q)%nat /\ (q <> [] -> ks <> [] -> (length rest < length q)%nat).
Proof.
  intros E. pose proof (dequeue_length _ _ _ _ E) as Hl. apply dequeue_perm, Permutation_length in E. rewrite length_app in E.
  split; [done|]. split; [lia|]. intros _ Hk. destruct ks; [done|simpl in *; lia].
Qed.

Lemma settle_turn_left ks w w' : tested w -> turn_fair ks w -> settle_turn ks w = Some w' ->
  tested w' /\ (S (settle_left w') <= settle_left w)%nat /\
  s_settled w' ++ s_matches w' ≡ₚ s_settled w ++ s_matches w /\ s_released w' ++ s_cancels w' ≡ₚ s_released w ++ s_cancels w.
Proof.
  intros [Hr Ht] [_ Hf]. destruct w as [r m c lo sm rc]. simpl in *. subst r. unfold settle_turn, set_loop, settle_left, tested.
  destruct lo as [| | | |busy|]; simpl in *; [..|done].
  - intros [= <-]. simpl. split_and!; try done. lia.
  - intros [= <-]. simpl. destruct m as [|x m]; simpl; split_and!; try done; lia.
  - intros [= <-]. simpl. subst m. destruct c as [|x c]; simpl; split_and!; try done; lia.
  - destruct (dequeue ks m) as [[batch rest]|] eqn:E; [|done]. intros [= <-]. simpl. destruct (dequeue_rest _ _ _ _ E) as (Hl & Hn & _).
    split; [done|]. split; [|split; [|done]; apply dequeue_perm in E; by rewrite E, <- app_assoc].
    destruct m as [|x m].
    + assert (length ks = 0)%nat as Hk by (simpl in Hn; lia). simpl in *. rewrite Hl, Hk. simpl.
      destruct rest; simpl in *; [|lia]. destruct c as [|y c]; simpl; lia.
    + destruct ks as [|k ks]; [by destruct (Hf ltac:(done))|]. simpl in *. rewrite Hl. simpl. lia.
  - destruct (dequeue ks c) as [[batch rest]|] eqn:E; [|done]. intros [= <-]. simpl. destruct (dequeue_rest _ _ _ _ E) as (Hl & Hn & _).
    split; [done|]. split; [|split; [done|]; apply dequeue_perm in E; by rewrite E, <- app_assoc].
    destruct c as [|x c]; simpl in *; [rewrite orb_true_r; lia|]. destruct ks as [|k ks]; [by destruct (Hf ltac:(done))|].
    simpl in *. destruct busy; simpl; lia.
Qed.

Lemma settle_turn_next w : s_loop w = S_Ended \/ exists ks w', turn_fair ks w /\ settle_turn ks w = Some w'.
Proof.
  assert (forall A (q : list A), exists ks batch rest, (length ks <= batch_size)%nat /\ (q <> [] -> ks <> []) /\ dequeue ks q = Some (batch, rest)) as Hd.
  { intros A [|x q]; [exists [], [], []; split_and!; simpl; [unfold batch_size; lia|done|done]|].
    exists [0%nat], [x], q. split_and!; simpl; [unfold batch_size; lia|done|done]. }
  destruct w as [r m c lo sm rc]. unfold turn_fair, settle_turn. simpl. destruct lo as [| | | |busy|]; [| | | | |by left]; right.
  1-3: exists []; eexists; split; [split; [simpl; unfold batch_size; lia|done]|reflexivity].
  - destruct (Hd _ m) as (ks & b & rest & H1 & H2 & E). exists ks. rewrite E. eexists. split; [by split|reflexivity].
  - destruct (Hd _ c) as (ks & b & rest & H1 & H2 & E). exists ks. rewrite E. eexists. split; [by split|reflexivity].
Qed.

Lemma reached_running w : settle_reached w -> s_running w = true /\
  match s_loop w with S_TestRunning | S_Matches | S_Cancels _ => True | _ => False end.
Proof.
  induction 1 as [|m c w _ IH|ks w w' _ [Hr IH] E]; [done|done|]. unfold settle_turn, set_loop in E.
  destruct w as [r m c lo sm rc]. simpl in *. subst r. destruct lo; try done; simpl in E.
  - by injection E as <-.
  - destruct (dequeue ks m) as [[]|]; [|done]. by injection E as <-.
  - destruct (dequeue ks c) as [[]|]; [|done]. by injection E as <-.
Qed.

(** When the flag is cleared and nothing more is pushed, the settlement thread ends, after at
    most five turns per element and five more, and has settled every match and released every
    cancellation that was queued. *)
Theorem settlement_shutdown n w w' :
  settle_reached w -> settle_turns n (stop_settle w) w' ->
  (n <= 5 * (length (s_matches w) + length (s_cancels w)) + 5)%nat /\
  (s_loop w' = S_Ended \/ exists ks w2, turn_fair ks w' /\ settle_turn ks w' = Some w2) /\
  (s_loop w' = S_Ended -> s_settled w' ≡ₚ s_settled w ++ s_matches w /\ s_released w' ≡ₚ s_released w ++ s_cancels w).
Proof.
  intros Hw H. pose proof (reached_running w Hw) as [_ Hl].
  assert (forall n x x', settle_turns n x x' -> tested x -> tested x' /\ (n + settle_left x' <= settle_left x)%nat /\
    s_settled x' ++ s_matches x' ≡ₚ s_settled x ++ s_matches x /\ s_released x' ++ s_cancels x' ≡ₚ s_released x ++ s_cancels x) as Hrun.
  { clear. induction 1 as [x|n ks x x1 x' Hf E _ IH]; intros Ht; [done|]. destruct (settle_turn_left ks x x1 Ht Hf E) as (H1 & H2 & H3 & H4).
    destruct (IH H1) as (H5 & H6 & H7 & H8). rewrite H7, H8. split_and!; [done|lia|done|done]. }
  destruct (Hrun n _ w' H) as ((_ & Ht) & Hn & Hs & Hc); [split; [done|]; unfold stop_settle; simpl; by destruct (s_loop w)|].
  split; [|split; [apply settle_turn_next|]].
  - assert (settle_left (stop_settle w) <= 5 * (length (s_matches w) + length (s_cancels w)) + 5)%nat as Hb; [|lia].
    unfold stop_settle, settle_left. cbn [s_loop s_matches s_cancels]. repeat case_match; lia.
  - intros He. rewrite He in Ht. destruct Ht as [E1 E2]. rewrite E1, E2, !app_nil_r in *. unfold stop_settle in *. simpl in *. by split.
Qed.
End SettlementWorker.

(** Two trades and a cancellation are queued when the flag is cleared. *)
Definition busy_settle : SettleWorker := mkSettle true [1; 2] [3] S_TestRunning [] [].
Definition idle_settle : SettleWorker := mkSettle false [] [] S_Ended [1; 2] [3].

Ltac take_turn ks := eapply (next_turn _ ks); [split; [simpl; unfold batch_size; lia|done]|reflexivity|].
Lemma busy_turns : settle_turns 7 (stop_settle busy_settle) idle_settle.
Proof.
  do 2 take_turn (@nil nat). take_turn [0; 0]%nat. take_turn [0]%nat. do 3 take_turn (@nil nat). apply no_turn.
Qed.

Lemma settlement_shutdown_witness : (7 <= 5 * (2 + 1) + 5)%nat /\ s_settled idle_settle ≡ₚ [] ++ [1; 2].
Proof.
  destruct (settlement_shutdown 7 busy_settle idle_settle (reached_push [1; 2] [3] start_settle reached_start) busy_turns) as (H1 & _ & H3).
  split; [exact H1|]. exact (proj1 (H3 eq_refl)).
Defined.
