(* ===== verification/Startup.v ===== *)
(** * Startup

    [main] of [src/server/main.cpp], up to [server.start()]: the data loaded from the database,
    the engine with a book per ticker, the pools' sizes being of no consequence here, and the
    handlers registered.  The model follows the text: the registrations go to the global
    [g_router], the connection handler dispatches through [Router::getInstance()]. *)

From S2P Require Import Prelude Bytes Numerals MySQL TickerManager Accounts UserManager Repositories.
From S2P Require Import Engine WALManager SettlementProcessor World ExposureProofs Protocol Session Framing.
From stdpp Require Import base strings list gmap.
From Stdlib Require Import ZArith Lia.
Local Open Scope Z_scope.

Record Server := mkMain {
  m_users : UserManager;
  m_tickers : TickerManager;
  m_engine : MatchingEngine;
  g_router : Router;          (* the global *)
  router_instance : Router    (* Router::getInstance() *)
}.

Section Startup.
Context {D : Type} `{MySQL D}.

(** [loadAllFromDB(); loadAllTickersFromDB(); ...; engine->init(id); ...; registerHandler(..)]:
    [None] when an exception of a number parser escapes. *)
Definition startup (d : D) : option (Server * D) :=
  p1 ← loadAllFromDB true empty_tickers empty_manager d;
  p2 ← loadAllTickersFromDB empty_tickers p1.2;
  Some (mkMain p1.1 p2.1 (init_all (getAllTickerIds p2.1)) (register_all ∅) ∅, p2.2).

(** The world the threads start from; the log file is opened in append mode. *)
Definition first_world (m : Server) (d : D) (file : option FILE) : World UserManager D :=
  start_world (m_tickers m) (m_users m) d (m_engine m) file.
End Startup.

(** ** What is loaded *)

(** An account as [loadAllFromDB] creates it. *)
Definition as_loaded (a : UserAccount) : Prop :=
  frozen_balance a = 0 /\ available_stock a = ∅ /\ frozen_stock a = ∅.

Definition all_loaded (u : UserManager) : Prop := map_Forall (fun _ a => as_loaded a) (um_heap u).

Lemma store_account_loaded u a : as_loaded a -> all_loaded u -> all_loaded (store_account u a).
Proof.
  intros Ha Hu. unfold all_loaded, store_account. cbn [um_heap].
  assert (map_Forall (fun _ a => as_loaded a) (<[fresh (dom (um_heap u)) := a]> (um_heap u))) as Hi
    by (apply map_Forall_insert_2; done).
  destruct (account_ _ !! _); [|done]. by apply map_Forall_delete.
Qed.

Lemma load_account_row_loaded u r u' : load_account_row u r = Some u' -> all_loaded u -> all_loaded u'.
Proof.
  unfold load_account_row. intros E Hu.
  destruct (column r 0); simpl in E; [|done]. destruct (stoull _); simpl in E; [|done].
  destruct (column r 1); simpl in E; [|done]. destruct (column r 2); simpl in E; [|done].
  destruct (stoll _); simpl in E; [|done]. injection E as <-. by apply store_account_loaded.
Qed.

Lemma load_rows_loaded f rows u u' :
  (forall u r u', f u r = Some u' -> all_loaded u -> all_loaded u') ->
  load_rows f u rows = Some u' -> all_loaded u -> all_loaded u'.
Proof.
  intros Hf. revert u. induction rows as [|r rows IH]; intros u; simpl; [by intros [= <-]|].
  destruct (f u r) as [u1|] eqn:E; simpl; [|done]. intros Hl Hu. eapply IH; [exact Hl|]. by eapply Hf.
Qed.

(** With no tickers loaded every holding is skipped. *)
Lemma load_holding_row_skips u r u' : load_holding_row empty_tickers u r = Some u' -> u' = u.
Proof.
  unfold load_holding_row. intros E.
  destruct (column r 0); simpl in E; [|done]. destruct (stoull _); simpl in E; [|done].
  destruct (column r 1); simpl in E; [|done]. destruct (column r 2); simpl in E; [|done].
  destruct (stoi _); simpl in E; [|done]. unfold getTickerId in E. simpl in E. rewrite lookup_empty in E.
  by injection E.
Qed.

Lemma um_acct_heap (P : UserAccount -> Prop) u uid a :
  map_Forall (fun _ a => P a) (um_heap u) -> acct u uid = Some a -> P a.
Proof.
  intros HP. simpl. unfold um_acct. destruct (getAccount u uid) as [r|]; simpl; [|done]. apply HP.
Qed.

(** ** Well-formedness *)

Lemma getAccount_store u a uid :
  um_ok u -> getAccount u (acc_user_id a) = None -> uid <> acc_user_id a ->
  getAccount (store_account u a) uid = getAccount u uid.
Proof.
  intros Hu Hn Hne. unfold getAccount. rewrite store_account_bucket by done.
  destruct (decide (IdToMtx uid = IdToMtx (acc_user_id a))); simpl; [by rewrite lookup_insert_ne|done].
Qed.

(** The id a row of [accounts] carries. *)
Definition row_id (r : row) : option Z := c ← column r 0; stoull c.

Lemma load_accounts_ok rows u u' :
  um_ok u -> NoDup (omap row_id rows) ->
  (forall uid, uid ∈ omap row_id rows -> getAccount u uid = None) ->
  load_rows load_account_row u rows = Some u' -> um_ok u'.
Proof.
  revert u. induction rows as [|r rows IH]; intros u Hu Hn Hf; simpl; [by intros [= <-]|].
  destruct (load_account_row u r) as [u1|] eqn:E; simpl; [|done].
  assert (exists uid name bal, row_id r = Some uid /\ u1 = store_account u (with_balances (new_account uid name) bal 0))
    as (uid & name & bal & Hid & ->).
  { unfold load_account_row in E. unfold row_id. destruct (column r 0) as [c0|]; simpl in *; [|done].
    destruct (stoull c0) as [uid|]; simpl in *; [|done]. destruct (column r 1) as [name|]; simpl in E; [|done].
    destruct (column r 2); simpl in E; [|done]. destruct (stoll _) as [bal|]; simpl in E; [|done].
    injection E as <-. by exists uid, name, bal. }
  simpl in Hn, Hf. rewrite Hid in Hn, Hf. apply NoDup_cons in Hn as [Hn1 Hn2].
  set (a := with_balances _ _ _). assert (getAccount u (acc_user_id a) = None) as Hfree by (apply Hf; inlist).
  apply IH; [by apply store_account_ok|done|].
  intros uid' Hin. rewrite getAccount_store; [apply Hf; inlist|done|done|]. simpl. intros ->. done.
Qed.

Section Theorems.
Context {D : Type} `{MySQL D}.

(** C39: what the server starts with.  Whatever the database holds, if its account ids are
    distinct, the account store is well-formed, nothing is frozen, and every book is empty: the
    hypotheses of the theorems about reachable worlds.  But no account has any shares: the
    holdings are read before the tickers, so every row of [holdings] is skipped. *)
Theorem startup_state (d : D) m d' :
  startup d = Some (m, d') -> NoDup (omap row_id (query_rows accounts_sql d).1) ->
  store_ok (m_users m) /\
  (forall uid a, acct (m_users m) uid = Some a ->
     frozen_balance a = 0 /\ frozen_stock a = ∅ /\ available_stock a = ∅) /\
  (forall k p, m_engine m !! k = Some p -> p = new_processor k).
Proof.
  unfold startup, loadAllFromDB, loadAllTickersFromDB. cbn [negb].
  destruct (query_rows accounts_sql d) as [rows1 d1]. cbn [fst].
  destruct (load_rows load_account_row empty_manager rows1) as [u1|] eqn:E1; simpl; [|done].
  destruct (query_rows holdings_sql d1) as [rows2 d2].
  destruct (load_rows (load_holding_row empty_tickers) u1 rows2) as [u2|] eqn:E2; simpl; [|done].
  destruct (query_rows load_tickers_sql d2) as [rows3 d3].
  destruct (load_tickers empty_tickers rows3) as [t|] eqn:E3; simpl; [|done].
  intros [= <- <-] Hn. cbn [m_users m_engine].
  assert (u2 = u1) as ->.
  { clear -E2. revert u1 E2. induction rows2 as [|r rows IH]; intros u1; simpl; [by intros [= ->]|].
    destruct (load_holding_row empty_tickers u1 r) as [u|] eqn:E; simpl; [|done].
    apply load_holding_row_skips in E as ->. apply IH. }
  split_and!.
  - eapply load_accounts_ok; [apply um_ok_empty|exact Hn| |exact E1]. intros uid _.
    pose proof (acct_empty uid) as Ha. by apply (um_acct_None empty_manager uid um_ok_empty) in Ha.
  - intros uid a Ha. eapply (um_acct_heap as_loaded) in Ha; [by destruct Ha as (? & ? & ?)|].
    eapply load_rows_loaded; [apply load_account_row_loaded|exact E1|]. apply map_Forall_empty.
  - apply init_all_fresh.
Qed.

(** The thirteen request types of the protocol. *)
Definition request_types : list MsgType :=
  [REGISTER_REQ; LOGIN_REQ; LOGOUT_REQ; DEPOSIT_REQ; BALANCE_REQ; TRADE_REQ; CANCEL_REQ; HOLDINGS_REQ; MARKET_REQ;
   ORDERS_REQ; TREND_REQ; NEWS_REQ; ALL_STOCKS_REQ].

(** Routing.  [main] registers a handler for every request type of the protocol and for
    nothing else, but on the global router, while the connection handler asks the router
    instance, which stays empty: every frame a client sends is answered with silence. *)
Theorem startup_routes {St} (handler : HandlerKind -> Session -> bytes -> Z -> St -> option bytes * Session * St)
  (d : D) m d' :
  startup d = Some (m, d') ->
  (forall code, is_Some (g_router m !! code) <-> exists t, t ∈ request_types /\ msg_code t = code) /\
  (forall s ty mem len sends st,
     serve_frame handler (router_instance m) s ty mem len sends st = Some (s, sends, st, [])).
Proof.
  unfold startup. destruct (loadAllFromDB _ _ _ d) as [[u d1]|]; simpl; [|done].
  destruct (loadAllTickersFromDB _ d1) as [[t d2]|]; simpl; [|done]. intros [= <- <-]. cbn [g_router router_instance]. split.
  - intros code.
    assert (map_Forall (fun c _ => exists t, t ∈ request_types /\ msg_code t = c) (register_all ∅)) as H1.
    { unfold register_all. simpl. unfold registerHandler.
      repeat (apply map_Forall_insert_2; [eexists; (split; [|reflexivity]); unfold request_types; inlist|]).
      apply map_Forall_empty. }
    assert (Forall (fun t => is_Some ((register_all ∅ : Router) !! msg_code t)) request_types) as H2
      by (repeat constructor; vm_compute; eauto).
    split; [intros [k Hk]; by eapply H1|]. intros (t0 & Ht & <-). rewrite Forall_forall in H2. by apply H2.
  - intros s ty mem len sends st. unfold serve_frame, dispatch. unfold Router. by rewrite lookup_empty.
Qed.
End Theorems.

(** ** A database of fixed tables *)

Module FixedDB.
(** Answers each query of the loaders with the rows given for it. *)
Definition rows_of (sql : bytes) : list row :=
  if decide (sql = accounts_sql) then [[Some (str "1"); Some (str "ann"); Some (str "500")]; [Some (str "2"); Some (str "bob"); Some (str "0")]]
  else if decide (sql = holdings_sql) then [[Some (str "2"); Some (str "AAPL"); Some (str "10")]]
  else if decide (sql = load_tickers_sql) then [[Some (str "7"); Some (str "AAPL")]]
  else [].
(** The state is the pending result. *)
#[export] Instance fixed : MySQL (list row) := {|
  mysql_query sql _ := (0, rows_of sql);
  mysql_store_result d := (Some d, d);
  mysql_real_escape_string s := s;
  mysql_stmt_init d := (None, d);
  mysql_stmt_prepare _ _ d := (1, d);
  mysql_stmt_bind_param _ _ d := (1, d);
  mysql_stmt_execute _ d := (1, d);
  mysql_stmt_store_result _ d := (1, d);
  mysql_stmt_num_rows _ _ := 0;
  mysql_stmt_bind_result _ d := (1, d);
  mysql_stmt_fetch _ d := (1, None, d);
  mysql_stmt_affected_rows _ _ := 0;
  mysql_stmt_close _ d := d
|}.
End FixedDB.

Import FixedDB.

Lemma startup_state_witness :
  exists m d' a, startup ([] : list row) = Some (m, d') /\ acct (m_users m) 2 = Some a /\ available_stock a = ∅ /\
    is_Some (m_engine m !! 7).
Proof.
  destruct (startup ([] : list row)) as [[m d']|] eqn:E; [|vm_compute in E; discriminate E].
  destruct (startup_state [] m d' E) as (_ & H & _).
  - apply (bool_decide_unpack _). vm_compute. exact I.
  - destruct (acct (m_users m) 2) as [a|] eqn:Ea;
      [|vm_compute in E; injection E as <- <-; vm_compute in Ea; discriminate Ea].
    exists m, d', a. split; [reflexivity|]. split; [exact Ea|]. split; [exact (proj2 (proj2 (H 2 a Ea)))|].
    vm_compute in E. injection E as <- <-. vm_compute. eauto.
Defined.

Lemma startup_routes_witness :
  exists m d', startup ([] : list row) = Some (m, d') /\ is_Some (g_router m !! 3001) /\
    serve_frame (fun _ s _ _ (st : unit) => (Some [1], s, st)) (router_instance m) (new_session 4) 3001 [] 0 [] tt =
      Some (new_session 4, [], tt, []).
Proof.
  destruct (startup ([] : list row)) as [[m d']|] eqn:E; [|vm_compute in E; discriminate E].
  destruct (startup_routes (fun _ s _ _ (st : unit) => (Some [1], s, st)) [] m d' E) as [H1 H2].
  exists m, d'. split; [reflexivity|]. split; [|apply H2].
  apply H1. exists TRADE_REQ. split; [unfold request_types; inlist|reflexivity].
Defined.
