(* ===== verification/Client.v ===== *)
(** * The client

    [src/client/client.cpp]: the blocking socket helpers, the viewer of the root account and the
    benchmark worker.  Both directions of the socket have a time-out, so a call that gets
    nothing fails: running out of outcomes is a failure.  The client declares the protocol once
    more; [client_protocol_matches] shows that it is the one of Protocol.v, whose records are used
    from there on.  The floating-point rates of the report are left out. *)

From S2P Require Import Prelude Bytes Protocol Numerals Session Framing.
From stdpp Require Import base strings list.
From Stdlib Require Import ZArith Lia.
Local Open Scope Z_scope.

(** ** The client's copy of the protocol *)

(** Its [MsgType]. *)
Definition client_codes : list (MsgType * Z) :=
  [(REGISTER_REQ, 1001); (REGISTER_RES, 1002); (LOGIN_REQ, 1003); (LOGIN_RES, 1004);
   (DEPOSIT_REQ, 2001); (DEPOSIT_RES, 2002); (BALANCE_REQ, 2003); (BALANCE_RES, 2004);
   (TRADE_REQ, 3001); (TRADE_RES, 3002); (CANCEL_REQ, 3003); (CANCEL_RES, 3004);
   (HOLDINGS_REQ, 4001); (HOLDINGS_RES, 4002); (MARKET_REQ, 4003); (MARKET_RES, 4004);
   (ORDERS_REQ, 4005); (ORDERS_RES, 4006); (TREND_REQ, 4007); (TREND_RES, 4008);
   (NEWS_REQ, 4009); (NEWS_RES, 4010); (ALL_STOCKS_REQ, 4011); (ALL_STOCKS_RES, 4012)].

(** Its structs: the widths of their fields, packed. *)
Inductive client_struct :=
| C_PacketHeader | C_AuthRequest | C_AuthResponse | C_DepositRequest | C_TradeRequest | C_MarketRequest | C_CancelRequest
| C_TrendRequest | C_StocksResponseHeader | C_StockItem | C_OrdersResponseHeader | C_OrderItem
| C_HoldingsResponseHeader | C_HoldingItem.

Definition client_layout (c : client_struct) : layout :=
  match c with
  | C_PacketHeader => [4; 2]
  | C_AuthRequest => chars 32 ++ chars 32
  | C_AuthResponse => [1; 8]
  | C_DepositRequest => [8]
  | C_TradeRequest => [4; 1; 8; 4]
  | C_MarketRequest | C_TrendRequest => [4]
  | C_CancelRequest => [4; 8]
  | C_StocksResponseHeader | C_OrdersResponseHeader | C_HoldingsResponseHeader => [1; 4]
  | C_StockItem => 4 :: chars 16
  | C_OrderItem => [8; 4; 1; 8; 8]
  | C_HoldingItem => [4; 4]
  end%nat.

(** The layout of the server's struct of that name. *)
Definition server_layout (c : client_struct) : layout :=
  match c with
  | C_PacketHeader => packed_layout (A := PacketHeader)
  | C_AuthRequest => packed_layout (A := AuthRequest)
  | C_AuthResponse => packed_layout (A := AuthResponse)
  | C_DepositRequest => packed_layout (A := DepositRequest)
  | C_TradeRequest => packed_layout (A := TradeRequest)
  | C_MarketRequest => packed_layout (A := MarketRequest)
  | C_CancelRequest => packed_layout (A := CancelRequest)
  | C_TrendRequest => packed_layout (A := TrendRequest)
  | C_StocksResponseHeader | C_OrdersResponseHeader | C_HoldingsResponseHeader => packed_layout (A := ListResponseHeader)
  | C_StockItem => packed_layout (A := StockItem)
  | C_OrderItem => packed_layout (A := OrderItem)
  | C_HoldingItem => packed_layout (A := HoldingItem)
  end.

(** The two declarations agree, as the comment on the client's demands; only the logout is
    missing there. *)
Lemma client_protocol_matches :
  (forall c, client_layout c = server_layout c) /\ Forall (fun p => msg_code p.1 = p.2) client_codes /\
  (forall t, t ∈ client_codes.*1 <-> t <> LOGOUT_REQ /\ t <> LOGOUT_RES).
Proof.
  split; [by intros []|]. split; [repeat constructor|].
  intros t. split; [intros H; split; intros ->; revert H; by apply (bool_decide_unpack _)|].
  intros [H1 H2]. destruct t; try done; by apply (bool_decide_unpack _).
Qed.

(** ** The socket *)

(** [send_all]: the result, the bytes on the wire, the unused outcomes. *)
Fixpoint send_all (outs : list send_result) (buffer : bytes) : bool * bytes * list send_result :=
  match buffer with
  | [] => (true, [], outs)
  | _ =>
      match outs with
      | Sent (S n) :: outs' =>
          let '(ok, w, o) := send_all outs' (drop (S n) buffer) in (ok, take (S n) buffer ++ w, o)
      | _ :: outs' => (false, [], outs')
      | [] => (false, [], [])
      end
  end.

(** One call of [recv]: the kernel hands over at most [n] of the bytes that are there, or fails. *)
Inductive recv_turn := Got (n : nat) | Failed.

(** [recv_all]: the bytes read ([None]: failure), the unused turns, the rest of the stream. *)
Fixpoint recv_all (turns : list recv_turn) (stream : bytes) (length_ : nat) : option bytes * list recv_turn * bytes :=
  match length_ with
  | O => (Some [], turns, stream)
  | _ =>
      match turns with
      | [] => (None, [], stream)
      | Failed :: turns' => (None, turns', stream)
      | Got n :: turns' =>
          let k := Nat.min n (Nat.min length_ (length stream)) in
          match k with
          | O => (None, turns', stream)
          | _ =>
              let '(r, t, s) := recv_all turns' (drop k stream) (length_ - k) in
              ((fun r => take k stream ++ r) <$> r, t, s)
          end
      end
  end.

(** [send_pkt]: [None] when the packet overruns [buf\[1024\]]. *)
Definition send_pkt (outs : list send_result) (type : MsgType) (data : bytes) : option (bool * bytes * list send_result) :=
  let len := Z.of_nat (length data) in
  if 1024 <? sizeof PacketHeader + len then None
  else Some (send_all outs (encode_header (u32 len) (msg_code type) ++ data)).

(** [recv_pkt]: the type and the body, or failure. *)
Definition recv_pkt (turns : list recv_turn) (stream : bytes) : option (Z * bytes) * list recv_turn * bytes :=
  match recv_all turns stream 6 with
  | (None, t, s) => (None, t, s)
  | (Some hdr, t, s) =>
      let '(len, type) := decode_header hdr in
      if 1024 * 1024 <? len then (None, t, s)
      else
        match recv_all t s (Z.to_nat len) with
        | (None, t', s') => (None, t', s')
        | (Some body, t', s') => (Some (type, body), t', s')
        end
  end.

(** ** Reading list replies *)

(** [items\[0\], .., items\[count - 1\]] at [data]; [None]: the loop reads beyond the body. *)
Fixpoint read_items {A} `{Packed A} (count : nat) (data : bytes) : option (list A) :=
  match count with
  | O => Some []
  | S n =>
      if Z.of_nat (length data) <? sizeof A then None
      else (fun l => of_bytes data :: l) <$> read_items n (drop (Z.to_nat (sizeof A)) data)
  end.

(** The test and the loop the client applies to every list reply: [Some None] when the body is
    shorter than the header and is left alone. *)
Definition read_list (A : Type) `{Packed A} (body : bytes) : option (option (list A)) :=
  if Z.of_nat (length body) <? sizeof ListResponseHeader then Some None
  else
    let h := of_bytes (A := ListResponseHeader) body in
    Some <$> read_items (A := A) (Z.to_nat (lh_count h)) (drop 5 body).

(** ** The viewer *)

(** What [view_root_stocks] shows. *)
Inductive view :=
| ViewFailed                 (* no connection, or no answer to the login *)
| ViewDenied
| ViewCrash                  (* a list reply shorter than its count *)
| Viewed (user_id : Z) (stocks : option (list StockItem)) (holdings : option (list (Z * bytes * Z))).

(** The symbol of the first listed stock with that id. *)
Fixpoint symbol_of (stock_list : list StockItem) (ticker : Z) : bytes :=
  match stock_list with
  | [] => str "UNKNOWN"
  | s :: rest => if si_ticker_id s =? ticker then cstr (si_symbol s) else symbol_of rest ticker
  end.

(** The table of holdings: ticker, symbol, quantity. *)
Definition label_holdings (stock_list : list StockItem) (l : list HoldingItem) : list (Z * bytes * Z) :=
  map (fun i => (hi_ticker_id i, symbol_of stock_list (hi_ticker_id i), hi_quantity i)) l.

(** The replies to the three requests; [None]: the request or the reply failed. *)
Definition view_root_stocks (connected : bool) (login stocks holdings : option bytes) : view :=
  if negb connected then ViewFailed
  else
    match login with
    | None => ViewFailed
    | Some body =>
        let auth_res := of_bytes (A := AuthResponse) body in
        if negb (ar_status auth_res =? 1) then ViewDenied
        else
          match (match stocks with None => Some None | Some b => read_list StockItem b end),
                (match holdings with None => Some None | Some b => read_list HoldingItem b end) with
          | Some sl, Some hl =>
              let stock_list := default [] sl in
              Viewed (ar_user_id auth_res) sl
                (option_map (label_holdings stock_list) hl)
          | _, _ => ViewCrash
          end
    end.

(** ** The benchmark *)

(** The request of an iteration: a packet to send, or a refresh of the active orders. *)
Inductive choice := SendReq (type : MsgType) (body : bytes) | FetchOrders.

(** The choice, from the weight, the ticker and the draws of the generator; and the active
    orders left.  A draw is a [uint32_t]; missing draws read 0. *)
Definition choose_request (mode weight tid : Z) (draws active_orders : list Z) : choice * list Z :=
  let d i := nth i draws 0 in
  if mode =? 1 then
    if weight <? 40 then (SendReq MARKET_REQ (to_bytes (mkMarketReq tid)), active_orders)
    else if weight <? 80 then
      (SendReq TRADE_REQ (to_bytes (mkTradeReq tid (d 0%nat mod 2) ((100 + d 1%nat mod 50) * 10000) (1 + d 2%nat mod 10))), active_orders)
    else if weight <? 90 then
      (SendReq (if d 0%nat mod 2 =? 0 then HOLDINGS_REQ else BALANCE_REQ) [], active_orders)
    else
      match last active_orders with
      | Some oid => (SendReq CANCEL_REQ (to_bytes (mkCancelReq tid oid)), take (length active_orders - 1) active_orders)
      | None => (FetchOrders, active_orders)
      end
  else
    if weight <? 30 then (SendReq MARKET_REQ (to_bytes (mkMarketReq tid)), active_orders)
    else if weight <? 60 then (SendReq TREND_REQ (to_bytes (mkTrendReq tid)), active_orders)
    else if weight <? 90 then (SendReq TRADE_REQ (to_bytes (mkTradeReq tid (d 0%nat mod 2) (120 * 10000) 5)), active_orders)
    else (SendReq NEWS_REQ [], active_orders).

(** What the worker adds to [g_success], [g_fail] and [g_latency]. *)
Record Counts := mkCounts { succ : Z; failed : Z; latency : Z }.

(** The environment of one iteration: the draws (the first two give the weight and the ticker),
    whether the packet is sent, the body received, and the microseconds elapsed. *)
Record Turn := mkTurn { t_draws : list Z; t_sent : bool; t_reply : option bytes; t_micros : Z }.

Inductive step_result := Next (active_orders : list Z) (c : Counts) | Stop (c : Counts) | Crash.

Definition bench_step (mode : Z) (ticker_ids active_orders : list Z) (t : Turn) (c : Counts) : step_result :=
  let weight := nth 0 (t_draws t) 0 mod 100 in
  let tid := nth (Z.to_nat (nth 1 (t_draws t) 0 mod Z.of_nat (length ticker_ids))) ticker_ids 0 in
  let fail := Stop (mkCounts (succ c) (failed c + 1) (latency c)) in
  let ok act := Next act (mkCounts (succ c + 1) (failed c) (latency c + t_micros t)) in
  match choose_request mode weight tid (drop 2 (t_draws t)) active_orders with
  | (FetchOrders, act) =>
      match t_sent t, t_reply t with
      | true, Some body =>
          match read_list OrderItem body with
          | None => Crash
          | Some None => fail
          | Some (Some items) => ok (act ++ (oi_order_id <$> items))
          end
      | _, _ => fail
      end
  | (SendReq _ _, act) =>
      if negb (t_sent t) then fail
      else match t_reply t with Some _ => ok act | None => fail end
  end.

(** The loop over the requests; [None]: a crash.  A missing turn is a dead connection. *)
Fixpoint bench_loop (mode : Z) (ticker_ids : list Z) (requests : nat) (turns : list Turn) (active_orders : list Z)
    (c : Counts) : option Counts :=
  match requests with
  | O => Some c
  | S n =>
      let t := default (mkTurn [] false None 0) (head turns) in
      match bench_step mode ticker_ids active_orders t c with
      | Next act c' => bench_loop mode ticker_ids n (tail turns) act c'
      | Stop c' => Some c'
      | Crash => None
      end
  end.

(** The set-up of [benchmark_worker] and its loop. *)
Definition benchmark_worker (mode requests : Z) (connected : bool) (register stocks deposit : option bytes)
    (turns : list Turn) : option Counts :=
  let abandoned := Some (mkCounts 0 (u64 requests) 0) in
  if negb connected then abandoned
  else
    match register with
    | None => abandoned
    | Some _ =>
        match (match stocks with None => Some None | Some b => read_list StockItem b end) with
        | None => None
        | Some sl =>
            let ids := si_ticker_id <$> default [] sl in
            let ticker_ids := match ids with [] => [1] | _ => ids end in
            match deposit with
            | None => abandoned
            | Some _ => bench_loop mode ticker_ids (Z.to_nat requests) turns [] (mkCounts 0 0 0)
            end
        end
    end.

(** [main]: the mode is a constant; the numbers of threads and of requests per thread come from
    the arguments ([None]: an exception of [std::stoi]). *)
Definition client_main (argv : list bytes) : option (Z * Z * Z) :=
  threads ← match argv !! 1%nat with Some a => stoi a | None => Some 500 end;
  reqs ← match argv !! 2%nat with Some a => stoi a | None => Some 2000 end;
  Some (0, threads, reqs).

(** What happens to a worker. *)
Record WorkerEnv := mkEnv { we_connected : bool; we_register : option bytes; we_stocks : option bytes; we_deposit : option bytes; we_turns : list Turn }.

Definition run_worker (mode requests : Z) (e : WorkerEnv) : option Counts :=
  benchmark_worker mode requests (we_connected e) (we_register e) (we_stocks e) (we_deposit e) (we_turns e).

(** The counters when all workers have been joined, whatever the order in which they added to
    them; [None]: one of them crashed the process. *)
Fixpoint client_totals (workers : list (option Counts)) : option Counts :=
  match workers with
  | [] => Some (mkCounts 0 0 0)
  | w :: workers' =>
      c ← w; r ← client_totals workers';
      Some (mkCounts (u64 (succ c + succ r)) (u64 (failed c + failed r)) (u64 (latency c + latency r)))
  end.

Inductive client_result := ClientViewed (v : view) | ClientReport (total : Z) (c : Counts) | ClientDied.

(** The rest of [main]: the viewer, or the threads and their totals; the product of threads and
    requests is an [int]. *)
Definition client_run (argv : list bytes) (viewer : view) (envs : nat -> WorkerEnv) : client_result :=
  match client_main argv with
  | None => ClientDied
  | Some (mode, threads, reqs) =>
      if mode =? 2 then ClientViewed viewer
      else
        match client_totals ((fun i => run_worker mode reqs (envs i)) <$> seq 0 (Z.to_nat threads)) with
        | Some c => ClientReport (i32 (threads * reqs)) c
        | None => ClientDied
        end
  end.
