(* ===== verification/ClientTheorems.v ===== *)
(** * Theorems about the client and the conversation with the server *)

From S2P Require Import Prelude Bytes Protocol Numerals Common OrderBook TickerManager Accounts UserManager Repositories.
From S2P Require Import Engine WALManager SettlementProcessor World Session Handlers Framing FramingTheorems Client SystemTheorems.
From stdpp Require Import base strings list gmap.
From Stdlib Require Import ZArith Lia.
Local Open Scope Z_scope.

(** ** Packets *)

Definition turn_ok (r : recv_turn) : Prop := match r with Got n => (0 < n)%nat | Failed => False end.

Lemma send_all_delivers outs buffer :
  Forall send_ok outs -> SendAgain ∉ outs -> (length buffer <= length outs)%nat ->
  exists outs', send_all outs buffer = (true, buffer, outs').
Proof.
  intros Hok Hag. revert buffer. induction Hok as [|r outs Hr _ IH]; intros buffer Hl.
  - destruct buffer; [|simpl in Hl; lia]. by exists [].
  - destruct buffer as [|b buffer]; [by exists (r :: outs)|]. destruct r as [[|n]| | |]; simpl in Hr; try done; [lia| |].
    + cbn [send_all]. destruct (IH ltac:(set_solver) (drop (S n) (b :: buffer))) as [o ->].
      { rewrite length_drop. simpl in *. lia. }
      exists o. by rewrite take_drop.
    + exfalso. apply Hag. inlist.
Qed.

(** [send_all] puts a prefix of the buffer on the wire, all of it exactly when it reports so. *)
Lemma send_all_prefix outs buffer :
  (send_all outs buffer).1.2 `prefix_of` buffer /\
  ((send_all outs buffer).1.1 = true <-> (send_all outs buffer).1.2 = buffer).
Proof.
  revert buffer. induction outs as [|r outs IH]; intros [|b buffer]; cbn [send_all]; try (split; [apply prefix_nil|done]).
  destruct r as [[|n]| | |]; try (split; [apply prefix_nil|done]).
  destruct (IH (drop (S n) (b :: buffer))) as [[k Hk] Hiff].
  destruct (send_all outs _) as [[ok w] o]. cbn [fst snd] in *. split.
  - exists k. rewrite <- app_assoc, <- Hk. by rewrite take_drop.
  - rewrite Hiff. rewrite <- (take_drop (S n) (b :: buffer)) at 3. split; [by intros ->|]. apply app_inv_head.
Qed.

Lemma recv_all_gets turns data rest :
  Forall turn_ok turns -> (length data <= length turns)%nat ->
  exists turns', recv_all turns (data ++ rest) (length data) = (Some data, turns', rest) /\
    Forall turn_ok turns' /\ (length turns <= length turns' + length data)%nat.
Proof.
  intros Hok. revert data. induction Hok as [|r turns Hr Hok IH]; intros data Hl.
  - destruct data; [|simpl in Hl; lia]. by exists [].
  - destruct data as [|b data].
    { exists (r :: turns). split; [done|]. split; [by constructor|simpl; lia]. }
    destruct r as [n|]; [|done]. simpl in Hr. cbn [recv_all length].
    set (k := Nat.min n _). assert (0 < k <= length (b :: data))%nat as Hk.
    { unfold k. rewrite length_app. simpl. lia. }
    destruct k as [|k'] eqn:Ek; [lia|]. rewrite <- Ek in *. clear Ek k'.
    destruct (IH (drop k (b :: data))) as (t & E & H1 & H2); [rewrite length_drop; simpl in *; lia|].
    rewrite drop_app_le, take_app_le by lia. rewrite length_drop in E.
    change (S (length data) - k)%nat with (length (b :: data) - k)%nat. rewrite E.
    exists t. split; [cbn [fmap option_fmap option_map]; by rewrite take_drop|]. split; [done|].
    rewrite length_drop in H2. simpl in *. lia.
Qed.

(** C34: the two ends of the protocol fit.  A packet the client sends is, in the server's
    stream, exactly one frame with its type and body; and a reply packet of the server, however
    the kernel cuts it, is received as exactly its body under the type of the request plus one,
    leaving the stream at the next packet.  A packet of more than 1018 bytes of data overruns
    the client's buffer. *)
Theorem client_server_packets outs type data turns reply rest
  (Hout : Forall send_ok outs) (Hag : SendAgain ∉ outs) (Hlen : (6 + length data <= length outs)%nat)
  (Hturn : Forall turn_ok turns) (Hturns : (6 + length reply <= length turns)%nat)
  (Hreply : Z.of_nat (length reply) <= 1024 * 1024) :
  (Z.of_nat (length data) <= 1018 ->
   exists wire outs', send_pkt outs type data = Some (true, wire, outs') /\
     forall k, next_frame (wire ++ k) = Some (msg_code type, data, k)) /\
  (1018 < Z.of_nat (length data) -> send_pkt outs type data = None) /\
  exists turns', recv_pkt turns (reply_packet (msg_code type) reply ++ rest) =
    (Some (msg_code type + 1, reply), turns', rest).
Proof.
  split_and!.
  - intros Hd. unfold send_pkt. rewrite header_size, (proj2 (Z.ltb_ge _ _)) by lia.
    rewrite wrapU_id by (unfold inU; lia).
    destruct (send_all_delivers outs (frame_bytes (msg_code type) data) Hout Hag) as [o E].
    { unfold frame_bytes. rewrite length_app, encode_header_length. done. }
    exists (frame_bytes (msg_code type) data), o. split; [by rewrite <- E|]. intros k. apply next_frame_frame.
    split; [apply msg_code_range|simpl; lia].
  - intros Hd. unfold send_pkt. by rewrite header_size, (proj2 (Z.ltb_lt _ _)) by lia.
  - unfold recv_pkt, reply_packet.
    assert (inU 16 (msg_code type + 1)) as Ht by (by destruct type).
    rewrite (wrapU_id 16) by done. rewrite (wrapU_id 32) by (unfold inU; lia). rewrite <- app_assoc.
    set (hdr := encode_header _ _).
    assert (length hdr = 6%nat) as Hh by apply encode_header_length.
    destruct (recv_all_gets turns hdr (reply ++ rest) Hturn) as (t1 & E1 & H1 & H2); [lia|]. rewrite Hh in E1. rewrite E1.
    pose proof (decode_encode_header (Z.of_nat (length reply)) (msg_code type + 1) []) as Hd. rewrite app_nil_r in Hd.
    unfold hdr. rewrite Hd by (done || (unfold inU; lia)). rewrite (proj2 (Z.ltb_ge _ _)) by lia. rewrite Nat2Z.id.
    destruct (recv_all_gets t1 reply rest H1) as (t2 & -> & _); [lia|]. by exists t2.
Qed.

Lemma client_server_packets_witness :
  exists wire turns', send_pkt (replicate 20 (Sent 1)) BALANCE_REQ [] = Some (true, wire, drop 6 (replicate 20 (Sent 1))) /\
    next_frame (wire ++ []) = Some (2003, [], []) /\
    recv_pkt (replicate 20 (Got 1)) (reply_packet 2003 [1; 2; 3] ++ [9]) = (Some (2004, [1; 2; 3]), turns', [9]).
Proof.
  destruct (client_server_packets (replicate 20 (Sent 1)) BALANCE_REQ [] (replicate 20 (Got 1)) [1; 2; 3] [9])
    as (H1 & _ & turns' & H3).
  - apply Forall_replicate. simpl. lia.
  - intros H. apply elem_of_replicate in H as [H _]. discriminate H.
  - simpl. lia.
  - apply Forall_replicate. simpl. lia.
  - simpl. lia.
  - simpl. lia.
  - destruct H1 as (wire & outs' & E & Hf); [simpl; lia|]. exists wire, turns'.
    split; [|split; [exact (Hf [])|exact H3]]. rewrite E. vm_compute in E. injection E as <- <-. reflexivity.
Defined.

(** ** List replies *)

Lemma read_items_concat {A} `{PackedLaws A} (items : list A) rest :
  Forall packed_ok items -> 0 < sizeof A ->
  read_items (length items) (concat (to_bytes <$> items) ++ rest) = Some items.
Proof.
  intros Hok Hs. induction Hok as [|a items Ha _ IH]; [done|]. rewrite fmap_cons. cbn [concat length read_items].
  pose proof (length_to_bytes a Ha) as Hl. rewrite <- app_assoc.
  rewrite (proj2 (Z.ltb_ge _ _)) by (rewrite length_app; lia).
  assert (drop (Z.to_nat (sizeof A)) (to_bytes a ++ concat (to_bytes <$> items) ++ rest) = concat (to_bytes <$> items) ++ rest) as ->.
  { rewrite <- Hl, Nat2Z.id. apply drop_app_length. }
  rewrite IH. simpl. by rewrite of_to_bytes.
Qed.

Lemma read_list_reply {A} `{PackedLaws A} (status : Z) (items : list A) :
  Forall packed_ok items -> 0 < sizeof A -> 0 <= status < 256 -> Z.of_nat (length items) < 2 ^ 32 ->
  read_list A (to_bytes (mkListHeader status (u32 (Z.of_nat (length items)))) ++ concat (to_bytes <$> items)) =
  Some (Some items).
Proof.
  intros Hok Hs Hst Hn. unfold read_list. rewrite wrapU_id by (unfold inU; lia).
  set (h := mkListHeader status (Z.of_nat (length items))).
  assert (packed_ok h) as Hh. { split; [done|]. repeat constructor; simpl; lia. }
  pose proof (length_to_bytes h Hh) as Hl. change (sizeof ListResponseHeader) with 5 in *.
  rewrite (proj2 (Z.ltb_ge _ _)) by (rewrite length_app; lia). rewrite of_to_bytes by done.
  assert (drop 5 (to_bytes h ++ concat (to_bytes <$> items)) = concat (to_bytes <$> items)) as ->.
  { replace 5%nat with (length (to_bytes h)) by lia. apply drop_app_length. }
  cbn [lh_count h]. rewrite Nat2Z.id. rewrite <- (app_nil_r (concat _)), read_items_concat by done. done.
Qed.

Lemma order_item_ok o : order_typed o -> packed_ok (order_item o).
Proof.
  intros (H1 & H2 & H3 & H4 & H5 & H6). split; [done|]. unfold inU in *. simpl.
  repeat constructor; simpl; try lia; by destruct (side o).
Qed.

(** The [char] array the client reads as a string: the first fifteen bytes of the symbol. *)
Lemma cstr_char_field n v : cstr (char_field n v) = take (n - 1) (cstr v).
Proof.
  unfold char_field, strncpy. set (c := take _ _).
  assert (Forall (fun b => b <> 0) c) as Hc by (apply Forall_take, cstr_nonzero).
  destruct (n - 1 - length c)%nat; simpl; rewrite <- ?app_assoc, ?app_nil_r; simpl; by apply cstr_app_zero.
Qed.

Lemma chars_fit l : Forall is_byte l -> fits (chars (length l)) l.
Proof. unfold fits, chars. induction 1 as [|b l Hb _ IH]; [constructor|]. cbn [length replicate]. constructor; [exact Hb|exact IH]. Qed.

Lemma stock_item_ok t v : inU 32 t -> Forall is_byte v -> packed_ok (mkStock t (char_field 16 v)).
Proof.
  intros Ht Hv.
  assert (length (char_field 16 v) = 16%nat) as Hl by (unfold char_field; by rewrite length_app, length_strncpy).
  split; [done|]. unfold fits. cbn [to_fields packed_layout StockItem_packed si_ticker_id si_symbol].
  constructor; [exact Ht|]. pose proof (chars_fit (char_field 16 v)) as Hf. rewrite Hl in Hf. apply Hf.
  unfold char_field, strncpy. rewrite !Forall_app. split_and!; [|by apply Forall_replicate|by repeat constructor].
  apply Forall_take. clear -Hv. induction Hv as [|b v Hb _ IH]; simpl; [done|]. destruct (b =? 0); by constructor.
Qed.

Section Replies.
Context {S D : Type} `{AS : AccountStore S} `{UR : IUserRepository D} `{SR : IStockRepository D}.
Implicit Types (w : World S D).

(** C35: the list replies the client parses round-trip: what its parser reads out of the
    replies of [GetOrdersHandler], [GetHoldingsHandler] and [GetAllStocksHandler] is exactly the
    user's resting orders with their remaining quantities, the user's positive holdings, and
    the stocks of the database in their order, each with its ticker id and the first fifteen
    bytes of its symbol. *)
Theorem list_replies_roundtrip s mem len w
  (Hlog : isLoggedIn s = true)
  (Hord : Forall (fun r => order_typed (deref (w_heap w) r)) (engine_getUserActiveOrder (w_engine w) (s_user_id s)))
  (Hn : Z.of_nat (length (engine_getUserActiveOrder (w_engine w) (s_user_id s))) < 2 ^ 32)
  (Hhold : map_Forall (fun t q => inU 32 t /\ q < 2 ^ 32) (getHoldings (w_users w) (s_user_id s)))
  (Hm : Z.of_nat (size (getHoldings (w_users w) (s_user_id s))) < 2 ^ 32)
  (Hsym : Forall (fun sym => Forall is_byte sym /\ inU 32 (symbolToTickerId (w_tickers w) sym)) (getAllStocks (w_db w)).1)
  (Hs : Z.of_nat (length (getAllStocks (w_db w)).1) < 2 ^ 32) :
  (exists body, (handle_GetOrders s mem len w).1.1 = Some body /\
     read_list OrderItem body =
       Some (Some ((fun r => order_item (deref (w_heap w) r)) <$> engine_getUserActiveOrder (w_engine w) (s_user_id s)))) /\
  (exists body items, (handle_GetHoldings s mem len w).1.1 = Some body /\ read_list HoldingItem body = Some (Some items) /\
     forall t q, mkHolding t q ∈ items <-> getHoldings (w_users w) (s_user_id s) !! t = Some q /\ 0 < q) /\
  (exists body items, (handle_GetAllStocks s mem len w).1.1 = Some body /\ read_list StockItem body = Some (Some items) /\
     (fun i => (si_ticker_id i, cstr (si_symbol i))) <$> items =
       (fun sym => (symbolToTickerId (w_tickers w) sym, take 15 (cstr sym))) <$> (getAllStocks (w_db w)).1).
Proof.
  split_and!.
  - unfold handle_GetOrders. rewrite Hlog. simpl negb. cbn match. eexists. split; [reflexivity|].
    apply read_list_reply; [|done|lia|by rewrite length_fmap].
    apply Forall_fmap. eapply Forall_impl; [exact Hord|]. intros r. apply order_item_ok.
  - unfold handle_GetHoldings. rewrite Hlog. simpl negb. cbn match. set (hs := getHoldings _ _) in *.
    set (items := _ <$> filter _ _). exists (to_bytes (mkListHeader 1 (u32 (Z.of_nat (length items)))) ++ concat (to_bytes <$> items)), items.
    assert (forall t q, (t, q) ∈ filter (fun tq : Z * Z => 0 < tq.2) (map_to_list hs) <-> hs !! t = Some q /\ 0 < q) as Hf.
    { intros t q. rewrite list_elem_of_filter, elem_of_map_to_list. simpl. tauto. }
    split; [reflexivity|]. split.
    + apply read_list_reply; [|done|lia|].
      * apply Forall_fmap, Forall_forall. intros [t q] [Hq Hpos]%Hf. destruct (Hhold t q Hq) as [Ht Hb].
        split; [done|]. cbn. repeat constructor; cbn; [apply Ht|apply Ht|..]; pose proof (wrapU_range 32 q); unfold inU in *; lia.
      * unfold items. rewrite length_fmap. pose proof (length_filter (fun tq : Z * Z => 0 < tq.2) (map_to_list hs)) as Hl.
        rewrite length_map_to_list in Hl. lia.
    + intros t q. unfold items. rewrite list_elem_of_fmap. split.
      * intros ([t' q'] & [= -> ->] & Hin). apply Hf in Hin as [Hq Hpos]. destruct (Hhold t' q' Hq) as [_ Hb].
        simpl. rewrite wrapU_id by (unfold inU; lia). done.
      * intros [Hq Hpos]. exists (t, q). split; [|by apply Hf]. simpl. destruct (Hhold t q Hq) as [_ Hb].
        by rewrite wrapU_id by (unfold inU; lia).
  - unfold handle_GetAllStocks. destruct (getAllStocks (w_db w)) as [stocks d1]. simpl in *.
    set (item := fun sym => mkStock (symbolToTickerId (w_tickers w) sym) (char_field 16 sym)).
    exists (to_bytes (mkListHeader 1 (u32 (Z.of_nat (length (item <$> stocks))))) ++ concat (to_bytes <$> (item <$> stocks))),
      (item <$> stocks).
    split; [|split].
    + f_equal. rewrite length_fmap. f_equal. by rewrite <- list_fmap_compose.
    + apply read_list_reply; [|done|lia|by rewrite length_fmap].
      apply Forall_fmap. eapply Forall_impl; [exact Hsym|]. intros sym [Hb Ht]. by apply stock_item_ok.
    + rewrite <- list_fmap_compose. apply list_fmap_ext. intros i sym _. simpl. by rewrite cstr_char_field.
Qed.
End Replies.

(** ** The benchmark's books *)

Lemma bench_step_counts mode ids act t c :
  match bench_step mode ids act t c with
  | Next _ c' => succ c' = succ c + 1 /\ failed c' = failed c
  | Stop c' => succ c' = succ c /\ failed c' = failed c + 1
  | Crash => True
  end.
Proof.
  unfold bench_step. destruct (choose_request _ _ _ _ _) as [[ty body|] act'].
  - destruct (t_sent t); simpl; [|done]. by destruct (t_reply t).
  - destruct (t_sent t); [|done]. destruct (t_reply t) as [b|]; [|done]. by destruct (read_list OrderItem b) as [[items|]|].
Qed.

(** The benchmark's counters, for every behaviour of the server and of the generator: a
    worker that runs to the end counts every request as a success; one that is cut off counts
    one failure and leaves the requests it never sent out of both counters; one that cannot set
    up counts them all as failures. *)
Theorem benchmark_counts mode requests connected register stocks deposit turns c :
  0 <= requests < 2 ^ 31 -> benchmark_worker mode requests connected register stocks deposit turns = Some c ->
  (failed c = 0 /\ succ c = requests) \/
  (failed c = 1 /\ 0 <= succ c < requests) \/
  (failed c = requests /\ succ c = 0).
Proof.
  intros Hreq. assert (u64 requests = requests) as Eu by (apply wrapU_id; unfold inU; lia). unfold benchmark_worker. destruct connected; simpl; [|intros [= <-]; simpl; lia].
  destruct register; [|intros [= <-]; simpl; lia]. destruct (match stocks with Some b => _ | None => _ end) as [sl|]; [|done].
  destruct deposit; [|intros [= <-]; simpl; lia]. set (ids := match _ with [] => [1] | _ => _ end). clearbody ids.
  assert (forall n turns act c0 c, bench_loop mode ids n turns act c0 = Some c ->
    (failed c = failed c0 /\ succ c = succ c0 + Z.of_nat n) \/
    (failed c = failed c0 + 1 /\ succ c0 <= succ c < succ c0 + Z.of_nat n)) as Hloop.
  { clear. induction n as [|n IH]; intros turns act c0 c; cbn [bench_loop]; [intros [= <-]; lia|].
    pose proof (bench_step_counts mode ids act (default (mkTurn [] false None 0) (head turns)) c0) as Hs.
    destruct (bench_step _ _ _ _ _) as [act' c1|c1|]; [|intros [= <-]; lia|done].
    intros E%IH. lia. }
  intros E%Hloop. simpl in E. lia.
Qed.

Lemma benchmark_counts_witness :
  exists c, benchmark_worker 1 3 true (Some []) None (Some []) [mkTurn [5; 0] true (Some [1]) 10; mkTurn [95; 0] true None 7] = Some c /\
    (failed c = 1 /\ 0 <= succ c < 3) /\ latency c = 10.
Proof.
  destruct (benchmark_worker 1 3 true (Some []) None (Some []) [mkTurn [5; 0] true (Some [1]) 10; mkTurn [95; 0] true None 7]) as [c|] eqn:E;
    [|discriminate E].
  exists c. split; [reflexivity|]. pose proof (benchmark_counts _ 3 _ _ _ _ _ _ ltac:(lia) E) as H.
  vm_compute in E. injection E as <-. simpl in *. split; [lia|reflexivity].
Defined.

(** The totals of the report: every worker's counts, none lost to a wrap; no more than the total
    number of requests announced, and less by what the workers that were cut off never sent. *)
Theorem client_totals_bound threads mode requests envs c :
  0 <= requests < 2 ^ 31 -> Z.of_nat threads < 2 ^ 31 ->
  client_totals ((fun i => run_worker mode requests (envs i)) <$> seq 0 threads) = Some c ->
  0 <= succ c /\ 0 <= failed c /\ succ c + failed c <= Z.of_nat threads * requests.
Proof.
  intros Hreq. generalize 0%nat. revert c. induction threads as [|n IH]; intros c k Hn; [intros [= <-]; cbn [succ failed]; lia|].
  rewrite Nat2Z.inj_succ in *. cbn [seq fmap list_fmap client_totals].
  destruct (run_worker mode requests (envs k)) as [c1|] eqn:E1; simpl; [|done].
  destruct (client_totals _) as [r|] eqn:Er; simpl; [|done]. intros [= <-]. simpl.
  apply IH in Er as (R1 & R2 & R3); [|lia]. apply benchmark_counts in E1; [|done].
  assert (Z.of_nat n * requests <= Z.of_nat n * 2 ^ 31) by (apply Z.mul_le_mono_nonneg_l; lia).
  rewrite !wrapU_id by (unfold inU; lia). lia.
Qed.

Import TableDB.

Module RepliesSample.
Definition ann : Session := mkSession 5 [] (str "ann") 1.
(* ann holds a share of a stock the database lists *)
Definition w : World UserManager DB :=
  set_db (mkDB ∅ {[ (str "ann", str "AAPL") := 1 ]}) SampleRun.traded.
End RepliesSample.

Lemma list_replies_roundtrip_witness :
  (exists body, (handle_GetOrders RepliesSample.ann [] 0 RepliesSample.w).1.1 = Some body /\
    read_list OrderItem body = Some (Some ((fun r => order_item (deref (w_heap RepliesSample.w) r)) <$> [1%nat]))) /\
  exists body items, (handle_GetAllStocks RepliesSample.ann [] 0 RepliesSample.w).1.1 = Some body /\
    read_list StockItem body = Some (Some items) /\
    (fun i => (si_ticker_id i, cstr (si_symbol i))) <$> items = [(7, str "AAPL")].
Proof.
  destruct (list_replies_roundtrip RepliesSample.ann [] 0 RepliesSample.w) as [(body & H1 & H2) [_ H3]].
  - reflexivity.
  - apply (bool_decide_unpack _). vm_compute. exact I.
  - vm_compute. reflexivity.
  - apply (bool_decide_unpack _). vm_compute. exact I.
  - vm_compute. reflexivity.
  - apply (bool_decide_unpack _). vm_compute. exact I.
  - vm_compute. reflexivity.
  - split; [exists body; split; [exact H1|]; rewrite H2|exact H3].
    assert (engine_getUserActiveOrder (w_engine RepliesSample.w) 1 = [1%nat]) as E by (vm_compute; reflexivity).
    cbn [s_user_id RepliesSample.ann]. rewrite E. reflexivity.
Defined.
